(* ===== verification/_CoqProject ===== *)
-Q . S2P
Prelude.v
X86.v
FrameSource.v
Blocks.v
Buddy.v
FreeLists.v
HeapAlloc.v
FrameAlloc.v
FrameForest.v
PageAlloc.v
KernelSlab.v
Asm.v
Scheduler.v
Syscall.v
Repr.v
BitFields.v
PciBase.v
PcieVmm.v
Ecam.v
PciDevice.v
Msix.v
Pci.v
Keyboard.v
Ps2.v
Dma.v
Driver.v
NvmeCommands.v
Nvme.v
NvmeBlocks.v
XhciRegisters.v
Trb.v
Xhci.v
Interrupts.v
Shell.v
Boot.v
