(* ===== verification/Prelude.v ===== *)
(** * locOS: a verification library for the kernel's own logic

    locOS is a kernel for x86-64 in Rust, under src/kernel/src.  This library
    translates its logic to executable definitions and proves what they promise.
    The header describes the parts of the program, where each is modelled, what
    is proved of it, and what is left out.

    ** The program and its model

    _Outcomes._  Code that can fail returns [exec]: [Ret], [Panic], or [NoFuel]
    for a loop whose fuel ran out; a Rust [Result] is [result].  State is passed
    explicitly: a method [Type::method] is a function [Type_method], or [method]
    where the name is unique, that takes the state it changes and returns it.
    Integers are [Z]; operations that panic on overflow are [add_chk], [sub_chk],
    [mul_chk] and so on, casts and bit operations are written out at their width.
    This file has the monad, its tactics and the shared lemmas.

    _Foundations._  X86.v has what the kernel relies on of the x86_64 crate: the
    addresses ([Addresses]) and the page table ([Mapper]), each a class with its
    documented laws in a second class and a model that satisfies them.  Asm.v has
    the instructions of the naked functions.  Repr.v has the layout of [repr(C)]
    structures, BitFields.v flags and fields of registers, and PciBase.v memory
    mapped I/O and the global page table and frame allocator.

    _Memory_ (memory/).  Blocks.v is the abstract view of a buddy system: disjoint
    free and used blocks that tile a region.  Buddy.v proves once, for a class of
    operations, that a buddy allocator with free lists keeps it.  FreeLists.v
    models the intrusive lists of freelist.rs in the memory they are threaded
    through, for the heap a memory of bytes that its clients share.  The three allocators are instances: HeapAlloc.v is [BuddyAlloc] and
    the heap of alloc.rs, FrameAlloc.v is [FrameBuddyAllocator] of paging.rs and
    PageAlloc.v is [PageAllocator] and [init_heap] of alloc.rs.  FrameForest.v is
    [FrameBuddyAllocatorForest] with its construction from the memory map.
    FrameSource.v is the contract between the frame allocator and its clients:
    FrameForest.v discharges it, all clients are proved against it.  Boot.v
    composes the memory initialisation of [kernel_main] (main.rs).

    _Tasks_ (tasks/, syscall.rs, gdt.rs).  KernelSlab.v has kernel and user
    stacks, Scheduler.v tasks, user address spaces, [schedule_inner] and the
    naked function [schedule], Syscall.v the system calls, their entry stub and
    the segments.

    _Interrupts_ (interrupts/).  Interrupts.v has vectors and handlers, the legacy
    controllers, the timer, the mapping of ACPI tables and the I/O APICs.

    _PCIe_ (pci/).  PcieVmm.v has the memory of BARs (vmm.rs), Ecam.v the
    configuration space (mcfg.rs), PciDevice.v the probing of functions
    (device.rs), Msix.v MSI-X (msi.rs, config.rs), Pci.v the enumeration (pci.rs).
    Dma.v has buffers for devices (dma.rs) and Driver.v the state of a driver.
    NvmeCommands.v, Nvme.v and NvmeBlocks.v are the NVMe driver (nvme/);
    XhciRegisters.v, Trb.v and Xhci.v the USB host controller (usb/).

    _Input_ (ps2/, shell/).  Keyboard.v decodes and buffers key events, Ps2.v is
    the controller and its initialisation, Shell.v the echo of the shell.

    ** What is proved

    _Safety of allocation._  Outstanding allocations of the heap, of frames, of
    page ranges, kernel stacks, BARs and DMA buffers are disjoint, in range and
    mapped as promised, under every interleaving of operations: invariants on the
    states that step relations reach.  The heap does not touch a byte of its
    clients, fails only when no block fits, and is whole again when everything
    is returned; it has to start on memory whose first word is zero.  The frame
    allocator is proved under [forest_setup] (FrameForest.v): what the boot
    loader promises of the memory map, that each usable region is cut into at
    most one allocator, and that the node after each page list is untagged.  The
    memory initialisation leaves the allocators in the state these theorems
    start from.

    _Tasks._  The scheduler's invariant; round-robin order of the tasks that are
    ready; the exact contents of the registers after a context switch and after
    a system call, there with the segment registers; the growth of user stacks;
    the loading of programs at page-aligned entry points; what [sys_write]
    accepts and prints, against a specification of UTF-8 by its encoder.

    _Devices._  Enumeration finds exactly the functions present; BAR sizes,
    capabilities, MSI-X tables and pending bits agree with the device;
    configuration accesses to a region that starts at bus 0 go to the addresses
    of the standard.  For reads and writes of the NVMe driver, whatever the
    controller does, the theorems give the command it is told of and the answer
    for each completion it can post; its completion queue is a first-in
    first-out channel once its memory is cleared, which the code leaves to
    chance.  The USB host controller is halted, reset and set up in that order;
    every getter and setter of its registers works on the bits the standard
    gives the flag or field.  The PS/2 initialisation returns against every
    controller that follows the protocol; keys typed are read back in order;
    legacy interrupts are routed to their vectors.

    Where the code does not keep a promise, a theorem shows it on a concrete run
    or in general: for instance a memory region that is cut into two allocators
    can have a frame handed out twice, and an NVMe queue of n entries accepts
    n - 1 commands in its life.  The safety theorems state the condition under
    which they hold, for frames that each region has one allocator.

    ** Fuel and bounds

    Loops that follow data take fuel that the theorems show to be enough: a list
    of n nodes is traversed with n + 1, the carving of a region with 65 (each step
    halves what remains of at most 2^64), the doubling of a size with 64, six
    BARs with 6, the capability list with 254 (a longer one is cyclic and the
    code does not return), and the polls of devices with any number above the
    delay D after which the device answers.  The loops of the NVMe driver that
    count have the bound of the code, 100000.  The interrupt handler of the
    keyboard needs more fuel than bytes pending.  Bounds on addresses come from
    hypotheses on the memory map: regions below 2^38 bytes in the upper half, at
    most 2^46 bytes in total, at most 100 regions.

    ** Not modelled

    - Output: the terminal (output/, a C library), the serial port (serial.rs, a
      crate), log macros and formatting (Display implementations).  Arguments of
      log macros that can overflow are evaluated.
    - [init_gdt] and [init_idt], which load tables with privileged instructions,
      and the task state segment's initial value.
    - The rest of [kernel_main]: it calls the initialisations one after the other
      and creates the first tasks; [hcf] and the panic handlers do not return.
    - Constants of pci/config.rs that no code uses, the two unused helpers
      [max_blocks] and [block_ptr] of alloc.rs.
    - Tests and the test harness (testing.rs, */tests.rs, tasks/testing.rs).
    - Locks: an operation under a lock is one step.  Concurrency is interleaving
      of whole operations, with interrupts between them.
    - Caches and translation buffers: a mapping is effective at once. *)

From stdpp Require Export base numbers gmap list_numbers list.

Open Scope Z_scope.

(** ** Outcomes of kernel code

    The kernel is built with the [dev] profile (kernel/Makefile), so integer
    overflow, failed assertions, [unwrap] of [None] and out-of-range indexing
    all panic, and a panic halts the machine ([panic] and [hcf] of main.rs):
    nothing runs after it, so a panic carries no state.  [NoFuel] is the result
    of a loop whose fuel ran out; it never stands for a result of the code. *)

Inductive exec (A : Type) : Type :=
  | Ret (a : A)
  | Panic
  | NoFuel.
Arguments Ret {_} _.
Arguments Panic {_}.
Arguments NoFuel {_}.

#[export] Instance exec_ret : MRet exec := λ A a, Ret a.
#[export] Instance exec_bind : MBind exec := λ A B f m,
  match m with Ret a => f a | Panic => Panic | NoFuel => NoFuel end.

(** Rust's [Result]. *)
Inductive result (A E : Type) : Type :=
  | Ok (a : A)
  | Err (e : E).
Arguments Ok {_ _} _.
Arguments Err {_ _} _.

(** [assert!], [Option::unwrap]/[expect], and slice indexing. *)
Definition rassert (b : bool) : exec unit := if b then Ret () else Panic.
Definition unwrap {A} (o : option A) : exec A :=
  match o with Some a => Ret a | None => Panic end.
Definition index {A} (l : list A) (i : nat) : exec A := unwrap (l !! i).

(** Checked arithmetic on unsigned [w]-bit integers. *)
Definition add_chk (w a b : Z) : exec Z :=
  if a + b <? 2 ^ w then Ret (a + b) else Panic.
Definition sub_chk (a b : Z) : exec Z :=
  if b <=? a then Ret (a - b) else Panic.
Definition mul_chk (w a b : Z) : exec Z :=
  if a * b <? 2 ^ w then Ret (a * b) else Panic.

(** [saturating_add] and [saturating_sub]. *)
Definition saturating_add (w a b : Z) : Z := Z.min (a + b) (2 ^ w - 1).
Definition saturating_sub (a b : Z) : Z := Z.max 0 (a - b).

(** Shifts of unsigned [w]-bit integers: a shift by [w] or more panics. *)
Definition shl_chk (w a n : Z) : exec Z :=
  if n <? w then Ret (Z.shiftl a n mod 2 ^ w) else Panic.
Definition shr_chk (w a n : Z) : exec Z :=
  if n <? w then Ret (Z.shiftr a n) else Panic.

(** [x as uN]. *)
Definition cast (w a : Z) : Z := a mod 2 ^ w.

(** [NonNull::new(p).unwrap()]. *)
Definition nonnull (p : Z) : exec Z := if p =? 0 then Panic else Ret p.

(** [usize::next_power_of_two] and [is_power_of_two]. *)
Definition next_power_of_two (w n : Z) : exec Z :=
  let p := 2 ^ Z.log2_up n in if p <? 2 ^ w then Ret p else Panic.
Definition is_power_of_two (n : Z) : bool := (0 <? n) && (2 ^ Z.log2 n =? n).

(** [Z::div_ceil]. *)
Definition div_ceil (a b : Z) : Z := (a + b - 1) / b.

(** [usize::next_multiple_of] and [trailing_zeros]. *)
Definition next_multiple_of (w a b : Z) : exec Z :=
  if a mod b =? 0 then Ret a else add_chk w a (b - a mod b).
Definition trailing_zeros (w n : Z) : Z := if n =? 0 then w else Z.log2 (Z.land n (- n)).

(** Complement ([!a]) of a [w]-bit integer, and [trailing_ones]. *)
Definition not_ (w a : Z) : Z := Z.lxor a (Z.ones w).
Fixpoint trailing_ones_from (fuel : nat) (n i : Z) : Z :=
  match fuel with
  | O => i
  | S fuel => if Z.testbit n i then trailing_ones_from fuel n (i + 1) else i
  end.
Definition trailing_ones (w : nat) (n : Z) : Z := trailing_ones_from w n 0.

(** [(a..b).step_by(s)] as the list of the values it yields. *)
Definition step_by (a b s : Z) : list Z :=
  (λ i, a + s * i) <$> seqZ 0 (div_ceil (b - a) s).

(** [for i in a..b { if p(i) { return i } }]: the first value of a range with a property. *)
Fixpoint first_from (p : Z → exec bool) (count : nat) (i : Z) : exec (option Z) :=
  match count with
  | O => Ret None
  | S count =>
      b ← p i;
      match b with true => Ret (Some i) | false => first_from p count (i + 1) end
  end.
Definition range_find (p : Z → exec bool) (a b : Z) : exec (option Z) := first_from p (Z.to_nat (b - a)) a.

(** [for i in a..b { s = f(i, s) }]. *)
Fixpoint iter_from {St : Type} (f : Z → St → exec St) (count : nat) (i : Z) (s : St) : exec St :=
  match count with
  | O => mret s
  | S count => s ← f i s; iter_from f count (i + 1) s
  end.
Definition range_fold {St : Type} (f : Z → St → exec St) (a b : Z) (s : St) : exec St :=
  iter_from f (Z.to_nat (b - a)) a s.

(** [count_ones] of a [w]-bit integer. *)
Definition count_ones (w n : Z) : Z := Z.of_nat (length (filter (λ i, Z.testbit n i = true) (seqZ 0 w))).

(** [copy_nonoverlapping] of bytes to the address [dst], and [write_bytes] of
    [count] elements of [size_of] bytes each. *)
Definition copy_bytes (ram : Z → Z) (dst : Z) (bytes : list Z) : Z → Z := λ a,
  match bytes !! Z.to_nat (a - dst) with
  | Some b => if dst <=? a then b else ram a
  | None => ram a
  end.
Definition write_bytes (size_of : Z) (dst val count : Z) (ram : Z → Z) : Z → Z := λ a,
  if (dst <=? a) && (a <? dst + count * size_of) then val else ram a.

(** ** Automation *)

Lemma add_chk_ok w a b : a + b < 2 ^ w → add_chk w a b = Ret (a + b).
Proof. intros H. unfold add_chk. by rewrite (proj2 (Z.ltb_lt _ _) H). Qed.
Lemma sub_chk_ok a b : b ≤ a → sub_chk a b = Ret (a - b).
Proof. intros H. unfold sub_chk. by rewrite (proj2 (Z.leb_le _ _) H). Qed.
Lemma mul_chk_ok w a b : a * b < 2 ^ w → mul_chk w a b = Ret (a * b).
Proof. intros H. unfold mul_chk. by rewrite (proj2 (Z.ltb_lt _ _) H). Qed.
Lemma shl_chk_ok w a n : 0 ≤ a → 0 ≤ n < w → a * 2 ^ n < 2 ^ w → shl_chk w a n = Ret (a * 2 ^ n).
Proof.
  intros Ha Hn Hb. unfold shl_chk. rewrite (proj2 (Z.ltb_lt _ _)) by lia.
  rewrite Z.shiftl_mul_pow2 by lia. rewrite Z.mod_small; [done|]. nia.
Qed.
Lemma shr_chk_ok w a n : n < w → shr_chk w a n = Ret (Z.shiftr a n).
Proof. intros Hn. unfold shr_chk. by rewrite (proj2 (Z.ltb_lt _ _)) by lia. Qed.
Lemma nonnull_ok p : p ≠ 0 → nonnull p = Ret p.
Proof. intros H. unfold nonnull. by rewrite (proj2 (Z.eqb_neq _ _) H). Qed.
Lemma index_ok {A} (l : list A) i x : l !! i = Some x → index l i = Ret x.
Proof. intros H. unfold index. by rewrite H. Qed.
Lemma rassert_ok b : b = true → rassert b = Ret ().
Proof. by intros ->. Qed.

Lemma bind_Ret {A B} (a : A) (f : A → exec B) : (Ret a ≫= f) = f a.
Proof. reflexivity. Qed.
Lemma bind_Ret_inv {A B} (m : exec A) (f : A → exec B) b :
  m ≫= f = Ret b → ∃ a, m = Ret a ∧ f a = Ret b.
Proof. destruct m; intros; [eauto | done | done]. Qed.

Lemma add_chk_inv w a b c : add_chk w a b = Ret c → c = a + b ∧ a + b < 2 ^ w.
Proof. unfold add_chk. case_match eqn:E; [|done]. intros [= <-]. split; [done|]. by apply Z.ltb_lt. Qed.
Lemma sub_chk_inv a b c : sub_chk a b = Ret c → c = a - b ∧ b ≤ a.
Proof. unfold sub_chk. case_match eqn:E; [|done]. intros [= <-]. split; [done|]. by apply Z.leb_le. Qed.
Lemma mul_chk_inv w a b c : mul_chk w a b = Ret c → c = a * b ∧ a * b < 2 ^ w.
Proof. unfold mul_chk. case_match eqn:E; [|done]. intros [= <-]. split; [done|]. by apply Z.ltb_lt. Qed.
Lemma nonnull_inv p q : nonnull p = Ret q → q = p ∧ p ≠ 0.
Proof. unfold nonnull. case_match eqn:E; [done|]. intros [= <-]. split; [done|]. by apply Z.eqb_neq. Qed.
Lemma index_inv {A} (l : list A) i x : index l i = Ret x → l !! i = Some x.
Proof. unfold index, unwrap. case_match; naive_solver. Qed.
Lemma rassert_inv b u : rassert b = Ret u → b = true.
Proof. by destruct b. Qed.

(** [exec_inv] peels the binds of a hypothesis [m = Ret x] and inverts the
    primitive steps met on the way. *)
Ltac exec_inv1 :=
  match goal with
  | H : (_ ≫= _) = Ret _ |- _ =>
      let a := fresh "x" in let H1 := fresh "Hx" in
      apply bind_Ret_inv in H as (a & H1 & H)
  | H : Ret _ = Ret _ |- _ => injection H as H; simplify_eq/=
  | H : Panic = Ret _ |- _ => discriminate H
  | H : NoFuel = Ret _ |- _ => discriminate H
  | H : mret _ = Ret _ |- _ => unfold mret, exec_ret in H
  | H : add_chk _ _ _ = Ret _ |- _ => apply add_chk_inv in H as [-> H]
  | H : sub_chk _ _ = Ret _ |- _ => apply sub_chk_inv in H as [-> H]
  | H : mul_chk _ _ _ = Ret _ |- _ => apply mul_chk_inv in H as [-> H]
  | H : nonnull _ = Ret _ |- _ => apply nonnull_inv in H as [-> H]
  | H : index _ _ = Ret _ |- _ => apply index_inv in H
  | H : rassert _ = Ret _ |- _ => apply rassert_inv in H
  end.
Ltac exec_inv := repeat (exec_inv1; simpl in *).

(** [exec_step] runs the primitive at the head of the goal, its side
    condition proved by [lia] or an assumption. *)
Ltac exec_step :=
  first
    [ rewrite bind_Ret
    | rewrite add_chk_ok by lia
    | rewrite sub_chk_ok by lia
    | rewrite mul_chk_ok by lia
    | rewrite nonnull_ok by lia
    | rewrite shr_chk_ok by lia
    | erewrite index_ok by eassumption ];
  simpl.
Ltac exec_steps := repeat exec_step.

(** [run] executes the first step of the outermost bind of the goal, its side
    condition proved by [lia]; [run_by tac] by [tac]. *)
Ltac run_by tac :=
  match goal with
  | |- context [mbind _ ?m] =>
      match m with
      | rassert ?b => rewrite (rassert_ok b) by tac
      | add_chk ?w ?a ?b => rewrite (add_chk_ok w a b) by tac
      | sub_chk ?a ?b => rewrite (sub_chk_ok a b) by tac
      | mul_chk ?w ?a ?b => rewrite (mul_chk_ok w a b) by tac
      | shl_chk ?w ?a ?b => rewrite (shl_chk_ok w a b) by tac
      | shr_chk ?w ?a ?b => rewrite (shr_chk_ok w a b) by tac
      | nonnull ?p => rewrite (nonnull_ok p) by tac
      | index ?l ?i => erewrite (index_ok l i) by tac
      | Ret _ => idtac
      | mret _ => unfold mret, exec_ret
      end
  end; cbn [mbind exec_bind].
Ltac run := run_by ltac:(first [lia | eassumption]).

(** Two runs of the same computation have the same result. *)
Ltac exec_eq :=
  repeat match goal with
  | H1 : ?e = Ret _, H2 : ?e = Ret _ |- _ =>
      rewrite H1 in H2; injection H2 as H2; simplify_eq/=
  end.

(** ** Buddies by exclusive or *)

Lemma lxor_pow2_clear p k : Z.testbit p k = false → Z.lxor p (2 ^ k) = p + 2 ^ k.
Proof.
  intros Hb. symmetry. apply Z.add_nocarry_lxor. apply Z.bits_inj'. intros n Hn.
  rewrite Z.land_spec, Z.bits_0. destruct (decide (0 ≤ k)) as [Hk|Hk].
  - rewrite Z.pow2_bits_eqb by done. destruct (Z.eqb_spec k n) as [->|]; [by rewrite Hb|].
    apply andb_false_r.
  - rewrite Z.pow_neg_r by lia. by rewrite Z.bits_0, andb_false_r.
Qed.
Lemma lxor_pow2_set p k : 0 ≤ k → Z.testbit p k = true → Z.lxor p (2 ^ k) = p - 2 ^ k.
Proof.
  intros Hk Hb. assert (Z.lxor (Z.lxor p (2 ^ k)) (2 ^ k) = Z.lxor p (2 ^ k) + 2 ^ k) as H.
  { apply lxor_pow2_clear. by rewrite Z.lxor_spec, Hb, Z.pow2_bits_true by done. }
  rewrite Z.lxor_assoc, Z.lxor_nilpotent, Z.lxor_0_r in H. lia.
Qed.
Lemma lxor_pow2 p k : 0 ≤ k → Z.lxor p (2 ^ k) = p + 2 ^ k ∨ Z.lxor p (2 ^ k) = p - 2 ^ k.
Proof.
  intros Hk. destruct (Z.testbit p k) eqn:E; [right|left].
  - by apply lxor_pow2_set.
  - by apply lxor_pow2_clear.
Qed.
Lemma lxor_pow2_twice p k : Z.lxor (Z.lxor p (2 ^ k)) (2 ^ k) = p.
Proof. by rewrite Z.lxor_assoc, Z.lxor_nilpotent, Z.lxor_0_r. Qed.
Lemma testbit_mul_pow2 x k : 0 ≤ k → Z.testbit (x * 2 ^ k) k = Z.odd x.
Proof. intros Hk. by rewrite Z.mul_pow2_bits, Z.sub_diag, Z.bit0_odd. Qed.

Lemma trailing_zeros_pow2 w k : 0 ≤ k → trailing_zeros w (2 ^ k) = k.
Proof.
  intros Hk. unfold trailing_zeros. rewrite (proj2 (Z.eqb_neq _ _)) by lia.
  assert (Z.land (2 ^ k) (- 2 ^ k) = 2 ^ k) as ->; [|by apply Z.log2_pow2].
  replace (- 2 ^ k) with (Z.shiftl (-1) k) by (rewrite Z.shiftl_mul_pow2 by done; lia).
  apply Z.bits_inj'. intros n Hn. rewrite Z.land_spec, Z.pow2_bits_eqb, Z.shiftl_spec by done.
  destruct (Z.eqb_spec k n) as [->|]; [|done]. by rewrite Z.sub_diag.
Qed.

(** The buddy at size [2 ^ k] of an aligned offset in a region of size [2 ^ n]. *)
Lemma buddy_xor_spec n k off :
  0 ≤ k < n → 0 ≤ off → off + 2 ^ k ≤ 2 ^ n → (2 ^ k | off) →
  let q := Z.lxor off (2 ^ k) in
  (q = off + 2 ^ k ∨ q = off - 2 ^ k) ∧ 0 ≤ q ∧ q + 2 ^ k ≤ 2 ^ n ∧ (2 ^ k | q) ∧
  (2 ^ (k + 1) | Z.min off q) ∧ Z.min off q + 2 ^ (k + 1) ≤ 2 ^ n ∧ Z.lxor q (2 ^ k) = off.
Proof.
  intros Hk Hoff Hend [x Hx] q.
  assert (Z.lxor q (2 ^ k) = off) as Hback
    by apply lxor_pow2_twice.
  assert (2 ^ n = (2 * 2 ^ (n - k - 1)) * 2 ^ k) as Hn.
  { rewrite <- Z.pow_succ_r, <- Z.pow_add_r by lia. f_equal. lia. }
  replace (2 ^ (k + 1)) with (2 * 2 ^ k) by (rewrite Z.pow_add_r by lia; lia).
  assert (0 < 2 ^ k) as Hpos by lia. set (s := 2 ^ k) in *. set (e := 2 ^ (n - k - 1)) in *.
  assert (Z.testbit off k = Z.odd x) as Hbit by (subst off; apply testbit_mul_pow2; lia).
  assert (x + 1 ≤ 2 * e) as Hx2 by nia. assert (0 ≤ x) by nia.
  destruct (Z.odd x) eqn:Hodd.
  - assert (q = off - s) as Hq by (apply lxor_pow2_set; [lia|done]). rewrite Hq in *.
    apply Z.odd_spec in Hodd as [y ->]. rewrite Z.min_r by lia.
    split_and!; try done; [by right|nia|nia| | |nia].
    + exists (2 * y). lia.
    + exists y. lia.
  - assert (q = off + s) as Hq by (by apply lxor_pow2_clear). rewrite Hq in *.
    assert (Z.Even x) as [y ->] by (apply Z.even_spec; rewrite <- Z.negb_odd, Hodd; done).
    rewrite Z.min_l by lia. split_and!; try done; [by left|nia|nia| | |nia].
    + exists (2 * y + 1). lia.
    + exists y. lia.
Qed.

Lemma lxor_base base off k :
  0 ≤ k → (2 ^ (k + 1) | base) → Z.lxor (base + off) (2 ^ k) = base + Z.lxor off (2 ^ k).
Proof.
  intros Hk [b ->].
  assert (Z.testbit (b * 2 ^ (k + 1) + off) k = Z.testbit off k) as Hbit.
  { rewrite <- (Z.mod_pow2_bits_low _ (k + 1)), <- (Z.mod_pow2_bits_low off (k + 1)) by lia.
    by rewrite Z.add_comm, Z.mod_add by lia. }
  destruct (Z.testbit off k) eqn:Hoff.
  - rewrite !lxor_pow2_set by done. lia.
  - rewrite !lxor_pow2_clear by done. lia.
Qed.

(** ** Pairwise relations on lists *)

Inductive pairwise {A : Type} (R : A → A → Prop) : list A → Prop :=
  | pairwise_nil : pairwise R []
  | pairwise_cons x l : (∀ y, y ∈ l → R x y) → pairwise R l → pairwise R (x :: l).

Lemma pairwise_lookup {A} (R : A → A → Prop) l i j x y :
  pairwise R l → (i < j)%nat → l !! i = Some x → l !! j = Some y → R x y.
Proof.
  intros Hl. revert i j. induction Hl as [|z l Hz _ IH]; intros i j Hij Hi Hj; [done|].
  destruct i as [|i], j as [|j]; simpl in *; [lia| |lia|by eapply (IH i j); [lia|..]].
  simplify_eq. apply Hz. by eapply list_elem_of_lookup_2.
Qed.
Lemma pairwise_perm {A} (R : A → A → Prop) l l' :
  (∀ x y, R x y → R y x) → l ≡ₚ l' → pairwise R l → pairwise R l'.
Proof.
  intros HR. induction 1 as [|x l l' Hp IH|x y l|l1 l2 l3 _ IH1 _ IH2]; intros Hpw; [done| | |eauto].
  - inversion Hpw; subst. constructor; [|eauto]. intros y Hy. rewrite <- Hp in Hy. eauto.
  - inversion Hpw as [|? ? Hy Hpw2]; subst. inversion Hpw2 as [|? ? Hx Hpw3]; subst.
    constructor; [|constructor; [|done]].
    + intros z [->|Hz]%elem_of_cons; [|by apply Hx]. apply HR, Hy. by left.
    + intros z Hz. apply Hy. by right.
Qed.
Lemma pairwise_omap {A B} (f : A → option B) (R : A → A → Prop) (Q : B → B → Prop) l :
  (∀ x y a b, x ∈ l → y ∈ l → R x y → f x = Some a → f y = Some b → Q a b) →
  pairwise R l → pairwise Q (omap f l).
Proof.
  intros HQ Hpw. induction Hpw as [|x l Hx Hpw IH]; [constructor|]. simpl.
  assert (pairwise Q (omap f l)) as Hrest.
  { apply IH. intros y z a b Hy Hz. apply HQ; by right. }
  destruct (f x) as [a|] eqn:Hfx; [|done]. constructor; [|done].
  intros b (y & Hy & Hfy)%list_elem_of_omap. eapply (HQ x y); [by left|by right|by apply Hx|done..].
Qed.
Lemma pairwise_fmap {A B} (f : A → B) (R : B → B → Prop) l :
  pairwise (λ x y, R (f x) (f y)) l → pairwise R (f <$> l).
Proof.
  induction 1 as [|x l Hx _ IH]; constructor; [|done].
  intros b (y & -> & Hy)%list_elem_of_fmap. by apply Hx.
Qed.
Lemma pairwise_of_lookup {A} (R : A → A → Prop) l :
  (∀ i j x y, (i < j)%nat → l !! i = Some x → l !! j = Some y → R x y) → pairwise R l.
Proof.
  induction l as [|x l IH]; intros H; constructor.
  - intros y [j Hj]%list_elem_of_lookup. by apply (H 0%nat (S j)); [lia|..].
  - apply IH. intros i j y z Hij Hi Hj. by apply (H (S i) (S j)); [lia|..].
Qed.
Lemma pairwise_app {A} (R : A → A → Prop) l l' :
  pairwise R l → pairwise R l' → (∀ x y, x ∈ l → y ∈ l' → R x y) → pairwise R (l ++ l').
Proof.
  intros Hl Hl' Hx. induction Hl as [|x l H _ IH]; [done|]. simpl. constructor.
  - intros y [Hy|Hy]%elem_of_app; [by apply H|]. apply Hx; [by left|done].
  - apply IH. intros y z Hy. apply Hx. by right.
Qed.
(** For a symmetric relation the order of the two positions does not matter. *)
Lemma pairwise_lookup_ne {A} (R : A → A → Prop) l i j x y :
  (∀ x y, R x y → R y x) → pairwise R l → i ≠ j → l !! i = Some x → l !! j = Some y → R x y.
Proof.
  intros HR Hl Hij Hi Hj. destruct (decide (i < j)%nat).
  - by eapply (pairwise_lookup R l i j).
  - apply HR. by eapply (pairwise_lookup R l j i); [|lia|..].
Qed.

Lemma length_omap_le {A B} (f : A → option B) (l : list A) : (length (omap f l) ≤ length l)%nat.
Proof.
  induction l as [|x l IH]; [done|].
  change (omap f (x :: l)) with (match f x with Some y => y :: omap f l | None => omap f l end).
  destruct (f x); rewrite !length_cons; lia.
Qed.

Lemma concat_NoDup {A} (ll : list (list A)) i l : NoDup (concat ll) → ll !! i = Some l → NoDup l.
Proof.
  revert i. induction ll as [|l' ll IH]; intros [|i] Hnd Hi; simplify_eq/=;
    apply NoDup_app in Hnd as (? & _ & ?); [done|by eapply IH].
Qed.
Lemma concat_NoDup_lookup {A} (ll : list (list A)) i j l1 l2 x :
  i ≠ j → ll !! i = Some l1 → ll !! j = Some l2 → x ∈ l1 → x ∈ l2 → ¬ NoDup (concat ll).
Proof.
  revert i j. induction ll as [|l ll IH]; intros [|i] [|j] Hij Hi Hj H1 H2 Hnd; simplify_eq/=;
    apply NoDup_app in Hnd as (_ & Hd & Hnd).
  - apply (Hd x H1). apply list_elem_of_In, in_concat. exists l2. rewrite <- !list_elem_of_In. eauto using list_elem_of_lookup_2.
  - apply (Hd x H2). apply list_elem_of_In, in_concat. exists l1. rewrite <- !list_elem_of_In. eauto using list_elem_of_lookup_2.
  - by eapply (IH i j); [congruence|..].
Qed.

Lemma length_filter_fmap {A B} (f : A → B) (P : B → Prop) (Q : A → Prop)
    `{!∀ y, Decision (P y), !∀ x, Decision (Q x)} l :
  (∀ x, x ∈ l → P (f x) ↔ Q x) → length (filter P (f <$> l)) = length (filter Q l).
Proof.
  induction l as [|x l IH]; intros HPQ; [done|]. rewrite fmap_cons.
  assert (length (filter P (f <$> l)) = length (filter Q l)) as Hl.
  { apply IH. intros y Hy. apply HPQ. by right. }
  destruct (decide (Q x)) as [HQ|HQ].
  - rewrite !filter_cons_True by (done || by apply HPQ; [left|]). by rewrite !length_cons, Hl.
  - rewrite !filter_cons_False; [done|done|]. rewrite HPQ by left. done.
Qed.
Lemma forallb_elem {A} (f : A → bool) l : forallb f l = true ↔ ∀ x, x ∈ l → f x = true.
Proof. rewrite forallb_forall. split; intros Hf x Hx; apply Hf; by apply list_elem_of_In. Qed.

(** ** Masks *)

(** Bits above the width of a non-negative integer are clear. *)
Lemma testbit_high w a i : 0 ≤ a < 2 ^ w → w ≤ i → Z.testbit a i = false.
Proof.
  intros Ha Hi. destruct (decide (a = 0)) as [->|]; [apply Z.bits_0|].
  apply Z.bits_above_log2; [lia|]. assert (Z.log2 a < w) by (apply Z.log2_lt_pow2; lia). lia.
Qed.

Lemma not_spec w a i : 0 ≤ a < 2 ^ w → 0 ≤ w → 0 ≤ i →
  Z.testbit (not_ w a) i = (i <? w) && negb (Z.testbit a i).
Proof.
  intros Ha Hw Hi. unfold not_. rewrite Z.lxor_spec, Z.testbit_ones_nonneg by lia.
  destruct (Z.ltb_spec i w); [by rewrite xorb_true_r|]. by rewrite (testbit_high w a i) by lia.
Qed.

(** Clearing bits with a complemented mask. *)
Lemma land_not w a m : 0 ≤ a < 2 ^ w → 0 ≤ m < 2 ^ w → 0 ≤ w → Z.land a (not_ w m) = Z.ldiff a m.
Proof.
  intros Ha Hm Hw. apply Z.bits_inj'. intros i Hi. rewrite Z.land_spec, Z.ldiff_spec, not_spec by lia.
  destruct (Z.ltb_spec i w); [done|]. by rewrite (testbit_high w a i) by lia.
Qed.
Lemma land_not_ones w k a : 0 ≤ k ≤ w → 0 ≤ a < 2 ^ w → Z.land a (not_ w (2 ^ k - 1)) = 2 ^ k * (a / 2 ^ k).
Proof.
  intros Hk Ha. assert (2 ^ k ≤ 2 ^ w) by (apply Z.pow_le_mono_r; lia).
  rewrite land_not by lia. replace (2 ^ k - 1) with (Z.ones k) by (rewrite Z.ones_equiv; lia). rewrite Z.ldiff_ones_r by lia.
  rewrite Z.shiftl_mul_pow2, Z.shiftr_div_pow2 by lia. lia.
Qed.

(** Testing a bit with a mask. *)
Lemma land_bit a b : 0 ≤ b → negb (Z.land a (2 ^ b) =? 0) = Z.testbit a b.
Proof.
  intros Hb. destruct (Z.testbit a b) eqn:Ha.
  - apply negb_true_iff, Z.eqb_neq. intros H0. assert (Z.testbit (Z.land a (2 ^ b)) b = true) as H1
      by (by rewrite Z.land_spec, Ha, Z.pow2_bits_true by done). rewrite H0, Z.bits_0 in H1. done.
  - apply negb_false_iff, Z.eqb_eq, Z.bits_inj'. intros i Hi. rewrite Z.land_spec, Z.bits_0, Z.pow2_bits_eqb by done.
    destruct (Z.eqb_spec b i) as [->|]; [by rewrite Ha|apply andb_false_r].
Qed.
(** A logical operation of [w]-bit integers is one. *)
Lemma bits_range w a : 0 ≤ w → 0 ≤ a → (∀ i, w ≤ i → Z.testbit a i = false) → 0 ≤ a < 2 ^ w.
Proof.
  intros Hw Ha Hb. split; [done|]. destruct (decide (a < 2 ^ w)) as [|Hge]; [done|]. exfalso.
  assert (0 < 2 ^ w) by lia. assert (w ≤ Z.log2 a) as Hl by (apply Z.log2_le_pow2; lia).
  pose proof (Hb _ Hl) as H1. rewrite Z.bit_log2 in H1 by lia. done.
Qed.
Lemma lor_range w a b : 0 ≤ w → 0 ≤ a < 2 ^ w → 0 ≤ b < 2 ^ w → 0 ≤ Z.lor a b < 2 ^ w.
Proof.
  intros Hw Ha Hb. apply bits_range; [done|by apply Z.lor_nonneg; lia|]. intros i Hi.
  by rewrite Z.lor_spec, !(testbit_high w) by done.
Qed.
Lemma land_range w a b : 0 ≤ w → 0 ≤ a < 2 ^ w → 0 ≤ b → 0 ≤ Z.land a b < 2 ^ w.
Proof.
  intros Hw Ha Hb. apply bits_range; [done|by apply Z.land_nonneg; lia|]. intros i Hi.
  by rewrite Z.land_spec, (testbit_high w a) by done.
Qed.
Lemma not_range w a : 0 ≤ w → 0 ≤ a < 2 ^ w → 0 ≤ not_ w a < 2 ^ w.
Proof.
  intros Hw Ha. unfold not_. apply bits_range; [done| |].
  - apply Z.lxor_nonneg. split; intros; [|lia]. rewrite Z.ones_equiv. lia.
  - intros i Hi. rewrite Z.lxor_spec, (testbit_high w a), Z.testbit_ones_nonneg by lia.
    rewrite (proj2 (Z.ltb_ge _ _)) by lia. done.
Qed.

(** The complement is the distance to the largest value. *)
Lemma not_eq w a : 0 ≤ w → 0 ≤ a < 2 ^ w → not_ w a = 2 ^ w - 1 - a.
Proof.
  intros Hw Ha. replace (2 ^ w - 1) with (Z.ones w) by (rewrite Z.ones_equiv; lia).
  rewrite Z.sub_nocarry_ldiff.
  - apply Z.bits_inj'. intros i Hi. rewrite not_spec, Z.ldiff_spec, Z.testbit_ones_nonneg by lia. done.
  - apply Z.bits_inj'. intros i Hi. rewrite Z.ldiff_spec, Z.bits_0, Z.testbit_ones_nonneg by lia.
    destruct (Z.ltb_spec i w); [apply andb_false_r|]. by rewrite (testbit_high w a i).
Qed.
(** Joining a high and a low part. *)
Lemma lor_shiftl_add n hi lo : 0 ≤ n → 0 ≤ lo < 2 ^ n → Z.lor (Z.shiftl hi n) lo = hi * 2 ^ n + lo.
Proof.
  intros Hn Hlo. rewrite <- Z.shiftl_mul_pow2 by done. symmetry. rewrite <- Z.lxor_lor, <- Z.add_nocarry_lxor; [done|..];
    apply Z.bits_inj'; intros i Hi; rewrite Z.land_spec, Z.bits_0, Z.shiftl_spec by done;
    (destruct (decide (i < n)); [by rewrite Z.testbit_neg_r by lia|]; rewrite (testbit_high n lo i) by lia; apply andb_false_r).
Qed.

Lemma trailing_ones_spec w n :
  let t := trailing_ones w n in
  0 ≤ t ≤ Z.of_nat w ∧ (t < Z.of_nat w → Z.testbit n t = false) ∧
  ∀ j, 0 ≤ j < t → Z.testbit n j = true.
Proof.
  assert (∀ fuel i, 0 ≤ i → (∀ j, 0 ≤ j < i → Z.testbit n j = true) →
    let t := trailing_ones_from fuel n i in
    i ≤ t ≤ i + Z.of_nat fuel ∧ (t < i + Z.of_nat fuel → Z.testbit n t = false) ∧
    ∀ j, 0 ≤ j < t → Z.testbit n j = true) as Hgen; [|apply (Hgen w 0); lia].
  induction fuel as [|fuel IH]; intros i Hi Hlow; cbn [trailing_ones_from]; [split_and!; try done; lia|].
  destruct (Z.testbit n i) eqn:Hb; [|split_and!; try done; lia].
  destruct (IH (i + 1)) as (H1 & H2 & H3); [lia| |].
  { intros j Hj. destruct (decide (j = i)) as [->|]; [done|apply Hlow; lia]. }
  split_and!; [lia..| |done]. intros Hlt. apply H2. lia.
Qed.
Lemma trailing_ones_unique w n t :
  0 ≤ t < Z.of_nat w → Z.testbit n t = false → (∀ j, 0 ≤ j < t → Z.testbit n j = true) →
  trailing_ones w n = t.
Proof.
  intros Ht Hb Hlow. pose proof (trailing_ones_spec w n) as (H1 & H2 & H3).
  destruct (Z.lt_trichotomy (trailing_ones w n) t) as [Hlt|[Heq|Hgt]]; [|done|].
  - specialize (Hlow (trailing_ones w n) ltac:(lia)). rewrite H2 in Hlow by lia. done.
  - specialize (H3 t ltac:(lia)). congruence.
Qed.

(** ** Stepped ranges *)

Lemma step_by_NoDup a b s : 0 < s → NoDup (step_by a b s).
Proof. intros Hs. apply NoDup_fmap_2; [intros i j; nia|apply NoDup_seqZ]. Qed.
Lemma step_by_lookup a b s (i : nat) : 0 < s → a + s * Z.of_nat i < b →
  step_by a b s !! i = Some (a + s * Z.of_nat i).
Proof.
  intros Hs Hi. assert (Z.of_nat i + 1 ≤ (b - a + s - 1) / s) by (apply Z.div_le_lower_bound; nia).
  unfold step_by, div_ceil. by rewrite list_lookup_fmap, lookup_seqZ_lt by lia.
Qed.

(** ** Loops over ranges *)

Lemma range_find_ok p q a b :
  (∀ i, a ≤ i < b → p i = Ret (q i)) →
  ∃ r, range_find p a b = Ret r ∧
    match r with
    | Some x => a ≤ x < b ∧ q x = true ∧ ∀ i, a ≤ i < x → q i = false
    | None => ∀ i, a ≤ i < b → q i = false
    end.
Proof.
  unfold range_find. remember (Z.to_nat (b - a)) as n eqn:Hn. revert a Hn.
  induction n as [|n IH]; intros a Hn Hp; cbn [first_from].
  { exists None. split; [done|]. intros i Hi. lia. }
  rewrite Hp by lia. cbn [mbind exec_bind]. destruct (q a) eqn:Hq.
  { exists (Some a). split; [done|]. split_and!; [lia..|done|]. intros i Hi. lia. }
  destruct (IH (a + 1)) as (r & -> & Hr); [lia|intros i Hi; apply Hp; lia|]. exists r. split; [done|].
  destruct r as [x|].
  - destruct Hr as (Hx & Hqx & Hlt). split_and!; [lia..|done|]. intros i Hi.
    destruct (decide (i = a)) as [->|]; [done|apply Hlt; lia].
  - intros i Hi. destruct (decide (i = a)) as [->|]; [done|apply Hr; lia].
Qed.

(** The rule for a counted loop: an invariant indexed by the counter. *)
Lemma range_fold_ok {St} (f : Z → St → exec St) (I : Z → St → Prop) a b s :
  a ≤ b → I a s → (∀ i s, a ≤ i < b → I i s → ∃ s', f i s = Ret s' ∧ I (i + 1) s') →
  ∃ s', range_fold f a b s = Ret s' ∧ I b s'.
Proof.
  intros Hab Ha Hstep. unfold range_fold. remember (Z.to_nat (b - a)) as n eqn:Hn.
  revert a s Hab Ha Hn Hstep. induction n as [|n IH]; intros a s Hab Ha Hn Hstep; cbn [iter_from].
  { exists s. replace b with a by lia. done. }
  destruct (Hstep a s) as (s1 & -> & H1); [lia|done|]. cbn [mbind exec_bind].
  apply IH; [lia|done|lia|]. intros i s' Hi. apply Hstep. lia.
Qed.

(** ** Bytes in memory *)

Lemma copy_bytes_in ram dst bytes j b : 0 ≤ j → bytes !! Z.to_nat j = Some b →
  copy_bytes ram dst bytes (dst + j) = b.
Proof.
  intros Hj Hb. unfold copy_bytes. replace (dst + j - dst) with j by lia. rewrite Hb.
  by rewrite (proj2 (Z.leb_le _ _)) by lia.
Qed.
Lemma copy_bytes_out ram dst bytes a :
  ¬ (dst ≤ a < dst + Z.of_nat (length bytes)) → copy_bytes ram dst bytes a = ram a.
Proof.
  intros Ha. unfold copy_bytes. destruct (bytes !! _) as [b|] eqn:Hb; [|done].
  destruct (Z.leb_spec dst a) as [Hle|]; [|done]. apply lookup_lt_Some in Hb. lia.
Qed.

(** ** Integers in memory *)

Fixpoint read_le (ram : Z → Z) (a : Z) (n : nat) : Z :=
  match n with
  | O => 0
  | S n => ram a + 256 * read_le ram (a + 1) n
  end.
Fixpoint le_bytes (n : nat) (v : Z) : list Z :=
  match n with
  | O => []
  | S n => v mod 256 :: le_bytes n (v / 256)
  end.

Lemma le_bytes_length n v : length (le_bytes n v) = n.
Proof. revert v. induction n as [|n IH]; intros v; simpl; [done|]. by rewrite IH. Qed.
Lemma le_bytes_range n v : Forall (λ b, 0 ≤ b < 256) (le_bytes n v).
Proof. revert v. induction n as [|n IH]; intros v; simpl; constructor; [apply Z.mod_pos_bound; lia|apply IH]. Qed.

Lemma read_le_ext ram ram' a n :
  (∀ x, a ≤ x < a + Z.of_nat n → ram' x = ram x) → read_le ram' a n = read_le ram a n.
Proof.
  revert a. induction n as [|n IH]; intros a Hx; simpl; [done|].
  rewrite Hx by lia. rewrite IH; [done|]. intros x Hr. apply Hx. lia.
Qed.
Lemma read_le_range ram a n : (∀ x, a ≤ x < a + Z.of_nat n → 0 ≤ ram x < 256) →
  0 ≤ read_le ram a n < 2 ^ (8 * Z.of_nat n).
Proof.
  revert a. induction n as [|n IH]; intros a Hx; simpl read_le; [simpl; lia|].
  pose proof (Hx a ltac:(lia)). specialize (IH (a + 1) ltac:(intros; apply Hx; lia)).
  replace (8 * Z.of_nat (S n)) with (8 + 8 * Z.of_nat n) by lia. rewrite Z.pow_add_r by lia. lia.
Qed.

(** Reading back a list of bytes that is in memory at [a]. *)
Definition in_memory (ram : Z → Z) (a : Z) (bytes : list Z) : Prop :=
  ∀ (i : nat) b, bytes !! i = Some b → ram (a + Z.of_nat i) = b.

Lemma in_memory_app ram a l l' : in_memory ram a (l ++ l') ↔
  in_memory ram a l ∧ in_memory ram (a + Z.of_nat (length l)) l'.
Proof.
  split.
  - intros Hm. split; intros i b Hb; [apply Hm; by apply lookup_app_l_Some|].
    replace (a + Z.of_nat (length l) + Z.of_nat i) with (a + Z.of_nat (length l + i)) by lia.
    apply Hm. rewrite lookup_app_r by lia. by replace (length l + i - length l)%nat with i by lia.
  - intros [H1 H2] i b [Hb|[Hlen Hb]]%lookup_app_Some; [by apply H1|].
    replace (a + Z.of_nat i) with (a + Z.of_nat (length l) + Z.of_nat (i - length l)) by lia. by apply H2.
Qed.
Lemma in_memory_copy ram a bytes : in_memory (copy_bytes ram a bytes) a bytes.
Proof. intros i b Hb. apply copy_bytes_in; [lia|]. by rewrite Nat2Z.id. Qed.
Lemma in_memory_ext ram ram' a bytes :
  (∀ x, a ≤ x < a + Z.of_nat (length bytes) → ram' x = ram x) → in_memory ram a bytes → in_memory ram' a bytes.
Proof. intros Hx Hm i b Hb. rewrite Hx; [by apply Hm|]. apply lookup_lt_Some in Hb. lia. Qed.

Lemma read_le_mod ram a n v : in_memory ram a (le_bytes n v) → read_le ram a n = v mod 2 ^ (8 * Z.of_nat n).
Proof.
  revert a v. induction n as [|n IH]; intros a v Hm; simpl read_le; [by rewrite Z.mod_1_r|].
  pose proof (Hm 0%nat (v mod 256) eq_refl) as H0. rewrite Z.add_0_r in H0. rewrite H0.
  rewrite (IH (a + 1) (v / 256)).
  - replace (8 * Z.of_nat (S n)) with (8 + 8 * Z.of_nat n) by lia. rewrite Z.pow_add_r by lia.
    change (2 ^ 8) with 256. rewrite Z.rem_mul_r by lia. done.
  - intros i b Hb. replace (a + 1 + Z.of_nat i) with (a + Z.of_nat (S i)) by lia. by apply Hm.
Qed.
Lemma read_le_bytes ram a n v : 0 ≤ v < 2 ^ (8 * Z.of_nat n) → in_memory ram a (le_bytes n v) →
  read_le ram a n = v.
Proof. intros Hv Hm. rewrite (read_le_mod ram a n v Hm). by apply Z.mod_small. Qed.

Lemma le_bytes_app n m v : le_bytes (n + m) v = le_bytes n v ++ le_bytes m (v / 2 ^ (8 * Z.of_nat n)).
Proof.
  revert v. induction n as [|n IH]; intros v; simpl le_bytes; [by rewrite Z.div_1_r|].
  rewrite IH. simpl. do 3 f_equal. replace (8 * Z.of_nat (S n)) with (8 + 8 * Z.of_nat n) by lia.
  by rewrite Z.pow_add_r, Z.div_div by lia.
Qed.
(** The parts of an integer in memory. *)
Lemma read_le_parts ram a n m v : in_memory ram a (le_bytes (n + m) v) →
  read_le ram a n = v mod 2 ^ (8 * Z.of_nat n) ∧
  read_le ram (a + Z.of_nat n) m = v / 2 ^ (8 * Z.of_nat n) mod 2 ^ (8 * Z.of_nat m).
Proof.
  rewrite le_bytes_app. intros [Hl Hh]%in_memory_app. rewrite le_bytes_length in Hh.
  split; by apply read_le_mod.
Qed.
(** Consecutive integers make one integer. *)
Lemma read_le_join ram a n m :
  read_le ram a (n + m) = read_le ram a n + 2 ^ (8 * Z.of_nat n) * read_le ram (a + Z.of_nat n) m.
Proof.
  revert a. induction n as [|n IH]; intros a; simpl read_le; [rewrite Z.add_0_r; lia|].
  rewrite IH. replace (8 * Z.of_nat (S n)) with (8 + 8 * Z.of_nat n) by lia. rewrite Z.pow_add_r by lia.
  replace (a + 1 + Z.of_nat n) with (a + Z.of_nat (S n)) by lia. change (2 ^ 8) with 256. lia.
Qed.
