(* ===== verification/X86.v ===== *)
(** * X86: what the kernel relies on of the x86_64 crate

    Addresses, pages and page tables come from the third-party crate x86_64.
    Its functions are the fields of the classes [Addresses] and [Mapper]; what
    its documentation promises of them are the laws [AddressesOk] and
    [MapperOk], which the theorems about the kernel's code assume.  The last
    section gives one model of both classes, a finite map from pages to frames,
    which shows that the laws can hold; witnesses run the kernel's code on it. *)

From S2P Require Import Prelude.

(** ** Addresses *)

(** A [VirtAddr] or [PhysAddr] is its [u64]; a [Page] or [PhysFrame] of 4 KiB
    is its start address. *)
Class Addresses := {
  VirtAddr_new : Z → exec Z;
  PhysAddr_new : Z → exec Z;
  containing_address : Z → Z;
}.

Definition canonical (a : Z) : Prop := 0 ≤ a < 2 ^ 47 ∨ 2 ^ 64 - 2 ^ 47 ≤ a < 2 ^ 64.

(** [VirtAddr::new] takes canonical addresses, [PhysAddr::new] 52-bit ones;
    [containing_address] rounds down to the page. *)
Class AddressesOk `{Addresses} := {
  VirtAddr_new_ok a : canonical a → VirtAddr_new a = Ret a;
  PhysAddr_new_ok a : 0 ≤ a < 2 ^ 52 → PhysAddr_new a = Ret a;
  containing_address_ok a : 0 ≤ a → containing_address a = 4096 * (a / 4096);
}.

Lemma containing_aligned `{AddressesOk} a : 0 ≤ a → (4096 | a) → containing_address a = a.
Proof.
  intros Ha [x ->]. rewrite containing_address_ok by done. rewrite Z.div_mul by lia. lia.
Qed.

(** ** Page tables *)

Inductive PageTableFlag : Type := PRESENT | WRITABLE | USER_ACCESSIBLE | NO_CACHE | NO_EXECUTE.
Abbreviation PageTableFlags := (list PageTableFlag).

#[export] Instance PageTableFlag_eq_dec : EqDecision PageTableFlag.
Proof. solve_decision. Defined.

Inductive MapToError : Type :=
  | FrameAllocationFailed
  | ParentEntryHugePage
  | PageAlreadyMapped (frame : Z).
Inductive UnmapError : Type :=
  | UnmapParentEntryHugePage
  | PageNotMapped
  | InvalidFrameAddress (addr : Z).

(** [map_to] draws the frames of missing table levels from the frame allocator
    it is given; [translate] is the walk the processor does. *)
Class Mapper (PT : Type) := {
  map_to {FA : Type} : (FA → exec (option Z * FA)) → Z → Z → PageTableFlags → PT → FA →
    exec (result unit MapToError * PT * FA);
  unmap : Z → PT → result Z UnmapError * PT;
  translate : PT → Z → option (Z * PageTableFlags);
}.

(** One call of a frame allocator. *)
Definition draws {FA : Type} (allocate_frame : FA → exec (option Z * FA)) (fa fa' : FA) : Prop :=
  ∃ r, allocate_frame fa = Ret (r, fa').

Class MapperOk (PT : Type) `{Mapper PT} := {
  map_to_Ok {FA} (af : FA → exec (option Z * FA)) page frame flags pt fa pt' fa' :
    map_to af page frame flags pt fa = Ret (Ok (), pt', fa') →
    translate pt page = None ∧ translate pt' page = Some (frame, flags) ∧
    ∀ q, q ≠ page → translate pt' q = translate pt q;
  map_to_Err {FA} (af : FA → exec (option Z * FA)) page frame flags pt fa e pt' fa' :
    map_to af page frame flags pt fa = Ret (Err e, pt', fa') →
    ∀ q, translate pt' q = translate pt q;
  map_to_mapped {FA} (af : FA → exec (option Z * FA)) page frame flags pt fa f fl :
    translate pt page = Some (f, fl) →
    ∃ pt', map_to af page frame flags pt fa = Ret (Err (PageAlreadyMapped f), pt', fa);
  map_to_draws {FA} (af : FA → exec (option Z * FA)) page frame flags pt fa r pt' fa' :
    map_to af page frame flags pt fa = Ret (r, pt', fa') → rtc (draws af) fa fa';
  map_to_returns {FA} (af : FA → exec (option Z * FA)) (I : FA → Prop) page frame flags pt fa :
    (∀ a, I a → ∃ r a', af a = Ret (r, a') ∧ I a') → I fa →
    ∃ r pt' fa', map_to af page frame flags pt fa = Ret (r, pt', fa');
  unmap_Ok page pt f pt' :
    unmap page pt = (Ok f, pt') →
    (∃ fl, translate pt page = Some (f, fl)) ∧ translate pt' page = None ∧
    ∀ q, q ≠ page → translate pt' q = translate pt q;
  unmap_Err page pt e pt' :
    unmap page pt = (Err e, pt') → ∀ q, translate pt' q = translate pt q;
  unmap_mapped page pt f fl :
    translate pt page = Some (f, fl) → ∃ pt', unmap page pt = (Ok f, pt');
}.

(** ** A model of the interface *)

Section Model.

Definition model_addresses : Addresses := {|
  VirtAddr_new a :=
    if bool_decide (0 ≤ a < 2 ^ 47 ∨ 2 ^ 64 - 2 ^ 47 ≤ a < 2 ^ 64) then Ret a else Panic;
  PhysAddr_new a := if bool_decide (0 ≤ a < 2 ^ 52) then Ret a else Panic;
  containing_address a := 4096 * (a / 4096);
|}.

Lemma model_addresses_ok : @AddressesOk model_addresses.
Proof.
  split; simpl.
  - intros a Ha. by rewrite bool_decide_eq_true_2.
  - intros a Ha. by rewrite bool_decide_eq_true_2.
  - done.
Qed.

Definition model_mapper : Mapper (gmap Z (Z * PageTableFlags)) := {|
  map_to FA _ page frame flags pt fa :=
    match pt !! page with
    | Some (f, _) => Ret (Err (PageAlreadyMapped f), pt, fa)
    | None => Ret (Ok (), <[page := (frame, flags)]> pt, fa)
    end;
  unmap page pt :=
    match pt !! page with
    | Some (f, _) => (Ok f, delete page pt)
    | None => (Err PageNotMapped, pt)
    end;
  translate pt page := pt !! page;
|}.

Lemma model_mapper_ok : @MapperOk _ model_mapper.
Proof.
  split; simpl.
  - intros FA af page frame flags pt fa pt' fa' H. destruct (pt !! page) as [[f fl]|] eqn:E; simplify_eq.
    split_and!; [done|by simplify_map_eq|]. intros q Hq. by rewrite lookup_insert_ne.
  - intros FA af page frame flags pt fa e pt' fa' H. by destruct (pt !! page) as [[f fl]|]; simplify_eq.
  - intros FA af page frame flags pt fa f fl ->. eauto.
  - intros FA af page frame flags pt fa r pt' fa' H. by destruct (pt !! page) as [[f fl]|]; simplify_eq.
  - intros FA af I page frame flags pt fa _ _. destruct (pt !! page) as [[f fl]|]; eauto.
  - intros page pt f pt' H. destruct (pt !! page) as [[f' fl]|] eqn:E; simplify_eq.
    split_and!; [eauto|by simplify_map_eq|]. intros q Hq. by rewrite lookup_delete_ne.
  - intros page pt e pt' H. by destruct (pt !! page) as [[f' fl]|]; simplify_eq.
  - intros page pt f fl ->. eauto.
Qed.

End Model.
