(* ===== verification/FrameSource.v ===== *)
(** * FrameSource: what the kernel's subsystems rely on of the frame allocator

    Stacks, page ranges, DMA buffers and page tables are built from frames that
    [FRAME_ALLOCATOR] hands out.  [FrameSource] is that interface and
    [FrameSourceOk] its contract, in terms of the frames that are outstanding;
    FrameForest.v proves that the kernel's forest of buddy allocators honours
    it.  [map_each] is the loop the callers share, which backs a list of pages
    with fresh frames.  The last section has a free list as a second, simple
    implementation, on which witnesses run the callers. *)

From S2P Require Import Prelude X86.

Class FrameSource (FA : Type) := {
  fs_allocate_frame : FA → exec (option Z * FA);
  fs_deallocate_frame : Z → FA → exec FA;
  fs_inv : FA → list Z → Prop;
}.

(** [fs_inv fa used]: [fa] is well formed and [used] are the frames it has
    handed out. *)
Class FrameSourceOk (FA : Type) `{FrameSource FA} := {
  fs_inv_perm fa used used' : used ≡ₚ used' → fs_inv fa used → fs_inv fa used';
  fs_inv_NoDup fa used : fs_inv fa used → NoDup used;
  fs_inv_frame fa used p : fs_inv fa used → p ∈ used → (4096 | p) ∧ 0 ≤ p < 2 ^ 47;
  fs_allocate_ok fa used :
    fs_inv fa used →
    ∃ r fa', fs_allocate_frame fa = Ret (r, fa') ∧
      match r with Some p => fs_inv fa' (p :: used) | None => fa' = fa end;
  fs_deallocate_ok fa used p used' :
    fs_inv fa used → used ≡ₚ p :: used' →
    ∃ fa', fs_deallocate_frame p fa = Ret fa' ∧ fs_inv fa' used';
}.

(** ** Backing pages with frames *)

Section Map_each.
Context {PT FA : Type} `{Mapper PT, FrameSource FA}.

(** For each address: [allocate_frame().ok_or(no_frame)?], then
    [map_to(page_of(addr), frame, flags, frame_allocator).map_err(no_map)?.flush()]. *)
Fixpoint map_each {E : Type} (page_of : Z → exec Z) (no_frame : E) (no_map : MapToError → E)
    (flags : PageTableFlags) (addrs : list Z) (pt : PT) (fa : FA) : exec (result unit E * PT * FA) :=
  match addrs with
  | [] => mret (Ok (), pt, fa)
  | addr :: addrs =>
      '(r, fa) ← fs_allocate_frame fa;
      match r with
      | None => mret (Err no_frame, pt, fa)
      | Some frame =>
          page ← page_of addr;
          '(r, pt, fa) ← map_to fs_allocate_frame page frame flags pt fa;
          match r with
          | Err e => mret (Err (no_map e), pt, fa)
          | Ok _ => map_each page_of no_frame no_map flags addrs pt fa
          end
      end
  end.

Context `{!MapperOk PT, !FrameSourceOk FA}.

(** Frames a mapper draws for its tables come on top of the ones in use. *)
Lemma draws_inv fa fa' used :
  rtc (draws fs_allocate_frame) fa fa' → fs_inv fa used → ∃ more, fs_inv fa' (more ++ used).
Proof.
  intros Hd. revert used. induction Hd as [fa|fa fa1 fa2 [r Hr] _ IH]; intros used Hinv; [by exists []|].
  destruct (fs_allocate_ok fa used Hinv) as (r' & fa' & Ha & Hr'). exec_eq.
  destruct r' as [p|]; [|subst; by apply IH].
  destruct (IH (p :: used) Hr') as [more Hmore]. exists (more ++ [p]). by rewrite <- (assoc_L (++)).
Qed.

(** What the loop leaves behind: [frames] back the pages mapped, one each. *)
Definition backed (pt : PT) (flags : PageTableFlags) (pages frames : list Z) : Prop :=
  Forall2 (λ page frame, translate pt page = Some (frame, flags)) pages frames.

Lemma backed_agree pt pt' flags pages frames :
  (∀ q, q ∈ pages → translate pt' q = translate pt q) → backed pt flags pages frames →
  backed pt' flags pages frames.
Proof.
  intros Hq Hb. induction Hb as [|page frame pages frames Hp _ IH]; constructor.
  - rewrite Hq by left. done.
  - apply IH. intros q Hin. apply Hq. by right.
Qed.

(** The loop returns.  On success all pages are backed by distinct frames that
    were not in use before; on an error a prefix of them is; no other page
    changes. *)
Lemma map_each_ok {E} page_of (no_frame : E) no_map flags pages pt fa used :
  fs_inv fa used → NoDup pages → (∀ a, a ∈ pages → page_of a = Ret a) →
  ∃ r pt' fa' frames more done_ rest,
    map_each page_of no_frame no_map flags pages pt fa = Ret (r, pt', fa') ∧
    fs_inv fa' (more ++ frames ++ used) ∧ pages = done_ ++ rest ∧
    backed pt' flags done_ frames ∧ (∀ q, q ∉ done_ → translate pt' q = translate pt q) ∧
    match r with
    | Ok _ => rest = []
    | Err _ => rest ≠ []
    end.
Proof.
  revert pt fa used. induction pages as [|page pages IH]; intros pt fa used Hinv Hnd Hof.
  { exists (Ok ()), pt, fa, [], [], [], []. split_and!; try done. constructor. }
  apply NoDup_cons in Hnd as [Hpage Hnd]. cbn [map_each].
  destruct (fs_allocate_ok fa used Hinv) as (r & fa1 & -> & Hr). cbn [mbind exec_bind].
  destruct r as [frame|].
  2:{ exists (Err no_frame), pt, fa1, [], [], [], (page :: pages). subst. split_and!; try done. constructor. }
  rewrite Hof by left. cbn [mbind exec_bind].
  destruct (map_to_returns fs_allocate_frame (λ fa, ∃ u, fs_inv fa u) page frame flags pt fa1)
    as (r & pt1 & fa2 & Hmap).
  { intros a [u Hu]. destruct (fs_allocate_ok a u Hu) as (r & a' & Ha & Hr').
    exists r, a'. split; [done|]. destruct r; [eauto|subst; eauto]. }
  { eauto. }
  rewrite Hmap. cbn [mbind exec_bind].
  destruct (draws_inv fa1 fa2 (frame :: used) (map_to_draws _ _ _ _ _ _ _ _ _ Hmap) Hr) as [more Hmore].
  destruct r as [[]|e].
  - destruct (map_to_Ok _ _ _ _ _ _ _ _ Hmap) as (_ & Hmapped & Hother).
    destruct (IH pt1 fa2 _ Hmore Hnd)
      as (r & pt' & fa' & frames & more' & done_ & rest & -> & Hinv' & -> & Hb & Hq & Hrest);
      [by intros a Ha; apply Hof; right|].
    exists r, pt', fa', (frame :: frames), (more' ++ more), (page :: done_), rest.
    assert (page ∉ done_) as Hnin by set_solver. split_and!; try done.
    + eapply fs_inv_perm; [|exact Hinv']. rewrite <- !(assoc_L (++)). apply Permutation_app_head.
      rewrite (Permutation_app_swap_app frames more). simpl. by rewrite <- Permutation_middle.
    + constructor; [by rewrite Hq|done].
    + intros q Hq'. rewrite Hq by set_solver. apply Hother. set_solver.
  - pose proof (map_to_Err _ _ _ _ _ _ _ _ _ Hmap) as Hother.
    exists (Err (no_map e)), pt1, fa2, [], (more ++ [frame]), [], (page :: pages).
    split_and!; try done; [|constructor]. by rewrite <- (assoc_L (++)).
Qed.

(** For each address: [unmap(page_of(addr))?], then [deallocate_frame]. *)
Fixpoint unmap_each (page_of : Z → exec Z) (addrs : list Z) (pt : PT) (fa : FA)
    : exec (result unit UnmapError * PT * FA) :=
  match addrs with
  | [] => mret (Ok (), pt, fa)
  | addr :: addrs =>
      page ← page_of addr;
      let '(r, pt) := unmap page pt in
      match r with
      | Err e => mret (Err e, pt, fa)
      | Ok frame =>
          fa ← fs_deallocate_frame frame fa;
          unmap_each page_of addrs pt fa
      end
  end.

(** Unmapping pages that are backed by frames in use gives the frames back. *)
Lemma unmap_each_ok page_of flags pages frames pt fa used :
  backed pt flags pages frames → fs_inv fa (frames ++ used) → NoDup pages →
  (∀ a, a ∈ pages → page_of a = Ret a) →
  ∃ pt' fa', unmap_each page_of pages pt fa = Ret (Ok (), pt', fa') ∧ fs_inv fa' used ∧
    (∀ q, q ∈ pages → translate pt' q = None) ∧
    (∀ q, q ∉ pages → translate pt' q = translate pt q).
Proof.
  intros Hb. revert fa. remember pt as pt0 eqn:Hpt. rewrite Hpt in Hb.
  assert (∀ q, q ∈ pages → translate pt0 q = translate pt q) as Hag by (by subst). clear Hpt.
  revert pt0 Hag. induction Hb as [|page frame pages frames Hp Hb IH]; intros pt0 Hag fa Hinv Hnd Hof.
  { exists pt0, fa. split_and!; try done. intros q Hq. by apply elem_of_nil in Hq. }
  apply NoDup_cons in Hnd as [Hpage Hnd]. cbn [unmap_each]. rewrite Hof by left. cbn [mbind exec_bind].
  destruct (unmap_mapped page pt0 frame flags) as [pt1 Hu]; [by rewrite Hag by left|]. rewrite Hu.
  destruct (unmap_Ok _ _ _ _ Hu) as (_ & Hnone & Hother).
  destruct (fs_deallocate_ok fa _ frame (frames ++ used) Hinv) as (fa1 & -> & Hinv1); [done|].
  cbn [mbind exec_bind].
  destruct (IH pt1) with fa1 as (pt' & fa' & -> & Hinv' & Hin & Hout).
  { intros q Hq. rewrite Hother by set_solver. apply Hag. by right. }
  { done. } { done. } { intros a Ha. apply Hof. by right. }
  exists pt', fa'. split_and!; try done.
  - intros q [->|Hq]%elem_of_cons; [by rewrite Hout|by apply Hin].
  - intros q Hq. rewrite Hout by set_solver. apply Hother. set_solver.
Qed.

End Map_each.

(** ** A free list of frames *)

Section Model.

Definition model_source : FrameSource (list Z * list Z) := {|
  fs_allocate_frame '(free, used) :=
    match free with
    | [] => Ret (None, ([], used))
    | p :: free => Ret (Some p, (free, p :: used))
    end;
  fs_deallocate_frame p '(free, used) :=
    if bool_decide (p ∈ used) then Ret (p :: free, filter (λ q, q ≠ p) used) else Panic;
  fs_inv fa used :=
    fa.2 ≡ₚ used ∧ NoDup (fa.1 ++ fa.2) ∧ Forall (λ p, p mod 4096 = 0 ∧ 0 ≤ p < 2 ^ 47) (fa.1 ++ fa.2);
|}.

Lemma filter_ne_perm (p : Z) l l' : NoDup l → l ≡ₚ p :: l' → filter (λ q, q ≠ p) l ≡ₚ l'.
Proof.
  intros Hnd Hp. rewrite Hp in Hnd |- *. apply NoDup_cons in Hnd as [Hp' _].
  rewrite filter_cons_False by auto. clear Hp. induction l' as [|q l' IH]; [done|].
  rewrite filter_cons_True by set_solver. by rewrite IH by set_solver.
Qed.

Lemma model_source_ok : @FrameSourceOk _ model_source.
Proof.
  split; simpl.
  - intros fa used used' Hp (Hu & Hnd & Hal). split_and!; [by rewrite Hu|done..].
  - intros [free u] used (Hu & Hnd & _). simpl in *. rewrite <- Hu. by apply NoDup_app in Hnd as (_ & _ & ?).
  - intros [free u] used p (Hu & _ & Hal) Hp. simpl in *. rewrite <- Hu in Hp.
    rewrite Forall_forall in Hal. destruct (Hal p) as [Hm Hr]; [set_solver|]. split; [|done].
    by apply Z.mod_divide.
  - intros [free u] used (Hu & Hnd & Hal). simpl in *. destruct free as [|p free].
    + exists None, ([], u). done.
    + exists (Some p), (free, p :: u). split; [done|]. simpl. split; [by rewrite Hu|].
      by rewrite <- Permutation_middle.
  - intros [free u] used p used' (Hu & Hnd & Hal) Hp. simpl in *.
    rewrite bool_decide_eq_true_2 by (rewrite Hu, Hp; by left). eexists. split; [done|]. simpl.
    rewrite Hp in Hu. pose proof Hnd as (Hf & Hd & Hn)%NoDup_app. split; [by apply filter_ne_perm|].
    rewrite (filter_ne_perm p u used') by done. rewrite Hu, <- Permutation_middle in Hnd, Hal. done.
Qed.

(** A source with the frames [4096], [8192], ... free. *)
Definition free_frames (n : Z) : list Z * list Z := ((λ i, 4096 * i) <$> seqZ 1 n, []).
Lemma free_frames_inv n : 0 ≤ n < 2 ^ 20 → @fs_inv _ model_source (free_frames n) [].
Proof.
  intros Hn. split; [done|]. simpl. rewrite app_nil_r. split.
  - apply NoDup_fmap_2; [intros i j; lia|apply NoDup_seqZ].
  - apply Forall_forall. intros p (i & -> & Hi%elem_of_seqZ)%list_elem_of_fmap.
    rewrite Z.mul_comm, Z.mod_mul by lia. lia.
Qed.

End Model.
