(* ===== verification/Blocks.v ===== *)
(** * Blocks: the abstract view of a buddy system

    A buddy allocator hands out and takes back intervals of an address region.
    The intervals it has free and the ones its clients hold always tile the
    region: allocating halves free blocks, freeing glues halves together.
    [splits] is that relation on multisets of blocks and [tiles] the resulting
    invariant.  [BuddySystem] is the interface the kernel's three buddy
    allocators (heap, virtual pages, physical frames) are proved to implement,
    and the last section proves, for any implementation of it, what the clients
    rely on: outstanding allocations never overlap, whatever the clients write
    into the memory they hold. *)

From S2P Require Import Prelude.

(** A block is its start and its size, in the units of the region. *)
Abbreviation block := (Z * Z)%type.

Definition units (b : block) : list Z := seqZ b.1 b.2.
Definition all_units (bl : list block) : list Z := bl ≫= units.

(** The blocks of [bl] cover [base, base + n) exactly, without overlap. *)
Definition tiles (base n : Z) (bl : list block) : Prop :=
  all_units bl ≡ₚ seqZ base n.

(** No two blocks of [bl] share a unit. *)
Definition separate (bl : list block) : Prop := NoDup (all_units bl).

(** [splits bl bl']: [bl'] is obtained by halving blocks of [bl]. *)
Inductive splits : list block → list block → Prop :=
  | splits_perm bl bl' : bl ≡ₚ bl' → splits bl bl'
  | splits_halve a s bl : 0 ≤ s → splits ((a, 2 * s) :: bl) ((a, s) :: (a + s, s) :: bl)
  | splits_trans bl1 bl2 bl3 : splits bl1 bl2 → splits bl2 bl3 → splits bl1 bl3.

Lemma elem_of_units u b : u ∈ units b ↔ b.1 ≤ u < b.1 + b.2.
Proof. unfold units. rewrite elem_of_seqZ. lia. Qed.

Lemma all_units_cons b bl : all_units (b :: bl) = units b ++ all_units bl.
Proof. reflexivity. Qed.
Lemma all_units_app bl bl' : all_units (bl ++ bl') = all_units bl ++ all_units bl'.
Proof. apply bind_app. Qed.

Lemma elem_of_all_units u bl : u ∈ all_units bl ↔ ∃ b, b ∈ bl ∧ b.1 ≤ u < b.1 + b.2.
Proof.
  unfold all_units. rewrite list_elem_of_bind. setoid_rewrite elem_of_units.
  split; intros (b & ? & ?); eauto.
Qed.

#[export] Instance all_units_perm : Proper ((≡ₚ) ==> (≡ₚ)) all_units.
Proof. apply bind_Permutation. Qed.
#[export] Instance tiles_perm base n : Proper ((≡ₚ) ==> iff) (tiles base n).
Proof. intros bl bl' H. unfold tiles. by rewrite H. Qed.
#[export] Instance separate_perm : Proper ((≡ₚ) ==> iff) separate.
Proof. intros bl bl' H. unfold separate. by rewrite H. Qed.

Lemma units_halve a s : 0 ≤ s → units (a, 2 * s) = units (a, s) ++ units (a + s, s).
Proof.
  intros Hs. unfold units; simpl. replace (2 * s) with (s + s) by lia.
  by rewrite seqZ_app by lia.
Qed.

(** Halving preserves the units covered, so tilings and separation. *)
Lemma splits_units bl bl' : splits bl bl' → all_units bl ≡ₚ all_units bl'.
Proof.
  induction 1 as [bl bl' H|a s bl Hs|]; [by rewrite H| |by etrans].
  rewrite !all_units_cons, units_halve by done. by rewrite (assoc_L (++)).
Qed.
Lemma splits_separate bl bl' : splits bl bl' → separate bl ↔ separate bl'.
Proof. intros H%splits_units. unfold separate. by rewrite H. Qed.
Lemma splits_tiles base n bl bl' : splits bl bl' → tiles base n bl ↔ tiles base n bl'.
Proof. intros H%splits_units. unfold tiles. by rewrite H. Qed.

#[export] Instance splits_preorder : PreOrder splits.
Proof. split; [intros bl; by apply splits_perm | intros ???; apply splits_trans]. Qed.
#[export] Instance splits_perm_proper : Proper ((≡ₚ) ==> (≡ₚ) ==> iff) splits.
Proof.
  intros l1 l1' H1 l2 l2' H2. split; intros H.
  - etrans; [by apply splits_perm; symmetry|]. etrans; [exact H|]. by apply splits_perm.
  - etrans; [by apply splits_perm|]. etrans; [exact H|]. by apply splits_perm.
Qed.

Lemma splits_cons b bl bl' : splits bl bl' → splits (b :: bl) (b :: bl').
Proof.
  induction 1 as [bl bl' H|a s bl Hs|bl1 bl2 bl3 _ IH1 _ IH2].
  - apply splits_perm. by rewrite H.
  - transitivity ((a, 2 * s) :: b :: bl); [apply splits_perm; by constructor|].
    transitivity ((a, s) :: (a + s, s) :: b :: bl); [by apply splits_halve|].
    apply splits_perm. change ((a, s) :: (a + s, s) :: b :: bl) with ([(a, s); (a + s, s)] ++ b :: bl).
    by rewrite <- Permutation_middle.
  - by etrans.
Qed.
Lemma splits_app bl bl' k : splits bl bl' → splits (bl ++ k) (bl' ++ k).
Proof.
  intros H. rewrite (comm (++) bl k), (comm (++) bl' k).
  induction k as [|b k IH]; [done|]. by apply splits_cons.
Qed.

(** A piece lies inside a block it was split from. *)
Lemma splits_within bl bl' b' :
  splits bl bl' → b' ∈ bl' → ∃ b, b ∈ bl ∧ b.1 ≤ b'.1 ∧ b'.1 + b'.2 ≤ b.1 + b.2.
Proof.
  intros H. revert b'. induction H as [bl bl' H|a s bl Hs|bl1 bl2 bl3 _ IH1 _ IH2]; intros b' Hb'.
  - exists b'. rewrite H. split; [done|lia].
  - apply elem_of_cons in Hb' as [->|[->|Hb']%elem_of_cons].
    1,2: exists (a, 2 * s); simpl; split; [by left|lia].
    exists b'. split; [by right|lia].
  - destruct (IH2 b' Hb') as (b2 & Hb2 & ? & ?). destruct (IH1 b2 Hb2) as (b1 & Hb1 & ? & ?).
    exists b1. split; [done|lia].
Qed.

(** Separation, elementwise. *)
Lemma separate_cons b bl :
  separate (b :: bl) ↔ (∀ b', b' ∈ bl → units b ## units b') ∧ separate bl.
Proof.
  unfold separate. rewrite all_units_cons, NoDup_app. split.
  - intros (_ & H1 & H2). split; [|done]. intros b' Hb' u Hu Hu'.
    apply (H1 u Hu). apply elem_of_all_units. exists b'. by rewrite <- elem_of_units.
  - intros [H1 H2]. split; [apply NoDup_seqZ|]. split; [|done].
    intros u Hu (b' & Hb' & Hu')%elem_of_all_units. apply (H1 b' Hb' u); [done|].
    by apply elem_of_units.
Qed.
Lemma separate_cons_inv b bl : separate (b :: bl) → separate bl.
Proof. rewrite separate_cons. by intros [??]. Qed.

(** Two non-empty blocks that share no unit start and end apart. *)
Lemma units_disjoint b b' :
  0 < b.2 → 0 < b'.2 → units b ## units b' ↔ b.1 + b.2 ≤ b'.1 ∨ b'.1 + b'.2 ≤ b.1.
Proof.
  intros Hb Hb'. split.
  - intros H. destruct (decide (b.1 + b.2 ≤ b'.1 ∨ b'.1 + b'.2 ≤ b.1)) as [|Hn]; [done|].
    exfalso. apply (H (Z.max b.1 b'.1)); apply elem_of_units; lia.
  - intros H u Hu%elem_of_units Hu'%elem_of_units. lia.
Qed.

Lemma tiles_separate base n bl : tiles base n bl → separate bl.
Proof. unfold tiles, separate. intros ->. apply NoDup_seqZ. Qed.
Lemma tiles_bounds base n bl b :
  tiles base n bl → b ∈ bl → 0 < b.2 → base ≤ b.1 ∧ b.1 + b.2 ≤ base + n.
Proof.
  intros Ht Hb Hpos.
  assert (∀ u, b.1 ≤ u < b.1 + b.2 → base ≤ u < base + n) as Hin.
  { intros u Hu. apply elem_of_seqZ. rewrite <- Ht. apply elem_of_all_units. eauto. }
  pose proof (Hin b.1). pose proof (Hin (b.1 + b.2 - 1)). lia.
Qed.

Lemma tiles_single base n bl :
  0 < n → tiles base n bl → (∀ b, b ∈ bl → b = (base, n)) → bl = [(base, n)].
Proof.
  intros Hn Ht Hall. assert (base ∈ units (base, n)) as Hu by (apply elem_of_units; simpl; lia).
  destruct bl as [|b [|b' bl]].
  - exfalso. assert (base ∈ seqZ base n) as Hin by (apply elem_of_seqZ; lia).
    rewrite <- Ht in Hin. by apply elem_of_nil in Hin.
  - by rewrite (Hall b) by left.
  - exfalso. apply tiles_separate, separate_cons in Ht as [Hd _].
    apply (Hd b') with base; [by left|rewrite (Hall b) by left; done|].
    rewrite (Hall b') by (right; left); done.
Qed.

(** No more blocks than units. *)
Lemma blocks_count base n bl :
  0 ≤ n → separate bl → (∀ b, b ∈ bl → 0 < b.2 ∧ base ≤ b.1 ∧ b.1 + b.2 ≤ base + n) →
  Z.of_nat (length bl) ≤ n.
Proof.
  intros Hn Hsep Hb.
  assert (length bl ≤ length (all_units bl))%nat as H1.
  { clear Hsep. induction bl as [|b bl IH]; [done|]. rewrite all_units_cons, length_app. simpl.
    destruct (Hb b) as [Hpos _]; [by left|]. unfold units at 1. rewrite length_seqZ.
    assert (length bl ≤ length (all_units bl))%nat by (apply IH; intros; apply Hb; by right). lia. }
  assert (length (all_units bl) ≤ length (seqZ base n))%nat as H2.
  { apply submseteq_length, NoDup_submseteq; [done|]. intros u (b & Hin & Hu)%elem_of_all_units.
    apply elem_of_seqZ. destruct (Hb b Hin). lia. }
  rewrite length_seqZ in H2. lia.
Qed.

(** The units that blocks have together. *)
Definition block_sum (bl : list block) : Z := foldr (λ b n, b.2 + n) 0 bl.

#[export] Instance block_sum_perm : Proper ((≡ₚ) ==> eq) block_sum.
Proof. induction 1; simpl; lia. Qed.

Lemma block_sum_app bl bl' : block_sum (bl ++ bl') = block_sum bl + block_sum bl'.
Proof. unfold block_sum. induction bl as [|b bl IH]; simpl; [done|]. rewrite IH. lia. Qed.

Lemma length_all_units bl : (∀ b, b ∈ bl → 0 ≤ b.2) → Z.of_nat (length (all_units bl)) = block_sum bl.
Proof.
  induction bl as [|b bl IH]; intros Hb; [done|]. rewrite all_units_cons, length_app. cbn [block_sum foldr].
  fold (block_sum bl). unfold units. rewrite length_seqZ, <- IH by (intros; apply Hb; by right).
  assert (0 ≤ b.2) by (apply Hb; by left). lia.
Qed.

Lemma tiles_sum base n bl : 0 ≤ n → (∀ b, b ∈ bl → 0 ≤ b.2) → tiles base n bl → block_sum bl = n.
Proof. intros Hn Hb Ht. rewrite <- length_all_units, Ht, length_seqZ by done. lia. Qed.

(** ** Blocks sorted by level *)

(** [F] lists, level by level, where the free blocks of that level start. *)
Section Levels.
Context (size : nat → Z).

Fixpoint blocks_from (i : nat) (F : list (list Z)) : list block :=
  match F with
  | [] => []
  | l :: F => ((λ a, (a, size i)) <$> l) ++ blocks_from (S i) F
  end.
Definition level_blocks (F : list (list Z)) : list block := blocks_from 0 F.

Lemma elem_of_blocks_from i F b :
  b ∈ blocks_from i F ↔ ∃ j l a, F !! j = Some l ∧ a ∈ l ∧ b = (a, size (i + j)%nat).
Proof.
  revert i. induction F as [|l F IH]; intros i; simpl.
  - split; [set_solver|]. by intros (j & l & a & ? & _).
  - rewrite elem_of_app, list_elem_of_fmap, IH. split.
    + intros [(a & -> & Ha)|(j & l' & a & Hj & Ha & ->)].
      * exists 0%nat, l, a. by rewrite Nat.add_0_r.
      * exists (S j), l', a. by rewrite Nat.add_succ_r.
    + intros ([|j] & l' & a & Hj & Ha & ->); simpl in Hj.
      * simplify_eq. left. exists a. by rewrite Nat.add_0_r.
      * right. exists j, l', a. by rewrite Nat.add_succ_r.
Qed.
Lemma elem_of_level_blocks F b :
  b ∈ level_blocks F ↔ ∃ i l a, F !! i = Some l ∧ a ∈ l ∧ b = (a, size i).
Proof. apply elem_of_blocks_from. Qed.

Lemma blocks_from_take j F i l p l' :
  F !! i = Some l → l ≡ₚ p :: l' →
  blocks_from j F ≡ₚ (p, size (j + i)%nat) :: blocks_from j (<[i := l']> F).
Proof.
  revert i j. induction F as [|k F IH]; intros [|i] j Hi Hl; simplify_eq/=.
  - rewrite Hl, Nat.add_0_r. done.
  - rewrite (IH i (S j)) by done. rewrite Nat.add_succ_r. simpl. by rewrite Permutation_middle.
Qed.
Lemma level_blocks_take F i l p l' :
  F !! i = Some l → l ≡ₚ p :: l' →
  level_blocks F ≡ₚ (p, size i) :: level_blocks (<[i := l']> F).
Proof. apply (blocks_from_take 0). Qed.
Lemma level_blocks_put F i l p l' :
  F !! i = Some l → l' ≡ₚ p :: l →
  level_blocks (<[i := l']> F) ≡ₚ (p, size i) :: level_blocks F.
Proof.
  intros Hi Hl. assert (i < length F)%nat by (by eapply lookup_lt_Some).
  rewrite (level_blocks_take (<[i := l']> F) i l' p l), list_insert_insert_eq, list_insert_id;
    [done|done| |done]. by apply list_lookup_insert_eq.
Qed.

Lemma blocks_from_level j F i l :
  F !! i = Some l → ((λ a, (a, size (j + i)%nat)) <$> l) ⊆+ blocks_from j F.
Proof.
  revert i j. induction F as [|k F IH]; intros [|i] j Hi; simplify_eq/=.
  - rewrite Nat.add_0_r. by apply submseteq_inserts_r.
  - rewrite Nat.add_succ_r. apply submseteq_inserts_l. by apply (IH i (S j)).
Qed.
Lemma level_blocks_length F i l : F !! i = Some l → (length l ≤ length (level_blocks F))%nat.
Proof.
  intros Hi. pose proof (submseteq_length _ _ (blocks_from_level 0 F i l Hi)) as H.
  by rewrite length_fmap in H.
Qed.

Lemma starts_not_free F p i :
  0 < size i → (∀ j l, F !! j = Some l → 0 < size j) →
  separate ((p, size i) :: level_blocks F) → ∀ l, l ∈ F → p ∉ l.
Proof.
  intros Hi Hpos [Hd _]%separate_cons l [j Hj]%list_elem_of_lookup Hp.
  apply (Hd (p, size j)) with p.
  - apply elem_of_level_blocks. by exists j, l, p.
  - apply elem_of_units; simpl; lia.
  - apply elem_of_units; simpl. specialize (Hpos j l Hj). lia.
Qed.

End Levels.

(** ** The interface of a buddy allocator *)

(** [St] is everything the allocator reads and writes, metadata kept inside
    free memory included.  [bs_rep s bl] says that [s] is well formed and [bl]
    are its free blocks; [bs_touch P s s'] that [s'] differs from [s] only by
    client writes to the addresses satisfying [P]; [bs_writes P s s'] that the
    allocator went from [s] to [s'] writing list nodes only at such addresses. *)
Class BuddySystem (St : Type) := {
  bs_levels : nat;
  bs_size : nat → Z;
  bs_legal : nat → Z → Prop;
  bs_get : nat → St → exec (option Z * St);
  bs_put : nat → Z → St → exec St;
  bs_rep : St → list block → Prop;
  bs_touch : (Z → Prop) → St → St → Prop;
  bs_writes : (Z → Prop) → St → St → Prop;
}.

(** What an allocator promises. A request at a level either is served by
    halving free blocks, or fails, changing nothing, because every free block is smaller; a block
    taken back is merged into the free ones; both write to free blocks only; and what clients write into memory
    that is not free does not disturb it. *)
Class BuddySystemOk (St : Type) `{BuddySystem St} := {
  bs_size_pos lvl : (lvl < bs_levels)%nat → 0 < bs_size lvl;
  bs_rep_separate s bl : bs_rep s bl → separate bl;
  bs_get_ok s bl lvl :
    bs_rep s bl → (lvl < bs_levels)%nat →
    ∃ r s' bl', bs_get lvl s = Ret (r, s') ∧ bs_rep s' bl' ∧
      bs_writes (λ u, u ∈ all_units bl) s s' ∧
      match r with
      | Some a => bs_legal lvl a ∧ splits bl ((a, bs_size lvl) :: bl')
      | None => s' = s ∧ bl' = bl ∧ ∀ b, b ∈ bl → b.2 < bs_size lvl
      end;
  bs_put_ok s bl lvl a :
    bs_rep s bl → (lvl < bs_levels)%nat → bs_legal lvl a →
    separate ((a, bs_size lvl) :: bl) →
    ∃ s' bl', bs_put lvl a s = Ret s' ∧ bs_rep s' bl' ∧
      bs_writes (λ u, u ∈ all_units ((a, bs_size lvl) :: bl)) s s' ∧
      splits bl' ((a, bs_size lvl) :: bl);
  bs_touch_ok P s s' bl :
    bs_rep s bl → bs_touch P s s' → (∀ u, u ∈ all_units bl → ¬ P u) → bs_rep s' bl;
}.

(** ** Clients of an allocator *)

Section Client.
Context {St : Type} `{BuddySystemOk St}.

(** Outstanding allocations: the level and the address of each. *)
Definition held (used : list (nat * Z)) : list block := (λ x, (x.2, bs_size x.1)) <$> used.
#[local] Instance held_perm : Proper ((≡ₚ) ==> (≡ₚ)) held.
Proof. intros l l' Hp. unfold held. by rewrite Hp. Qed.

(** Any interleaving of requests, returns of outstanding blocks, and writes
    of the clients into the memory they hold. *)
Inductive client_step : St * list (nat * Z) → St * list (nat * Z) → Prop :=
  | client_get s s' used lvl a :
      (lvl < bs_levels)%nat → bs_get lvl s = Ret (Some a, s') →
      client_step (s, used) (s', (lvl, a) :: used)
  | client_get_none s s' used lvl :
      (lvl < bs_levels)%nat → bs_get lvl s = Ret (None, s') →
      client_step (s, used) (s', used)
  | client_put s s' used used' lvl a :
      used ≡ₚ (lvl, a) :: used' → bs_put lvl a s = Ret s' →
      client_step (s, used) (s', used')
  | client_write s s' used :
      bs_touch (λ u, u ∈ all_units (held used)) s s' →
      client_step (s, used) (s', used).

(** The free blocks and the outstanding ones tile the region. *)
Definition client_inv (base n : Z) (c : St * list (nat * Z)) : Prop :=
  ∃ bl, bs_rep c.1 bl ∧ tiles base n (bl ++ held c.2) ∧
    Forall (λ x, (x.1 < bs_levels)%nat ∧ bs_legal x.1 x.2) c.2.

Lemma client_inv_step base n c c' :
  client_inv base n c → client_step c c' → client_inv base n c'.
Proof.
  intros (bl & Hrep & Ht & Hused) Hstep.
  destruct Hstep as [s s' used lvl a Hl Hg|s s' used lvl Hl Hg|s s' used used' lvl a Hp Hput|s s' used Hw];
    simpl in *.
  - destruct (bs_get_ok s bl lvl Hrep Hl) as (r & s1 & bl' & Hg' & Hrep' & _ & Hr).
    rewrite Hg in Hg'. simplify_eq. destruct Hr as [Hlegal Hs].
    exists bl'. split; [done|]. split; [|by constructor].
    apply (splits_tiles base n _ _ (splits_app _ _ (held used) Hs)) in Ht.
    unfold held in *. simpl in *. by rewrite <- Permutation_middle.
  - destruct (bs_get_ok s bl lvl Hrep Hl) as (r & s1 & bl' & Hg' & Hrep' & _ & Hr).
    rewrite Hg in Hg'. simplify_eq. destruct Hr as (_ & -> & _). by exists bl.
  - rewrite Hp in Hused. apply Forall_cons in Hused as [[Hl Hlegal] Hused].
    assert (tiles base n (((a, bs_size lvl) :: bl) ++ held used')) as Ht'.
    { simpl. unfold held in *. rewrite Hp in Ht. simpl in Ht. by rewrite <- Permutation_middle in Ht. }
    destruct (bs_put_ok s bl lvl a) as (s1 & bl' & Hput' & Hrep' & _ & Hs); try done.
    { apply tiles_separate in Ht'. unfold separate in *. rewrite all_units_app in Ht'.
      by apply NoDup_app in Ht' as [? _]. }
    rewrite Hput in Hput'. simplify_eq. exists bl'. split; [done|]. split; [|done].
    by apply (splits_tiles base n _ _ (splits_app _ _ (held used') Hs)).
  - exists bl. split; [|done]. eapply bs_touch_ok; [done|done|].
    intros u Hu Hu'. apply tiles_separate in Ht. unfold separate in Ht.
    rewrite all_units_app in Ht. apply NoDup_app in Ht as (_ & Hd & _). by apply (Hd u).
Qed.

Lemma client_inv_perm base n s used used' :
  used ≡ₚ used' → client_inv base n (s, used) → client_inv base n (s, used').
Proof.
  intros Hp (bl & Hrep & Ht & Hu). exists bl. simpl in *. split_and!; [done| |by rewrite <- Hp].
  by rewrite <- Hp.
Qed.

Lemma client_inv_steps base n c c' :
  client_inv base n c → rtc client_step c c' → client_inv base n c'.
Proof. intros Hc Hsteps. induction Hsteps; eauto using client_inv_step. Qed.

(** Outstanding allocations are inside the region and pairwise disjoint. *)
Lemma client_inv_disjoint base n s used i j x y :
  client_inv base n (s, used) → used !! i = Some x → used !! j = Some y → i ≠ j →
  units (x.2, bs_size x.1) ## units (y.2, bs_size y.1).
Proof.
  intros (bl & _ & Ht & _) Hx Hy Hij. simpl in *.
  apply tiles_separate in Ht. unfold separate in Ht. rewrite all_units_app in Ht.
  apply NoDup_app in Ht as (_ & _ & Hd).
  rewrite (delete_Permutation used i x Hx) in Hd. simpl in Hd.
  apply (separate_cons (x.2, bs_size x.1)) in Hd as [Hd _]. apply Hd.
  apply list_elem_of_fmap. exists y. split; [done|].
  destruct (decide (j < i)%nat).
  - apply list_elem_of_lookup. exists j. by rewrite list_lookup_delete_lt by lia.
  - apply list_elem_of_lookup. exists (pred j). rewrite list_lookup_delete_ge by lia.
    by replace (S (pred j)) with j by lia.
Qed.

Lemma client_inv_bounds base n s used x :
  client_inv base n (s, used) → x ∈ used →
  base ≤ x.2 ∧ x.2 + bs_size x.1 ≤ base + n.
Proof.
  intros (bl & _ & Ht & Hu) Hx. rewrite Forall_forall in Hu. destruct (Hu x) as [Hl _]; [done|].
  apply (tiles_bounds base n (bl ++ held used) (x.2, bs_size x.1) Ht); [|by apply bs_size_pos].
  apply elem_of_app. right. apply list_elem_of_fmap. eauto.
Qed.

(** An outstanding block can always be given back. *)
Lemma client_inv_put base n s used x :
  client_inv base n (s, used) → x ∈ used → ∃ s', bs_put x.1 x.2 s = Ret s'.
Proof.
  intros (bl & Hrep & Ht & Hu) [used' Hp]%elem_of_Permutation. simpl in *.
  rewrite Hp in Hu. apply Forall_cons in Hu as [[Hl Hlegal] _].
  destruct (bs_put_ok s bl x.1 x.2) as (s' & ? & ? & _); [done..| |eauto].
  apply tiles_separate in Ht. unfold held in Ht. rewrite Hp in Ht. simpl in Ht.
  rewrite <- Permutation_middle in Ht. unfold separate in *.
  rewrite app_comm_cons, all_units_app in Ht. by apply NoDup_app in Ht as [? _].
Qed.

(** Serving a request or taking a block back writes nothing into the blocks
    that are outstanding before and after. *)
Lemma client_inv_get_writes base n s used lvl r s' :
  client_inv base n (s, used) → (lvl < bs_levels)%nat → bs_get lvl s = Ret (r, s') →
  ∃ P, bs_writes P s s' ∧ ∀ u, u ∈ all_units (held used) → ¬ P u.
Proof.
  intros (bl & Hrep & Ht & _) Hl Hg. simpl in *.
  destruct (bs_get_ok s bl lvl Hrep Hl) as (r' & s1 & bl' & Hg' & _ & Hw & _). exec_eq.
  eexists. split; [exact Hw|]. intros u Hu Hu'. apply tiles_separate in Ht. unfold separate in Ht.
  rewrite all_units_app in Ht. apply NoDup_app in Ht as (_ & Hd & _). by apply (Hd u).
Qed.
Lemma client_inv_put_writes base n s used used' lvl a s' :
  client_inv base n (s, used) → used ≡ₚ (lvl, a) :: used' → bs_put lvl a s = Ret s' →
  ∃ P, bs_writes P s s' ∧ ∀ u, u ∈ all_units (held used') → ¬ P u.
Proof.
  intros (bl & Hrep & Ht & Hu) Hp Hput. simpl in *.
  rewrite Hp in Hu. apply Forall_cons in Hu as [[Hl Hlegal] _].
  apply tiles_separate in Ht. unfold held in Ht. rewrite Hp in Ht. simpl in Ht.
  rewrite <- Permutation_middle in Ht. unfold separate in Ht.
  rewrite app_comm_cons, all_units_app in Ht. apply NoDup_app in Ht as (Hsep & Hd & _).
  destruct (bs_put_ok s bl lvl a) as (s1 & bl' & Hput' & _ & Hw & _); [done..|]. exec_eq.
  eexists. split; [exact Hw|]. intros u Hu Hu'. by apply (Hd u).
Qed.

End Client.
