(* ===== verification/Buddy.v ===== *)
(** * Buddy: one proof for the kernel's three buddy allocators

    memory/alloc.rs and memory/paging.rs contain three buddy allocators that
    run the same algorithm on different free lists: pop a block of the level or
    split one of the level above; on a return, glue the block to its buddy as
    long as the buddy is free.  This file proves the algorithm once, over what
    an implementation provides ([BuddyImpl]: its level table, the address of a
    buddy when splitting and when merging) and owes ([BuddyImplOk]).  The result
    is an instance of [BuddySystemOk]; the section [Coalesce] adds, for
    allocators whose blocks are aligned, that buddies are never both free, so
    that an allocator with nothing outstanding is one free block again. *)

From S2P Require Import Prelude Blocks.

Class BuddyImpl (St : Type) := {
  bi_levels : nat;
  bi_size : nat → Z;
  bi_base : Z;
  bi_span : Z;
  bi_legal : nat → Z → Prop;
  bi_split_buddy : nat → Z → exec Z;
  bi_merge_buddy : nat → Z → exec Z;
  bi_pop : nat → St → exec (option Z * St);
  bi_push : nat → Z → St → exec St;
  bi_take : nat → Z → St → exec (option St);
  bi_raw : St → list (list Z) → Prop;
  bi_touch : (Z → Prop) → St → St → Prop;
  bi_writes : (Z → Prop) → St → St → Prop;
}.

Section Algorithm.
Context {St : Type} `{BuddyImpl St}.

(** [get_free_block] and [split_level]. *)
Fixpoint get_block (level : nat) (s : St) : exec (option Z * St) :=
  '(r, s) ← bi_pop level s;
  match r with
  | Some b => mret (Some b, s)
  | None =>
      match level with
      | O => mret (None, s)
      | S above =>
          '(r, s) ← get_block above s;
          match r with
          | Some b =>
              buddy ← bi_split_buddy level b;
              s ← bi_push level buddy s;
              mret (Some b, s)
          | None => mret (None, s)
          end
      end
  end.

(** [merge_buddies]. *)
Fixpoint put_block (level : nat) (p : Z) (s : St) : exec St :=
  match level with
  | O => bi_push level p s
  | S above =>
      buddy ← bi_merge_buddy level p;
      r ← bi_take level buddy s;
      match r with
      | Some s => put_block above (Z.min p buddy) s
      | None => bi_push level p s
      end
  end.

Lemma get_block_pop level s p s' :
  bi_pop level s = Ret (Some p, s') → get_block level s = Ret (Some p, s').
Proof. intros Hp. destruct level; simpl; by rewrite Hp. Qed.

End Algorithm.

(** The units of the blocks of level [i] at [l]. *)
Definition inside (size : nat → Z) (i : nat) (l : list Z) (u : Z) : Prop := ∃ x, x ∈ l ∧ x ≤ u < x + size i.

(** What the level table and the address arithmetic of an implementation owe. *)
Class BuddyImplOk (St : Type) `{BuddyImpl St} := {
  bi_levels_pos : (0 < bi_levels)%nat;
  bi_span_bound : 0 ≤ bi_span ∧ bi_span + 1 < 2 ^ 64;
  bi_size_pos i : (i < bi_levels)%nat → 0 < bi_size i;
  bi_size_half i : (S i < bi_levels)%nat → bi_size i = 2 * bi_size (S i);
  bi_legal_range i p :
    (i < bi_levels)%nat → bi_legal i p → bi_base ≤ p ∧ p + bi_size i ≤ bi_base + bi_span;
  bi_split_ok i p :
    (S i < bi_levels)%nat → bi_legal i p →
    bi_split_buddy (S i) p = Ret (p + bi_size (S i)) ∧
    bi_legal (S i) p ∧ bi_legal (S i) (p + bi_size (S i));
  bi_merge_ok i p :
    (S i < bi_levels)%nat → bi_legal (S i) p →
    ∃ q, bi_merge_buddy (S i) p = Ret q ∧
      (q = p + bi_size (S i) ∨ q = p - bi_size (S i)) ∧
      (bi_legal (S i) q → bi_legal i (Z.min p q) ∧ bi_merge_buddy (S i) q = Ret p);
  bi_raw_length s F : bi_raw s F → length F = bi_levels;
  bi_pop_nil s F i : bi_raw s F → F !! i = Some [] → bi_pop i s = Ret (None, s);
  bi_pop_cons s F i x l :
    bi_raw s F → F !! i = Some (x :: l) →
    ∃ p s' l', bi_pop i s = Ret (Some p, s') ∧ x :: l ≡ₚ p :: l' ∧ bi_raw s' (<[i := l']> F) ∧
      bi_writes (inside bi_size i (x :: l)) s s';
  bi_push_ok s F i l p :
    bi_raw s F → F !! i = Some l → bi_legal i p → (∀ k, k ∈ F → p ∉ k) →
    Z.of_nat (S (length l)) < 2 ^ 64 →
    ∃ s' l', bi_push i p s = Ret s' ∧ l' ≡ₚ p :: l ∧ bi_raw s' (<[i := l']> F) ∧
      bi_writes (inside bi_size i (p :: l)) s s';
  bi_take_in s F i l p :
    bi_raw s F → F !! i = Some l → p ∈ l →
    ∃ s' l', bi_take i p s = Ret (Some s') ∧ l ≡ₚ p :: l' ∧ bi_raw s' (<[i := l']> F) ∧
      bi_writes (inside bi_size i l) s s';
  bi_take_out s F i l p q :
    bi_raw s F → F !! S i = Some l → bi_legal (S i) p → bi_merge_buddy (S i) p = Ret q → q ∉ l →
    bi_take (S i) q s = Ret None;
  bi_writes_refl P s : bi_writes P s s;
  bi_writes_trans P s1 s2 s3 : bi_writes P s1 s2 → bi_writes P s2 s3 → bi_writes P s1 s3;
  bi_writes_mono (P Q : Z → Prop) s s' : (∀ u, P u → Q u) → bi_writes P s s' → bi_writes Q s s';
  bi_touch_ok P s s' F :
    bi_raw s F → bi_touch P s s' →
    (∀ u, u ∈ all_units (level_blocks bi_size F) → ¬ P u) → bi_raw s' F;
}.

(** The level table [F] of a well-formed state. *)
Definition buddy_inv {St} `{BuddyImpl St} (s : St) (F : list (list Z)) : Prop :=
  bi_raw s F ∧ (∀ i l p, F !! i = Some l → p ∈ l → bi_legal i p) ∧
  separate (level_blocks bi_size F).

Section Proofs.
Context {St : Type} `{BuddyImplOk St}.

Lemma inv_lookup s F i : buddy_inv s F → (i < bi_levels)%nat → ∃ l, F !! i = Some l.
Proof. intros [Hr _] Hi. apply lookup_lt_is_Some. by rewrite (bi_raw_length s F). Qed.
Lemma inv_level s F i l : buddy_inv s F → F !! i = Some l → (i < bi_levels)%nat.
Proof. intros [Hr _] Hi. rewrite <- (bi_raw_length s F) by done. by eapply lookup_lt_Some. Qed.

Lemma inv_block s F b : buddy_inv s F → b ∈ level_blocks bi_size F →
  0 < b.2 ∧ bi_base ≤ b.1 ∧ b.1 + b.2 ≤ bi_base + bi_span.
Proof.
  intros Hinv (i & l & a & Hi & Ha & ->)%elem_of_level_blocks. simpl.
  pose proof (inv_level s F i l Hinv Hi) as Hlt. destruct Hinv as (_ & Hleg & _).
  split; [by apply bi_size_pos|]. apply bi_legal_range; eauto.
Qed.

Lemma inv_count s F i l :
  buddy_inv s F → F !! i = Some l → Z.of_nat (S (length l)) < 2 ^ 64.
Proof.
  intros Hinv Hi. pose proof bi_span_bound as [? ?].
  pose proof (level_blocks_length bi_size F i l Hi).
  enough (Z.of_nat (length (level_blocks bi_size F)) ≤ bi_span) by lia.
  apply (blocks_count bi_base); [done| |by intros b Hb; apply (inv_block s F)].
  by destruct Hinv as (_ & _ & ?).
Qed.

Lemma inside_units F i l u :
  F !! i = Some l → inside bi_size i l u → u ∈ all_units (level_blocks bi_size F).
Proof.
  intros Hi (p & Hp & Hu). apply elem_of_all_units. exists (p, bi_size i). split; [|done].
  apply elem_of_level_blocks. eauto 10.
Qed.

Lemma inv_fresh s F i p :
  buddy_inv s F → (i < bi_levels)%nat → separate ((p, bi_size i) :: level_blocks bi_size F) →
  ∀ k, k ∈ F → p ∉ k.
Proof.
  intros Hinv Hi Hsep. eapply starts_not_free; [by apply bi_size_pos| |exact Hsep].
  intros j l Hj. apply bi_size_pos. by eapply inv_level.
Qed.

(** Level tables after the block [p] is taken from, or added to, level [i]. *)
Lemma inv_insert_sub s s' F i l p l' :
  buddy_inv s F → F !! i = Some l → l ≡ₚ p :: l' → bi_raw s' (<[i := l']> F) →
  buddy_inv s' (<[i := l']> F) ∧ bi_legal i p ∧
  level_blocks bi_size F ≡ₚ (p, bi_size i) :: level_blocks bi_size (<[i := l']> F).
Proof.
  intros (Hraw & Hleg & Hsep) Hi Hl Hraw'.
  pose proof (level_blocks_take bi_size F i l p l' Hi Hl) as Hb.
  split; [split; [done|split]|split; [|done]].
  - intros j k q Hj Hq. destruct (decide (i = j)) as [<-|Hij].
    + rewrite list_lookup_insert_eq in Hj by (by eapply lookup_lt_Some). simplify_eq.
      eapply Hleg; [done|]. rewrite Hl. by right.
    + rewrite list_lookup_insert_ne in Hj by done. eauto.
  - rewrite Hb in Hsep. by apply separate_cons_inv in Hsep.
  - eapply Hleg; [done|]. rewrite Hl. by left.
Qed.

Lemma inv_push s F i l p :
  buddy_inv s F → F !! i = Some l → bi_legal i p →
  separate ((p, bi_size i) :: level_blocks bi_size F) →
  ∃ s' l', bi_push i p s = Ret s' ∧ l' ≡ₚ p :: l ∧ buddy_inv s' (<[i := l']> F) ∧
    bi_writes (λ u, u ∈ all_units ((p, bi_size i) :: level_blocks bi_size F)) s s' ∧
    level_blocks bi_size (<[i := l']> F) ≡ₚ (p, bi_size i) :: level_blocks bi_size F.
Proof.
  intros Hinv Hi Hp Hsep. pose proof Hinv as (Hraw & Hleg & _).
  destruct (bi_push_ok s F i l p) as (s' & l' & Hpush & Hl & Hraw' & Hw); [done..| | |].
  { by eapply inv_fresh; [| eapply inv_level|]. }
  { by eapply inv_count. }
  pose proof (level_blocks_put bi_size F i l p l' Hi Hl) as Hb.
  exists s', l'. split_and!; try done.
  2:{ eapply bi_writes_mono; [|exact Hw]. intros u (x & Hx & Hu).
    rewrite all_units_cons, elem_of_app, elem_of_units. apply elem_of_cons in Hx as [->|Hx]; [by left|].
    right. eapply inside_units; [done|]. by exists x. }
  split_and!; [done| |by rewrite Hb].
  intros j k q Hj Hq. destruct (decide (i = j)) as [<-|Hij].
  - rewrite list_lookup_insert_eq in Hj by (by eapply lookup_lt_Some). simplify_eq.
    rewrite Hl in Hq. apply elem_of_cons in Hq as [->|Hq]; eauto.
  - rewrite list_lookup_insert_ne in Hj by done. eauto.
Qed.

(** ** Buddies are never both free *)

Definition coalesced (F : list (list Z)) : Prop :=
  ∀ i l p q, F !! S i = Some l → p ∈ l → bi_merge_buddy (S i) p = Ret q → q ∉ l.

Lemma coalesced_take F i l p l' :
  coalesced F → F !! i = Some l → l ≡ₚ p :: l' → coalesced (<[i := l']> F).
Proof.
  intros Hc Hi Hl j k x q Hj Hx Hm Hq. destruct (decide (i = S j)) as [->|Hij].
  - rewrite list_lookup_insert_eq in Hj by (by eapply lookup_lt_Some). simplify_eq.
    apply (Hc j l x q Hi); [|done|]; rewrite Hl; by right.
  - rewrite list_lookup_insert_ne in Hj by done. by apply (Hc j k x q).
Qed.

Lemma coalesced_put s F i l p l' :
  buddy_inv s F → coalesced F → F !! i = Some l → l' ≡ₚ p :: l → bi_legal i p →
  (∀ q, (0 < i)%nat → bi_merge_buddy i p = Ret q → q ∉ l) → coalesced (<[i := l']> F).
Proof.
  intros Hinv Hc Hi Hl Hp Hfree j k x q Hj Hx Hm. destruct (decide (i = S j)) as [->|Hij].
  - rewrite list_lookup_insert_eq in Hj by (by eapply lookup_lt_Some). simplify_eq.
    pose proof (inv_level s F (S j) l Hinv Hi) as Hlt. destruct Hinv as (_ & Hleg & _).
    pose proof (bi_size_pos (S j) Hlt).
    rewrite Hl in Hx |- *. apply elem_of_cons in Hx as [->|Hx].
    + destruct (bi_merge_ok j p Hlt Hp) as (q' & Hq' & Hd & _). exec_eq.
      intros [->|Hq]%elem_of_cons; [lia|]. by eapply Hfree; [lia|..].
    + destruct (bi_merge_ok j x Hlt) as (q' & Hq' & _ & Hinv); [by eapply Hleg|]. exec_eq.
      intros [->|Hq]%elem_of_cons; [|by eapply (Hc j l x)].
      destruct (Hinv Hp) as [_ Hback]. apply (Hfree x); [lia|done|done].
  - rewrite list_lookup_insert_ne in Hj by done. by apply (Hc j k x q).
Qed.

(** ** Allocation *)

Lemma inv_pop level s F x l :
  buddy_inv s F → F !! level = Some (x :: l) →
  ∃ p s' F', bi_pop level s = Ret (Some p, s') ∧ buddy_inv s' F' ∧
    bi_writes (λ u, u ∈ all_units (level_blocks bi_size F)) s s' ∧
    (∀ j, (level < j)%nat → F' !! j = F !! j) ∧ (coalesced F → coalesced F') ∧
    bi_legal level p ∧
    splits (level_blocks bi_size F) ((p, bi_size level) :: level_blocks bi_size F').
Proof.
  intros Hinv Hl. pose proof Hinv as (Hraw & _ & _).
  destruct (bi_pop_cons s F _ x l Hraw Hl) as (p & s' & l' & Hpop & Hp & Hraw' & Hw).
  destruct (inv_insert_sub s s' F _ _ p l' Hinv Hl Hp Hraw') as (Hinv' & Hpl & Hb).
  exists p, s', (<[level := l']> F). split; [done|]. split; [done|]. split.
  { eapply bi_writes_mono; [|exact Hw]. intros u Hu. by eapply inside_units. }
  split.
  - intros j Hj. apply list_lookup_insert_ne. lia.
  - split; [intros Hc; by eapply coalesced_take|]. split; [done|]. by apply splits_perm.
Qed.

Lemma get_block_ok level s F :
  buddy_inv s F → (level < bi_levels)%nat →
  ∃ r s' F', get_block level s = Ret (r, s') ∧ buddy_inv s' F' ∧
    bi_writes (λ u, u ∈ all_units (level_blocks bi_size F)) s s' ∧
    (∀ j, (level < j)%nat → F' !! j = F !! j) ∧ (coalesced F → coalesced F') ∧
    match r with
    | Some a => bi_legal level a ∧
        splits (level_blocks bi_size F) ((a, bi_size level) :: level_blocks bi_size F')
    | None => s' = s ∧ F' = F ∧ ∀ j, (j ≤ level)%nat → F !! j = Some []
    end.
Proof.
  revert s F. induction level as [|above IH]; intros s F Hinv Hlt;
    destruct (inv_lookup s F _ Hinv Hlt) as [[|x l] Hl]; pose proof Hinv as (Hraw & _ & _); simpl.
  1,3: rewrite (bi_pop_nil s F) by done.
  3,4: destruct (inv_pop _ s F x l Hinv Hl) as (p & s' & F' & -> & Hrest);
    exists (Some p), s', F'; split; [done|exact Hrest].
  - exists None, s, F. split_and!; try done; [apply bi_writes_refl|]. by intros j ->%Nat.le_0_r.
  - simpl. destruct (IH s F Hinv) as (r & s1 & F1 & -> & Hinv1 & Hw1 & Hhi & Hc1 & Hr); [lia|]. simpl.
    destruct r as [b|].
    + destruct Hr as [Hb Hs]. destruct (bi_split_ok above b Hlt Hb) as (-> & Hb1 & Hb2). simpl.
      assert (splits (level_blocks bi_size F)
        ((b, bi_size (S above)) :: (b + bi_size (S above), bi_size (S above)) :: level_blocks bi_size F1)) as Hs2.
      { etrans; [exact Hs|]. rewrite bi_size_half by done. apply splits_halve.
        pose proof (bi_size_pos (S above) Hlt). lia. }
      destruct (inv_push s1 F1 (S above) [] (b + bi_size (S above)))
        as (s2 & l2 & -> & Hl2 & Hinv2 & Hw2 & Hb3); [done|by rewrite Hhi by lia|done| |].
      { destruct Hinv as (_ & _ & Hsep). apply (splits_separate _ _ Hs2) in Hsep.
        by apply separate_cons_inv in Hsep. }
      exists (Some b), s2, (<[S above := l2]> F1). simpl. split_and!; try done.
      * eapply bi_writes_trans; [exact Hw1|]. eapply bi_writes_mono; [|exact Hw2].
        intros u Hu. rewrite (splits_units _ _ Hs2), all_units_cons. apply elem_of_app. by right.
      * intros j Hj. rewrite list_lookup_insert_ne by lia. apply Hhi. lia.
      * intros Hc. eapply (coalesced_put s1); [done|by apply Hc1|by rewrite Hhi by lia|done|done|].
        set_solver.
      * by rewrite Hb3.
    + destruct Hr as (-> & -> & Hr). exists None, s, F. split_and!; try done.
      intros j Hj. destruct (decide (j = S above)) as [->|]; [done|apply Hr; lia].
Qed.

(** ** Return *)

Lemma put_block_ok level s F p :
  buddy_inv s F → (level < bi_levels)%nat → bi_legal level p →
  separate ((p, bi_size level) :: level_blocks bi_size F) →
  ∃ s' F', put_block level p s = Ret s' ∧ buddy_inv s' F' ∧
    bi_writes (λ u, u ∈ all_units ((p, bi_size level) :: level_blocks bi_size F)) s s' ∧ (coalesced F → coalesced F') ∧
    splits (level_blocks bi_size F') ((p, bi_size level) :: level_blocks bi_size F).
Proof.
  revert s F p. induction level as [|above IH]; intros s F p Hinv Hlt Hp Hsep;
    destruct (inv_lookup s F _ Hinv Hlt) as [l Hl]; simpl.
  - destruct (inv_push s F 0 l p) as (s' & l' & -> & Hl' & Hinv' & Hw & Hb); [done..|].
    exists s', (<[0%nat := l']> F). split_and!; try done; [|by rewrite Hb].
    intros Hc. eapply (coalesced_put s); try done. lia.
  - destruct (bi_merge_ok above p Hlt Hp) as (q & Hm & Hd & Hq). rewrite Hm. simpl.
    pose proof Hinv as (Hraw & Hleg & _). destruct (decide (q ∈ l)) as [Hin|Hout].
    + destruct (bi_take_in s F _ l q Hraw Hl Hin) as (s1 & l1 & -> & Hp1 & Hraw1 & Hw1). simpl.
      destruct (inv_insert_sub s s1 F _ l q l1 Hinv Hl Hp1 Hraw1) as (Hinv1 & Hql & Hb).
      destruct (Hq Hql) as [Hmin _].
      assert (splits ((Z.min p q, bi_size above) :: level_blocks bi_size (<[S above := l1]> F))
        ((p, bi_size (S above)) :: level_blocks bi_size F)) as Hs.
      { rewrite Hb, bi_size_half by done. etrans; [apply splits_halve|].
        { pose proof (bi_size_pos (S above) Hlt). lia. }
        apply splits_perm. pose proof (bi_size_pos (S above) Hlt). destruct Hd as [-> | ->].
        - by rewrite Z.min_l by lia.
        - rewrite Z.min_r by lia. rewrite Z.sub_add. by constructor. }
      destruct (IH s1 (<[S above := l1]> F) (Z.min p q)) as (s' & F' & Hput & Hinv' & Hw & Hc & Hs');
        [done|lia|done|by apply (splits_separate _ _ Hs)|].
      exists s', F'. split_and!; try done; [| |by etrans].
      { eapply bi_writes_trans.
        - eapply bi_writes_mono; [|exact Hw1]. intros u Hu.
          apply elem_of_app. right. by eapply inside_units.
        - eapply bi_writes_mono; [|exact Hw]. intros u Hu. cbv beta. by rewrite <- (splits_units _ _ Hs). }
      intros Hc0. apply Hc. by eapply coalesced_take.
    + rewrite (bi_take_out s F _ l p) by done. simpl.
      destruct (inv_push s F (S above) l p) as (s' & l' & -> & Hl' & Hinv' & Hw & Hb); [done..|].
      exists s', (<[S above := l']> F). split_and!; try done; [|by rewrite Hb].
      intros Hc. eapply (coalesced_put s); try done. intros q' _ Hm'. by exec_eq.
Qed.

Lemma bi_size_mult i j :
  (i ≤ j)%nat → (j < bi_levels)%nat → ∃ k, 0 < k ∧ bi_size i = k * bi_size j.
Proof.
  intros Hij Hj. induction Hij as [|j Hij IH]; [exists 1; lia|].
  destruct IH as (k & Hk & ->); [lia|]. exists (2 * k).
  rewrite (bi_size_half j) by done. lia.
Qed.
Lemma bi_size_lt i j : (i < j)%nat → (j < bi_levels)%nat → bi_size j < bi_size i.
Proof.
  intros Hij Hj. destruct (bi_size_mult (S i) j) as (k & Hk & Heq); [lia|done|].
  pose proof (bi_size_pos j Hj). rewrite (bi_size_half i) by lia. nia.
Qed.

(** ** The algorithm implements the interface *)

#[export] Instance buddy_system : BuddySystem St := {
  bs_levels := bi_levels;
  bs_size := bi_size;
  bs_legal := bi_legal;
  bs_get := get_block;
  bs_put := put_block;
  bs_rep s bl := ∃ F, buddy_inv s F ∧ coalesced F ∧ bl = level_blocks bi_size F;
  bs_touch := bi_touch;
  bs_writes := bi_writes;
}.

#[export] Instance buddy_system_ok : BuddySystemOk St.
Proof.
  split; simpl.
  - apply bi_size_pos.
  - by intros s bl (F & (_ & _ & ?) & _ & ->).
  - intros s bl lvl (F & Hinv & Hc & ->) Hl.
    destruct (get_block_ok lvl s F Hinv Hl) as (r & s' & F' & Hg & Hinv' & Hw & _ & Hc' & Hr).
    exists r, s', (level_blocks bi_size F'). split; [done|]. split; [eauto|]. split; [done|].
    destruct r; [done|]. destruct Hr as (-> & -> & Hr). split; [done|]. split; [done|].
    intros b (j & l & a & Hj & Ha & ->)%elem_of_level_blocks. simpl.
    apply bi_size_lt; [|by eapply inv_level].
    destruct (decide (lvl < j)%nat); [done|]. rewrite Hr in Hj by lia. simplify_eq. set_solver.
  - intros s bl lvl a (F & Hinv & Hc & ->) Hl Ha Hsep.
    destruct (put_block_ok lvl s F a) as (s' & F' & ? & ? & ? & ? & ?); [done..|].
    exists s', (level_blocks bi_size F'). eauto 10.
  - intros P s s' bl (F & (Hraw & Hinv) & Hc & ->) Ht HP. exists F. split; [|done].
    split; [|done]. by eapply bi_touch_ok.
Qed.

End Proofs.

(** ** Aligned allocators: nothing outstanding means one free block *)

Class BuddyAligned (St : Type) `{BuddyImpl St} := {
  bi_span_size : bi_span = bi_size 0;
  bi_legal_aligned i p : bi_legal i p → (bi_size i | p - bi_base);
  bi_merge_legal i p q :
    (S i < bi_levels)%nat → bi_legal (S i) p → bi_merge_buddy (S i) p = Ret q →
    bi_legal (S i) q;
}.

Section Coalesce.
Context {St : Type} `{BuddyImplOk St, !BuddyAligned St}.

(** A block of level [j] that contains the buddy of [p] contains [p], or is
    the buddy itself. *)
Lemma buddy_cover i j p q a :
  (S i < bi_levels)%nat → (j ≤ S i)%nat → bi_legal (S i) p → bi_merge_buddy (S i) p = Ret q →
  bi_legal j a → a ≤ q < a + bi_size j →
  (j = S i ∧ a = q) ∨ (a ≤ p < a + bi_size j).
Proof.
  intros Hi Hj Hp Hm Ha Hin. destruct (bi_merge_ok i p Hi Hp) as (q' & Hm' & Hd & Hmin). exec_eq.
  pose proof (bi_merge_legal i p q' Hi Hp Hm) as Hq. destruct (Hmin Hq) as [Hleg _].
  pose proof (bi_size_pos (S i) Hi) as Hpos.
  destruct (decide (j = S i)) as [->|Hji].
  - left. split; [done|]. apply bi_legal_aligned in Ha as [x Ha], Hq as [y Hq]. assert (x = y) by nia. subst. lia.
  - right. destruct (bi_size_mult j i) as (k & Hk & Hkj); [lia..|].
    pose proof (bi_size_half i Hi).
    apply bi_legal_aligned in Ha as [x Ha], Hleg as [y Hleg].
    assert (a - bi_base = (x * k) * bi_size i) as Ha' by (rewrite Ha, Hkj; ring).
    assert (x * k ≤ y < x * k + k) by nia. nia.
Qed.

Lemma coalesced_level s F i :
  buddy_inv s F → coalesced F → tiles bi_base bi_span (level_blocks bi_size F) →
  (S i < bi_levels)%nat → (∀ j, (S i < j < bi_levels)%nat → F !! j = Some []) →
  F !! S i = Some [].
Proof.
  intros Hinv Hc Ht Hi Hdeep. destruct (inv_lookup s F _ Hinv Hi) as [[|p l] Hl]; [done|]. exfalso.
  pose proof Hinv as (Hraw & Hleg & Hsep).
  assert (bi_legal (S i) p) as Hp by (eapply Hleg; [done|by left]).
  destruct (bi_merge_ok i p Hi Hp) as (q & Hm & Hd & Hmin).
  pose proof (bi_merge_legal i p q Hi Hp Hm) as Hq.
  pose proof (bi_size_pos (S i) Hi) as Hpos.
  assert (q ∈ all_units (level_blocks bi_size F)) as Hqin.
  { unfold tiles in Ht. rewrite Ht. apply elem_of_seqZ.
    pose proof (bi_legal_range (S i) q Hi Hq). lia. }
  apply elem_of_all_units in Hqin as (b & (j & k & a & Hj & Ha & ->)%elem_of_level_blocks & Hin).
  simpl in Hin. pose proof (inv_level s F j k Hinv Hj) as Hjl.
  assert (j ≤ S i)%nat as Hji.
  { destruct (decide (j ≤ S i)%nat); [done|]. rewrite Hdeep in Hj by lia. simplify_eq. set_solver. }
  destruct (buddy_cover i j p q a) as [[-> ->]|Hpin]; try done; [by eapply Hleg|..].
  - simplify_eq. eapply (Hc i); [done| |done|done]. by left.
  - assert (level_blocks bi_size F ≡ₚ (p, bi_size (S i)) :: level_blocks bi_size (<[S i := l]> F)) as Hb
      by (by apply (level_blocks_take bi_size F (S i) (p :: l))).
    rewrite Hb in Hsep. apply separate_cons in Hsep as [Hsep _].
    assert ((a, bi_size j) ∈ level_blocks bi_size F) as Hab by (apply elem_of_level_blocks; eauto 10).
    rewrite Hb in Hab. apply elem_of_cons in Hab as [[= -> Hjs]|Hab].
    + rewrite Hjs in Hin. lia.
    + apply (Hsep _ Hab p); apply elem_of_units; simpl; lia.
Qed.

Lemma coalesced_whole s F :
  buddy_inv s F → coalesced F → tiles bi_base bi_span (level_blocks bi_size F) →
  level_blocks bi_size F = [(bi_base, bi_span)] ∧
  ∀ i, (0 < i < bi_levels)%nat → F !! i = Some [].
Proof.
  intros Hinv Hc Ht.
  assert (∀ i, (0 < i < bi_levels)%nat → F !! i = Some []) as Hempty.
  { intros i. remember (bi_levels - i)%nat as d eqn:Hd. revert i Hd.
    induction d as [d IH] using lt_wf_ind. intros [|i] Hd Hi; [lia|].
    eapply coalesced_level; [done..|lia|]. intros j Hj. eapply IH; [|done|]; lia. }
  split; [|done]. pose proof (bi_size_pos 0 bi_levels_pos) as Hpos.
  rewrite bi_span_size in *. apply tiles_single; [done..|].
  intros b (j & l & a & Hj & Ha & ->)%elem_of_level_blocks.
  pose proof (inv_level s F j l Hinv Hj). destruct j as [|j].
  - destruct Hinv as (_ & Hleg & _). specialize (Hleg 0%nat l a Hj Ha).
    pose proof (bi_legal_range 0 a bi_levels_pos Hleg) as Hr. rewrite bi_span_size in Hr.
    apply bi_legal_aligned in Hleg as [k Hk]. f_equal. nia.
  - rewrite Hempty in Hj by lia. simplify_eq. set_solver.
Qed.

End Coalesce.

(** ** Aligned blocks *)

(** Blocks of level [i] have size [2 ^ (top - i)] and are aligned relative to
    the start of a region of size [2 ^ top]. *)
Section Aligned.
Context (base top : Z) (L : nat) (size : nat → Z).
Context (Hsize : ∀ i, (i < L)%nat → size i = 2 ^ (top - Z.of_nat i)) (Htop : Z.of_nat L ≤ top + 1).

Definition aligned_legal (i : nat) (p : Z) : Prop :=
  base ≤ p ∧ p + size i ≤ base + 2 ^ top ∧ (size i | p - base).

Lemma aligned_half i : (S i < L)%nat → size i = 2 * size (S i).
Proof. intros Hi. rewrite !Hsize, <- Z.pow_succ_r by lia. f_equal. lia. Qed.

Lemma aligned_buddy i p : (S i < L)%nat → aligned_legal (S i) p →
  let q := base + Z.lxor (p - base) (size (S i)) in
  (q = p + size (S i) ∨ q = p - size (S i)) ∧ aligned_legal (S i) q ∧
  aligned_legal i (Z.min p q) ∧ base + Z.lxor (q - base) (size (S i)) = p.
Proof.
  intros Hi (H1 & H2 & H3) q. unfold aligned_legal in *. rewrite !Hsize in * by lia.
  destruct (buddy_xor_spec top (top - Z.of_nat (S i)) (p - base))
    as (Hd & Hq0 & Hq1 & Hq2 & Hm1 & Hm2 & Hback); [lia|lia|lia|done|].
  replace (top - Z.of_nat (S i) + 1) with (top - Z.of_nat i) in * by lia.
  unfold q in *. rewrite Hsize in * by lia.
  set (o := Z.lxor (p - base) (2 ^ (top - Z.of_nat (S i)))) in *.
  replace (base + o - base) with o by lia. rewrite Hback.
  replace (Z.min p (base + o) - base) with (Z.min (p - base) o) by lia.
  split_and!; try done; lia.
Qed.

Lemma aligned_split i p : (S i < L)%nat → aligned_legal i p →
  base + Z.lxor (p - base) (size (S i)) = p + size (S i) ∧
  aligned_legal (S i) p ∧ aligned_legal (S i) (p + size (S i)).
Proof.
  intros Hi (H1 & H2 & x & Hx). pose proof (aligned_half i Hi) as Hh. rewrite Hh in *.
  assert (0 < size (S i)) by (rewrite Hsize; lia). split_and!.
  - rewrite Hsize by done. rewrite lxor_pow2_clear; [lia|].
    rewrite Hx, Hsize by done.
    replace (x * (2 * 2 ^ (top - Z.of_nat (S i)))) with ((2 * x) * 2 ^ (top - Z.of_nat (S i))) by lia.
    rewrite testbit_mul_pow2 by lia. by rewrite Z.odd_mul.
  - split_and!; [lia..|]. exists (2 * x). lia.
  - split_and!; [lia..|]. exists (2 * x + 1). lia.
Qed.

End Aligned.

(** ** The level of a request *)

(** The loop of [get_level_from_size] in [PageAllocator] and in
    [FrameBuddyAllocator]; [levels] iterations are enough. *)
Fixpoint halving_loop (fuel levels : nat) (size : Z) (level : nat) (block_size : Z)
    : exec (nat * Z) :=
  match fuel with
  | O => NoFuel
  | S fuel =>
      if (size <? block_size) && (S level <? levels)%nat
      then halving_loop fuel levels size (S level) (Z.shiftr block_size 1)
      else mret (level, block_size)
  end.

Lemma halving_loop_ok fuel levels size level total :
  (level < levels)%nat → (levels - level ≤ fuel)%nat →
  ∃ l, halving_loop fuel levels size level (Z.shiftr total (Z.of_nat level))
         = Ret (l, Z.shiftr total (Z.of_nat l)) ∧
    (level ≤ l < levels)%nat ∧ (∀ j, (level ≤ j < l)%nat → size < Z.shiftr total (Z.of_nat j)) ∧
    (Z.shiftr total (Z.of_nat l) ≤ size ∨ S l = levels).
Proof.
  revert level. induction fuel as [|fuel IH]; intros level Hl Hf; [lia|]. simpl.
  destruct (Z.ltb_spec size (Z.shiftr total (Z.of_nat level))) as [Hlt|Hge];
    destruct (Nat.ltb_spec (S level) levels) as [Hs|Hs]; simpl.
  - rewrite Z.shiftr_shiftr by lia. replace (Z.of_nat level + 1) with (Z.of_nat (S level)) by lia.
    destruct (IH (S level)) as (l & Heq & Hr & Hb & Hor); [lia..|].
    exists l. split_and!; try done; try lia. intros j Hj.
    destruct (decide (j = level)) as [->|]; [done|apply Hb; lia].
  - exists level. split_and!; try done; lia.
  - exists level. split_and!; try done; lia.
  - exists level. split_and!; try done; lia.
Qed.

(** The level that has exactly the blocks of the requested size. *)
Lemma halving_loop_exact fuel n k u :
  0 < u → (k ≤ n < fuel)%nat →
  halving_loop fuel (S n) (u * 2 ^ Z.of_nat k) 0 (u * 2 ^ Z.of_nat n)
    = Ret ((n - k)%nat, u * 2 ^ Z.of_nat k).
Proof.
  intros Hu Hk. set (total := u * 2 ^ Z.of_nat n).
  assert (∀ j, (j ≤ n)%nat → Z.shiftr total (Z.of_nat j) = u * 2 ^ Z.of_nat (n - j)) as Hsz.
  { intros j Hj. unfold total. rewrite Z.shiftr_div_pow2 by lia.
    replace (Z.of_nat n) with (Z.of_nat (n - j) + Z.of_nat j) by lia.
    rewrite Z.pow_add_r, Z.mul_assoc by lia. apply Z.div_mul. lia. }
  assert (∀ a b, (a < b)%nat → u * 2 ^ Z.of_nat a < u * 2 ^ Z.of_nat b) as Hmono.
  { intros a b Hab. apply Z.mul_lt_mono_pos_l; [done|]. apply Z.pow_lt_mono_r; lia. }
  destruct (halving_loop_ok fuel (S n) (u * 2 ^ Z.of_nat k) 0 total) as (l & Heq & Hl & Hb & Hor);
    [lia..|].
  rewrite Z.shiftr_0_r in Heq. rewrite Heq. rewrite Hsz by lia.
  assert (l = (n - k)%nat) as ->; [|by replace (n - (n - k))%nat with k by lia].
  destruct (lt_eq_lt_dec l (n - k)) as [[Hlt| ->]|Hgt]; [|done|].
  - destruct Hor as [Hor|Hor]; [|lia]. rewrite Hsz in Hor by lia.
    specialize (Hmono k (n - l)%nat ltac:(lia)). lia.
  - specialize (Hb (n - k)%nat ltac:(lia)). rewrite Hsz in Hb by lia.
    replace (n - (n - k))%nat with k in Hb by lia. lia.
Qed.

(** No level is large enough. *)
Lemma halving_loop_large fuel n size total :
  total < size → (n < fuel)%nat →
  halving_loop fuel (S n) size 0 total = Ret (0%nat, total).
Proof.
  intros Hlt Hf. destruct fuel as [|fuel]; [lia|]. simpl.
  by rewrite (proj2 (Z.ltb_ge size total)) by lia.
Qed.

(** ** Level tables kept in memory *)

(** [levels_rep R la F]: the array [la] of list headers represents [F]. *)
Definition levels_rep {A} (R : nat → A → list Z → Prop) (la : list A) (F : list (list Z)) : Prop :=
  length la = length F ∧ ∀ i a l, la !! i = Some a → F !! i = Some l → R i a l.

(** No address is in the lists of two levels. *)
Definition levels_disjoint (F : list (list Z)) : Prop :=
  ∀ i j l k x, F !! i = Some l → F !! j = Some k → x ∈ l → x ∈ k → i = j.

(** [x] is in no list but, perhaps, the one of level [i]. *)
Definition only_level (F : list (list Z)) (i : nat) (x : Z) : Prop :=
  ∀ j k, F !! j = Some k → x ∈ k → j = i.

Lemma only_level_in F i l x : levels_disjoint F → F !! i = Some l → x ∈ l → only_level F i x.
Proof. intros Hd Hi Hx j k Hj Hk. by eapply Hd. Qed.
Lemma only_level_fresh F i x : (∀ k, k ∈ F → x ∉ k) → only_level F i x.
Proof. intros Hf j k Hj Hk. exfalso. eapply Hf; [|done]. by eapply list_elem_of_lookup_2. Qed.

Lemma levels_disjoint_insert F i l' :
  levels_disjoint F → (∀ x, x ∈ l' → only_level F i x) → levels_disjoint (<[i := l']> F).
Proof.
  intros Hd Hl' j1 j2 k1 k2 x H1 H2 Hx1 Hx2.
  apply list_lookup_insert_Some in H1 as [(<- & -> & _)|[? H1]];
    apply list_lookup_insert_Some in H2 as [(<- & -> & _)|[? H2]].
  - done.
  - symmetry. by apply (Hl' x Hx1 j2 k2).
  - by apply (Hl' x Hx2 j1 k1).
  - by apply (Hd j1 j2 k1 k2 x).
Qed.

Lemma levels_rep_lookup {A} (R : nat → A → list Z → Prop) la F i l :
  levels_rep R la F → F !! i = Some l → ∃ a, la !! i = Some a ∧ R i a l.
Proof.
  intros [Hlen HR] Hi. destruct (lookup_lt_is_Some_2 la i) as [a Ha].
  { rewrite Hlen. by eapply lookup_lt_Some. }
  eauto.
Qed.

(** An operation on the list of level [i] that keeps the nodes of the other
    levels the [same] keeps the whole table represented. *)
Lemma levels_rep_update {A} (same : Z → Prop) (R R' : nat → A → list Z → Prop) la F i a l' :
  (∀ j b k, (∀ x, x ∈ k → same x) → R j b k → R' j b k) →
  levels_rep R la F → (∀ x, same x ∨ only_level F i x) → R' i a l' →
  levels_rep R' (<[i := a]> la) (<[i := l']> F).
Proof.
  intros Hframe [Hlen HR] Hm Hi. split; [by rewrite !length_insert|].
  intros j b k Hb Hk.
  apply list_lookup_insert_Some in Hb as [(<- & -> & Hlt)|[Hne Hb]].
  - rewrite list_lookup_insert_eq in Hk by lia. by simplify_eq.
  - rewrite list_lookup_insert_ne in Hk by done. apply Hframe; [|by apply HR].
    intros x Hx. destruct (Hm x) as [|Ho]; [done|]. by destruct Hne; rewrite (Ho j k).
Qed.

(** ** From the first free block to the last return *)

Section Lifetime.
Context {St : Type} `{BuddyImplOk St}.

(** The level table of an allocator that has only the whole region free. *)
Definition whole_table : list (list Z) := [bi_base] :: replicate (pred bi_levels) [].

Lemma whole_table_disjoint : levels_disjoint whole_table.
Proof.
  assert (∀ i l x, replicate (pred bi_levels) [] !! i = Some l → x ∉ (l : list Z)) as Hnil.
  { intros i l x [-> _]%lookup_replicate. apply not_elem_of_nil. }
  intros [|i] [|j] l k x Hi Hj Hx Hx'; [done|..]; simpl in *; exfalso;
    [by apply (Hnil j k x)|by apply (Hnil i l x)|by apply (Hnil i l x)].
Qed.

Lemma blocks_from_replicate (size : nat → Z) i n : blocks_from size i (replicate n []) = [].
Proof. revert i. induction n as [|n IH]; intros i; simpl; [done|]. by rewrite IH. Qed.

Lemma whole_table_init s :
  bi_span = bi_size 0 → bi_raw s whole_table → bi_legal 0 bi_base →
  client_inv bi_base bi_span (s, []).
Proof.
  intros Hspan Hraw Hleg. exists [(bi_base, bi_span)]. simpl. rewrite Hspan.
  split; [|split; [|done]].
  - exists whole_table. unfold whole_table, level_blocks. simpl. rewrite blocks_from_replicate.
    split_and!; [|intros i l p q Hi Hp|done].
    + split; [done|]. split.
      * intros [|i] l p Hi Hp; simpl in Hi; simplify_eq; [by apply list_elem_of_singleton in Hp as ->|].
        apply lookup_replicate in Hi as [-> _]. by apply elem_of_nil in Hp.
      * unfold level_blocks; simpl. rewrite blocks_from_replicate.
        apply (tiles_separate bi_base (bi_size 0)). unfold tiles, all_units. simpl.
        by rewrite app_nil_r.
    + apply lookup_replicate in Hi as [-> _]. by apply elem_of_nil in Hp.
  - unfold tiles, all_units. simpl. by rewrite app_nil_r.
Qed.

Lemma all_returned `{!BuddyAligned St} s :
  client_inv bi_base bi_span (s, []) →
  ∃ F, buddy_inv s F ∧ F !! 0%nat = Some [bi_base] ∧
    ∀ i, (0 < i < bi_levels)%nat → F !! i = Some [].
Proof.
  intros (bl & (F & Hinv & Hc & ->) & Ht & _). simpl in Ht. rewrite app_nil_r in Ht.
  destruct (coalesced_whole s F Hinv Hc Ht) as [Hb Hempty]. exists F. split_and!; [done| |done].
  assert ((bi_base, bi_span) ∈ level_blocks bi_size F) as Hin by (rewrite Hb; by left).
  apply elem_of_level_blocks in Hin as ([|i] & l & a & Hi & Ha & Heq).
  - simplify_eq. pose proof (level_blocks_length bi_size F 0 l Hi) as Hlen.
    rewrite Hb in Hlen. simpl in Hlen. destruct l as [|x [|y l]]; [by apply elem_of_nil in Ha| |simpl in Hlen; lia].
    by apply list_elem_of_singleton in Ha as <-.
  - rewrite Hempty in Hi by (pose proof (inv_level s F (S i) l Hinv Hi); lia).
    simplify_eq. by apply elem_of_nil in Ha.
Qed.

End Lifetime.
