(* ===== verification/FreeLists.v ===== *)
(** * Free lists threaded through memory (kernel/src/memory/freelist.rs)

    Both free lists of the kernel keep their links inside the memory they
    manage.  [FreeList] is singly linked, its nodes written at the start of the
    free heap blocks; [DoubleFreeList] is doubly linked, its nodes kept in the
    page list, one 32-byte node per physical frame.  The memory of a [FreeList]
    is a function from addresses to bytes, which clients of the heap share; the
    page list, which nothing else uses, is a function from addresses to nodes.

    The theorems relate each list to the sequence of addresses it holds
    ([fl_rep], [dl_rep]) and show that every operation acts on that sequence as
    a stack with removal, terminates, and writes only to nodes it may write. *)

From stdpp Require Import functions.
From S2P Require Import Prelude.

(** ** FreeList *)

(** Memory, byte by byte.  A [Node] is its [next] pointer: eight bytes in
    little-endian order, the null pointer standing for [None]. *)
Definition node_mem : Type := Z → Z.
Definition read_node (m : node_mem) (p : Z) : option Z :=
  let next := read_le m p 8 in if next =? 0 then None else Some next.
Definition write_node (m : node_mem) (p : Z) (next : option Z) : node_mem :=
  copy_bytes m p (le_bytes 8 (default 0 next)).

Record FreeList := mkFreeList { fl_head : option Z; fl_len : Z }.

Definition FreeList_new : FreeList := mkFreeList None 0.

Definition FreeList_push (m : node_mem) (self : FreeList) (ptr : Z)
    : exec (node_mem * FreeList) :=
  let m := write_node m ptr self.(fl_head) in
  len ← add_chk 64 self.(fl_len) 1;
  mret (m, mkFreeList (Some ptr) len).

Definition FreeList_pop (m : node_mem) (self : FreeList) : exec (option Z * FreeList) :=
  match self.(fl_head) with
  | Some node =>
      len ← sub_chk self.(fl_len) 1;
      mret (Some node, mkFreeList (read_node m node) len)
  | None => mret (None, self)
  end.

(** The [while let] loops take fuel; [len + 1] iterations are enough for a
    well-formed list, and [NoFuel] is the result on any other. *)
Fixpoint exists_loop (fuel : nat) (m : node_mem) (current : option Z) (ptr : Z) : exec bool :=
  match fuel with
  | O => NoFuel
  | S fuel =>
      match current with
      | Some node => if node =? ptr then mret true else exists_loop fuel m (read_node m node) ptr
      | None => mret false
      end
  end.

Definition FreeList_exists (m : node_mem) (self : FreeList) (ptr : Z) : exec bool :=
  exists_loop (S (Z.to_nat self.(fl_len))) m self.(fl_head) ptr.

Fixpoint remove_loop (fuel : nat) (m : node_mem) (self : FreeList)
    (prev current : option Z) (ptr : Z) : exec (node_mem * FreeList) :=
  match fuel with
  | O => NoFuel
  | S fuel =>
      match current with
      | Some node =>
          if node =? ptr then
            len ← sub_chk self.(fl_len) 1;
            match prev with
            | Some prev => mret (write_node m prev (read_node m node), mkFreeList self.(fl_head) len)
            | None => mret (m, mkFreeList (read_node m node) len)
            end
          else remove_loop fuel m self current (read_node m node) ptr
      | None => mret (m, self)
      end
  end.

Definition FreeList_remove (m : node_mem) (self : FreeList) (ptr : Z)
    : exec (node_mem * FreeList) :=
  remove_loop (S (Z.to_nat self.(fl_len))) m self None self.(fl_head) ptr.

(** *** Nodes in memory *)

(** Where a node can be: aligned, so that two nodes share no byte. *)
Definition node_addr (p : Z) : Prop := (8 | p) ∧ 0 < p < 2 ^ 64.

(** [m'] differs from [m] only in the bytes of the nodes at [l]. *)
Definition writes_nodes (l : list Z) (m m' : node_mem) : Prop :=
  ∀ u, (∀ x, x ∈ l → ¬ (x ≤ u < x + 8)) → m' u = m u.

Lemma node_addr_apart p q : node_addr p → node_addr q → p ≠ q → p + 8 ≤ q ∨ q + 8 ≤ p.
Proof. intros [[x ->] _] [[y ->] _] Hne. lia. Qed.

Lemma read_node_keep l m m' p :
  writes_nodes l m m' → Forall node_addr l → node_addr p → p ∉ l → read_node m' p = read_node m p.
Proof.
  intros Hw Hl Hp Hout. unfold read_node. rewrite (read_le_ext m m'); [done|].
  intros u Hu. apply Hw. intros x Hx. rewrite Forall_forall in Hl.
  destruct (node_addr_apart p x Hp (Hl x Hx)); [set_solver|lia..].
Qed.

Lemma read_write_node m p next : (∀ x, next = Some x → node_addr x) → read_node (write_node m p next) p = next.
Proof.
  intros Hn. unfold read_node, write_node.
  rewrite (read_le_bytes _ p 8 (default 0 next)); [| |apply in_memory_copy].
  - destruct next as [x|]; simpl; [|done]. destruct (Hn x eq_refl) as [_ ?].
    by rewrite (proj2 (Z.eqb_neq _ _)) by lia.
  - destruct next as [x|]; simpl; [destruct (Hn x eq_refl) as [_ ?]|]; lia.
Qed.

Lemma write_node_writes m p next l : p ∈ l → writes_nodes l m (write_node m p next).
Proof.
  intros Hp u Hu. apply copy_bytes_out. rewrite le_bytes_length. by apply Hu.
Qed.

(** *** The addresses a list holds *)

Fixpoint linked (m : node_mem) (h : option Z) (l : list Z) : Prop :=
  match l with
  | [] => h = None
  | x :: l => h = Some x ∧ linked m (read_node m x) l
  end.

Definition fl_rep (m : node_mem) (self : FreeList) (l : list Z) : Prop :=
  linked m self.(fl_head) l ∧ self.(fl_len) = Z.of_nat (length l) ∧ Forall node_addr l.

Lemma linked_agree m m' h l :
  (∀ x, x ∈ l → read_node m' x = read_node m x) → linked m h l → linked m' h l.
Proof.
  revert h. induction l as [|x l IH]; intros h Hm; simpl; [done|].
  intros [-> Hl]. split; [done|]. rewrite Hm by set_solver. apply IH; set_solver.
Qed.

Lemma linked_head m h l x : linked m h l → Forall node_addr l → h = Some x → node_addr x.
Proof. destruct l as [|y l]; intros Hl Ha ->; simpl in Hl; [done|]. destruct Hl as [[= <-] _]. by inversion Ha. Qed.

Lemma linked_write m h l p v : node_addr p → Forall node_addr l → p ∉ l →
  linked m h l → linked (write_node m p v) h l.
Proof.
  intros Hp Hl Hout. apply linked_agree. intros x Hx. rewrite Forall_forall in Hl.
  apply (read_node_keep [p]); [by apply write_node_writes; left|by constructor|by apply Hl|set_solver].
Qed.

(** A finite chain visits no address twice. *)
Lemma linked_det m h l l' : linked m h l → linked m h l' → l = l'.
Proof.
  revert h l'. induction l as [|x l IH]; intros h [|y l']; simpl.
  - done.
  - by intros -> [? _].
  - by intros [-> _] ?.
  - intros [-> H1] [[= <-] H2]. f_equal. eauto.
Qed.
Lemma linked_drop m h l x l' : linked m h (l ++ x :: l') → linked m (read_node m x) l'.
Proof. revert h. induction l as [|y l IH]; intros h; simpl; intros [-> H]; eauto. Qed.
Lemma linked_NoDup m h l : linked m h l → NoDup l.
Proof.
  revert h. induction l as [|x l IH]; intros h; [by constructor|].
  intros [-> Hl]. constructor; [|by eapply IH].
  intros (l1 & l2 & ->)%list_elem_of_split.
  pose proof (linked_drop _ _ _ _ _ Hl) as Hl2.
  pose proof (linked_det _ _ _ _ Hl Hl2) as Heq.
  apply (f_equal length) in Heq. rewrite length_app in Heq. simpl in Heq. lia.
Qed.

(** *** The operations, on the sequence of addresses *)

Lemma FreeList_new_ok m : fl_rep m FreeList_new [].
Proof. done. Qed.

Lemma FreeList_push_ok m self l p :
  fl_rep m self l → node_addr p → p ∉ l → Z.of_nat (S (length l)) < 2 ^ 64 →
  ∃ m' self', FreeList_push m self p = Ret (m', self') ∧ fl_rep m' self' (p :: l) ∧ writes_nodes [p] m m'.
Proof.
  intros (Hl & Hlen & Ha) Hpa Hp Hb. unfold FreeList_push. rewrite add_chk_ok by lia.
  do 2 eexists. split; [reflexivity|]. split; [|by apply write_node_writes; left].
  split_and!; simpl; [|lia|by constructor]. split; [done|].
  rewrite read_write_node by (intros x; by apply (linked_head m _ l)). by apply linked_write.
Qed.

Lemma FreeList_pop_nil m self : fl_rep m self [] → FreeList_pop m self = Ret (None, self).
Proof. intros [Hl _]. unfold FreeList_pop. simpl in Hl. by rewrite Hl. Qed.

Lemma FreeList_pop_cons m self x l :
  fl_rep m self (x :: l) →
  ∃ self', FreeList_pop m self = Ret (Some x, self') ∧ fl_rep m self' l.
Proof.
  intros ([Hh Hl] & Hlen & Ha). unfold FreeList_pop. rewrite Hh. simpl in Hlen.
  rewrite sub_chk_ok by lia. eexists. split; [reflexivity|].
  apply Forall_cons in Ha as [_ Ha]. split_and!; simpl; [done|lia|done].
Qed.

Lemma exists_loop_ok fuel m h l p :
  linked m h l → (length l < fuel)%nat →
  exists_loop fuel m h p = Ret (bool_decide (p ∈ l)).
Proof.
  revert h l. induction fuel as [|fuel IH]; intros h l Hl Hf; [lia|].
  destruct l as [|x l]; simpl in Hl, Hf; cbn [exists_loop].
  - by rewrite Hl.
  - destruct Hl as [-> Hl]. destruct (Z.eqb_spec x p) as [->|Hne].
    + by rewrite bool_decide_eq_true_2 by set_solver.
    + rewrite (IH _ l Hl) by lia. f_equal. apply bool_decide_ext. set_solver.
Qed.

Lemma FreeList_exists_ok m self l p :
  fl_rep m self l → FreeList_exists m self p = Ret (bool_decide (p ∈ l)).
Proof. intros (Hl & Hlen & _). apply exists_loop_ok; [done|lia]. Qed.

(** Removal, once the loop has passed the node [q]. *)
Lemma remove_loop_ok fuel m self q l1 p l2 :
  linked m (read_node m q) (l1 ++ p :: l2) → NoDup (q :: l1 ++ p :: l2) →
  Forall node_addr (q :: l1 ++ p :: l2) → (length l1 < fuel)%nat → 1 ≤ self.(fl_len) →
  ∃ m', remove_loop fuel m self (Some q) (read_node m q) p
          = Ret (m', mkFreeList self.(fl_head) (self.(fl_len) - 1)) ∧
    linked m' (read_node m' q) (l1 ++ l2) ∧ writes_nodes (q :: l1) m m'.
Proof.
  revert fuel q. induction l1 as [|y l1 IH]; intros [|fuel] q Hl Hnd Ha Hf Hlen; try (simpl in *; lia);
    simpl in *; destruct Hl as [Hq Hl]; rewrite Hq; apply Forall_cons in Ha as [Haq Ha];
    apply NoDup_cons in Hnd as [Hqn Hnd].
  - apply Forall_cons in Ha as [_ Ha]. rewrite Z.eqb_refl, sub_chk_ok by lia. eexists. split; [reflexivity|].
    split; [|by apply write_node_writes; left].
    rewrite read_write_node by (intros x; by apply (linked_head m _ l2)). apply linked_write; [done..| |done].
    set_solver.
  - assert (y ≠ p) as Hne by (apply NoDup_cons in Hnd as [? _]; set_solver).
    rewrite (proj2 (Z.eqb_neq y p)) by done.
    destruct (IH fuel y) as (m' & -> & Hl' & Hm'); [done|done|done|lia|done|].
    exists m'. split; [done|]. split; [|intros u Hu; apply Hm'; set_solver].
    rewrite (read_node_keep (y :: l1) m m' q), Hq; [done|done| |done|set_solver].
    rewrite Forall_forall in Ha |- *. set_solver.
Qed.

Lemma FreeList_remove_ok m self l1 p l2 :
  fl_rep m self (l1 ++ p :: l2) →
  ∃ m' self', FreeList_remove m self p = Ret (m', self') ∧ fl_rep m' self' (l1 ++ l2) ∧
    writes_nodes l1 m m'.
Proof.
  intros (Hl & Hlen & Ha). pose proof (linked_NoDup _ _ _ Hl) as Hnd.
  assert (Forall node_addr (l1 ++ l2)) as Ha' by (rewrite Forall_forall in Ha |- *; set_solver).
  rewrite length_app in Hlen. simpl in Hlen. unfold FreeList_remove.
  destruct l1 as [|q l1]; simpl in Hl, Hlen; destruct Hl as [Hh Hl]; simpl; rewrite Hh.
  - rewrite Z.eqb_refl, sub_chk_ok by lia. do 2 eexists. split; [reflexivity|].
    split; [|done]. split_and!; simpl; [done|lia|done].
  - assert (q ≠ p) as Hne by (apply NoDup_cons in Hnd as [? _]; set_solver).
    rewrite (proj2 (Z.eqb_neq q p)) by done.
    destruct (remove_loop_ok (Z.to_nat self.(fl_len)) m self q l1 p l2) as (m' & Heq & Hl' & Hm');
      [done|done|done|lia|lia|]. rewrite Heq.
    exists m', (mkFreeList self.(fl_head) (self.(fl_len) - 1)). split; [done|]. split; [|done].
    split_and!; simpl; [done| |done]. rewrite length_app. lia.
Qed.

(** ** DoubleFreeList *)

Record DoubleFreeListLink := mkLink { lk_next : option Z; lk_prev : option Z }.
Record DoubleFreeListNode := mkNode { nd_links : DoubleFreeListLink; nd_level_size : option Z }.
Record DoubleFreeList := mkDoubleFreeList { dl_links : DoubleFreeListLink; dl_len : Z }.

(** The node stored at an address of the page list. *)
Abbreviation dnode_mem := (Z → DoubleFreeListNode).

Definition nd_next (n : DoubleFreeListNode) : option Z := n.(nd_links).(lk_next).
Definition nd_prev (n : DoubleFreeListNode) : option Z := n.(nd_links).(lk_prev).
Definition dl_head (self : DoubleFreeList) : option Z := self.(dl_links).(lk_next).

(** Assignments to one field of the node at [p]. *)
Definition set_next (p : Z) (v : option Z) (m : dnode_mem) : dnode_mem :=
  <[p := mkNode (mkLink v (nd_prev (m p))) (m p).(nd_level_size)]> m.
Definition set_prev (p : Z) (v : option Z) (m : dnode_mem) : dnode_mem :=
  <[p := mkNode (mkLink (nd_next (m p)) v) (m p).(nd_level_size)]> m.
Definition set_level_size (p : Z) (v : option Z) (m : dnode_mem) : dnode_mem :=
  <[p := mkNode (m p).(nd_links) v]> m.
Definition set_head (v : option Z) (self : DoubleFreeList) : DoubleFreeList :=
  mkDoubleFreeList (mkLink v self.(dl_links).(lk_prev)) self.(dl_len).

Definition DoubleFreeList_new : DoubleFreeList := mkDoubleFreeList (mkLink None None) 0.

Definition DoubleFreeList_push (m : dnode_mem) (self : DoubleFreeList) (node level_size : Z)
    : exec (dnode_mem * DoubleFreeList) :=
  let m := match dl_head self with
           | Some old_head => set_prev old_head (Some node) m
           | None => m
           end in
  let m := set_next node (dl_head self) m in
  let m := set_prev node None m in
  let m := set_level_size node (Some level_size) m in
  let self := set_head (Some node) self in
  len ← add_chk 64 self.(dl_len) 1;
  mret (m, mkDoubleFreeList self.(dl_links) len).

Definition DoubleFreeList_pop (m : dnode_mem) (self : DoubleFreeList)
    : exec (option Z * dnode_mem * DoubleFreeList) :=
  match dl_head self with
  | Some node =>
      let self := set_head (nd_next (m node)) self in
      let m := match dl_head self with
               | Some next_node => set_prev next_node None m
               | None => m
               end in
      let m := set_next node None m in
      let m := set_prev node None m in
      let m := set_level_size node None m in
      len ← sub_chk self.(dl_len) 1;
      mret (Some node, m, mkDoubleFreeList self.(dl_links) len)
  | None => mret (None, m, self)
  end.

Definition DoubleFreeList_remove (m : dnode_mem) (self : DoubleFreeList) (node : Z)
    : exec (dnode_mem * DoubleFreeList) :=
  let '(m, self) := match nd_prev (m node) with
                    | Some prev => (set_next prev (nd_next (m node)) m, self)
                    | None => (m, set_head (nd_next (m node)) self)
                    end in
  let m := match nd_next (m node) with
           | Some next => set_prev next (nd_prev (m node)) m
           | None => m
           end in
  let m := set_next node None m in
  let m := set_prev node None m in
  let m := set_level_size node None m in
  len ← sub_chk self.(dl_len) 1;
  mret (m, mkDoubleFreeList self.(dl_links) len).

Definition DoubleFreeList_contains (m : dnode_mem) (node level_size : Z) : bool :=
  match (m node).(nd_level_size) with
  | Some size => size =? level_size
  | None => false
  end.

(** *** The addresses a list holds *)

(** The chain from [h], each node tagged [sz] and pointing back, [pv] before
    the first and [nx] after the last. *)
Fixpoint dseg (m : dnode_mem) (sz : Z) (pv h : option Z) (l : list Z) (nx : option Z) : Prop :=
  match l with
  | [] => h = nx
  | x :: l =>
      h = Some x ∧ nd_prev (m x) = pv ∧ (m x).(nd_level_size) = Some sz ∧
      dseg m sz (Some x) (nd_next (m x)) l nx
  end.

Definition dl_rep (m : dnode_mem) (self : DoubleFreeList) (sz : Z) (l : list Z) : Prop :=
  dseg m sz None (dl_head self) l None ∧ self.(dl_len) = Z.of_nat (length l) ∧ NoDup l.

Definition last_or (pv : option Z) (l : list Z) : option Z :=
  match last l with Some x => Some x | None => pv end.

Lemma last_or_cons pv x l : last_or pv (x :: l) = last_or (Some x) l.
Proof.
  unfold last_or. destruct l as [|y l]; [done|]. rewrite last_cons_cons.
  destruct (last (y :: l)) eqn:E; [done|]. by apply last_None in E.
Qed.

Lemma dseg_app m sz pv h l1 l2 nx :
  dseg m sz pv h (l1 ++ l2) nx ↔
  ∃ mid, dseg m sz pv h l1 mid ∧ dseg m sz (last_or pv l1) mid l2 nx.
Proof.
  revert pv h. induction l1 as [|x l1 IH]; intros pv h; simpl.
  - split; [eauto|]. by intros (mid & -> & ?).
  - rewrite last_or_cons. setoid_rewrite IH. split.
    + intros (? & ? & ? & mid & ? & ?). eauto 10.
    + intros (mid & (? & ? & ? & ?) & ?). eauto 10.
Qed.

Lemma dseg_agree m m' sz pv h l nx :
  (∀ x, x ∈ l → m' x = m x) → dseg m sz pv h l nx → dseg m' sz pv h l nx.
Proof.
  revert pv h. induction l as [|x l IH]; intros pv h Hm; simpl; [done|].
  intros (-> & H1 & H2 & H3). rewrite !Hm by set_solver.
  split; [done|]. split; [done|]. split; [done|]. apply IH; [set_solver|done].
Qed.

Lemma dseg_tag m sz pv h l nx x : dseg m sz pv h l nx → x ∈ l → (m x).(nd_level_size) = Some sz.
Proof.
  revert pv h. induction l as [|y l IH]; intros pv h; simpl; [set_solver|].
  intros (_ & _ & Ht & Hl) [->|Hx]%elem_of_cons; eauto.
Qed.

(** Redirecting the end of a segment, and the start of one. *)
Lemma dseg_set_next m sz pv h l q nx nx' :
  q ∉ l → dseg m sz pv h (l ++ [q]) nx → dseg (set_next q nx' m) sz pv h (l ++ [q]) nx'.
Proof.
  intros Hq. rewrite !dseg_app. intros (mid & Hl & Hs). exists mid. split.
  - eapply dseg_agree; [|done]. intros x Hx. apply fn_lookup_insert_ne. set_solver.
  - simpl in *. unfold set_next. rewrite fn_lookup_insert. naive_solver.
Qed.
Lemma dseg_set_prev m sz pv pv' r l nx :
  r ∉ l → dseg m sz pv (Some r) (r :: l) nx → dseg (set_prev r pv' m) sz pv' (Some r) (r :: l) nx.
Proof.
  intros Hr (_ & H1 & H2 & H3). simpl. unfold set_prev. rewrite fn_lookup_insert; simpl.
  split; [done|]. split; [done|]. split; [done|].
  eapply dseg_agree; [|done]. intros x Hx. apply fn_lookup_insert_ne. set_solver.
Qed.

(** Writing the three fields of one node is one update of the memory. *)
Lemma clear_node p m :
  set_level_size p None (set_prev p None (set_next p None m)) p = mkNode (mkLink None None) None ∧
  ∀ x, x ≠ p → set_level_size p None (set_prev p None (set_next p None m)) x = m x.
Proof.
  unfold set_level_size, set_prev, set_next. split; [by rewrite !fn_lookup_insert|].
  intros x Hx. by rewrite !fn_lookup_insert_ne by done.
Qed.

(** *** The operations, on the sequence of addresses *)

Lemma DoubleFreeList_new_ok m sz : dl_rep m DoubleFreeList_new sz [].
Proof. split; [done|]. split; [done|]. constructor. Qed.

Lemma DoubleFreeList_push_ok m self sz l p :
  dl_rep m self sz l → p ∉ l → Z.of_nat (S (length l)) < 2 ^ 64 →
  ∃ m' self', DoubleFreeList_push m self p sz = Ret (m', self') ∧
    dl_rep m' self' sz (p :: l) ∧ (∀ x, x ∉ p :: l → m' x = m x).
Proof.
  intros (Hl & Hlen & Hnd) Hp Hb. unfold DoubleFreeList_push. rewrite add_chk_ok by (simpl; lia).
  do 2 eexists. split; [reflexivity|].
  set (m1 := match dl_head self with Some o => set_prev o (Some p) m | None => m end).
  set (m2 := set_level_size _ _ _).
  assert (m2 p = mkNode (mkLink (dl_head self) None) (Some sz)) as Hm2p.
  { unfold m2, set_level_size, set_prev, set_next. by rewrite !fn_lookup_insert. }
  assert (∀ x, x ≠ p → m2 x = m1 x) as Hm2.
  { intros x Hx. unfold m2, set_level_size, set_prev, set_next. by rewrite !fn_lookup_insert_ne. }
  assert (dseg m1 sz (Some p) (dl_head self) l None) as Hs.
  { destruct l as [|y l]; simpl in Hl; [by simpl|]. destruct Hl as (Hh & Hl).
    unfold m1. rewrite Hh. apply dseg_set_prev with None; [by apply NoDup_cons in Hnd as [? _]|].
    simpl. by split. }
  split; [split; [|split; simpl; [lia|by constructor]]|].
  - simpl. rewrite Hm2p. simpl. split; [done|]. split; [done|]. split; [done|].
    eapply dseg_agree; [|done]. intros x Hx. apply Hm2. set_solver.
  - intros x Hx. rewrite Hm2 by set_solver. unfold m1.
    destruct l as [|y l]; simpl in Hl; [by rewrite Hl|]. destruct Hl as (-> & _).
    apply fn_lookup_insert_ne. set_solver.
Qed.

Lemma DoubleFreeList_pop_nil m self sz :
  dl_rep m self sz [] → DoubleFreeList_pop m self = Ret (None, m, self).
Proof. intros [Hl _]. unfold DoubleFreeList_pop. simpl in Hl. by rewrite Hl. Qed.

(** Taking [p] out of a chain: its neighbours are linked to each other. *)
Definition unlink (m : dnode_mem) (h pv nx : option Z) : dnode_mem * option Z :=
  let '(m, h) := match pv with Some q => (set_next q nx m, h) | None => (m, nx) end in
  (match nx with Some r => set_prev r pv m | None => m end, h).

Lemma dseg_unlink_right m sz pv nx p l2 :
  NoDup (p :: l2) → dseg m sz (Some p) nx l2 None →
  dseg (match nx with Some r => set_prev r pv m | None => m end) sz pv nx l2 None.
Proof.
  intros [Hp Hnd]%NoDup_cons Hs. destruct l2 as [|r l2]; simpl in Hs; [by rewrite Hs|].
  destruct Hs as (-> & Hs). apply dseg_set_prev with (Some p); [by apply NoDup_cons in Hnd as [? _]|].
  by split.
Qed.

Lemma unlink_ok m sz h l1 p l2 :
  dseg m sz None h (l1 ++ p :: l2) None → NoDup (l1 ++ p :: l2) →
  nd_prev (m p) = last_or None l1 ∧
  dseg (unlink m h (nd_prev (m p)) (nd_next (m p))).1 sz None
    (unlink m h (nd_prev (m p)) (nd_next (m p))).2 (l1 ++ l2) None ∧
  (∀ x, x ∉ l1 ++ l2 → (unlink m h (nd_prev (m p)) (nd_next (m p))).1 x = m x).
Proof.
  intros Hs Hnd. apply dseg_app in Hs as (mid & Hs1 & -> & Hpv & _ & Hs2).
  split; [done|]. rewrite Hpv. set (nx := nd_next (m p)) in *.
  apply NoDup_app in Hnd as (Hnd1 & Hd & Hnd2).
  assert (∀ r, nx = Some r → r ∈ l2) as Hnx.
  { intros r Hr. destruct l2 as [|y l2]; simpl in Hs2; [congruence|].
    destruct Hs2 as [Hy _]. rewrite Hr in Hy. simplify_eq. set_solver. }
  destruct (last l1) as [q|] eqn:Hq; unfold last_or in *; rewrite Hq in *; simpl.
  - apply last_Some in Hq as [l1' ->].
    apply NoDup_app in Hnd1 as (_ & Hq & _).
    assert (q ∉ l1') as Hq1 by (intros ?; eapply Hq; set_solver).
    assert (q ∉ l2) as Hq2 by (intros ?; apply (Hd q); set_solver).
    assert (dseg (set_next q nx m) sz (Some p) nx l2 None) as Hs2'.
    { eapply dseg_agree; [|done]. intros x Hx. apply fn_lookup_insert_ne. set_solver. }
    split.
    + apply dseg_app. exists nx. unfold last_or. rewrite last_snoc. split.
      * eapply dseg_agree; [|by eapply dseg_set_next].
        intros x Hx. destruct nx as [r|]; [|done]. apply fn_lookup_insert_ne.
        intros ->. specialize (Hnx x eq_refl). apply (Hd x); set_solver.
      * by apply dseg_unlink_right with p.
    + intros x Hx. destruct nx as [r|].
      * unfold set_prev. rewrite fn_lookup_insert_ne by (specialize (Hnx r eq_refl); set_solver).
        apply fn_lookup_insert_ne. set_solver.
      * apply fn_lookup_insert_ne. set_solver.
  - apply last_None in Hq as ->. simpl. split; [by apply dseg_unlink_right with p|].
    intros x Hx. destruct nx as [r|]; [|done].
    apply fn_lookup_insert_ne. specialize (Hnx r eq_refl). set_solver.
Qed.

Lemma DoubleFreeList_pop_cons m self sz p l :
  dl_rep m self sz (p :: l) →
  ∃ m' self', DoubleFreeList_pop m self = Ret (Some p, m', self') ∧ dl_rep m' self' sz l ∧
    (m' p).(nd_level_size) = None ∧ (∀ x, x ∉ p :: l → m' x = m x).
Proof.
  intros (Hs & Hlen & Hnd). simpl in Hlen.
  destruct (unlink_ok m sz (dl_head self) [] p l Hs Hnd) as (Hpv & Hs' & Hm').
  rewrite Hpv in Hs', Hm'. cbn in Hs', Hm'. destruct Hs as [Hh _].
  unfold DoubleFreeList_pop. rewrite Hh. rewrite sub_chk_ok by (simpl; lia).
  do 2 eexists. split; [reflexivity|]. simpl.
  set (m1 := match nd_next (m p) with Some r => _ | None => _ end) in *.
  destruct (clear_node p m1) as [Hc Hc']. apply NoDup_cons in Hnd as [Hp Hnd].
  split; [split; [|split; simpl; [lia|done]]|split].
  - eapply dseg_agree; [|exact Hs']. intros x Hx. apply Hc'. set_solver.
  - exact (f_equal nd_level_size Hc).
  - intros x Hx. rewrite Hc' by set_solver. apply Hm'. set_solver.
Qed.

Lemma DoubleFreeList_remove_ok m self sz l1 p l2 :
  dl_rep m self sz (l1 ++ p :: l2) →
  ∃ m' self', DoubleFreeList_remove m self p = Ret (m', self') ∧
    dl_rep m' self' sz (l1 ++ l2) ∧ (m' p).(nd_level_size) = None ∧
    (∀ x, x ∉ l1 ++ p :: l2 → m' x = m x).
Proof.
  intros (Hs & Hlen & Hnd). rewrite length_app in Hlen. simpl in Hlen.
  destruct (unlink_ok m sz (dl_head self) l1 p l2 Hs Hnd) as (Hpv & Hs' & Hm').
  apply NoDup_app in Hnd as (Hnd1 & Hd & [Hp Hnd2]%NoDup_cons).
  assert (NoDup (l1 ++ l2)) as Hnd by (apply NoDup_app; set_solver).
  assert (p ∉ l1) as Hp1 by (intros ?; by apply (Hd p); [|left]).
  unfold DoubleFreeList_remove. set (u := unlink _ _ _ _) in *.
  assert ((let '(m0, self0) := match nd_prev (m p) with
             | Some prev => (set_next prev (nd_next (m p)) m, self)
             | None => (m, set_head (nd_next (m p)) self) end in
           (match nd_next (m0 p) with Some next => set_prev next (nd_prev (m0 p)) m0 | None => m0 end,
            self0))
          = (u.1, mkDoubleFreeList (mkLink u.2 (lk_prev (dl_links self))) (dl_len self))) as Hu.
  { unfold u, unlink. destruct (nd_prev (m p)) as [q|] eqn:Hq; simpl.
    - assert (q ≠ p) as Hqp.
      { intros ->. symmetry in Hpv. unfold last_or in Hpv. destruct (last l1) eqn:Hl; [|done].
        simplify_eq. apply Hp1. apply last_Some in Hl as [? ->]. set_solver. }
      unfold set_next. rewrite fn_lookup_insert_ne by done. rewrite Hq. by destruct self as [[]].
    - by rewrite Hq. }
  destruct (match nd_prev (m p) with Some prev => _ | None => _ end) as [m0 self0].
  injection Hu as Hu1 Hu2. rewrite Hu1, Hu2. rewrite sub_chk_ok by (simpl; lia).
  do 2 eexists. split; [reflexivity|]. simpl.
  destruct (clear_node p u.1) as [Hc Hc'].
  split; [split; [|split; simpl; [rewrite length_app; lia|done]]|split].
  - eapply dseg_agree; [|exact Hs']. intros x Hx. apply Hc'. set_solver.
  - exact (f_equal nd_level_size Hc).
  - intros x Hx. rewrite Hc' by set_solver. apply Hm'. set_solver.
Qed.
