(* ===== verification/HeapAlloc.v ===== *)
(** * HeapAlloc: the kernel heap

    memory/alloc.rs, [BuddyAlloc<L, S>] and its [GlobalAlloc] implementation.
    The state is the allocator and the memory it manages: the free lists are
    threaded through the free blocks themselves, so a client's write to memory
    it does not own would corrupt them.  The operations are proved to implement
    [BuddySystem]; the theorems at the end are about any interleaving of
    [alloc], [dealloc] and client writes on the heap the kernel configures. *)

From stdpp Require Import functions.
From S2P Require Import Prelude Blocks Buddy FreeLists.

Record BuddyAlloc := mkBuddyAlloc {
  ba_heap_start : Z;
  ba_heap_end : Z;
  ba_free_lists : list FreeList;
}.

(** [self.free_lists[level] = fl], for a level that has been indexed. *)
Definition set_free_list (self : BuddyAlloc) (level : nat) (fl : FreeList) : BuddyAlloc :=
  mkBuddyAlloc self.(ba_heap_start) self.(ba_heap_end) (<[level := fl]> self.(ba_free_lists)).

Abbreviation heap := (node_mem * BuddyAlloc)%type.

Section BuddyAlloc.
Context (L : nat) (BS : Z).

Definition BuddyAlloc_max_size : Z := Z.shiftl BS (Z.of_nat L - 1).
Definition BuddyAlloc_block_size (level : nat) : Z :=
  Z.shiftr BuddyAlloc_max_size (Z.of_nat level).

Definition BuddyAlloc_new (heap_start heap_end : Z) : exec BuddyAlloc :=
  let free_lists := replicate L FreeList_new in
  head ← nonnull heap_start;
  _ ← index free_lists 0;
  mret (mkBuddyAlloc heap_start heap_end (<[0%nat := mkFreeList (Some head) 1]> free_lists)).

(** The [while] loop of [get_level_from_size]; [L] iterations are enough. *)
Fixpoint level_loop (fuel level : nat) (size : Z) : exec nat :=
  match fuel with
  | O => NoFuel
  | S fuel =>
      if (size <=? BuddyAlloc_block_size level) && (level <? L)%nat
      then level_loop fuel (S level) size
      else mret level
  end.

Definition BuddyAlloc_get_level_from_size (size : Z) : exec (option nat) :=
  if BuddyAlloc_max_size <? size then mret None
  else
    level ← level_loop L 1 size;
    mret (Some (pred level)).

(** [split_level], given the [get_free_block] it calls. *)
Definition split_level_with (get_free_block : nat → heap → exec (option Z * heap))
    (level : nat) (s : heap) : exec (option Z * heap) :=
  match level with
  | O => mret (None, s)
  | S above =>
      '(r, (m, self)) ← get_free_block above s;
      match r with
      | Some block =>
          let block_size := BuddyAlloc_block_size level in
          buddy_ptr ← nonnull (Z.lxor block block_size);
          fl ← index self.(ba_free_lists) level;
          '(m, fl) ← FreeList_push m fl buddy_ptr;
          mret (Some block, (m, set_free_list self level fl))
      | None => mret (None, (m, self))
      end
  end.

Fixpoint BuddyAlloc_get_free_block (level : nat) (s : heap) {struct level}
    : exec (option Z * heap) :=
  let '(m, self) := s in
  fl ← index self.(ba_free_lists) level;
  '(r, fl) ← FreeList_pop m fl;
  match r with
  | Some free_block => mret (Some free_block, (m, set_free_list self level fl))
  | None =>
      split_level_with BuddyAlloc_get_free_block level (m, set_free_list self level fl)
  end.

Definition BuddyAlloc_split_level : nat → heap → exec (option Z * heap) :=
  split_level_with BuddyAlloc_get_free_block.

Fixpoint BuddyAlloc_merge_buddies (level : nat) (ptr : Z) (s : heap) : exec heap :=
  let '(m, self) := s in
  match level with
  | O =>
      fl ← index self.(ba_free_lists) level;
      '(m, fl) ← FreeList_push m fl ptr;
      mret (m, set_free_list self level fl)
  | S above =>
      let block_size := BuddyAlloc_block_size level in
      buddy ← nonnull (Z.lxor ptr block_size);
      fl ← index self.(ba_free_lists) level;
      ex ← FreeList_exists m fl buddy;
      if (ex : bool) then
        '(m, fl) ← FreeList_remove m fl buddy;
        let first_buddy := Z.min ptr buddy in
        BuddyAlloc_merge_buddies above first_buddy (m, set_free_list self level fl)
      else
        '(m, fl) ← FreeList_push m fl ptr;
        mret (m, set_free_list self level fl)
  end.

(** [core::alloc::Layout]. *)
Record Layout := mkLayout { ly_size : Z; ly_align : Z }.

(** [GlobalAlloc]: the null pointer is [0]. *)
Definition BuddyAlloc_alloc (layout : Layout) (s : heap) : exec (Z * heap) :=
  size ← next_power_of_two 64 layout.(ly_size);
  let size := Z.max size layout.(ly_align) in
  level ← BuddyAlloc_get_level_from_size size;
  match level with
  | None => mret (0, s)
  | Some l =>
      '(block, s) ← BuddyAlloc_get_free_block l s;
      match block with
      | None => mret (0, s)
      | Some b => mret (b, s)
      end
  end.

Definition BuddyAlloc_dealloc (ptr : Z) (layout : Layout) (s : heap) : exec heap :=
  size ← next_power_of_two 64 layout.(ly_size);
  let size := Z.max size layout.(ly_align) in
  level ← BuddyAlloc_get_level_from_size size;
  match level with
  | None => mret s
  | Some l =>
      ptr ← nonnull ptr;
      BuddyAlloc_merge_buddies l ptr s
  end.

End BuddyAlloc.

(** ** The heap as a buddy system *)

Section Instance_.
Context (L : nat) (k base : Z).
Abbreviation size := (BuddyAlloc_block_size L (2 ^ k)).
Abbreviation top := (k + Z.of_nat L - 1).
Context (HL : (0 < L)%nat) (Hk : 3 ≤ k) (Htop : top < 63) (Hbase : (2 ^ top | base))
  (Hpos : 0 < base) (Hend : base + 2 ^ top ≤ 2 ^ 64).

Lemma block_size_pow i : (i < L)%nat → size i = 2 ^ (top - Z.of_nat i).
Proof.
  intros Hi. unfold BuddyAlloc_block_size, BuddyAlloc_max_size.
  rewrite Z.shiftl_mul_pow2, Z.shiftr_div_pow2, <- Z.pow_add_r by lia.
  rewrite <- Z.pow_sub_r by lia. f_equal. lia.
Qed.

Definition heap_legal : nat → Z → Prop := aligned_legal base top size.

Definition heap_take (level : nat) (p : Z) (s : heap) : exec (option heap) :=
  let '(m, self) := s in
  fl ← index self.(ba_free_lists) level;
  ex ← FreeList_exists m fl p;
  if (ex : bool) then
    '(m, fl) ← FreeList_remove m fl p;
    mret (Some (m, set_free_list self level fl))
  else mret None.
Definition heap_pop (level : nat) (s : heap) : exec (option Z * heap) :=
  let '(m, self) := s in
  fl ← index self.(ba_free_lists) level;
  '(r, fl) ← FreeList_pop m fl;
  mret (r, (m, set_free_list self level fl)).
Definition heap_push (level : nat) (p : Z) (s : heap) : exec heap :=
  let '(m, self) := s in
  fl ← index self.(ba_free_lists) level;
  '(m, fl) ← FreeList_push m fl p;
  mret (m, set_free_list self level fl).

(** The free lists represent the level table. *)
Definition heap_raw (s : heap) (F : list (list Z)) : Prop :=
  levels_rep (λ _, fl_rep s.1) s.2.(ba_free_lists) F ∧ levels_disjoint F ∧ length F = L.

(** Clients write bytes at addresses satisfying [P]. *)
Definition heap_touch (P : Z → Prop) (s s' : heap) : Prop :=
  s'.2 = s.2 ∧ ∀ u, ¬ P u → s'.1 u = s.1 u.

(** The allocator writes only to bytes at addresses satisfying [P]. *)
Definition heap_writes (P : Z → Prop) (s s' : heap) : Prop :=
  ∀ u, ¬ P u → s'.1 u = s.1 u.

#[local] Instance heap_impl : BuddyImpl heap := {
  bi_levels := L;
  bi_size := size;
  bi_base := base;
  bi_span := 2 ^ top;
  bi_legal := heap_legal;
  bi_split_buddy := λ level b, nonnull (Z.lxor b (size level));
  bi_merge_buddy := λ level p, nonnull (Z.lxor p (size level));
  bi_pop := heap_pop;
  bi_push := heap_push;
  bi_take := heap_take;
  bi_raw := heap_raw;
  bi_touch := heap_touch;
  bi_writes := heap_writes;
}.

(** The code runs the generic algorithm. *)
Lemma get_free_block_generic level s :
  BuddyAlloc_get_free_block L (2 ^ k) level s = get_block level s.
Proof.
  revert s. induction level as [|above IH]; intros [m self]; simpl.
  - destruct (index _ _) as [fl| |]; simpl; [|done..].
    by destruct (FreeList_pop m fl) as [[[b|] fl']| |].
  - destruct (index _ _) as [fl| |]; simpl; [|done..].
    destruct (FreeList_pop m fl) as [[[b|] fl']| |]; simpl; try done.
    rewrite IH. destruct (get_block above _) as [[[b|] [m' self']]| |]; simpl; try done.
    destruct (nonnull _); simpl; [|done..]. destruct (index _ _) as [fl2| |]; simpl; [|done..].
    by destruct (FreeList_push m' fl2 _) as [[??]| |].
Qed.

Lemma merge_buddies_generic level p s :
  BuddyAlloc_merge_buddies L (2 ^ k) level p s = put_block level p s.
Proof.
  revert p s. induction level as [|above IH]; intros p [m self]; simpl; [done|].
  destruct (nonnull _) as [q| |]; simpl; [|done..].
  destruct (index _ _) as [fl| |] eqn:Hfl; simpl; [|done..].
  destruct (FreeList_exists m fl q) as [[]| |]; simpl; try done.
  destruct (FreeList_remove m fl q) as [[m' fl']| |]; simpl; [apply IH|done..].
Qed.

(** The base is aligned, so exclusive or on addresses is exclusive or on offsets. *)
Lemma heap_xor i p : (S i < L)%nat →
  Z.lxor p (size (S i)) = base + Z.lxor (p - base) (size (S i)).
Proof.
  intros Hi. rewrite block_size_pow by done.
  rewrite <- lxor_base; [f_equal; lia|lia|]. etrans; [|exact Hbase].
  exists (2 ^ (Z.of_nat i)). rewrite <- Z.pow_add_r by lia. f_equal. lia.
Qed.

Lemma heap_buddy i p : (S i < L)%nat → heap_legal (S i) p →
  let q := Z.lxor p (size (S i)) in
  (q = p + size (S i) ∨ q = p - size (S i)) ∧ heap_legal (S i) q ∧
  heap_legal i (Z.min p q) ∧ Z.lxor q (size (S i)) = p.
Proof.
  intros Hi Hp q. rewrite (heap_xor i q) by done. unfold q. rewrite (heap_xor i p) by done.
  apply (aligned_buddy base top L size block_size_pow); [lia|done..].
Qed.

Lemma heap_split i p : (S i < L)%nat → heap_legal i p →
  Z.lxor p (size (S i)) = p + size (S i) ∧
  heap_legal (S i) p ∧ heap_legal (S i) (p + size (S i)).
Proof.
  intros Hi Hp. rewrite heap_xor by done.
  apply (aligned_split base top L size block_size_pow); [lia|done..].
Qed.

(** A node fits into every block, and a block starts where a node can be. *)
Lemma block_size_node i : (i < L)%nat → 8 ≤ size i ∧ (8 | size i).
Proof.
  intros Hi. rewrite block_size_pow by done. change 8 with (2 ^ 3).
  split; [apply Z.pow_le_mono_r; lia|]. exists (2 ^ (top - Z.of_nat i - 3)).
  rewrite <- Z.pow_add_r by lia. f_equal. lia.
Qed.
Lemma heap_legal_node i p : (i < L)%nat → heap_legal i p → node_addr p.
Proof.
  intros Hi (H1 & H2 & H3). destruct (block_size_node i Hi) as [Hs Hd]. split; [|lia].
  replace p with (base + (p - base)) by lia. apply Z.divide_add_r.
  - etrans; [|exact Hbase]. change 8 with (2 ^ 3). exists (2 ^ (top - 3)).
    rewrite <- Z.pow_add_r by lia. f_equal. lia.
  - by etrans.
Qed.
Lemma heap_raw_level s F i l : heap_raw s F → F !! i = Some l → (i < L)%nat.
Proof. intros (_ & _ & <-) Hi. by eapply lookup_lt_Some. Qed.

(** Nodes written at the starts of blocks are inside the blocks. *)
Lemma nodes_inside m m' self self' i l l' : (i < L)%nat → l ⊆ l' → writes_nodes l m m' →
  heap_writes (inside size i l') (m, self) (m', self').
Proof.
  intros Hi Hsub Hw u Hu. apply Hw. intros x Hx Hxu. apply Hu. exists x. split; [by apply Hsub|].
  destruct (block_size_node i Hi). lia.
Qed.

(** The free-list operations on the level table. *)
Lemma heap_raw_update m self F i l m' fl' l' w :
  heap_raw (m, self) F → F !! i = Some l → writes_nodes w m m' → Forall node_addr w →
  (∀ x, x ∈ w → only_level F i x) → fl_rep m' fl' l' → (∀ x, x ∈ l' → only_level F i x) →
  heap_raw (m', set_free_list self i fl') (<[i := l']> F).
Proof.
  intros (Hrep & Hd & Hlen) Hi Hm Hw How Hfl Hl'. split_and!.
  - simpl. apply (levels_rep_update (λ x, x ∉ w) (λ _, fl_rep m)); [|done| |done].
    + intros j b ks Hx (H1 & H2 & H3). split_and!; [|done..]. eapply linked_agree; [|done].
      intros x Hxk. rewrite Forall_forall in H3. apply (read_node_keep w); [done|done|by apply H3|by apply Hx].
    + intros x. destruct (decide (x ∈ w)) as [Hx|Hx]; [right; by apply How|by left].
  - by apply levels_disjoint_insert.
  - by rewrite length_insert.
Qed.

Lemma heap_pop_nil s F i : heap_raw s F → F !! i = Some [] → heap_pop i s = Ret (None, s).
Proof.
  destruct s as [m self]. intros (Hrep & _) Hi. simpl.
  destruct (levels_rep_lookup _ _ _ _ _ Hrep Hi) as (fl & Hfl & Hr). exec_steps.
  rewrite (FreeList_pop_nil m fl) by done. simpl. unfold mret, exec_ret, set_free_list.
  rewrite list_insert_id by done. by destruct self.
Qed.

Lemma heap_pop_cons s F i x l : heap_raw s F → F !! i = Some (x :: l) →
  ∃ s', heap_pop i s = Ret (Some x, s') ∧ heap_raw s' (<[i := l]> F) ∧
    heap_writes (inside size i (x :: l)) s s'.
Proof.
  destruct s as [m self]. intros Hraw Hi. pose proof Hraw as (Hrep & Hd & _). simpl.
  destruct (levels_rep_lookup _ _ _ _ _ Hrep Hi) as (fl & Hfl & Hr). exec_steps.
  destruct (FreeList_pop_cons m fl x l Hr) as (fl' & -> & Hr'). eexists. split; [reflexivity|].
  split; [|done]. eapply (heap_raw_update _ _ _ _ _ _ _ _ []); [done..|set_solver|done|].
  intros y Hy. eapply only_level_in; [done..|]. by right.
Qed.

Lemma heap_push_ok s F i l p :
  heap_raw s F → F !! i = Some l → heap_legal i p → (∀ ks, ks ∈ F → p ∉ ks) →
  Z.of_nat (S (length l)) < 2 ^ 64 →
  ∃ s', heap_push i p s = Ret s' ∧ heap_raw s' (<[i := p :: l]> F) ∧
    heap_writes (inside size i (p :: l)) s s'.
Proof.
  destruct s as [m self]. intros Hraw Hi Hleg Hp Hlen. pose proof Hraw as (Hrep & Hd & _). simpl.
  pose proof (heap_raw_level _ _ _ _ Hraw Hi) as HiL. pose proof (heap_legal_node i p HiL Hleg) as Hpa.
  destruct (levels_rep_lookup _ _ _ _ _ Hrep Hi) as (fl & Hfl & Hr). exec_steps.
  destruct (FreeList_push_ok m fl l p Hr Hpa) as (m' & fl' & -> & Hr' & Hw).
  { apply Hp. by eapply list_elem_of_lookup_2. }
  { done. }
  eexists. split; [reflexivity|]. split; [|apply (nodes_inside _ _ _ _ i [p]); [done|set_solver|done]].
  eapply heap_raw_update; [done..|by constructor| |done|].
  - intros x ->%list_elem_of_singleton. by apply only_level_fresh.
  - intros x [->|Hx]%elem_of_cons; [by apply only_level_fresh|by eapply only_level_in].
Qed.

Lemma heap_take_in s F i l p : heap_raw s F → F !! i = Some l → p ∈ l →
  ∃ s' l', heap_take i p s = Ret (Some s') ∧ l ≡ₚ p :: l' ∧ heap_raw s' (<[i := l']> F) ∧
    heap_writes (inside size i l) s s'.
Proof.
  destruct s as [m self]. intros Hraw Hi Hp. pose proof Hraw as (Hrep & Hd & _). simpl.
  pose proof (heap_raw_level _ _ _ _ Hraw Hi) as HiL.
  destruct (levels_rep_lookup _ _ _ _ _ Hrep Hi) as (fl & Hfl & Hr). exec_steps.
  rewrite (FreeList_exists_ok m fl l p Hr), bool_decide_eq_true_2 by done. simpl.
  apply list_elem_of_split in Hp as (l1 & l2 & ->).
  destruct (FreeList_remove_ok m fl l1 p l2 Hr) as (m' & fl' & -> & Hr' & Hm). simpl.
  do 2 eexists. split; [reflexivity|]. split; [by rewrite Permutation_middle|].
  split; [|apply (nodes_inside _ _ _ _ i l1); [done|set_solver|done]].
  destruct Hr as (_ & _ & Ha). apply Forall_app in Ha as [Ha1 _].
  eapply heap_raw_update; [done..| |done|]; intros x Hx; (eapply only_level_in; [done..|]; set_solver).
Qed.

Lemma heap_take_out s F i l p : heap_raw s F → F !! i = Some l → p ∉ l → heap_take i p s = Ret None.
Proof.
  destruct s as [m self]. intros (Hrep & _) Hi Hp. simpl.
  destruct (levels_rep_lookup _ _ _ _ _ Hrep Hi) as (fl & Hfl & Hr). exec_steps.
  by rewrite (FreeList_exists_ok m fl l p Hr), bool_decide_eq_false_2.
Qed.

Lemma heap_touch_ok P s s' F :
  heap_raw s F → heap_touch P s s' → (∀ u, u ∈ all_units (level_blocks size F) → ¬ P u) →
  heap_raw s' F.
Proof.
  destruct s as [m self], s' as [m' self']. intros Hraw [Heq Hm] HP. pose proof Hraw as ((Hlen & Hrep) & Hd & HF).
  simpl in *. subst self'. split_and!; [|done..]. split; [done|]. simpl. intros i fl l Hfl Hl.
  destruct (Hrep i fl l Hfl Hl) as (H1 & H2 & H3). split_and!; [|done..]. eapply linked_agree; [|done].
  intros p Hp. unfold read_node. rewrite (read_le_ext m m'); [done|]. intros u Hu. apply Hm, HP.
  apply elem_of_all_units. exists (p, size i). split; [apply elem_of_level_blocks; by exists i, l, p|]. simpl.
  destruct (block_size_node i (heap_raw_level _ _ _ _ Hraw Hl)). lia.
Qed.

#[local] Instance heap_impl_ok : BuddyImplOk heap.
Proof.
  assert (2 ^ top < 2 ^ 63) by (apply Z.pow_lt_mono_r; lia).
  split; simpl.
  - done.
  - lia.
  - intros i Hi. rewrite block_size_pow by done. lia.
  - intros i. apply (aligned_half top L size block_size_pow). lia.
  - by intros i p _ (? & ? & _).
  - intros i p Hi Hp. destruct (heap_split i p Hi Hp) as (Hx & H1 & H2).
    rewrite Hx, nonnull_ok; [done|]. destruct H2. lia.
  - intros i p Hi Hp. destruct (heap_buddy i p Hi Hp) as (Hd & Hq & Hm & Hback).
    exists (Z.lxor p (size (S i))). rewrite nonnull_ok by (destruct Hq; lia).
    split_and!; [done..|]. intros _. split; [done|]. rewrite Hback.
    apply nonnull_ok. destruct Hp. lia.
  - by intros s F (_ & _ & ?).
  - apply heap_pop_nil.
  - intros s F i x l Hraw Hi. destruct (heap_pop_cons s F i x l Hraw Hi) as (s' & ? & ? & ?). eauto 10.
  - intros s F i l p Hraw Hi Hleg Hp Hlen.
    destruct (heap_push_ok s F i l p) as (s' & ? & ? & ?); [done..|]. eauto 10.
  - apply heap_take_in.
  - intros s F i l p q Hraw Hi _ _ Hq. by eapply heap_take_out.
  - done.
  - intros P s1 s2 s3 H1 H2 p Hp. by rewrite H2, H1.
  - intros P Q s s' HPQ Hw p Hp. apply Hw. eauto.
  - apply heap_touch_ok.
Qed.

#[local] Instance heap_aligned : BuddyAligned heap.
Proof.
  split; simpl.
  - rewrite block_size_pow by done. f_equal. lia.
  - by intros i p (_ & _ & ?).
  - intros i p q Hi Hp [-> _]%nonnull_inv. by apply heap_buddy.
Qed.

(** A new allocator has the whole heap free, provided that the first word of
    the heap reads as the end of a list: [new] does not write it. *)
Lemma BuddyAlloc_new_ok m heap_end self :
  BuddyAlloc_new L base heap_end = Ret self → read_node m base = None → heap_raw (m, self) whole_table.
Proof.
  intros Hnew Hm. unfold BuddyAlloc_new in Hnew. exec_inv.
  split_and!; [|apply whole_table_disjoint|unfold whole_table; simpl; rewrite length_replicate; lia].
  unfold whole_table. split; simpl.
  - rewrite length_insert, !length_replicate. lia.
  - intros [|i] fl l Hfl Hl; simpl in Hl; simplify_eq.
    + rewrite list_lookup_insert_eq in Hfl by (rewrite length_replicate; lia). simplify_eq.
      split_and!; [by split|done|]. constructor; [|done]. apply (heap_legal_node 0); [lia|].
      split_and!; [lia| |by exists 0; lia]. rewrite block_size_pow by lia. by rewrite Z.sub_0_r.
    + rewrite list_lookup_insert_ne in Hfl by done. apply lookup_replicate in Hfl as [-> _].
      apply lookup_replicate in Hl as [-> _]. apply FreeList_new_ok.
Qed.

(** [get_level_from_size] picks the smallest block that fits. *)
Lemma level_loop_ok fuel level sz :
  (1 ≤ level ≤ L)%nat → (L - level < fuel)%nat → sz ≤ size (pred level) →
  ∃ n, level_loop L (2 ^ k) fuel level sz = Ret n ∧ (1 ≤ n ≤ L)%nat ∧ sz ≤ size (pred n) ∧
    (n = L ∨ size n < sz).
Proof.
  revert level. induction fuel as [|fuel IH]; intros level Hl Hf Hsz; [lia|]. simpl.
  destruct (Z.leb_spec sz (size level)) as [Hle|Hgt]; simpl.
  - destruct (Nat.ltb_spec level L) as [Hlt|Hge].
    + apply IH; simpl; [lia..|done].
    + exists level. split_and!; try done; [lia..|]. left. lia.
  - exists level. split_and!; try done; [lia..|]. by right.
Qed.

Lemma get_level_ok sz :
  sz ≤ 2 ^ top →
  ∃ l, BuddyAlloc_get_level_from_size L (2 ^ k) sz = Ret (Some l) ∧ (l < L)%nat ∧
    sz ≤ size l ∧ (S l = L ∨ size (S l) < sz).
Proof.
  intros Hsz. assert (size 0 = 2 ^ top) as H0 by (rewrite block_size_pow by done; f_equal; lia).
  unfold BuddyAlloc_get_level_from_size.
  replace (BuddyAlloc_max_size L (2 ^ k)) with (size 0) by apply Z.shiftr_0_r.
  rewrite H0, (proj2 (Z.ltb_ge _ _) Hsz).
  destruct (level_loop_ok L 1 sz) as (n & -> & Hn & Hle & Hor); simpl; [lia..|by rewrite H0|].
  exists (pred n). replace (S (pred n)) with n by lia. split_and!; try done. lia.
Qed.

Lemma get_level_none sz :
  2 ^ top < sz → BuddyAlloc_get_level_from_size L (2 ^ k) sz = Ret None.
Proof.
  intros Hsz. assert (size 0 = 2 ^ top) as H0 by (rewrite block_size_pow by done; f_equal; lia).
  unfold BuddyAlloc_get_level_from_size.
  replace (BuddyAlloc_max_size L (2 ^ k)) with (size 0) by apply Z.shiftr_0_r.
  by rewrite H0, (proj2 (Z.ltb_lt _ _) Hsz).
Qed.

End Instance_.

(** ** The kernel's heap *)

Definition HEAP_START : Z := 0xFFFF880000000000.
Definition HEAP_SIZE : Z := 16 * 1024 * 1024.
Definition HEAP_LEVELS : nat := 21.
Definition HEAP_MIN_BLOCK : Z := 16.

Definition ALLOCATOR : exec BuddyAlloc :=
  BuddyAlloc_new HEAP_LEVELS HEAP_START (HEAP_START + HEAP_SIZE).

Abbreviation alloc := (BuddyAlloc_alloc HEAP_LEVELS HEAP_MIN_BLOCK).
Abbreviation dealloc := (BuddyAlloc_dealloc HEAP_LEVELS HEAP_MIN_BLOCK).
Abbreviation heap_block_size := (BuddyAlloc_block_size HEAP_LEVELS HEAP_MIN_BLOCK).

(** What [Layout] guarantees of its fields. *)
Definition valid_layout (ly : Layout) : Prop :=
  0 ≤ ly.(ly_size) < 2 ^ 63 ∧ ∃ a, 0 ≤ a < 63 ∧ ly.(ly_align) = 2 ^ a.

(** The block size a layout needs. *)
Definition layout_need (ly : Layout) : Z := Z.max (2 ^ Z.log2_up ly.(ly_size)) ly.(ly_align).
Definition layout_level (ly : Layout) : nat :=
  match BuddyAlloc_get_level_from_size HEAP_LEVELS HEAP_MIN_BLOCK (layout_need ly) with
  | Ret (Some l) => l
  | _ => 0%nat
  end.

(** Any interleaving of allocations, deallocations of outstanding blocks with
    the layout they were requested with, and writes into outstanding blocks. *)
Inductive heap_step : heap * list (Layout * Z) → heap * list (Layout * Z) → Prop :=
  | heap_step_alloc s s' used ly p :
      valid_layout ly → alloc ly s = Ret (p, s') → p ≠ 0 →
      heap_step (s, used) (s', (ly, p) :: used)
  | heap_step_null s s' used ly :
      valid_layout ly → alloc ly s = Ret (0, s') →
      heap_step (s, used) (s', used)
  | heap_step_dealloc s s' used used' ly p :
      used ≡ₚ (ly, p) :: used' → dealloc p ly s = Ret s' →
      heap_step (s, used) (s', used')
  | heap_step_write s s' used :
      heap_touch (λ u, ∃ x, x ∈ used ∧ x.2 ≤ u < x.2 + x.1.(ly_size)) s s' →
      heap_step (s, used) (s', used).

(** The heap after boot, in memory whose first word is zero: [new] does not
    write the node there, and nothing clears the frames that back the heap. *)
Definition heap_initial (s : heap) : Prop := ALLOCATOR = Ret s.2 ∧ read_node s.1 HEAP_START = None.
Definition heap_reachable (c : heap * list (Layout * Z)) : Prop :=
  ∃ s, heap_initial s ∧ rtc heap_step (s, []) c.

Section Kernel_heap.

#[local] Instance kernel_heap : BuddyImpl heap := heap_impl HEAP_LEVELS 4 HEAP_START.

Lemma HEAP_START_aligned : (2 ^ (4 + Z.of_nat HEAP_LEVELS - 1) | HEAP_START).
Proof. by exists 0xFFFF880000. Qed.
Lemma HEAP_LEVELS_pos : (0 < HEAP_LEVELS)%nat.
Proof. unfold HEAP_LEVELS. lia. Qed.

#[local] Instance kernel_heap_ok : BuddyImplOk heap.
Proof. apply heap_impl_ok; try done; [apply HEAP_LEVELS_pos|apply HEAP_START_aligned]. Qed.
#[local] Instance kernel_heap_aligned : BuddyAligned heap.
Proof. apply heap_aligned; try done; [apply HEAP_LEVELS_pos|apply HEAP_START_aligned]. Qed.

Lemma layout_pow2 ly : valid_layout ly →
  next_power_of_two 64 ly.(ly_size) = Ret (2 ^ Z.log2_up ly.(ly_size)) ∧
  ly.(ly_size) ≤ 2 ^ Z.log2_up ly.(ly_size).
Proof.
  intros [Hs _]. assert (Z.log2_up ly.(ly_size) ≤ 63) as Hlog.
  { rewrite <- (Z.log2_up_pow2 63) by lia. apply Z.log2_up_le_mono. lia. }
  assert (2 ^ Z.log2_up ly.(ly_size) ≤ 2 ^ 63) by (apply Z.pow_le_mono_r; lia).
  split.
  - unfold next_power_of_two. by rewrite (proj2 (Z.ltb_lt _ _)) by lia.
  - destruct (decide (ly.(ly_size) ≤ 1)).
    + pose proof (Z.pow_pos_nonneg 2 (Z.log2_up ly.(ly_size)) ltac:(lia) ltac:(apply Z.log2_up_nonneg)). lia.
    + apply Z.log2_up_spec. lia.
Qed.

Lemma layout_level_ok ly : layout_need ly ≤ HEAP_SIZE →
  BuddyAlloc_get_level_from_size HEAP_LEVELS HEAP_MIN_BLOCK (layout_need ly)
    = Ret (Some (layout_level ly)) ∧
  (layout_level ly < HEAP_LEVELS)%nat ∧ layout_need ly ≤ heap_block_size (layout_level ly) ∧
  (S (layout_level ly) = HEAP_LEVELS ∨ heap_block_size (S (layout_level ly)) < layout_need ly).
Proof.
  intros Hn. destruct (get_level_ok HEAP_LEVELS 4) with (layout_need ly) as (l & Hl & Hlt & Hle & Hor);
    [apply HEAP_LEVELS_pos|done..|].
  change (2 ^ 4) with HEAP_MIN_BLOCK in *. unfold layout_level. rewrite Hl. done.
Qed.

Lemma alloc_fits ly s : valid_layout ly → layout_need ly ≤ HEAP_SIZE →
  alloc ly s =
    '(block, s) ← get_block (layout_level ly) s;
    match block with None => mret (0, s) | Some b => mret (b, s) end.
Proof.
  intros Hv Hn. unfold BuddyAlloc_alloc. rewrite (proj1 (layout_pow2 ly Hv)). simpl.
  change (Z.max _ _) with (layout_need ly). rewrite (proj1 (layout_level_ok ly Hn)). simpl.
  change HEAP_MIN_BLOCK with (2 ^ 4). by rewrite (get_free_block_generic HEAP_LEVELS 4 HEAP_START).
Qed.

Lemma alloc_too_big ly s : valid_layout ly → HEAP_SIZE < layout_need ly → alloc ly s = Ret (0, s).
Proof.
  intros Hv Hn. unfold BuddyAlloc_alloc. rewrite (proj1 (layout_pow2 ly Hv)). simpl.
  change (Z.max _ _) with (layout_need ly). change HEAP_MIN_BLOCK with (2 ^ 4).
  rewrite (get_level_none HEAP_LEVELS 4); [done|apply HEAP_LEVELS_pos|done..].
Qed.

Lemma dealloc_fits ly p s : valid_layout ly → layout_need ly ≤ HEAP_SIZE → p ≠ 0 →
  dealloc p ly s = put_block (layout_level ly) p s.
Proof.
  intros Hv Hn Hp. unfold BuddyAlloc_dealloc. rewrite (proj1 (layout_pow2 ly Hv)). simpl.
  change (Z.max _ _) with (layout_need ly). rewrite (proj1 (layout_level_ok ly Hn)). simpl.
  rewrite nonnull_ok by done. simpl.
  change HEAP_MIN_BLOCK with (2 ^ 4). by rewrite (merge_buddies_generic HEAP_LEVELS 4 HEAP_START).
Qed.

(** Each heap step is a step of a client of the buddy system. *)
Definition as_block (x : Layout * Z) : nat * Z := (layout_level x.1, x.2).
Definition heap_inv (c : heap * list (Layout * Z)) : Prop :=
  client_inv HEAP_START HEAP_SIZE (c.1, as_block <$> c.2) ∧
  Forall (λ x, valid_layout x.1 ∧ layout_need x.1 ≤ HEAP_SIZE) c.2.

Lemma heap_inv_initial s : heap_initial s → heap_inv (s, []).
Proof.
  destruct s as [m self]. intros [Hnew Hm]. simpl in *. split; [|done].
  change (client_inv bi_base bi_span ((m, self), [])). apply whole_table_init; [apply bi_span_size|..].
  - eapply (BuddyAlloc_new_ok HEAP_LEVELS 4 HEAP_START HEAP_LEVELS_pos);
      first [exact Hnew|exact Hm|apply HEAP_START_aligned|done].
  - split_and!; simpl; [done..|]. by exists 0.
Qed.

Lemma heap_inv_used c x : heap_inv c → x ∈ c.2 →
  valid_layout x.1 ∧ layout_need x.1 ≤ HEAP_SIZE ∧
  HEAP_START ≤ x.2 ∧ x.2 + heap_block_size (layout_level x.1) ≤ HEAP_START + HEAP_SIZE ∧
  (heap_block_size (layout_level x.1) | x.2 - HEAP_START).
Proof.
  intros [(bl & Hrep & Ht & Hleg) Hall] Hx. rewrite Forall_forall in Hall.
  destruct (Hall x Hx) as [Hv Hn]. rewrite Forall_forall in Hleg.
  destruct (Hleg (as_block x)) as [_ (H1 & H2 & H3)]; [apply list_elem_of_fmap; eauto|]. done.
Qed.

Lemma heap_inv_step c c' : heap_inv c → heap_step c c' → heap_inv c'.
Proof.
  intros Hinv Hstep. pose proof Hinv as [Hc Hall]. pose proof (heap_inv_used c) as Hused.
  destruct Hstep as [s s' used ly p Hv Ha Hp|s s' used ly Hv Ha|s s' used used' ly p Hp Hd|s s' used Hw];
    simpl in *.
  - destruct (decide (layout_need ly ≤ HEAP_SIZE)) as [Hn|Hn];
      [|rewrite alloc_too_big in Ha by (done || lia); by exec_inv].
    rewrite alloc_fits in Ha by done. destruct (layout_level_ok ly Hn) as (_ & Hlt & _).
    destruct (get_block _ s) as [[[b|] s1]| |] eqn:Hg; simpl in Ha; exec_inv.
    split; [|by constructor]. eapply client_inv_step; [exact Hc|]. by apply (client_get s s').
  - destruct (decide (layout_need ly ≤ HEAP_SIZE)) as [Hn|Hn];
      [|rewrite alloc_too_big in Ha by (done || lia); by exec_inv].
    rewrite alloc_fits in Ha by done. destruct (layout_level_ok ly Hn) as (_ & Hlt & _).
    destruct (get_block _ s) as [[[b|] s1]| |] eqn:Hg; simpl in Ha; exec_inv.
    + exfalso. assert (heap_inv (s', (ly, 0) :: used)) as Hinv'.
      { split; [|by constructor]. eapply client_inv_step; [exact Hc|]. by apply (client_get s s'). }
      destruct (heap_inv_used _ (ly, 0) Hinv') as (_ & _ & Hlo & _); [by left|]. by vm_compute in Hlo.
    + split; [|done]. eapply client_inv_step; [exact Hc|]. by eapply (client_get_none s s').
  - destruct (Hused (ly, p) Hinv) as (Hv & Hn & Hlo & _); [rewrite Hp; by left|]. simpl in *.
    rewrite dealloc_fits in Hd by (done || unfold HEAP_START in *; lia).
    rewrite Hp in Hall. apply Forall_cons in Hall as [_ Hall]. split; [|done].
    eapply client_inv_step; [exact Hc|]. eapply (client_put s s'); [|exact Hd]. by rewrite Hp.
  - split; [|done]. eapply client_inv_step; [exact Hc|]. apply client_write.
    destruct Hw as [Heq Hw]. split; [done|]. intros u Hu. apply Hw. intros (x & Hx & Hxu).
    apply Hu. apply elem_of_all_units. exists (x.2, heap_block_size (layout_level x.1)).
    split; [unfold held; rewrite <- list_fmap_compose; by apply list_elem_of_fmap; eauto|].
    destruct (Hused x Hinv Hx) as (Hv & Hn & _). destruct (layout_level_ok x.1 Hn) as (_ & _ & Hle & _).
    simpl. pose proof (proj2 (layout_pow2 x.1 Hv)). unfold layout_need in Hle. lia.
Qed.

Lemma heap_reachable_inv c : heap_reachable c → heap_inv c.
Proof.
  intros (s & Hi & Hsteps). remember (s, []) as c0 eqn:Hc0.
  assert (heap_inv c0) as Hinv by (subst; by apply heap_inv_initial). clear Hi Hc0.
  induction Hsteps; eauto using heap_inv_step.
Qed.

Lemma heap_inv_block c x : heap_inv c → x ∈ c.2 →
  0 < heap_block_size (layout_level x.1) ∧ x.1.(ly_size) ≤ heap_block_size (layout_level x.1) ∧
  HEAP_START ≤ x.2 ∧ x.2 + heap_block_size (layout_level x.1) ≤ HEAP_START + HEAP_SIZE ∧
  (x.1.(ly_align) | x.2).
Proof.
  intros Hinv Hx. destruct (heap_inv_used c x Hinv Hx) as (Hv & Hn & H1 & H2 & H3).
  destruct (layout_level_ok x.1 Hn) as (_ & Hlt & Hle & _).
  pose proof (proj2 (layout_pow2 x.1 Hv)). destruct Hv as [_ (a & Ha & Hal)].
  pose proof (bi_size_pos (layout_level x.1) Hlt : 0 < heap_block_size (layout_level x.1)).
  unfold layout_need in Hle. split_and!; [lia..|].
  rewrite <- (Z.sub_add HEAP_START x.2). rewrite Hal in *.
  assert (∃ d, 0 ≤ d ∧ heap_block_size (layout_level x.1) = 2 ^ d ∧ d ≤ 24) as (d & Hd0 & Hd & Hd24).
  { exists (4 + Z.of_nat HEAP_LEVELS - 1 - Z.of_nat (layout_level x.1)).
    unfold HEAP_LEVELS in *. split_and!; [lia| |lia].
    by apply (block_size_pow 21 4); [lia..|]. }
  assert (a ≤ d) by (apply (Z.pow_le_mono_r_iff 2); lia).
  apply Z.divide_add_r.
  - etrans; [|exact H3]. rewrite Hd. exists (2 ^ (d - a)). rewrite <- Z.pow_add_r by lia. f_equal. lia.
  - etrans; [|apply HEAP_START_aligned]. exists (2 ^ (24 - a)).
    rewrite <- Z.pow_add_r by lia. f_equal. unfold HEAP_LEVELS. lia.
Qed.

(** C1: whatever the clients do, two outstanding heap allocations never share
    a byte, and each lies in the heap and has the alignment of its layout. *)
Theorem heap_allocations_disjoint s used i j x y :
  heap_reachable (s, used) → used !! i = Some x → used !! j = Some y → i ≠ j →
  (x.2 + x.1.(ly_size) ≤ y.2 ∨ y.2 + y.1.(ly_size) ≤ x.2) ∧
  HEAP_START ≤ x.2 ∧ x.2 + x.1.(ly_size) ≤ HEAP_START + HEAP_SIZE ∧ (x.1.(ly_align) | x.2).
Proof.
  intros Hinv%heap_reachable_inv Hx Hy Hij.
  destruct (heap_inv_block _ x Hinv) as (Hpx & Hsx & Hlo & Hhi & Hal); [by eapply list_elem_of_lookup_2|].
  destruct (heap_inv_block _ y Hinv) as (Hpy & Hsy & _); [by eapply list_elem_of_lookup_2|].
  destruct Hinv as [Hc _]. simpl in Hc.
  apply (client_inv_disjoint _ _ _ _ i j (as_block x) (as_block y)) in Hc;
    [|by rewrite list_lookup_fmap, ?Hx, ?Hy..|done].
  apply units_disjoint in Hc; [|done..]. simpl in Hc. change (2 ^ 4) with HEAP_MIN_BLOCK in Hc.
  split_and!; [lia..|done].
Qed.

Lemma heap_blocks_small s F ly b :
  buddy_inv s F → layout_need ly ≤ HEAP_SIZE → b ∈ level_blocks heap_block_size F →
  b.2 < heap_block_size (layout_level ly) → b.2 < layout_need ly.
Proof.
  intros Hinv Hn (j & l & a & Hj & Ha & ->)%elem_of_level_blocks Hlt. simpl in *.
  destruct (layout_level_ok ly Hn) as (_ & Hl & Hle & Hor).
  pose proof (inv_level s F j l Hinv Hj : (j < HEAP_LEVELS)%nat) as Hjl.
  assert (layout_level ly < j)%nat as Hlj.
  { destruct (decide (layout_level ly < j)%nat); [done|].
    destruct (bi_size_mult j (layout_level ly)) as (k & Hk & Heq); [lia|done|].
    change (heap_block_size j = k * heap_block_size (layout_level ly)) in Heq.
    pose proof (bi_size_pos (layout_level ly) Hl : 0 < heap_block_size (layout_level ly)). nia. }
  destruct Hor as [Hor|Hor]; [lia|].
  destruct (bi_size_mult (S (layout_level ly)) j) as (k & Hk & Heq); [lia|done|].
  change (heap_block_size (S (layout_level ly)) = k * heap_block_size j) in Heq.
  pose proof (bi_size_pos j Hjl : 0 < heap_block_size j). nia.
Qed.

(** C18: for a heap whose first word was zero when it was first used (the static
    allocator trusts that word, see [heap_new_trusts_memory]), after any calls of
    [alloc] and [dealloc] that keep the rules of [GlobalAlloc]: [alloc] returns for
    every valid layout, and returns null exactly when no free block is as large as
    the layout needs. *)
Theorem heap_alloc_null_iff_no_fit s used ly :
  heap_reachable (s, used) → valid_layout ly →
  ∃ p s' F, alloc ly s = Ret (p, s') ∧ heap_raw HEAP_LEVELS s F ∧
    (p = 0 ↔ ∀ b, b ∈ level_blocks heap_block_size F → b.2 < layout_need ly).
Proof.
  intros [(bl & (F & Hinv & Hc & ->) & Ht & _) _]%heap_reachable_inv Hv.
  destruct (decide (layout_need ly ≤ HEAP_SIZE)) as [Hn|Hn].
  - destruct (layout_level_ok ly Hn) as (_ & Hlt & Hle & _).
    destruct (bs_get_ok s (level_blocks heap_block_size F) (layout_level ly)) as (r & s' & bl' & Hg & _ & _ & Hr);
      [by exists F|done|].
    rewrite alloc_fits by done. change (bs_get _ s) with (get_block (layout_level ly) s) in Hg.
    rewrite Hg. destruct r as [a|]; simpl.
    + exists a, s', F. split; [done|]. split; [apply Hinv|]. destruct Hr as [(Ha & _) Hs].
      split; [intros ->; by vm_compute in Ha|]. intros Hall. exfalso.
      destruct (splits_within _ _ (a, heap_block_size (layout_level ly)) Hs) as (b & Hb & H1 & H2);
        [by left|]. specialize (Hall b Hb). simpl in *. lia.
    + exists 0, s', F. split; [done|]. split; [apply Hinv|]. split; [|done].
      intros _ b Hb. destruct Hr as (_ & _ & Hr). by eapply heap_blocks_small; [| |done|apply Hr].
  - exists 0, s, F. rewrite alloc_too_big by (done || lia). split; [done|]. split; [apply Hinv|].
    split; [|done]. intros _ b Hb. destruct (inv_block s F b Hinv Hb) as (_ & H1 & H2).
    change (b.1 + b.2 ≤ HEAP_START + HEAP_SIZE) in H2. change (HEAP_START ≤ b.1) in H1. lia.
Qed.

(** A block that is outstanding can always be given back: [dealloc] does
    not panic, loop or refuse it. *)
Theorem heap_dealloc_total s used x :
  heap_reachable (s, used) → x ∈ used → ∃ s', dealloc x.2 x.1 s = Ret s'.
Proof.
  intros Hinv%heap_reachable_inv Hx.
  destruct (heap_inv_used _ x Hinv Hx) as (Hv & Hn & Hlo & _).
  rewrite dealloc_fits by (done || unfold HEAP_START in *; lia). destruct Hinv as [Hc _].
  apply (client_inv_put _ _ _ _ (as_block x) Hc). apply list_elem_of_fmap. eauto.
Qed.

(** C19: the heap does not fragment for good: once every allocation has been
    returned, an allocation of the whole heap succeeds, at its first address. *)
Theorem heap_coalesces s :
  heap_reachable (s, []) → ∃ s', alloc (mkLayout HEAP_SIZE 1) s = Ret (HEAP_START, s').
Proof.
  intros [Hc _]%heap_reachable_inv.
  destruct (all_returned s Hc) as (F & Hinv & Hl & _).
  destruct (inv_pop 0 s F _ _ Hinv Hl) as (q & s' & F' & Hpop & _ & _ & _ & _ & (H1 & H2 & _) & _).
  exists s'. rewrite alloc_fits by (split; [done|by exists 0] || done).
  change (layout_level (mkLayout HEAP_SIZE 1)) with 0%nat.
  rewrite (get_block_pop 0 s q s' Hpop). simpl. f_equal. f_equal.
  change (q + HEAP_SIZE ≤ HEAP_START + HEAP_SIZE) in H2. change (HEAP_START ≤ q) in H1. lia.
Qed.

(** The bytes of the outstanding blocks [used] are the same in [s] and [s']. *)
Definition client_data_kept (used : list (Layout * Z)) (s s' : heap) : Prop :=
  ∀ x u, x ∈ used → x.2 ≤ u < x.2 + x.1.(ly_size) → s'.1 u = s.1 u.

Lemma writes_keep_data s s' s0 used P :
  heap_inv (s0, used) → heap_writes P s s' →
  (∀ u, u ∈ all_units (held (as_block <$> used)) → ¬ P u) → client_data_kept used s s'.
Proof.
  intros Hinv Hw HP x u Hx Hu. apply Hw, HP. apply elem_of_all_units.
  exists (x.2, heap_block_size (layout_level x.1)). split.
  - unfold held. rewrite <- list_fmap_compose. apply list_elem_of_fmap. eauto.
  - destruct (heap_inv_block _ x Hinv Hx) as (_ & Hle & _). simpl. lia.
Qed.

(** C5: the allocator keeps its hands off its clients' memory.  On a heap of bytes
    whose first word was zero when it was first used, neither [alloc] nor
    [dealloc] changes a byte of a block that stays outstanding, although the free
    lists write their 8-byte links into the same memory. *)
Theorem heap_keeps_client_data s used :
  heap_reachable (s, used) →
  (∀ ly p s', valid_layout ly → alloc ly s = Ret (p, s') → client_data_kept used s s') ∧
  (∀ ly p used' s', used ≡ₚ (ly, p) :: used' → dealloc p ly s = Ret s' →
    client_data_kept used' s s').
Proof.
  intros Hinv%heap_reachable_inv. pose proof Hinv as [Hc Hall]. split.
  - intros ly p s' Hv Ha. destruct (decide (layout_need ly ≤ HEAP_SIZE)) as [Hn|Hn];
      [|rewrite alloc_too_big in Ha by (done || lia); by exec_inv].
    rewrite alloc_fits in Ha by done. destruct (layout_level_ok ly Hn) as (_ & Hlt & _).
    destruct (get_block _ s) as [[r s1]| |] eqn:Hg; simpl in Ha; [|done..].
    assert (s1 = s') as -> by (destruct r; by exec_inv).
    destruct (client_inv_get_writes _ _ _ _ (layout_level ly) r s' Hc Hlt Hg) as (P & Hw & HP).
    by apply (writes_keep_data s s' s used P).
  - intros ly p used' s' Hp Hd.
    destruct (heap_inv_used _ (ly, p) Hinv) as (Hv & Hn & Hlo & _); [simpl; rewrite Hp; by left|].
    simpl in *. rewrite dealloc_fits in Hd by (done || unfold HEAP_START in *; lia).
    assert (heap_inv (s', used')) as Hinv'.
    { eapply heap_inv_step; [exact Hinv|]. eapply heap_step_dealloc; [exact Hp|].
      by rewrite dealloc_fits by (done || unfold HEAP_START in *; lia). }
    destruct (client_inv_put_writes _ _ _ _ (as_block <$> used') (layout_level ly) p s' Hc)
      as (P & Hw & HP); [by rewrite Hp|exact Hd|].
    by apply (writes_keep_data s s' s' used' P).
Qed.

(** [BuddyAlloc::new] never writes the list node at the start of the heap.
    When the first word of the heap does not happen to read as the end of a
    list, the first block handed out leaves a level-0 list that is empty by its
    length and not by its head, and the next request that finds no block
    panics instead of returning null. *)
Theorem heap_new_trusts_memory m self g :
  ALLOCATOR = Ret self → read_node m HEAP_START = Some g →
  ∃ s', alloc (mkLayout HEAP_SIZE 1) (m, self) = Ret (HEAP_START, s') ∧
    alloc (mkLayout HEAP_SIZE 1) s' = Panic.
Proof.
  intros Hnew Hm. vm_compute in Hnew. injection Hnew as <-.
  eexists (m, set_free_list _ 0 (mkFreeList (Some g) 0)). split.
  - rewrite <- Hm. reflexivity.
  - reflexivity.
Qed.

(** *** Witnesses *)

Definition boot_alloc : BuddyAlloc :=
  mkBuddyAlloc HEAP_START (HEAP_START + HEAP_SIZE)
    (mkFreeList (Some HEAP_START) 1 :: replicate 20 FreeList_new).
Definition boot_heap : heap := (λ _, 0, boot_alloc).
Definition after {A} (m : exec (A * heap)) : heap :=
  match m with Ret (_, s) => s | _ => boot_heap end.

Lemma after_alloc ly s p :
  match alloc ly s with Ret (q, _) => q | _ => 0 end = p → p ≠ 0 →
  alloc ly s = Ret (p, after (alloc ly s)).
Proof. destruct (alloc ly s) as [[q s']| |]; simpl; congruence. Qed.

(** Two allocations, one write and one deallocation away from the boot heap. *)
Definition two_blocks : heap :=
  after (alloc (mkLayout 100 8) (after (alloc (mkLayout 40 64) boot_heap))).

Lemma two_blocks_reachable :
  heap_reachable (two_blocks, [(mkLayout 100 8, HEAP_START + 128); (mkLayout 40 64, HEAP_START)]).
Proof.
  exists boot_heap. split; [done|]. unfold two_blocks.
  assert (alloc (mkLayout 40 64) boot_heap
    = Ret (HEAP_START, after (alloc (mkLayout 40 64) boot_heap))) as H1
    by (apply after_alloc; by vm_compute).
  set (s1 := after _) in *.
  assert (alloc (mkLayout 100 8) s1 = Ret (HEAP_START + 128, after (alloc (mkLayout 100 8) s1))) as H2
    by (apply after_alloc; by vm_compute).
  clearbody s1. eapply rtc_l; [|apply rtc_once].
  - eapply heap_step_alloc; [|exact H1|done]. split; [done|by exists 6].
  - eapply heap_step_alloc; [|exact H2|done]. split; [done|by exists 3].
Qed.

Lemma heap_allocations_disjoint_witness :
  HEAP_START + 128 + 100 ≤ HEAP_START ∨ HEAP_START + 40 ≤ HEAP_START + 128.
Proof.
  exact (proj1 (heap_allocations_disjoint _ _ 0 1 _ _ two_blocks_reachable eq_refl eq_refl ltac:(done))).
Defined.

Lemma heap_alloc_null_iff_no_fit_witness :
  ∃ p s' F, alloc (mkLayout (2 ^ 30) 1) two_blocks = Ret (p, s') ∧ heap_raw HEAP_LEVELS two_blocks F ∧
    (p = 0 ↔ ∀ b, b ∈ level_blocks heap_block_size F → b.2 < 2 ^ 30).
Proof.
  apply (heap_alloc_null_iff_no_fit _ _ (mkLayout (2 ^ 30) 1) two_blocks_reachable).
  split; [done|by exists 0].
Defined.

Lemma heap_keeps_client_data_witness :
  ∃ s', dealloc HEAP_START (mkLayout 40 64) two_blocks = Ret s' ∧
    client_data_kept [(mkLayout 100 8, HEAP_START + 128)] two_blocks s'.
Proof.
  assert (match dealloc HEAP_START (mkLayout 40 64) two_blocks with Ret _ => True | _ => False end) as H
    by (by vm_compute).
  destruct (dealloc HEAP_START (mkLayout 40 64) two_blocks) as [s'| |] eqn:Hd; [|done..].
  exists s'. split; [done|].
  eapply (proj2 (heap_keeps_client_data _ _ two_blocks_reachable)); [|exact Hd].
  apply Permutation_swap.
Defined.

Lemma heap_dealloc_total_witness :
  ∃ s', dealloc HEAP_START (mkLayout 40 64) two_blocks = Ret s'.
Proof.
  apply (heap_dealloc_total _ _ (mkLayout 40 64, HEAP_START) two_blocks_reachable).
  right. left.
Defined.

Definition returned : heap :=
  match dealloc HEAP_START (mkLayout 40 64) (after (alloc (mkLayout 40 64) boot_heap)) with
  | Ret s => s
  | _ => boot_heap
  end.

Lemma returned_reachable : heap_reachable (returned, []).
Proof.
  exists boot_heap. split; [done|]. unfold returned.
  assert (alloc (mkLayout 40 64) boot_heap
    = Ret (HEAP_START, after (alloc (mkLayout 40 64) boot_heap))) as H1
    by (apply after_alloc; by vm_compute).
  set (s1 := after _) in *.
  assert (match dealloc HEAP_START (mkLayout 40 64) s1 with Ret _ => True | _ => False end) as H2
    by (by vm_compute).
  clearbody s1. destruct (dealloc HEAP_START (mkLayout 40 64) s1) as [s2| |] eqn:E; [|done..].
  eapply rtc_l; [|apply rtc_once].
  - eapply heap_step_alloc; [|exact H1|done]. split; [done|by exists 6].
  - by apply (heap_step_dealloc s1 s2 _ [] (mkLayout 40 64) HEAP_START).
Qed.

Lemma heap_coalesces_witness :
  ∃ s', alloc (mkLayout HEAP_SIZE 1) returned = Ret (HEAP_START, s').
Proof. apply (heap_coalesces returned returned_reachable). Defined.

Lemma heap_new_trusts_memory_witness :
  ∃ s', alloc (mkLayout HEAP_SIZE 1) (λ _, 0xAA, boot_alloc) = Ret (HEAP_START, s') ∧
    alloc (mkLayout HEAP_SIZE 1) s' = Panic.
Proof. apply (heap_new_trusts_memory (λ _, 0xAA) boot_alloc 0xAAAAAAAAAAAAAAAA); reflexivity. Defined.

End Kernel_heap.
