(* ===== verification/FrameAlloc.v ===== *)
(** * FrameAlloc: physical frames

    memory/paging.rs: [FrameBuddyAllocator], whose free lists are threaded
    through a page list (one 32-byte node per page, kept at the start of the
    memory region the frames come from), and [FrameBuddyAllocatorForest], the
    kernel's global frame allocator.  The state of an allocator is the node
    memory and the allocator; the allocators of a forest share the node memory.

    A single allocator that has its page list to itself implements
    [BuddySystem].  The last part shows what happens when two allocators share
    a page list, which [init] sets up for most regions. *)

From stdpp Require Import functions.
From S2P Require Import Prelude X86 Blocks Buddy FreeLists.

(** [align_of::<DoubleFreeListNode>()]. *)
Definition NODE_ALIGN : Z := 32.

Record FrameBuddyAllocator := mkFrameBuddyAllocator {
  fa_free_lists : list DoubleFreeList;
  fa_levels : nat;
  fa_virt_start : Z;
  fa_virt_end : Z;
  fa_page_list_start : Z;
}.

Definition set_frame_list (self : FrameBuddyAllocator) (level : nat) (fl : DoubleFreeList)
    : FrameBuddyAllocator :=
  mkFrameBuddyAllocator (<[level := fl]> self.(fa_free_lists)) self.(fa_levels)
    self.(fa_virt_start) self.(fa_virt_end) self.(fa_page_list_start).

Abbreviation frames := (dnode_mem * FrameBuddyAllocator)%type.

(** ** One allocator *)

Definition FrameBuddyAllocator_new (L : nat) (levels : nat) (start end_ page_list_start : Z)
    (m : dnode_mem) : exec frames :=
  _ ← rassert (2 <=? levels)%nat;
  _ ← rassert (start mod 4096 =? 0);
  _ ← rassert (end_ mod 4096 =? 0);
  region_size ← sub_chk end_ start;
  pages ← shl_chk 64 1 (Z.of_nat levels - 1);
  expected_size ← mul_chk 64 pages 4096;
  _ ← rassert (region_size =? expected_size);
  let free_lists := replicate L DoubleFreeList_new in
  offset ← sub_chk start page_list_start;
  let page_index := offset / 4096 in
  let page_ptr := page_index * NODE_ALIGN + page_list_start in
  fl ← index free_lists 0;
  ptr ← nonnull (cast 64 page_ptr);
  '(m, fl) ← DoubleFreeList_push m fl ptr (region_size / 4096);
  mret (m, mkFrameBuddyAllocator (<[0%nat := fl]> free_lists) levels start end_ page_list_start).

Definition FrameBuddyAllocator_block_size (self : FrameBuddyAllocator) (level : nat) : exec Z :=
  total ← sub_chk self.(fa_virt_end) self.(fa_virt_start);
  shr_chk 64 (total / 4096) (Z.of_nat level).

Definition FrameBuddyAllocator_get_level_from_size (self : FrameBuddyAllocator) (size : Z)
    : exec (option nat) :=
  total ← sub_chk self.(fa_virt_end) self.(fa_virt_start);
  '(level, block_size) ← halving_loop (S self.(fa_levels)) self.(fa_levels) size 0 total;
  mret (if block_size <? size then None else Some level).

(** [split_level], given the [get_free_block] it calls. *)
Definition frame_split_with (get_free_block : nat → frames → exec (option Z * frames))
    (level : nat) (s : frames) : exec (option Z * frames) :=
  match level with
  | O => mret (None, s)
  | S above =>
      '(r, (m, self)) ← get_free_block above s;
      match r with
      | Some block =>
          pages ← FrameBuddyAllocator_block_size self level;
          block_size ← mul_chk 64 pages NODE_ALIGN;
          buddy_addr ← add_chk 64 block block_size;
          buddy_ptr ← nonnull buddy_addr;
          fl ← index self.(fa_free_lists) level;
          '(m, fl) ← DoubleFreeList_push m fl buddy_ptr pages;
          mret (Some block, (m, set_frame_list self level fl))
      | None => mret (None, (m, self))
      end
  end.

Fixpoint FrameBuddyAllocator_get_free_block (level : nat) (s : frames) {struct level}
    : exec (option Z * frames) :=
  let '(m, self) := s in
  fl ← index self.(fa_free_lists) level;
  '(r, m, fl) ← DoubleFreeList_pop m fl;
  match r with
  | Some block => mret (Some block, (m, set_frame_list self level fl))
  | None =>
      frame_split_with FrameBuddyAllocator_get_free_block level (m, set_frame_list self level fl)
  end.

Definition FrameBuddyAllocator_split_level : nat → frames → exec (option Z * frames) :=
  frame_split_with FrameBuddyAllocator_get_free_block.

Fixpoint FrameBuddyAllocator_merge_buddies (level : nat) (ptr : Z) (s : frames) : exec frames :=
  let '(m, self) := s in
  match level with
  | O =>
      pages ← FrameBuddyAllocator_block_size self level;
      fl ← index self.(fa_free_lists) level;
      '(m, fl) ← DoubleFreeList_push m fl ptr pages;
      mret (m, set_frame_list self level fl)
  | S above =>
      pages ← FrameBuddyAllocator_block_size self level;
      block_size ← mul_chk 64 pages NODE_ALIGN;
      let base := self.(fa_page_list_start) in
      offset ← sub_chk ptr base;
      let buddy_offset := Z.lxor offset block_size in
      buddy_addr ← add_chk 64 base buddy_offset;
      buddy_ptr ← nonnull buddy_addr;
      fl ← index self.(fa_free_lists) level;
      if DoubleFreeList_contains m buddy_ptr pages then
        '(m, fl) ← DoubleFreeList_remove m fl buddy_ptr;
        let merged_ptr := if buddy_addr <? ptr then buddy_ptr else ptr in
        FrameBuddyAllocator_merge_buddies above merged_ptr (m, set_frame_list self level fl)
      else
        '(m, fl) ← DoubleFreeList_push m fl ptr pages;
        mret (m, set_frame_list self level fl)
  end.

Definition FrameBuddyAllocator_allocate_contiguous_frames (n : Z) (s : frames)
    : exec (option Z * frames) :=
  size ← mul_chk 64 4096 n;
  level ← FrameBuddyAllocator_get_level_from_size s.2 size;
  match level with
  | None => mret (None, s)
  | Some level =>
      '(block, (m, self)) ← FrameBuddyAllocator_get_free_block level s;
      match block with
      | None => mret (None, (m, self))
      | Some block =>
          offset ← sub_chk block self.(fa_page_list_start);
          let block_index := offset / NODE_ALIGN in
          bytes ← mul_chk 64 block_index 4096;
          actual_page ← add_chk 64 self.(fa_page_list_start) bytes;
          mret (Some actual_page, (m, self))
      end
  end.

Definition FrameBuddyAllocator_deallocate_contiguous_frames (addr n : Z) (s : frames)
    : exec frames :=
  offset ← sub_chk addr s.2.(fa_page_list_start);
  let page_index := offset / 4096 in
  bytes ← mul_chk 64 page_index NODE_ALIGN;
  node ← add_chk 64 s.2.(fa_page_list_start) bytes;
  ptr ← nonnull node;
  size ← mul_chk 64 4096 n;
  level ← FrameBuddyAllocator_get_level_from_size s.2 size;
  level ← unwrap level;
  FrameBuddyAllocator_merge_buddies level ptr s.

(** ** The allocator as a buddy system *)

Section Allocator.
(** The allocator has [2 ^ n] pages from [vs], and its page list at [pl]. *)
Context (L n : nat) (vs pl : Z).
Abbreviation ve := (vs + 4096 * 2 ^ Z.of_nat n).
Abbreviation first := (pl + 32 * ((vs - pl) / 4096)).
Abbreviation past := (first + 32 * 2 ^ Z.of_nat n).
Context (HL : (n < L)%nat) (Hn : (1 ≤ n)%nat) (Hlist : 0 < pl ≤ vs)
  (Halign : (4096 | vs)) (Hoff : (4096 | vs - pl)) (Hend : ve < 2 ^ 64).

Definition geometry (self : FrameBuddyAllocator) : Prop :=
  self.(fa_levels) = S n ∧ self.(fa_virt_start) = vs ∧ self.(fa_virt_end) = ve ∧
  self.(fa_page_list_start) = pl ∧ length self.(fa_free_lists) = L.

Definition frame_pages (i : nat) : Z := Z.shiftr (2 ^ Z.of_nat n) (Z.of_nat i).
Definition frame_size (i : nat) : Z := 32 * frame_pages i.

Definition frame_legal (i : nat) (p : Z) : Prop :=
  first ≤ p ∧ p + frame_size i ≤ past ∧ (32 | p - pl).

Definition frame_split_buddy (level : nat) (b : Z) : exec Z :=
  block_size ← mul_chk 64 (frame_pages level) NODE_ALIGN;
  buddy_addr ← add_chk 64 b block_size;
  nonnull buddy_addr.
Definition frame_merge_buddy (level : nat) (p : Z) : exec Z :=
  block_size ← mul_chk 64 (frame_pages level) NODE_ALIGN;
  offset ← sub_chk p pl;
  buddy_addr ← add_chk 64 pl (Z.lxor offset block_size);
  nonnull buddy_addr.

Definition frame_pop (level : nat) (s : frames) : exec (option Z * frames) :=
  let '(m, self) := s in
  fl ← index self.(fa_free_lists) level;
  '(r, m, fl) ← DoubleFreeList_pop m fl;
  mret (r, (m, set_frame_list self level fl)).
Definition frame_push (level : nat) (p : Z) (s : frames) : exec frames :=
  let '(m, self) := s in
  fl ← index self.(fa_free_lists) level;
  '(m, fl) ← DoubleFreeList_push m fl p (frame_pages level);
  mret (m, set_frame_list self level fl).
Definition frame_take (level : nat) (p : Z) (s : frames) : exec (option frames) :=
  let '(m, self) := s in
  fl ← index self.(fa_free_lists) level;
  if DoubleFreeList_contains m p (frame_pages level) then
    '(m, fl) ← DoubleFreeList_remove m fl p;
    mret (Some (m, set_frame_list self level fl))
  else mret None.

(** The page-list nodes the allocator looks at. *)
Definition in_zone (x : Z) : Prop := pl ≤ x ≤ past ∧ (32 | x - pl).

(** The lists represent the level table; the nodes of pages that are not free
    carry no size tag, which is all that [contains] looks at. *)
Definition frame_raw (s : frames) (F : list (list Z)) : Prop :=
  geometry s.2 ∧
  levels_rep (λ i fl l, dl_rep s.1 fl (frame_pages i) l) (take (S n) s.2.(fa_free_lists)) F ∧
  levels_disjoint F ∧ length F = S n ∧ (∀ l x, l ∈ F → x ∈ l → in_zone x) ∧
  (∀ x, in_zone x → (∀ l, l ∈ F → x ∉ l) → (s.1 x).(nd_level_size) = None).

(** Other allocators write to their own page lists. *)
Definition frame_touch (_ : Z → Prop) (s s' : frames) : Prop :=
  s'.2 = s.2 ∧ ∀ x, in_zone x → s'.1 x = s.1 x.
Definition frame_writes (P : Z → Prop) (s s' : frames) : Prop := ∀ x, ¬ P x → s'.1 x = s.1 x.

#[local] Instance frame_impl : BuddyImpl frames := {
  bi_levels := S n;
  bi_size := frame_size;
  bi_base := first;
  bi_span := 32 * 2 ^ Z.of_nat n;
  bi_legal := frame_legal;
  bi_split_buddy := frame_split_buddy;
  bi_merge_buddy := frame_merge_buddy;
  bi_pop := frame_pop;
  bi_push := frame_push;
  bi_take := frame_take;
  bi_raw := frame_raw;
  bi_touch := frame_touch;
  bi_writes := frame_writes;
}.

Lemma n_small : (n < 52)%nat.
Proof.
  destruct (decide (n < 52)%nat); [done|]. exfalso.
  assert (2 ^ 52 ≤ 2 ^ Z.of_nat n) by (apply Z.pow_le_mono_r; lia). lia.
Qed.

Lemma frame_pages_pow i : (i ≤ n)%nat → frame_pages i = 2 ^ Z.of_nat (n - i).
Proof.
  intros Hi. unfold frame_pages. rewrite Z.shiftr_div_pow2, <- Z.pow_sub_r by lia. f_equal. lia.
Qed.
Lemma frame_pages_bound i : (i ≤ n)%nat → 1 ≤ frame_pages i ∧ frame_pages i ≤ 2 ^ Z.of_nat n.
Proof.
  intros Hi. rewrite frame_pages_pow by done. split; [|apply Z.pow_le_mono_r; lia].
  pose proof (Z.pow_pos_nonneg 2 (Z.of_nat (n - i))). lia.
Qed.
Lemma frame_size_pow i : (i ≤ n)%nat → frame_size i = 2 ^ (Z.of_nat (n - i) + 5).
Proof. intros Hi. unfold frame_size. rewrite frame_pages_pow, Z.pow_add_r by lia. lia. Qed.

Lemma past_bound : pl ≤ first ∧ past < 2 ^ 64 - 1.
Proof.
  destruct Hoff as [x Hx]. rewrite Hx, Z.div_mul by lia.
  pose proof (Z.pow_pos_nonneg 2 (Z.of_nat n)). lia.
Qed.

Lemma block_size_geometry self level :
  geometry self → (level ≤ n)%nat →
  FrameBuddyAllocator_block_size self level = Ret (frame_pages level).
Proof.
  intros (_ & H1 & H2 & _) Hl. unfold FrameBuddyAllocator_block_size. rewrite H1, H2.
  pose proof n_small. pose proof (Z.pow_pos_nonneg 2 (Z.of_nat n)).
  rewrite sub_chk_ok by lia. simpl. rewrite shr_chk_ok by lia. unfold frame_pages. do 2 f_equal.
  replace (vs + 4096 * 2 ^ Z.of_nat n - vs) with (2 ^ Z.of_nat n * 4096) by lia. by apply Z.div_mul.
Qed.

Lemma geometry_set self level fl : geometry self → geometry (set_frame_list self level fl).
Proof. intros (? & ? & ? & ? & ?). split_and!; simpl; try done. by rewrite length_insert. Qed.

(** The code runs the generic algorithm. *)
Lemma frame_get_generic level s :
  geometry s.2 → (level ≤ n)%nat →
  FrameBuddyAllocator_get_free_block level s = get_block level s ∧
  ∀ r s', get_block level s = Ret (r, s') → geometry s'.2.
Proof.
  revert s. induction level as [|above IH]; intros [m self] Hg Hl; simpl in *.
  - destruct (index _ _) as [fl| |]; simpl; [|done..].
    destruct (DoubleFreeList_pop m fl) as [[[[b|] m'] fl']| |]; simpl; try done;
      (split; [done|]); intros r s' ?; exec_inv; by apply geometry_set.
  - destruct (index _ _) as [fl| |]; simpl; [|done..].
    destruct (DoubleFreeList_pop m fl) as [[[[b|] m'] fl']| |]; simpl; try done.
    { split; [done|]. intros r s' ?. exec_inv. by apply geometry_set. }
    destruct (IH (m', set_frame_list self (S above) fl')) as [-> Hgeo];
      [by apply geometry_set|lia|].
    destruct (get_block above _) as [[[b|] [m2 self2]]| |]; simpl; try done.
    specialize (Hgeo _ _ eq_refl). simpl in Hgeo.
    rewrite (block_size_geometry self2) by done. simpl. unfold frame_split_buddy.
    destruct (mul_chk _ _ _) as [bs| |]; simpl; [|done..].
    destruct (add_chk _ _ _) as [ba| |]; simpl; [|done..].
    destruct (nonnull _) as [bp| |]; simpl; [|done..].
    destruct (index _ _) as [fl2| |]; simpl; [|done..].
    destruct (DoubleFreeList_push m2 fl2 bp _) as [[m3 fl3]| |]; simpl; [|done..].
    split; [done|]. intros r s' ?. exec_inv. by apply geometry_set.
Qed.

Lemma frame_merge_generic level p s :
  geometry s.2 → (level ≤ n)%nat →
  FrameBuddyAllocator_merge_buddies level p s = put_block level p s.
Proof.
  revert p s. induction level as [|above IH]; intros p [m self] Hg Hl; simpl in *;
    rewrite (block_size_geometry self) by done; simpl; [done|].
  unfold frame_merge_buddy. pose proof Hg as (_ & _ & _ & -> & _).
  destruct (mul_chk _ _ _) as [bs| |]; simpl; [|done..].
  destruct (sub_chk _ _) as [off| |]; simpl; [|done..].
  destruct (add_chk _ _ _) as [ba| |]; simpl; [|done..].
  destruct (nonnull ba) as [bp| |] eqn:Hbp; simpl; [|done..].
  apply nonnull_inv in Hbp as [-> _].
  destruct (index _ _) as [fl| |] eqn:Hfl; simpl; [|done..].
  destruct (DoubleFreeList_contains m ba _); simpl; [|done].
  destruct (DoubleFreeList_remove m fl ba) as [[m' fl']| |]; simpl; [|done..].
  rewrite IH by (try apply geometry_set; done || lia). f_equal.
  destruct (Z.ltb_spec ba p); lia.
Qed.

(** Address arithmetic. *)
Lemma frame_legal_zone i p : (i ≤ n)%nat → frame_legal i p → in_zone p.
Proof.
  intros Hi (H1 & H2 & H3). pose proof past_bound. pose proof (frame_pages_bound i Hi).
  unfold frame_size in H2. split; [lia|done].
Qed.

Lemma frame_size_half i : (S i ≤ n)%nat → frame_size i = 2 * frame_size (S i).
Proof.
  intros Hi. rewrite !frame_size_pow, <- Z.pow_succ_r by lia. f_equal. lia.
Qed.

Lemma frame_size_32 i : (32 | frame_size i).
Proof. exists (frame_pages i). unfold frame_size. lia. Qed.

Lemma frame_split_ok i p : (S i ≤ n)%nat → frame_legal i p →
  frame_split_buddy (S i) p = Ret (p + frame_size (S i)) ∧
  frame_legal (S i) p ∧ frame_legal (S i) (p + frame_size (S i)).
Proof.
  intros Hi (H1 & H2 & H3). pose proof (frame_size_half i Hi) as Hh.
  pose proof (frame_pages_bound (S i) Hi). pose proof past_bound.
  assert (0 < frame_size (S i)) by (unfold frame_size; lia).
  split_and!.
  - unfold frame_split_buddy, NODE_ALIGN. unfold frame_size in *. rewrite mul_chk_ok by lia. simpl.
    rewrite add_chk_ok by lia. simpl. rewrite nonnull_ok by lia. f_equal. lia.
  - split_and!; [lia..|done].
  - split_and!; [lia..|]. replace (p + frame_size (S i) - pl) with ((p - pl) + frame_size (S i)) by lia.
    apply Z.divide_add_r; [done|apply frame_size_32].
Qed.

Lemma frame_merge_ok i p : (S i ≤ n)%nat → frame_legal (S i) p →
  let q := pl + Z.lxor (p - pl) (frame_size (S i)) in
  frame_merge_buddy (S i) p = Ret q ∧
  (q = p + frame_size (S i) ∨ q = p - frame_size (S i)) ∧ in_zone q ∧
  (frame_legal (S i) q → frame_legal i (Z.min p q)) ∧
  pl + Z.lxor (q - pl) (frame_size (S i)) = p.
Proof.
  intros Hi Hp q. pose proof (frame_legal_zone _ p Hi Hp) as [Hz1 Hz2]. destruct Hp as (H1 & H2 & H3).
  pose proof (frame_size_half i Hi) as Hh. pose proof (frame_pages_bound (S i) Hi).
  pose proof past_bound. pose proof (frame_size_pow (S i) Hi) as Hsz.
  assert (0 ≤ Z.lxor (p - pl) (frame_size (S i))) as Hpos
    by (apply Z.lxor_nonneg; unfold frame_size; lia).
  assert (q = p + frame_size (S i) ∨ q = p - frame_size (S i)) as Hq.
  { unfold q. rewrite Hsz. destruct (lxor_pow2 (p - pl) (Z.of_nat (n - S i) + 5)); lia. }
  assert (pl ≤ q ≤ past) as Hqb by (unfold q, frame_size in *; lia).
  assert (32 | q - pl) as Hq32.
  { pose proof (frame_size_32 (S i)). destruct Hq as [-> | ->].
    - replace (p + frame_size (S i) - pl) with ((p - pl) + frame_size (S i)) by lia.
      by apply Z.divide_add_r.
    - replace (p - frame_size (S i) - pl) with ((p - pl) - frame_size (S i)) by lia.
      by apply Z.divide_sub_r. }
  split_and!; try done; try lia.
  - unfold frame_merge_buddy, NODE_ALIGN. rewrite mul_chk_ok by (unfold frame_size in *; lia). simpl.
    rewrite sub_chk_ok by lia. simpl.
    replace (frame_pages (S i) * 32) with (frame_size (S i)) by (unfold frame_size; lia).
    rewrite add_chk_ok by (fold q; lia). simpl. by rewrite nonnull_ok by (fold q; lia).
  - intros (Hq1 & Hq2 & _). split_and!; [lia..|]. destruct (Z.min_spec p q) as [[_ ->]|[_ ->]]; done.
  - unfold q. replace (pl + Z.lxor (p - pl) (frame_size (S i)) - pl)
      with (Z.lxor (p - pl) (frame_size (S i))) by lia.
    rewrite Hsz, lxor_pow2_twice. lia.
Qed.

(** The list operations on the level table. *)
Lemma frame_raw_update m self F i l m' fl' l' :
  frame_raw (m, self) F → F !! i = Some l → (∀ x, x ∉ l → x ∉ l' → m' x = m x) →
  dl_rep m' fl' (frame_pages i) l' → (∀ x, x ∈ l' → only_level F i x ∧ in_zone x) →
  (∀ x, x ∈ l → x ∉ l' → (m' x).(nd_level_size) = None) →
  frame_raw (m', set_frame_list self i fl') (<[i := l']> F).
Proof.
  intros (Hg & Hrep & Hd & Hlen & Hz & Htag) Hi Hm Hfl Hl' Hnone.
  assert (i < length F)%nat as Hlt by (by eapply lookup_lt_Some).
  assert (∀ k, k ∈ <[i := l']> F → k = l' ∨ k ∈ F) as Hins.
  { intros k [j Hj]%list_elem_of_lookup.
    apply list_lookup_insert_Some in Hj as [(_ & -> & _)|[_ Hj]]; [by left|right].
    by eapply list_elem_of_lookup_2. }
  split_and!; simpl in *.
  - by apply geometry_set.
  - rewrite take_insert_lt by lia.
    apply (levels_rep_update (λ x, m' x = m x) (λ j fl k, dl_rep m fl (frame_pages j) k)); [|done| |done].
    + intros j fl k Hx (Hs & H1 & H2). split_and!; [by eapply dseg_agree|done..].
    + intros x. destruct (decide (x ∈ l')) as [Hx|Hx]; [right; by apply Hl'|].
      destruct (decide (x ∈ l)) as [Hxl|Hxl]; [right; by eapply only_level_in|]. left. by apply Hm.
  - apply levels_disjoint_insert; [done|]. intros x Hx. by apply Hl'.
  - by rewrite length_insert.
  - intros k x [->|Hk]%Hins Hx; [by apply Hl'|by eapply Hz].
  - intros x Hxz Hx. assert (x ∉ l') as Hxl'.
    { apply Hx. eapply (list_elem_of_lookup_2 _ i). by apply list_lookup_insert_eq. }
    destruct (decide (x ∈ l)) as [Hxl|Hxl]; [by apply Hnone|]. rewrite Hm by done. apply Htag; [done|].
    intros k [j Hj]%list_elem_of_lookup. destruct (decide (i = j)) as [<-|Hij]; [by simplify_eq|].
    apply Hx. eapply (list_elem_of_lookup_2 _ j). by rewrite list_lookup_insert_ne.
Qed.

Lemma frame_raw_lookup m self F i l :
  frame_raw (m, self) F → F !! i = Some l →
  ∃ fl, self.(fa_free_lists) !! i = Some fl ∧ dl_rep m fl (frame_pages i) l.
Proof.
  intros (_ & Hrep & _) Hi. destruct (levels_rep_lookup _ _ _ _ _ Hrep Hi) as (fl & Hfl & Hr).
  apply lookup_take_Some in Hfl as [Hfl _]. eauto.
Qed.

Lemma frame_pop_nil s F i : frame_raw s F → F !! i = Some [] → frame_pop i s = Ret (None, s).
Proof.
  destruct s as [m self]. intros Hraw Hi. simpl.
  destruct (frame_raw_lookup m self F i [] Hraw Hi) as (fl & Hfl & Hr). exec_steps.
  rewrite (DoubleFreeList_pop_nil m fl _ Hr). simpl. unfold mret, exec_ret, set_frame_list.
  rewrite list_insert_id by done. by destruct self.
Qed.

Lemma frame_in_list m self F i l x :
  frame_raw (m, self) F → F !! i = Some l → x ∈ l → only_level F i x ∧ in_zone x.
Proof.
  intros (_ & _ & Hd & _ & Hz & _) Hi Hx. split; [by eapply only_level_in|].
  eapply Hz; [by eapply list_elem_of_lookup_2|done].
Qed.

Lemma frame_pop_cons s F i x l : frame_raw s F → F !! i = Some (x :: l) →
  ∃ s', frame_pop i s = Ret (Some x, s') ∧ frame_raw s' (<[i := l]> F) ∧
    frame_writes (λ u, u ∈ x :: l) s s'.
Proof.
  destruct s as [m self]. intros Hraw Hi. simpl.
  destruct (frame_raw_lookup m self F i _ Hraw Hi) as (fl & Hfl & Hr). exec_steps.
  destruct (DoubleFreeList_pop_cons m fl _ x l Hr) as (m' & fl' & -> & Hr' & Hx & Hm).
  eexists. split; [reflexivity|]. split; [|exact Hm].
  eapply frame_raw_update; [done..| |done| |].
  - intros y Hy _. by apply Hm.
  - intros y Hy. eapply frame_in_list; [done..|]. by right.
  - intros y [->|Hy]%elem_of_cons Hn'; done.
Qed.

Lemma frame_push_ok s F i l p :
  frame_raw s F → F !! i = Some l → frame_legal i p → (∀ ks, ks ∈ F → p ∉ ks) →
  Z.of_nat (S (length l)) < 2 ^ 64 →
  ∃ s', frame_push i p s = Ret s' ∧ frame_raw s' (<[i := p :: l]> F) ∧
    frame_writes (λ u, u ∈ p :: l) s s'.
Proof.
  destruct s as [m self]. intros Hraw Hi Hleg Hp Hlen. simpl.
  destruct (frame_raw_lookup m self F i _ Hraw Hi) as (fl & Hfl & Hr). exec_steps.
  destruct (DoubleFreeList_push_ok m fl (frame_pages i) l p Hr) as (m' & fl' & -> & Hr' & Hm).
  { apply Hp. by eapply list_elem_of_lookup_2. }
  { done. }
  assert (i ≤ n)%nat as Hin.
  { pose proof Hraw as (_ & _ & _ & HlenF & _). apply lookup_lt_Some in Hi. lia. }
  eexists. split; [reflexivity|]. split; [|exact Hm].
  eapply frame_raw_update; [done..| |done| |].
  - intros y _ Hy. by apply Hm.
  - intros y [->|Hy]%elem_of_cons; [|by eapply frame_in_list].
    split; [by apply only_level_fresh|by eapply frame_legal_zone].
  - intros y Hy Hny. set_solver.
Qed.

Lemma frame_take_in s F i l p : frame_raw s F → F !! i = Some l → p ∈ l →
  ∃ s' l', frame_take i p s = Ret (Some s') ∧ l ≡ₚ p :: l' ∧ frame_raw s' (<[i := l']> F) ∧
    frame_writes (λ u, u ∈ l) s s'.
Proof.
  destruct s as [m self]. intros Hraw Hi Hp. simpl.
  destruct (frame_raw_lookup m self F i _ Hraw Hi) as (fl & Hfl & Hr). exec_steps.
  pose proof Hr as (Hs & _ & Hnd). unfold DoubleFreeList_contains.
  rewrite (dseg_tag m _ _ _ _ _ p Hs Hp), Z.eqb_refl.
  apply list_elem_of_split in Hp as (l1 & l2 & ->).
  destruct (DoubleFreeList_remove_ok m fl _ l1 p l2 Hr) as (m' & fl' & -> & Hr' & Hx & Hm). simpl.
  do 2 eexists. split; [reflexivity|]. split; [by rewrite Permutation_middle|].
  split; [|exact Hm]. eapply frame_raw_update; [done..| |done| |].
  - intros y Hy _. by apply Hm.
  - intros y Hy. eapply frame_in_list; [done..|]. set_solver.
  - intros y Hy Hny. assert (y = p) as -> by set_solver. done.
Qed.

Lemma frame_take_out s F i l q :
  frame_raw s F → F !! i = Some l → in_zone q → q ∉ l → frame_take i q s = Ret None.
Proof.
  destruct s as [m self]. intros Hraw Hi Hz Hq. simpl.
  destruct (frame_raw_lookup m self F i _ Hraw Hi) as (fl & Hfl & Hr). exec_steps.
  unfold DoubleFreeList_contains.
  destruct (decide (Exists (λ k, q ∈ k) F)) as [Hex|Hall].
  2:{ destruct Hraw as (_ & _ & _ & _ & _ & Htag). simpl in Htag. rewrite Htag; [done..|].
    intros k Hk Hqk. apply Hall, Exists_exists. eauto. }
  - apply Exists_exists in Hex as (k & [j Hj]%list_elem_of_lookup & Hqk).
    destruct (frame_raw_lookup m self F j k Hraw Hj) as (fl2 & _ & (Hs & _)).
    rewrite (dseg_tag m _ _ _ _ _ q Hs Hqk).
    destruct (Z.eqb_spec (frame_pages j) (frame_pages i)) as [Heq|]; [|done]. exfalso.
    pose proof Hraw as (_ & _ & _ & HlenF & _). apply lookup_lt_Some in Hi as Hi', Hj as Hj'.
    rewrite !frame_pages_pow in Heq by lia. apply Z.pow_inj_r in Heq; [|lia..].
    assert (i = j) as -> by lia. by simplify_eq.
Qed.

Lemma frame_touch_raw P s s' F : frame_raw s F → frame_touch P s s' → frame_raw s' F.
Proof.
  destruct s as [m self], s' as [m' self']. intros (Hg & [Hlen1 Hrep] & Hd & Hlen & Hz & Htag) [Heq Hm].
  simpl in *. subst self'. split_and!; simpl; try done.
  - split; [done|]. intros i fl l Hfl Hl. destruct (Hrep i fl l Hfl Hl) as (Hs & ? & ?).
    split_and!; [|done..]. eapply dseg_agree; [|done]. intros x Hx. apply Hm.
    eapply Hz; [by eapply list_elem_of_lookup_2|done].
  - intros x Hx Hnot. rewrite Hm by done. by apply Htag.
Qed.

Lemma frame_writes_inside s s' F i l k : frame_raw s F → F !! i = Some l →
  frame_writes (λ u, u ∈ k) s s' → frame_writes (inside frame_size i k) s s'.
Proof.
  intros (_ & _ & _ & HlenF & _) Hi Hw x Hx. apply Hw. intros Hk. apply Hx. exists x. split; [done|].
  apply lookup_lt_Some in Hi. pose proof (frame_pages_bound i). unfold frame_size. lia.
Qed.

#[local] Instance frame_impl_ok : BuddyImplOk frames.
Proof.
  pose proof past_bound as [Hfirst Hpast]. pose proof (Z.pow_pos_nonneg 2 (Z.of_nat n)).
  split; simpl.
  - lia.
  - lia.
  - intros i Hi. unfold frame_size. pose proof (frame_pages_bound i). lia.
  - intros i Hi. apply frame_size_half. lia.
  - intros i p _ (? & ? & _). lia.
  - intros i p Hi. apply frame_split_ok. lia.
  - intros i p Hi Hp. destruct (frame_merge_ok i p) as (Hm & Hd & Hz & Hmin & Hback); [lia|done|].
    eexists. split; [exact Hm|]. split; [exact Hd|]. intros Hq. split; [by apply Hmin|].
    destruct (frame_merge_ok i (pl + Z.lxor (p - pl) (frame_size (S i)))) as (Hm' & _); [lia|done|].
    by rewrite Hm', Hback.
  - by intros s F (_ & _ & _ & ? & _).
  - apply frame_pop_nil.
  - intros s F i x l Hraw Hi. destruct (frame_pop_cons s F i x l Hraw Hi) as (s' & ? & ? & ?).
    eauto 10 using frame_writes_inside.
  - intros s F i l p Hraw Hi Hleg Hp Hlen.
    destruct (frame_push_ok s F i l p) as (s' & ? & ? & ?); [done..|]. eauto 10 using frame_writes_inside.
  - intros s F i l p Hraw Hi Hp. destruct (frame_take_in s F i l p Hraw Hi Hp) as (s' & l' & ? & ? & ? & ?).
    eauto 10 using frame_writes_inside.
  - intros s F i l p q Hraw Hi Hp Hm Hq. eapply frame_take_out; [done..| |done].
    assert (S i ≤ n)%nat. { destruct Hraw as (_ & _ & _ & HlenF & _). apply lookup_lt_Some in Hi. lia. }
    destruct (frame_merge_ok i p) as (Hm' & _ & Hz & _); [done..|]. by exec_eq.
  - done.
  - intros P s1 s2 s3 H1 H2 p Hp. by rewrite H2, H1.
  - intros P Q s s' HPQ Hw p Hp. apply Hw. eauto.
  - intros P s s' F Hraw Ht _. by eapply frame_touch_raw.
Qed.

(** *** The allocator's own operations *)

(** The page of a node. *)
Definition page_of (p : Z) : Z := pl + (p - pl) / 32 * 4096.

Lemma page_of_legal i p : (i ≤ n)%nat → frame_legal i p →
  page_of p = vs + 128 * (p - first) ∧ vs ≤ page_of p ∧
  page_of p + 4096 * frame_pages i ≤ ve ∧ (4096 | page_of p - vs) ∧
  pl + (page_of p - pl) / 4096 * 32 = p.
Proof.
  intros Hi (H1 & H2 & [x Hx]). unfold page_of, frame_size in *. pose proof (frame_pages_bound i Hi).
  rewrite Hx, Z.div_mul by lia. destruct Hoff as [y Hy]. rewrite Hy, Z.div_mul in * by lia.
  replace (pl + x * 4096 - pl) with (x * 4096) by lia. rewrite Z.div_mul by lia.
  split_and!; try lia. exists (x - y). lia.
Qed.

Lemma frame_level_exact self k : geometry self → (k ≤ n)%nat →
  FrameBuddyAllocator_get_level_from_size self (4096 * 2 ^ Z.of_nat k) = Ret (Some (n - k)%nat).
Proof.
  intros (H1 & H2 & H3 & _) Hk. unfold FrameBuddyAllocator_get_level_from_size.
  rewrite H1, H2, H3. pose proof (Z.pow_pos_nonneg 2 (Z.of_nat n)).
  rewrite sub_chk_ok by lia. cbn [mbind exec_bind].
  replace (vs + 4096 * 2 ^ Z.of_nat n - vs) with (4096 * 2 ^ Z.of_nat n) by lia.
  rewrite halving_loop_exact by lia. cbn [mbind exec_bind]. by rewrite Z.ltb_irrefl.
Qed.

Lemma frame_level_large self k : geometry self → (n < k)%nat →
  FrameBuddyAllocator_get_level_from_size self (4096 * 2 ^ Z.of_nat k) = Ret None.
Proof.
  intros (H1 & H2 & H3 & _) Hk. unfold FrameBuddyAllocator_get_level_from_size.
  rewrite H1, H2, H3. pose proof (Z.pow_pos_nonneg 2 (Z.of_nat n)).
  assert (2 ^ Z.of_nat n < 2 ^ Z.of_nat k) by (apply Z.pow_lt_mono_r; lia).
  rewrite sub_chk_ok by lia. cbn [mbind exec_bind]. rewrite halving_loop_large by lia.
  cbn [mbind exec_bind]. by rewrite (proj2 (Z.ltb_lt _ _)) by lia.
Qed.

Lemma pow_4096 k : (k < 52)%nat → mul_chk 64 4096 (2 ^ Z.of_nat k) = Ret (4096 * 2 ^ Z.of_nat k).
Proof.
  intros Hk. apply mul_chk_ok.
  assert (2 ^ Z.of_nat k < 2 ^ 52) by (apply Z.pow_lt_mono_r; lia). lia.
Qed.

Lemma client_geometry m self used :
  client_inv first (32 * 2 ^ Z.of_nat n) ((m, self), used) → geometry self.
Proof. by intros (bl & (F & ((? & _) & _) & _) & _). Qed.

(** What an operation of this allocator leaves alone. *)
Definition outside_kept (m m' : dnode_mem) : Prop := ∀ x, ¬ (first ≤ x < past) → m' x = m x.

Lemma allocate_frames_ok m self used k :
  client_inv first (32 * 2 ^ Z.of_nat n) ((m, self), used) → (k < 52)%nat →
  ∃ r m' self', FrameBuddyAllocator_allocate_contiguous_frames (2 ^ Z.of_nat k) (m, self)
      = Ret (r, (m', self')) ∧ outside_kept m m' ∧
    match r with
    | Some v => ∃ b, (k ≤ n)%nat ∧ v = page_of b ∧ frame_legal (n - k) b ∧
        client_inv first (32 * 2 ^ Z.of_nat n) ((m', self'), ((n - k)%nat, b) :: used)
    | None => (m', self') = (m, self) ∧ ∃ F, frame_raw (m, self) F ∧
          tiles first (32 * 2 ^ Z.of_nat n) (level_blocks frame_size F ++ held used) ∧
          ∀ b, b ∈ level_blocks frame_size F → b.2 < 32 * 2 ^ Z.of_nat k
    end.
Proof.
  intros Hc Hk. pose proof (client_geometry m self used Hc) as Hg.
  pose proof Hc as (bl & (F & Hinv & Hco & ->) & Htiles & _).
  unfold FrameBuddyAllocator_allocate_contiguous_frames. rewrite pow_4096 by done. cbn [mbind exec_bind].
  destruct (decide (k ≤ n)%nat) as [Hkn|Hkn]; simpl snd.
  2:{ rewrite frame_level_large by (done || lia). cbn. exists None, m, self. split_and!; try done.
    exists F. split; [apply Hinv|]. split; [done|]. intros b Hb.
    destruct (inv_block (m, self) F b Hinv Hb) as (_ & H1 & H2). simpl in H1, H2. assert (2 ^ Z.of_nat n < 2 ^ Z.of_nat k) by (apply Z.pow_lt_mono_r; lia). lia. }
  rewrite frame_level_exact by done. cbn [mbind exec_bind].
  destruct (frame_get_generic (n - k) (m, self) Hg) as [-> Hgeo]; [lia|].
  destruct (bs_get_ok (m, self) (level_blocks frame_size F) (n - k)) as (r & [m' self'] & bl' & Hget & _ & Hw & Hr);
    [by exists F|simpl; lia|].
  change (get_block (n - k) (m, self) = Ret (r, (m', self'))) in Hget. rewrite Hget.
  assert (outside_kept m m') as Hkept.
  { intros x Hx. apply Hw. intros (b & Hb & Hu)%elem_of_all_units.
    destruct (inv_block (m, self) F b Hinv Hb) as (_ & H1 & H2). simpl in H1, H2. lia. }
  cbn [mbind exec_bind]. destruct r as [b|].
  - destruct Hr as [Hleg _]. simpl in Hleg.
    destruct (page_of_legal (n - k) b) as (_ & Hp1 & Hp2 & _); [lia|done|].
    pose proof (frame_pages_bound (n - k) ltac:(lia)).
    destruct (Hgeo _ _ Hget) as (_ & _ & _ & Hpl & _). simpl in Hpl. rewrite Hpl.
    pose proof (frame_legal_zone (n - k) b ltac:(lia) Hleg) as [Hz _].
    rewrite sub_chk_ok by lia. cbn [mbind exec_bind]. unfold NODE_ALIGN. fold (page_of b) in *.
    unfold page_of in *. rewrite mul_chk_ok by lia. cbn [mbind exec_bind].
    rewrite add_chk_ok by lia. cbn [mbind exec_bind].
    eexists (Some _), m', self'. split; [reflexivity|]. split; [done|].
    exists b. split_and!; try done; [lia..|]. 
    eapply client_inv_step; [exact Hc|]. apply client_get; [simpl; lia|exact Hget].
  - destruct Hr as (Heq & -> & Hr). exists None, m', self'. split; [done|]. split; [done|].
    split; [done|]. exists F. split; [apply Hinv|]. split; [done|]. intros b Hb. specialize (Hr b Hb). simpl in Hr.
    unfold frame_size in Hr. rewrite frame_pages_pow in Hr by lia.
    by replace (n - (n - k))%nat with k in Hr by lia.
Qed.

Lemma deallocate_frames_ok m self used used' k b :
  client_inv first (32 * 2 ^ Z.of_nat n) ((m, self), used) → (k ≤ n)%nat →
  used ≡ₚ ((n - k)%nat, b) :: used' →
  ∃ m' self', FrameBuddyAllocator_deallocate_contiguous_frames (page_of b) (2 ^ Z.of_nat k) (m, self)
      = Ret (m', self') ∧ outside_kept m m' ∧
    client_inv first (32 * 2 ^ Z.of_nat n) ((m', self'), used').
Proof.
  intros Hc Hk Hp. pose proof (client_geometry m self used Hc) as Hg. pose proof n_small.
  pose proof Hc as (bl & (F & Hinv & Hco & ->) & Ht & Hleg). simpl in Hleg. rewrite Hp in Hleg.
  apply Forall_cons in Hleg as [[_ Hleg] _]. simpl in Hleg.
  destruct (page_of_legal (n - k) b) as (_ & Hp1 & Hp2 & _ & Hback); [lia|done|].
  pose proof (frame_pages_bound (n - k) ltac:(lia)).
  pose proof (frame_legal_zone (n - k) b ltac:(lia) Hleg) as [Hz _]. pose proof past_bound.
  unfold FrameBuddyAllocator_deallocate_contiguous_frames. simpl snd.
  pose proof Hg as (_ & _ & _ & -> & _). unfold NODE_ALIGN.
  rewrite sub_chk_ok by lia. cbn [mbind exec_bind].
  rewrite (mul_chk_ok 64 ((page_of b - pl) / 4096) 32) by lia. cbn [mbind exec_bind].
  rewrite add_chk_ok by lia. cbn [mbind exec_bind]. rewrite Hback, nonnull_ok by lia. cbn [mbind exec_bind].
  rewrite pow_4096 by lia. cbn [mbind exec_bind]. rewrite frame_level_exact by done. cbn [mbind exec_bind unwrap].
  rewrite frame_merge_generic by (done || simpl; lia).
  destruct (client_inv_put _ _ _ _ ((n - k)%nat, b) Hc) as [[m' self'] Hput]; [rewrite Hp; by left|].
  exists m', self'. split; [exact Hput|]. split.
  - destruct (bs_put_ok (m, self) (level_blocks frame_size F) (n - k) b) as (s1 & bl' & Hput' & _ & Hw & _);
      [by exists F|simpl; lia|done| |].
    { apply tiles_separate in Ht. unfold held in Ht. rewrite Hp in Ht. simpl in Ht.
      rewrite <- Permutation_middle in Ht. unfold separate in *.
      rewrite app_comm_cons, all_units_app in Ht. by apply NoDup_app in Ht as [? _]. }
    change (bs_put (n - k) b (m, self) = Ret (m', self')) in Hput. exec_eq.
    intros x Hx. apply Hw. intros [Hu%elem_of_units|(b' & Hb' & Hu)%elem_of_all_units]%elem_of_app.
    + simpl in Hu. destruct Hleg as (? & ? & _). lia.
    + destruct (inv_block (m, self) F b' Hinv Hb') as (_ & Hlo & Hhi). simpl in Hlo, Hhi. lia.
  - eapply client_inv_step; [exact Hc|]. eapply client_put; [exact Hp|exact Hput].
Qed.

Lemma frame_foreign_ok m m' self used :
  client_inv first (32 * 2 ^ Z.of_nat n) ((m, self), used) → (∀ x, in_zone x → m' x = m x) →
  client_inv first (32 * 2 ^ Z.of_nat n) ((m', self), used).
Proof. intros Hc Hm. eapply client_inv_step; [exact Hc|]. apply client_write. by split. Qed.

Lemma frame_new_raw m m' fl :
  (∀ x, in_zone x → (m x).(nd_level_size) = None) → dl_rep m' fl (frame_pages 0) [first] →
  (∀ x, x ∉ [first] → m' x = m x) →
  frame_raw (m', mkFrameBuddyAllocator (<[0%nat := fl]> (replicate L DoubleFreeList_new)) (S n) vs ve pl)
    whole_table.
Proof.
  intros Hm Hrep Hm'. pose proof past_bound. pose proof (Z.pow_pos_nonneg 2 (Z.of_nat n)).
  assert (∀ l x, l ∈ whole_table → x ∈ l → x = first) as Hw.
  { intros l x [->|[-> _]%elem_of_replicate]%elem_of_cons Hx; [by apply list_elem_of_singleton in Hx|].
    by apply elem_of_nil in Hx. }
  split_and!; simpl.
  - split_and!; simpl; try done. by rewrite length_insert, length_replicate.
  - rewrite take_insert_lt, take_replicate, Nat.min_l by lia. split.
    + rewrite length_insert. simpl. by rewrite !length_replicate.
    + intros [|j] a l Ha Hl; simpl in Ha, Hl; simplify_eq; [done|].
      apply lookup_replicate in Ha as [-> _], Hl as [-> _]. apply DoubleFreeList_new_ok.
  - apply whole_table_disjoint.
  - by rewrite length_replicate.
  - intros l x Hl Hx. rewrite (Hw l x Hl Hx). split; [lia|]. exists ((vs - pl) / 4096). lia.
  - intros x Hz Hx. rewrite Hm'; [by apply Hm|]. apply Hx. by left.
Qed.

(** A new allocator has all its frames free, provided that the page list has
    been cleared. *)
Lemma FrameBuddyAllocator_new_ok m :
  (∀ x, in_zone x → (m x).(nd_level_size) = None) →
  ∃ m' self, FrameBuddyAllocator_new L (S n) vs ve pl m = Ret (m', self) ∧ outside_kept m m' ∧
    client_inv first (32 * 2 ^ Z.of_nat n) ((m', self), []).
Proof.
  intros Hm. pose proof n_small. pose proof past_bound. pose proof (Z.pow_pos_nonneg 2 (Z.of_nat n)).
  unfold FrameBuddyAllocator_new.
  run_by ltac:(apply Nat.leb_le; lia). run_by ltac:(apply Z.eqb_eq; by apply Z.mod_divide).
  run_by ltac:(apply Z.eqb_eq, Z.mod_divide; [lia|]; apply Z.divide_add_r; [done|apply Z.divide_factor_l]).
  run. replace (Z.of_nat (S n) - 1) with (Z.of_nat n) by lia. run. run.
  run_by ltac:(apply Z.eqb_eq; lia). run. run_by ltac:(destruct L; [lia|done]).
  replace ((vs - pl) / 4096 * NODE_ALIGN + pl) with first by (unfold NODE_ALIGN; lia).
  unfold cast. rewrite Z.mod_small by lia. run.
  replace (vs + 4096 * 2 ^ Z.of_nat n - vs) with (2 ^ Z.of_nat n * 4096) by lia.
  rewrite Z.div_mul by lia.
  destruct (DoubleFreeList_push_ok m DoubleFreeList_new (frame_pages 0) [] first)
    as (m' & fl & Hpush & Hrep & Hm'); [apply DoubleFreeList_new_ok|set_solver|done|].
  replace (frame_pages 0) with (2 ^ Z.of_nat n) in Hpush by (unfold frame_pages; by rewrite Z.shiftr_0_r).
  rewrite Hpush. cbn [mbind exec_bind]. do 2 eexists. split; [reflexivity|]. split.
  { intros x Hx. apply Hm'. intros ->%list_elem_of_singleton. apply Hx. lia. }
  match goal with |- client_inv _ _ ?c => change (client_inv bi_base bi_span c) end. apply whole_table_init.
  - simpl. unfold frame_size, frame_pages. by rewrite Z.shiftr_0_r.
  - by eapply frame_new_raw.
  - split_and!; simpl; [lia| |].
    + unfold frame_size, frame_pages. rewrite Z.shiftr_0_r. lia.
    + exists ((vs - pl) / 4096). lia.
Qed.

(** An allocation of frames whose number is not a power of two is refused
    and changes nothing; it is not rounded up. *)
Theorem frame_alloc_not_rounded m self k :
  geometry self → 0 < k < 2 ^ 52 → is_power_of_two k = false →
  FrameBuddyAllocator_allocate_contiguous_frames k (m, self) = Ret (None, (m, self)).
Proof.
  intros (H1 & H2 & H3 & _) Hk Hpow. unfold FrameBuddyAllocator_allocate_contiguous_frames. run. simpl snd.
  unfold FrameBuddyAllocator_get_level_from_size. rewrite H1, H2, H3.
  pose proof (Z.pow_pos_nonneg 2 (Z.of_nat n)). run.
  replace (vs + 4096 * 2 ^ Z.of_nat n - vs) with (4096 * 2 ^ Z.of_nat n) by lia.
  destruct (halving_loop_ok (S (S n)) (S n) (4096 * k) 0 (4096 * 2 ^ Z.of_nat n)) as (l & Heq & Hl & _ & Hor); [lia..|].
  assert (Z.shiftr (4096 * 2 ^ Z.of_nat n) (Z.of_nat l) = 4096 * 2 ^ Z.of_nat (n - l)) as Hsz.
  { rewrite Z.shiftr_div_pow2 by lia.
    replace (Z.of_nat n) with (Z.of_nat (n - l) + Z.of_nat l) by lia.
    rewrite Z.pow_add_r, Z.mul_assoc by lia. apply Z.div_mul. lia. }
  rewrite Z.shiftr_0_r in Heq. rewrite Heq, Hsz. cbn [mbind exec_bind].
  rewrite (proj2 (Z.ltb_lt _ _)); [done|]. rewrite Hsz in Hor.
  assert (k ≠ 2 ^ Z.of_nat (n - l)) as Hne.
  { intros ->. unfold is_power_of_two in Hpow. rewrite Z.log2_pow2, Z.eqb_refl, andb_true_r in Hpow by lia.
    apply Z.ltb_ge in Hpow. lia. }
  destruct Hor as [Hor|Hor]; [lia|]. assert (n - l = 0)%nat as Hnl by lia. rewrite Hnl in *. simpl in *. lia.
Qed.

End Allocator.

Lemma frame_alloc_not_rounded_witness :
  FrameBuddyAllocator_allocate_contiguous_frames 3
    (λ _, mkNode (mkLink None None) None,
     mkFrameBuddyAllocator (replicate 26 DoubleFreeList_new) 5 0x10000 0x20000 0x8000)
  = Ret (None, (λ _, mkNode (mkLink None None) None,
     mkFrameBuddyAllocator (replicate 26 DoubleFreeList_new) 5 0x10000 0x20000 0x8000)).
Proof.
  apply (frame_alloc_not_rounded 26 4 0x10000 0x8000); try done; try lia.
Defined.
