(* ===== verification/FrameForest.v ===== *)
(** * FrameForest: the kernel's frame allocator

    memory/paging.rs: [fill_page_list], [FrameBuddyAllocatorForest] with its
    [init], and the operations the rest of the kernel calls.  The allocators of
    the forest share the node memory.  The theorems hold for forests that have
    at most one allocator per memory region; the last section runs the code on
    a region that [init] cuts into several allocators, which steal blocks from
    each other. *)

From stdpp Require Import functions.
From S2P Require Import Prelude X86 FrameSource Blocks Buddy FreeLists FrameAlloc.

(** An entry of the memory map the boot loader provides. *)
Record Entry := mkEntry { en_base : Z; en_length : Z; en_usable : bool }.

(** ** Clearing the page lists *)

Definition empty_node : DoubleFreeListNode := mkNode (mkLink None None) None.

Definition fill_entry (hhdm_offset : Z) (entry : Entry) (m : dnode_mem) : exec dnode_mem :=
  if negb (entry.(en_usable) && negb (entry.(en_base) =? 0) && (4096 * 4 <? entry.(en_length))) then
    mret m
  else
    entry_base ← add_chk 64 entry.(en_base) hhdm_offset;
    let needed_entries := entry.(en_length) / 4096 in
    mret (foldl (λ m i, <[entry_base + i * NODE_ALIGN := empty_node]> m) m (seqZ 0 needed_entries)).

Fixpoint fill_page_list (entries : list Entry) (hhdm_offset : Z) (m : dnode_mem) : exec dnode_mem :=
  match entries with
  | [] => mret m
  | entry :: entries =>
      m ← fill_entry hhdm_offset entry m;
      fill_page_list entries hhdm_offset m
  end.

(** ** Setting up the forest *)

Record FrameBuddyAllocatorForest := mkForest {
  ff_allocators : list (option FrameBuddyAllocator);
  ff_count : nat;
  ff_hddm_offset : Z;
}.

Abbreviation forest := (dnode_mem * FrameBuddyAllocatorForest)%type.

(** What [init] plans before it builds: start, frames, bytes, page list. *)
Record allocator_config := mkConfig {
  cf_start : Z;
  cf_frames : Z;
  cf_bytes : Z;
  cf_list : Z;
}.

(** [while allocator_frames * 2 <= remaining_frames]; 64 iterations are enough
    for 64-bit integers. *)
Fixpoint double_loop (fuel : nat) (allocator_frames remaining : Z) : exec Z :=
  match fuel with
  | O => NoFuel
  | S fuel =>
      twice ← mul_chk 64 allocator_frames 2;
      if twice <=? remaining then double_loop fuel twice remaining else mret allocator_frames
  end.

(** [while remaining_frames >= min_allocator_frames]; each round takes at least
    half of what remains, so 65 rounds are enough. *)
Fixpoint carve_loop (fuel N : nat) (min_frames list_start : Z) (current_start remaining : Z)
    (configs : list allocator_config) : exec (list allocator_config) :=
  match fuel with
  | O => NoFuel
  | S fuel =>
      if remaining <? min_frames then mret configs
      else
        _ ← rassert (length configs <? N)%nat;
        allocator_frames ← double_loop 64 1 remaining;
        bytes ← mul_chk 64 allocator_frames 4096;
        let configs := configs ++ [mkConfig current_start allocator_frames bytes list_start] in
        current_start ← add_chk 64 current_start bytes;
        remaining ← sub_chk remaining allocator_frames;
        carve_loop fuel N min_frames list_start current_start remaining configs
  end.

Definition carve_region (N : nat) (min_frames hddm_offset : Z) (region : Entry)
    (configs : list allocator_config) : exec (list allocator_config) :=
  if negb region.(en_usable) then mret configs
  else
    let start := region.(en_base) in
    let total_frames := region.(en_length) / 4096 in
    bytes ← mul_chk 64 total_frames NODE_ALIGN;
    reserved ← next_multiple_of 64 bytes 4096;
    current_start ← add_chk 64 start reserved;
    remaining ← sub_chk total_frames (reserved / 4096);
    (* [start + hddm_offset] is computed when a configuration is stored *)
    if remaining <? min_frames then mret configs
    else
      list_start ← add_chk 64 start hddm_offset;
      carve_loop 65 N min_frames list_start current_start remaining configs.

Fixpoint carve_regions (N : nat) (min_frames hddm_offset : Z) (regions : list Entry)
    (configs : list allocator_config) : exec (list allocator_config) :=
  match regions with
  | [] => mret configs
  | region :: regions =>
      configs ← carve_region N min_frames hddm_offset region configs;
      carve_regions N min_frames hddm_offset regions configs
  end.

Definition build_one (L : nat) (hddm_offset : Z) (c : allocator_config) (m : dnode_mem)
    : exec frames :=
  virt_start ← add_chk 64 c.(cf_start) hddm_offset;
  virt_end ← add_chk 64 virt_start c.(cf_bytes);
  let levels := if c.(cf_frames) =? 1 then 1%nat else S (Z.to_nat (trailing_zeros 64 c.(cf_frames))) in
  if (levels <=? L)%nat then FrameBuddyAllocator_new L levels virt_start virt_end c.(cf_list) m
  else Panic.

Fixpoint build_loop (L : nat) (hddm_offset : Z) (configs : list allocator_config) (count : nat)
    (m : dnode_mem) (allocators : list (option FrameBuddyAllocator))
    : exec (dnode_mem * list (option FrameBuddyAllocator) * nat) :=
  match configs with
  | [] => mret (m, allocators, count)
  | c :: configs =>
      '(m, a) ← build_one L hddm_offset c m;
      _ ← index allocators count;
      build_loop L hddm_offset configs (S count) m (<[count := Some a]> allocators)
  end.

(** [sort] is [sort_unstable_by_key] with the key [Reverse(frames)]: a
    permutation in an order that the source leaves open for equal keys. *)
Definition Forest_init (N L : nat) (sort : list allocator_config → list allocator_config)
    (memory_regions : list Entry) (min_allocator_frames hddm_offset : Z) (m : dnode_mem)
    : exec forest :=
  _ ← rassert (2 <=? min_allocator_frames);
  _ ← rassert (is_power_of_two min_allocator_frames);
  configs ← carve_regions N min_allocator_frames hddm_offset memory_regions [];
  '(m, allocators, count) ← build_loop L hddm_offset (sort configs) 0 m (replicate N None);
  mret (m, mkForest allocators count hddm_offset).

(** ** Operations *)

Section Operations.
Context `{Addresses}.

(** The loop of [allocate_contiguous_pages] over [allocators[..count]]. *)
Fixpoint alloc_loop (pages : Z) (m : dnode_mem) (allocators : list (option FrameBuddyAllocator))
    : exec (option Z * dnode_mem * list (option FrameBuddyAllocator)) :=
  match allocators with
  | [] => mret (None, m, [])
  | None :: rest =>
      '(r, m, rest) ← alloc_loop pages m rest;
      mret (r, m, None :: rest)
  | Some a :: rest =>
      '(r, (m, a)) ← FrameBuddyAllocator_allocate_contiguous_frames pages (m, a);
      match r with
      | Some virt_addr =>
          v ← VirtAddr_new virt_addr;
          mret (Some v, m, Some a :: rest)
      | None =>
          '(r, m, rest) ← alloc_loop pages m rest;
          mret (r, m, Some a :: rest)
      end
  end.

Definition Forest_allocate_contiguous_pages (pages : Z) (f : forest) : exec (option Z * forest) :=
  let '(m, self) := f in
  _ ← rassert (is_power_of_two pages);
  _ ← rassert (self.(ff_count) <=? length self.(ff_allocators))%nat;
  '(r, m, used) ← alloc_loop pages m (take self.(ff_count) self.(ff_allocators));
  mret (r, (m, mkForest (used ++ drop self.(ff_count) self.(ff_allocators)) self.(ff_count)
                        self.(ff_hddm_offset))).

Fixpoint dealloc_loop (addr pages : Z) (m : dnode_mem) (allocators : list (option FrameBuddyAllocator))
    : exec (dnode_mem * list (option FrameBuddyAllocator)) :=
  match allocators with
  | [] => Panic
  | None :: rest =>
      '(m, rest) ← dealloc_loop addr pages m rest;
      mret (m, None :: rest)
  | Some a :: rest =>
      if (a.(fa_virt_start) <=? addr) && (addr <? a.(fa_virt_end)) then
        '(m, a) ← FrameBuddyAllocator_deallocate_contiguous_frames addr pages (m, a);
        mret (m, Some a :: rest)
      else
        '(m, rest) ← dealloc_loop addr pages m rest;
        mret (m, Some a :: rest)
  end.

Definition Forest_deallocate_contiguous_pages (virt_addr pages : Z) (f : forest) : exec forest :=
  let '(m, self) := f in
  _ ← rassert (is_power_of_two pages);
  _ ← rassert (self.(ff_count) <=? length self.(ff_allocators))%nat;
  '(m, used) ← dealloc_loop virt_addr pages m (take self.(ff_count) self.(ff_allocators));
  mret (m, mkForest (used ++ drop self.(ff_count) self.(ff_allocators)) self.(ff_count)
                    self.(ff_hddm_offset)).

Definition Forest_allocate_contiguous_frames (n : Z) (f : forest) : exec (option Z * forest) :=
  _ ← rassert (is_power_of_two n);
  '(r, f) ← Forest_allocate_contiguous_pages n f;
  match r with
  | Some virt_addr =>
      phys ← sub_chk virt_addr f.2.(ff_hddm_offset);
      phys_addr ← PhysAddr_new phys;
      mret (Some phys_addr, f)
  | None => mret (None, f)
  end.

Definition Forest_deallocate_contiguous_frames (phys_addr n : Z) (f : forest) : exec forest :=
  _ ← rassert (is_power_of_two n);
  virt ← add_chk 64 phys_addr f.2.(ff_hddm_offset);
  virt_addr ← VirtAddr_new virt;
  Forest_deallocate_contiguous_pages virt_addr n f.

(** [FrameAllocator] and [FrameDeallocator] of the x86_64 crate. *)
Definition allocate_frame (f : forest) : exec (option Z * forest) :=
  '(r, f) ← Forest_allocate_contiguous_frames 1 f;
  mret (option_map containing_address r, f).

Definition deallocate_frame (frame : Z) (f : forest) : exec forest :=
  phys_addr ← PhysAddr_new frame;
  Forest_deallocate_contiguous_frames phys_addr 1 f.

(** [init_frame_allocator], on the content of [FRAME_ALLOCATOR]. *)
Definition init_frame_allocator (sort : list allocator_config → list allocator_config)
    (memory_map : list Entry) (hddm_offset : Z) (m : dnode_mem)
    (FRAME_ALLOCATOR : option FrameBuddyAllocatorForest) : exec (dnode_mem * option FrameBuddyAllocatorForest) :=
  match FRAME_ALLOCATOR with
  | Some _ => Panic
  | None =>
      '(m, allocator) ← Forest_init 100 26 sort memory_map 16 hddm_offset m;
      mret (m, Some allocator)
  end.

End Operations.

(** ** Forests with one allocator per region *)

(** The shape of an allocator and the blocks its clients hold. *)
Record slot := mkSlot { sl_n : nat; sl_vs : Z; sl_pl : Z; sl_used : list (nat * Z) }.

Definition sl_end (sl : slot) : Z := sl.(sl_vs) + 4096 * 2 ^ Z.of_nat sl.(sl_n).
Definition sl_first (sl : slot) : Z := sl.(sl_pl) + 32 * ((sl.(sl_vs) - sl.(sl_pl)) / 4096).
Definition sl_span (sl : slot) : Z := 32 * 2 ^ Z.of_nat sl.(sl_n).

(** The page list and the frames are in the higher half of the address space. *)
Definition shape_ok (L : nat) (sl : slot) : Prop :=
  (sl.(sl_n) < L)%nat ∧ (1 ≤ sl.(sl_n))%nat ∧ 2 ^ 64 - 2 ^ 47 ≤ sl.(sl_pl) ≤ sl.(sl_vs) ∧
  (4096 | sl.(sl_vs)) ∧ (4096 | sl.(sl_vs) - sl.(sl_pl)) ∧ sl_end sl < 2 ^ 64.

(** No two allocators have page lists in one region. *)
Definition isolated (sl sl' : slot) : Prop :=
  sl_end sl ≤ sl'.(sl_pl) ∨ sl_end sl' ≤ sl.(sl_pl).

Definition slot_client (L : nat) (m : dnode_mem) (a : FrameBuddyAllocator) (sl : slot) : Prop :=
  @client_inv _ (@buddy_system _ (frame_impl L sl.(sl_n) sl.(sl_vs) sl.(sl_pl)))
    (sl_first sl) (sl_span sl) ((m, a), sl.(sl_used)).

Definition slot_ok (L : nat) (m : dnode_mem) (oa : option FrameBuddyAllocator) (sl : slot) : Prop :=
  shape_ok L sl ∧ ∃ a, oa = Some a ∧ slot_client L m a sl.

(** The pages the clients hold: address and number of pages. *)
Definition sl_pages (sl : slot) : list (Z * Z) :=
  (λ x, (page_of sl.(sl_pl) x.2, frame_pages sl.(sl_n) x.1)) <$> sl.(sl_used).
Definition held_pages (slots : list slot) : list (Z * Z) := slots ≫= sl_pages.

Definition with_used (sl : slot) (used : list (nat * Z)) : slot :=
  mkSlot sl.(sl_n) sl.(sl_vs) sl.(sl_pl) used.

(** [slots'] has the shapes of [slots]. *)
Definition same_shape (slots slots' : list slot) : Prop :=
  Forall2 (λ sl sl', ∃ used, sl' = with_used sl used) slots slots'.

Definition in_range (sl : slot) (x : Z) : Prop := sl_first sl ≤ x < sl_first sl + sl_span sl.

Lemma shape_bounds L sl x : shape_ok L sl →
  (in_zone sl.(sl_n) sl.(sl_vs) sl.(sl_pl) x → sl.(sl_pl) ≤ x < sl_end sl) ∧
  (in_range sl x → sl.(sl_pl) ≤ x < sl_end sl).
Proof.
  intros (_ & _ & Hpl & _ & [y Hy] & Hend). unfold in_zone, in_range, sl_first, sl_span, sl_end in *.
  rewrite Hy, Z.div_mul by lia. pose proof (Z.pow_pos_nonneg 2 (Z.of_nat sl.(sl_n))).
  split; [intros [? _]|intros ?]; lia.
Qed.

Lemma isolated_range L sl sl' x :
  shape_ok L sl → shape_ok L sl' → isolated sl sl' →
  in_zone sl.(sl_n) sl.(sl_vs) sl.(sl_pl) x → ¬ in_range sl' x.
Proof.
  intros Hs Hs' Hi Hz Hr. apply (shape_bounds L sl x Hs) in Hz. apply (shape_bounds L sl' x Hs') in Hr.
  unfold isolated in Hi. lia.
Qed.

(** Writes in the ranges of isolated slots do not disturb a slot. *)
Lemma slot_ok_foreign L m m' oa sl slots :
  slot_ok L m oa sl → Forall (shape_ok L) slots → (∀ sl', sl' ∈ slots → isolated sl sl') →
  (∀ x, (∀ sl', sl' ∈ slots → ¬ in_range sl' x) → m' x = m x) → slot_ok L m' oa sl.
Proof.
  intros [Hs (a & -> & Hc)] Hall Hi Hm. split; [done|]. exists a. split; [done|].
  pose proof Hs as (? & ? & ? & ? & ? & ?). rewrite Forall_forall in Hall.
  apply (frame_foreign_ok L sl.(sl_n) sl.(sl_vs) sl.(sl_pl)) with m; try done; [lia|].
  intros x Hx. apply Hm. intros sl' Hsl'. by apply (isolated_range L sl); [|apply Hall|apply Hi|].
Qed.

Lemma slots_ok_foreign L m m' allocs slots sl :
  Forall2 (slot_ok L m) allocs slots → shape_ok L sl → (∀ sl', sl' ∈ slots → isolated sl sl') →
  (∀ x, ¬ in_range sl x → m' x = m x) → Forall2 (slot_ok L m') allocs slots.
Proof.
  intros H Hs Hi Hm. induction H as [|oa sl0 allocs slots H0 _ IH]; constructor.
  - apply (slot_ok_foreign L m m' oa sl0 [sl]); [done|by constructor| |].
    + intros sl' ->%list_elem_of_singleton. assert (isolated sl sl0) as [|] by (apply Hi; by left); unfold isolated; lia.
    + intros x Hx. apply Hm, Hx. by left.
  - apply IH. intros sl' Hsl'. apply Hi. by right.
Qed.

Lemma slots_shapes L m allocs slots : Forall2 (slot_ok L m) allocs slots → Forall (shape_ok L) slots.
Proof. induction 1 as [|oa sl allocs slots [? _] _ IH]; by constructor. Qed.

Lemma same_shape_refl slots : same_shape slots slots.
Proof. induction slots as [|[] slots IH]; constructor; [by eexists|done]. Qed.

Lemma same_shape_isolated slots slots' sl sl' used :
  same_shape slots slots' → sl' = with_used sl used →
  (∀ x, x ∈ slots → isolated sl x) → (∀ x, x ∈ slots' → isolated sl' x).
Proof.
  intros Hs -> Hi x [i Hx]%list_elem_of_lookup.
  destruct (Forall2_lookup_r _ _ _ _ _ Hs Hx) as (y & Hy & u & ->).
  apply (Hi y). by eapply list_elem_of_lookup_2.
Qed.
Lemma same_shape_pairwise slots slots' :
  same_shape slots slots' → pairwise isolated slots → pairwise isolated slots'.
Proof.
  intros Hs. induction Hs as [|sl sl' slots slots' [u Hu] Hs IH]; [done|].
  inversion 1; simplify_eq. constructor; [|by apply IH]. by eapply same_shape_isolated.
Qed.

Lemma held_pages_cons sl slots : held_pages (sl :: slots) = sl_pages sl ++ held_pages slots.
Proof. done. Qed.

Section Loops.
Context `{AddressesOk} (L : nat).

(** The blocks of the page list behind the outstanding runs. *)
Definition slot_held (sl : slot) : list block := (λ x, (x.2, frame_size sl.(sl_n) x.1)) <$> sl.(sl_used).

(** What is not outstanding of the slot is in free blocks of less than [2 ^ k]
    pages. *)
Definition no_room (m : dnode_mem) (k : nat) (oa : option FrameBuddyAllocator) (sl : slot) : Prop :=
  ∃ a F, oa = Some a ∧ frame_raw L sl.(sl_n) sl.(sl_vs) sl.(sl_pl) (m, a) F ∧
    tiles (sl_first sl) (sl_span sl) (level_blocks (frame_size sl.(sl_n)) F ++ slot_held sl) ∧
    ∀ b, b ∈ level_blocks (frame_size sl.(sl_n)) F → b.2 < 32 * 2 ^ Z.of_nat k.

Lemma slot_alloc m a sl k :
  shape_ok L sl → slot_client L m a sl → (k < 52)%nat →
  ∃ r m' a', FrameBuddyAllocator_allocate_contiguous_frames (2 ^ Z.of_nat k) (m, a) = Ret (r, (m', a')) ∧
    (∀ x, ¬ in_range sl x → m' x = m x) ∧
    match r with
    | Some v => ∃ sl', (∃ u, sl' = with_used sl u) ∧ shape_ok L sl' ∧ slot_client L m' a' sl' ∧
        canonical v ∧ sl_pages sl' = (v, 2 ^ Z.of_nat k) :: sl_pages sl
    | None => m' = m ∧ a' = a ∧ no_room m k (Some a) sl
    end.
Proof.
  intros Hs Hc Hk. pose proof Hs as (HL & Hn & Hpl & Hal & Hoff & Hend).
  destruct (allocate_frames_ok L sl.(sl_n) sl.(sl_vs) sl.(sl_pl)) with m a sl.(sl_used) k
    as (r & m' & a' & Hrun & Hkept & Hr); try done; [lia|].
  exists r, m', a'. split; [done|]. split; [exact Hkept|]. destruct r as [v|].
  - destruct Hr as (b & Hkn & -> & Hleg & Hc'). exists (with_used sl ((sl.(sl_n) - k, b)%nat :: sl.(sl_used))).
    destruct (page_of_legal L sl.(sl_n) sl.(sl_vs) sl.(sl_pl)) with (sl.(sl_n) - k)%nat b
      as (_ & Hp1 & Hp2 & _); try done; [lia|].
    assert (frame_pages sl.(sl_n) (sl.(sl_n) - k) = 2 ^ Z.of_nat k) as Hpages.
    { rewrite (frame_pages_pow L) by lia. do 2 f_equal. lia. }
    split_and!; [by eexists|done|exact Hc'| |].
    + right. unfold sl_end in Hend. pose proof (Z.pow_pos_nonneg 2 (Z.of_nat k)). lia.
    + unfold sl_pages. simpl. by rewrite Hpages.
  - destruct Hr as ([= -> ->] & F & HF & Ht & Hsmall). split_and!; [done..|]. by exists a, F.
Qed.

(** Without room for one page, every page of the slot is outstanding. *)
Lemma no_room_full m oa sl : shape_ok L sl → no_room m 0 oa sl → block_sum (sl_pages sl) = 2 ^ Z.of_nat sl.(sl_n).
Proof.
  intros (HL & Hn & _) (a & F & _ & (_ & _ & _ & Hlen & _) & Ht & Hsmall).
  assert (level_blocks (frame_size sl.(sl_n)) F = []) as Hnil.
  { apply elem_of_nil_inv. intros b Hb. specialize (Hsmall b Hb).
    apply elem_of_level_blocks in Hb as (i & l & x & Hi & _ & ->). apply lookup_lt_Some in Hi.
    pose proof (frame_pages_bound L sl.(sl_n) ltac:(lia) ltac:(lia) i ltac:(lia)).
    unfold frame_size in Hsmall. simpl in Hsmall. lia. }
  rewrite Hnil in Ht. apply tiles_sum in Ht; [| |].
  - assert (block_sum (slot_held sl) = 32 * block_sum (sl_pages sl)) as Heq.
    { unfold slot_held, sl_pages, block_sum. clear. induction (sl_used sl) as [|x l IH]; [done|].
      cbn [fmap list_fmap foldr snd]. rewrite IH. unfold frame_size. lia. }
    unfold sl_span in Ht. simpl in Ht. lia.
  - unfold sl_span. lia.
  - intros b (x & -> & _)%list_elem_of_fmap. simpl. unfold frame_size, frame_pages.
    apply Z.mul_nonneg_nonneg; [lia|]. apply Z.shiftr_nonneg. lia.
Qed.

Lemma alloc_loop_ok m allocs slots k :
  Forall2 (slot_ok L m) allocs slots → pairwise isolated slots → (k < 52)%nat →
  ∃ r m' allocs' slots', alloc_loop (2 ^ Z.of_nat k) m allocs = Ret (r, m', allocs') ∧
    Forall2 (slot_ok L m') allocs' slots' ∧ same_shape slots slots' ∧
    (∀ x, (∀ sl, sl ∈ slots → ¬ in_range sl x) → m' x = m x) ∧
    match r with
    | Some v => held_pages slots' ≡ₚ (v, 2 ^ Z.of_nat k) :: held_pages slots
    | None => m' = m ∧ allocs' = allocs ∧ slots' = slots ∧ Forall2 (no_room m k) allocs slots
    end.
Proof.
  intros Hall Hpw Hk. revert Hpw.
  induction Hall as [|oa sl allocs slots [Hs (a & -> & Hc)] Hall IH]; intros Hpw; simpl.
  { exists None, m, [], []. split_and!; try done; constructor. }
  inversion Hpw as [|? ? Hi Hpw']; subst.
  destruct (slot_alloc m a sl k Hs Hc Hk) as (r & m1 & a1 & -> & Hm1 & Hr). cbn [mbind exec_bind].
  destruct r as [v|].
  - destruct Hr as (sl' & Hsl' & Hs' & Hc' & Hcan & Hp). rewrite VirtAddr_new_ok by done.
    cbn [mbind exec_bind]. exists (Some v), m1, (Some a1 :: allocs), (sl' :: slots). split_and!; try done.
    + constructor; [split; [done|by exists a1]|]. by apply (slots_ok_foreign L m m1 _ _ sl).
    + constructor; [done|apply same_shape_refl].
    + intros x Hx. apply Hm1, Hx. by left.
    + by rewrite !held_pages_cons, Hp.
  - destruct Hr as (-> & -> & Hroom). destruct (IH Hpw') as (r & m2 & allocs2 & slots2 & -> & Hok & Hsame & Hm2 & Hr2).
    cbn [mbind exec_bind]. exists r, m2, (Some a :: allocs2), (sl :: slots2). split_and!; try done.
    + constructor; [|done]. apply (slot_ok_foreign L m m2 _ _ slots); try done; [split; eauto|].
      by eapply slots_shapes.
    + constructor; [exists sl.(sl_used); by destruct sl|done].
    + intros x Hx. apply Hm2. intros sl' Hsl'. apply Hx. by right.
    + destruct r as [v|].
      * rewrite !held_pages_cons, Hr2. by rewrite Permutation_middle.
      * destruct Hr2 as (-> & -> & -> & Hrooms). split_and!; [done..|]. by constructor.
Qed.

(** The slot an outstanding address belongs to. *)
Lemma slot_pages_range m a sl v pages :
  shape_ok L sl → slot_client L m a sl → (v, pages) ∈ sl_pages sl →
  ∃ k b, (k ≤ sl.(sl_n))%nat ∧ ((sl.(sl_n) - k)%nat, b) ∈ sl.(sl_used) ∧
    v = page_of sl.(sl_pl) b ∧ pages = 2 ^ Z.of_nat k ∧
    sl.(sl_vs) ≤ v ∧ v + 4096 * pages ≤ sl_end sl ∧ (4096 | v).
Proof.
  intros Hs (bl & _ & _ & Hleg) ([lvl b] & [= -> ->] & Hb)%list_elem_of_fmap. simpl in *.
  rewrite Forall_forall in Hleg. destruct (Hleg _ Hb) as [Hlvl Hlegal]. simpl in *.
  pose proof Hs as (HL & Hn & Hpl & Hal & Hoff & Hend).
  destruct (page_of_legal L sl.(sl_n) sl.(sl_vs) sl.(sl_pl)) with lvl b
    as (_ & Hp1 & Hp2 & Hp3 & _); try done; [lia|].
  exists (sl.(sl_n) - lvl)%nat, b.
  replace (sl.(sl_n) - (sl.(sl_n) - lvl))%nat with lvl by lia.
  rewrite (frame_pages_pow L) in * by lia. split_and!; try done; try lia.
  replace (page_of sl.(sl_pl) b) with (sl.(sl_vs) + (page_of sl.(sl_pl) b - sl.(sl_vs))) by lia.
  by apply Z.divide_add_r.
Qed.

Lemma slot_dealloc m a sl v pages :
  shape_ok L sl → slot_client L m a sl → (v, pages) ∈ sl_pages sl →
  ((a.(fa_virt_start) <=? v) && (v <? a.(fa_virt_end))) = true ∧
  ∃ m' a' sl', FrameBuddyAllocator_deallocate_contiguous_frames v pages (m, a) = Ret (m', a') ∧
    (∀ x, ¬ in_range sl x → m' x = m x) ∧ (∃ u, sl' = with_used sl u) ∧ slot_client L m' a' sl' ∧
    sl_pages sl ≡ₚ (v, pages) :: sl_pages sl'.
Proof.
  intros Hs Hc Hin. pose proof Hs as (HL & Hn & Hpl & Hal & Hoff & Hend).
  destruct (slot_pages_range m a sl v pages Hs Hc Hin) as (k & b & Hk & Hb & -> & -> & Hlo & Hhi & _).
  pose proof (Z.pow_pos_nonneg 2 (Z.of_nat k)). split.
  - destruct (client_geometry L sl.(sl_n) sl.(sl_vs) sl.(sl_pl) m a sl.(sl_used) Hc) as (_ & -> & -> & _).
    apply andb_true_iff. split; [apply Z.leb_le; lia|]. apply Z.ltb_lt. unfold sl_end in Hhi. lia.
  - apply elem_of_Permutation in Hb as [used' Hp].
    destruct (deallocate_frames_ok L sl.(sl_n) sl.(sl_vs) sl.(sl_pl)) with m a sl.(sl_used) used' k b
      as (m' & a' & Hrun & Hkept & Hc'); try done; [lia|].
    exists m', a', (with_used sl used'). split_and!; try done; [by eexists|].
    unfold sl_pages. rewrite Hp. simpl. rewrite (frame_pages_pow L) by lia.
    by replace (sl.(sl_n) - (sl.(sl_n) - k))%nat with k by lia.
Qed.

Lemma other_slot m a sl slots allocs v pages :
  shape_ok L sl → slot_client L m a sl → Forall2 (slot_ok L m) allocs slots →
  (∀ sl', sl' ∈ slots → isolated sl sl') → (v, pages) ∈ held_pages slots →
  ((a.(fa_virt_start) <=? v) && (v <? a.(fa_virt_end))) = false.
Proof.
  intros Hs Hc Hall Hi (sl' & Hin & Hsl')%list_elem_of_bind.
  apply list_elem_of_lookup in Hsl' as Hl. destruct Hl as [i Hl].
  destruct (Forall2_lookup_r _ _ _ _ _ Hall Hl) as (oa & _ & Hs' & a' & _ & Hc').
  destruct (slot_pages_range m a' sl' v pages Hs' Hc' Hin) as (k & b & _ & _ & _ & -> & Hlo & Hhi & _).
  destruct (client_geometry L sl.(sl_n) sl.(sl_vs) sl.(sl_pl) m a sl.(sl_used) Hc) as (_ & -> & -> & _).
  pose proof (Z.pow_pos_nonneg 2 (Z.of_nat k)).
  destruct Hs as (_ & _ & Hpl & _), Hs' as (_ & _ & Hpl' & _).
  apply andb_false_iff. destruct (Hi sl' Hsl') as [Hi'|Hi'].
  - right. apply Z.ltb_ge. unfold sl_end in Hi'. lia.
  - left. apply Z.leb_gt. lia.
Qed.

Lemma dealloc_loop_ok m allocs slots v pages held' :
  Forall2 (slot_ok L m) allocs slots → pairwise isolated slots →
  held_pages slots ≡ₚ (v, pages) :: held' →
  ∃ m' allocs' slots', dealloc_loop v pages m allocs = Ret (m', allocs') ∧
    Forall2 (slot_ok L m') allocs' slots' ∧ same_shape slots slots' ∧
    (∀ x, (∀ sl, sl ∈ slots → ¬ in_range sl x) → m' x = m x) ∧ held_pages slots' ≡ₚ held'.
Proof.
  intros Hall Hpw. revert Hpw held'.
  induction Hall as [|oa sl allocs slots [Hs (a & -> & Hc)] Hall IH]; intros Hpw held' Hp.
  { by apply Permutation_nil_cons in Hp. }
  inversion Hpw as [|? ? Hi Hpw']; subst. simpl.
  destruct (decide ((v, pages) ∈ sl_pages sl)) as [Hin|Hout].
  - destruct (slot_dealloc m a sl v pages Hs Hc Hin) as (-> & m' & a' & sl' & -> & Hm & Hsl & Hc' & Hpages).
    cbn [mbind exec_bind]. exists m', (Some a' :: allocs), (sl' :: slots). split_and!; try done.
    + constructor; [|by apply (slots_ok_foreign L m m' _ _ sl)]. split; [destruct Hsl as [u ->]; done|eauto].
    + constructor; [done|apply same_shape_refl].
    + intros x Hx. apply Hm, Hx. by left.
    + rewrite held_pages_cons, Hpages in Hp. by apply Permutation_cons_inv in Hp.
  - assert ((v, pages) ∈ held_pages slots) as Hin.
    { assert ((v, pages) ∈ held_pages (sl :: slots)) as Hv by (rewrite Hp; by left).
      rewrite held_pages_cons in Hv. by apply elem_of_app in Hv as [?|?]. }
    rewrite (other_slot m a sl slots allocs v pages) by done.
    apply elem_of_Permutation in Hin as [held2 Hp2].
    destruct (IH Hpw' held2 Hp2) as (m' & allocs' & slots' & -> & Hok & Hsame & Hm & Hh).
    cbn [mbind exec_bind]. exists m', (Some a :: allocs'), (sl :: slots'). split_and!; try done.
    + constructor; [|done]. apply (slot_ok_foreign L m m' _ _ slots); try done; [split; eauto|].
      by eapply slots_shapes.
    + constructor; [exists sl.(sl_used); by destruct sl|done].
    + intros x Hx. apply Hm. intros sl' Hsl'. apply Hx. by right.
    + rewrite held_pages_cons in *. rewrite Hh. rewrite Hp2, <- Permutation_middle in Hp.
      by apply Permutation_cons_inv in Hp.
Qed.

End Loops.

(** ** The forest and its clients *)

(** The direct map covers the higher half. *)
Definition hddm_ok (hddm : Z) : Prop := 2 ^ 64 - 2 ^ 47 ≤ hddm ∧ (4096 | hddm).

(** [Q] says where the allocators are. *)
Definition forest_inv (L : nat) (hddm : Z) (Q : slot → Prop) (c : forest * list (Z * Z)) : Prop :=
  c.1.2.(ff_hddm_offset) = hddm ∧ hddm_ok hddm ∧
  (c.1.2.(ff_count) ≤ length c.1.2.(ff_allocators))%nat ∧
  ∃ slots, Forall2 (slot_ok L c.1.1) (take c.1.2.(ff_count) c.1.2.(ff_allocators)) slots ∧
    pairwise isolated slots ∧ (∀ sl, sl ∈ slots → hddm ≤ sl.(sl_pl) ∧ Q sl) ∧
    held_pages slots ≡ₚ c.2.

Lemma is_power_of_two_inv n : is_power_of_two n = true → ∃ k, n = 2 ^ Z.of_nat k.
Proof.
  unfold is_power_of_two. intros [Hn%Z.ltb_lt Hp%Z.eqb_eq]%andb_true_iff.
  exists (Z.to_nat (Z.log2 n)). rewrite Z2Nat.id by apply Z.log2_nonneg. done.
Qed.
Lemma is_power_of_two_pow k : is_power_of_two (2 ^ Z.of_nat k) = true.
Proof.
  unfold is_power_of_two. rewrite Z.log2_pow2, Z.eqb_refl by lia.
  pose proof (Z.pow_pos_nonneg 2 (Z.of_nat k)). apply andb_true_iff. split; [apply Z.ltb_lt; lia|done].
Qed.
Lemma pow2_lt k b : 0 ≤ b → 2 ^ Z.of_nat k < 2 ^ b → Z.of_nat k < b.
Proof. intros Hb Hlt. apply (Z.pow_lt_mono_r_iff 2) in Hlt; lia. Qed.

(** The pages that the allocators manage. *)
Definition allocator_pages (oa : option FrameBuddyAllocator) : Z :=
  match oa with Some a => (a.(fa_virt_end) - a.(fa_virt_start)) / 4096 | None => 0 end.
Definition pages_total (self : FrameBuddyAllocatorForest) : Z :=
  foldr (λ oa n, allocator_pages oa + n) 0 (take self.(ff_count) self.(ff_allocators)).

Lemma slots_total `{AddressesOk} L m allocs slots : Forall2 (slot_ok L m) allocs slots →
  foldr (λ oa n, allocator_pages oa + n) 0 allocs = foldr (λ sl n, 2 ^ Z.of_nat sl.(sl_n) + n) 0 slots.
Proof.
  induction 1 as [|oa sl allocs slots [Hs (a & -> & Hc)] _ IH]; [done|]. simpl. rewrite IH. f_equal.
  destruct (client_geometry L sl.(sl_n) sl.(sl_vs) sl.(sl_pl) m a sl.(sl_used) Hc) as (_ & -> & -> & _).
  rewrite Z.add_simpl_l, Z.mul_comm. by apply Z.div_mul.
Qed.

Lemma same_shape_total slots slots' : same_shape slots slots' →
  foldr (λ sl n, 2 ^ Z.of_nat sl.(sl_n) + n) 0 slots' = foldr (λ sl n, 2 ^ Z.of_nat sl.(sl_n) + n) 0 slots.
Proof. induction 1 as [|sl sl' slots slots' [u ->] _ IH]; [done|]. simpl. by rewrite IH. Qed.

Lemma no_room_total L m allocs slots : Forall2 (no_room L m 0) allocs slots → Forall (shape_ok L) slots →
  block_sum (held_pages slots) = foldr (λ sl n, 2 ^ Z.of_nat sl.(sl_n) + n) 0 slots.
Proof.
  intros Hr Hs. induction Hr as [|oa sl allocs slots Hroom _ IH]; [done|]. apply Forall_cons in Hs as [Hsl Hs].
  rewrite held_pages_cons, block_sum_app, (no_room_full L m oa) by done. simpl. by rewrite IH.
Qed.

Section Forest.
Context `{AddressesOk} (L : nat) (hddm : Z) (Q : slot → Prop) (HQ : ∀ sl u, Q sl → Q (with_used sl u)).

(** Interleavings of the page operations; requests are for less than [2 ^ 64]
    bytes. *)
Inductive forest_step : forest * list (Z * Z) → forest * list (Z * Z) → Prop :=
  | forest_step_alloc f f' used v pages :
      pages < 2 ^ 52 → Forest_allocate_contiguous_pages pages f = Ret (Some v, f') →
      forest_step (f, used) (f', (v, pages) :: used)
  | forest_step_none f f' used pages :
      pages < 2 ^ 52 → Forest_allocate_contiguous_pages pages f = Ret (None, f') →
      forest_step (f, used) (f', used)
  | forest_step_dealloc f f' used used' v pages :
      used ≡ₚ (v, pages) :: used' → Forest_deallocate_contiguous_pages v pages f = Ret f' →
      forest_step (f, used) (f', used').

Lemma same_shape_offset slots slots' (off : Z) :
  same_shape slots slots' → (∀ sl, sl ∈ slots → off ≤ sl.(sl_pl) ∧ Q sl) →
  ∀ sl, sl ∈ slots' → off ≤ sl.(sl_pl) ∧ Q sl.
Proof.
  intros Hs Hoff sl' [i Hi]%list_elem_of_lookup.
  destruct (Forall2_lookup_r _ _ _ _ _ Hs Hi) as (sl & Hsl & u & ->). simpl.
  destruct (Hoff sl) as [? ?]; [by eapply list_elem_of_lookup_2|]. split; [done|by apply HQ].
Qed.

Lemma take_app_exact {A} (l : list A) n l' : (n ≤ length l)%nat → length l' = n → take n (l' ++ drop n l) = l'.
Proof. intros Hn <-. by rewrite take_app_length. Qed.

(** [allocate_contiguous_pages] in a well-formed forest. *)
Lemma forest_alloc_ok m self used k :
  forest_inv L hddm Q ((m, self), used) → (k < 52)%nat →
  ∃ r f', Forest_allocate_contiguous_pages (2 ^ Z.of_nat k) (m, self) = Ret (r, f') ∧
    pages_total f'.2 = pages_total self ∧
    match r with
    | Some v => forest_inv L hddm Q (f', (v, 2 ^ Z.of_nat k) :: used)
    | None => f' = (m, self) ∧ (k = 0%nat → block_sum used = pages_total self) ∧
        ∃ slots, Forall2 (no_room L m k) (take self.(ff_count) self.(ff_allocators)) slots ∧
          held_pages slots ≡ₚ used
    end.
Proof.
  intros (Hd & Hd4 & Hcount & slots & Hall & Hpw & Hoff & Hheld) Hk.
  cbn [fst snd] in *.
  unfold Forest_allocate_contiguous_pages. rewrite is_power_of_two_pow. cbn [rassert mbind exec_bind].
  run_by ltac:(by apply Nat.leb_le).
  destruct (alloc_loop_ok L m _ slots k Hall Hpw Hk) as (r & m' & allocs' & slots' & -> & Hok & Hsame & _ & Hr).
  cbn [mbind exec_bind]. eexists r, _. split; [reflexivity|].
  assert (length allocs' = self.(ff_count)) as Hlen.
  { rewrite (Forall2_length _ _ _ Hok), <- (Forall2_length _ _ _ Hsame), <- (Forall2_length _ _ _ Hall).
    rewrite length_take. lia. }
  assert (pages_total (mkForest (allocs' ++ drop self.(ff_count) self.(ff_allocators)) self.(ff_count)
    self.(ff_hddm_offset)) = pages_total self) as Htotal.
  { unfold pages_total. cbn [ff_count ff_allocators]. rewrite take_app_exact by done.
    rewrite (slots_total L m' _ _ Hok), (slots_total L m _ _ Hall). by apply same_shape_total. }
  split; [done|]. destruct r as [v|].
  - split_and!; try done; simpl; [rewrite length_app, length_drop; lia|].
    rewrite take_app_exact by done. exists slots'. split_and!; [done| | |].
    + by eapply same_shape_pairwise.
    + by eapply same_shape_offset.
    + by rewrite Hr, Hheld.
  - destruct Hr as (-> & -> & -> & Hroom). split; [|split; [|eauto]].
    + rewrite take_drop. by destruct self.
    + intros ->. rewrite <- Hheld, (no_room_total L m _ _ Hroom) by (by eapply slots_shapes).
      unfold pages_total. by rewrite (slots_total L m _ _ Hall).
Qed.

Lemma forest_dealloc_ok m self used v pages used' :
  forest_inv L hddm Q ((m, self), used) → used ≡ₚ (v, pages) :: used' →
  ∃ f', Forest_deallocate_contiguous_pages v pages (m, self) = Ret f' ∧ forest_inv L hddm Q (f', used').
Proof.
  intros (Hd & Hd4 & Hcount & slots & Hall & Hpw & Hoff & Hheld) Hp.
  cbn [fst snd] in *. rewrite Hp in Hheld.
  assert (is_power_of_two pages = true) as Hpow.
  { assert ((v, pages) ∈ held_pages slots) as Hin by (rewrite Hheld; by left).
    apply list_elem_of_bind in Hin as (sl & Hin & [i Hsl]%list_elem_of_lookup).
    destruct (Forall2_lookup_r _ _ _ _ _ Hall Hsl) as (oa & _ & Hs & a & _ & Hc).
    destruct (slot_pages_range L m a sl v pages Hs Hc Hin) as (k & _ & _ & _ & _ & -> & _).
    apply is_power_of_two_pow. }
  unfold Forest_deallocate_contiguous_pages. rewrite Hpow. cbn [rassert mbind exec_bind].
  run_by ltac:(by apply Nat.leb_le).
  destruct (dealloc_loop_ok L m _ slots v pages used' Hall Hpw Hheld)
    as (m' & allocs' & slots' & -> & Hok & Hsame & _ & Hh).
  cbn [mbind exec_bind]. eexists. split; [reflexivity|].
  assert (length allocs' = self.(ff_count)) as Hlen.
  { rewrite (Forall2_length _ _ _ Hok), <- (Forall2_length _ _ _ Hsame), <- (Forall2_length _ _ _ Hall).
    rewrite length_take. lia. }
  split_and!; try done; simpl; [rewrite length_app, length_drop; lia|].
  rewrite take_app_exact by done. exists slots'. split_and!; [done| |by eapply same_shape_offset|done].
  by eapply same_shape_pairwise.
Qed.

Lemma forest_inv_step c c' : forest_inv L hddm Q c → forest_step c c' → forest_inv L hddm Q c'.
Proof.
  intros Hinv Hstep. destruct Hstep as [[m self] f' used v pages Hlt Ha|[m self] f' used pages Hlt Ha|[m self] f' used used' v pages Hp Hd].
  1,2: assert (is_power_of_two pages = true) as (k & ->)%is_power_of_two_inv
    by (unfold Forest_allocate_contiguous_pages in Ha; destruct (is_power_of_two pages); [done|by exec_inv]);
    apply pow2_lt in Hlt; [|lia];
    destruct (forest_alloc_ok m self used k Hinv) as (r & f2 & Ha2 & _ & Hr); [lia|]; exec_eq.
  - done.
  - by destruct Hr as [-> _].
  - destruct (forest_dealloc_ok m self used v pages used' Hinv Hp) as (f2 & Hd2 & Hinv2). by exec_eq.
Qed.

Lemma forest_inv_steps c c' : forest_inv L hddm Q c → rtc forest_step c c' → forest_inv L hddm Q c'.
Proof. intros Hc Hs. induction Hs; eauto using forest_inv_step. Qed.

(** Two runs of pages that do not overlap. *)
Definition pages_apart (x y : Z * Z) : Prop := x.1 + 4096 * x.2 ≤ y.1 ∨ y.1 + 4096 * y.2 ≤ x.1.

Lemma slot_pages_apart m a sl :
  shape_ok L sl → slot_client L m a sl → pairwise pages_apart (sl_pages sl).
Proof.
  intros Hs Hc. pose proof Hs as (HL & Hn & Hpl & Hal & Hoff & Hend).
  pose proof Hc as (bl & _ & _ & Hleg). rewrite Forall_forall in Hleg. simpl in Hleg.
  apply pairwise_fmap, pairwise_of_lookup. intros i j [l1 b1] [l2 b2] Hij H1 H2.
  destruct (Hleg (l1, b1)) as [Hl1 Hleg1]; [by eapply list_elem_of_lookup_2|].
  destruct (Hleg (l2, b2)) as [Hl2 Hleg2]; [by eapply list_elem_of_lookup_2|]. simpl in *.
  apply (client_inv_disjoint _ _ _ _ i j (l1, b1) (l2, b2)) in Hc; [|done|done|lia]. simpl in Hc.
  destruct (page_of_legal L sl.(sl_n) sl.(sl_vs) sl.(sl_pl)) with l1 b1 as (E1 & _); try done; [lia|].
  destruct (page_of_legal L sl.(sl_n) sl.(sl_vs) sl.(sl_pl)) with l2 b2 as (E2 & _); try done; [lia|].
  pose proof (frame_pages_bound L sl.(sl_n) ltac:(lia) ltac:(lia) l1 ltac:(lia)).
  pose proof (frame_pages_bound L sl.(sl_n) ltac:(lia) ltac:(lia) l2 ltac:(lia)).
  apply units_disjoint in Hc; simpl; unfold frame_size in *; [|lia..]. simpl in Hc.
  unfold pages_apart. simpl. lia.
Qed.

Lemma held_pages_apart m allocs slots :
  Forall2 (slot_ok L m) allocs slots → pairwise isolated slots → pairwise pages_apart (held_pages slots).
Proof.
  intros Hall. induction Hall as [|oa sl allocs slots [Hs (a & _ & Hc)] Hall IH]; intros Hpw; [constructor|].
  inversion Hpw as [|? ? Hi Hpw']; subst. rewrite held_pages_cons. apply pairwise_app.
  - by eapply slot_pages_apart.
  - by apply IH.
  - intros [v pages] [v' pages'] Hin (sl' & Hin' & Hsl')%list_elem_of_bind.
    apply list_elem_of_lookup in Hsl' as Hl. destruct Hl as [j Hl].
    destruct (Forall2_lookup_r _ _ _ _ _ Hall Hl) as (oa' & _ & Hs' & a' & _ & Hc').
    destruct (slot_pages_range L m a sl v pages Hs Hc Hin) as (_ & _ & _ & _ & _ & _ & Hlo & Hhi & _).
    destruct (slot_pages_range L m a' sl' v' pages' Hs' Hc' Hin') as (_ & _ & _ & _ & _ & _ & Hlo' & Hhi' & _).
    destruct Hs as (_ & _ & Hpl & _), Hs' as (_ & _ & Hpl' & _).
    unfold pages_apart. simpl. destruct (Hi sl' Hsl'); lia.
Qed.

(** Where an outstanding run of pages is. *)
Lemma forest_inv_where f used x : forest_inv L hddm Q (f, used) → x ∈ used →
  ∃ sl, shape_ok L sl ∧ Q sl ∧ sl.(sl_vs) ≤ x.1 ∧ x.1 + 4096 * x.2 ≤ sl_end sl ∧ (4096 | x.1) ∧
    hddm ≤ sl.(sl_pl).
Proof.
  destruct f as [m self]. intros (_ & _ & _ & slots & Hall & _ & Hoff & Hp) Hx.
  rewrite <- Hp in Hx. destruct x as [v pages]. apply list_elem_of_bind in Hx as (sl & Hin & Hsl).
  destruct (Hoff sl Hsl) as [Hpl HQsl]. apply list_elem_of_lookup in Hsl as [i Hsl].
  destruct (Forall2_lookup_r _ _ _ _ _ Hall Hsl) as (oa & _ & Hs & a & _ & Hc).
  destruct (slot_pages_range L m a sl v pages Hs Hc Hin) as (_ & _ & _ & _ & _ & _ & ? & ? & ?).
  exists sl. done.
Qed.

Lemma forest_inv_apart f used : forest_inv L hddm Q (f, used) → pairwise pages_apart used.
Proof.
  destruct f as [m self]. intros (_ & _ & _ & slots & Hall & Hpw & _ & Hp).
  eapply pairwise_perm; [|exact Hp|by eapply held_pages_apart].
  unfold pages_apart. intros x y []; [by right|by left].
Qed.

(** *** Single frames *)

(** The physical address behind a page in use. *)
Lemma forest_inv_phys f used v n : forest_inv L hddm Q (f, used) → (v, n) ∈ used → 0 < n →
  hddm ≤ v < 2 ^ 64 ∧ 0 ≤ v - hddm < 2 ^ 47 ∧ (4096 | v - hddm).
Proof.
  intros Hinv Hin Hn. pose proof Hinv as (_ & (Hlo & Hal) & _).
  destruct (forest_inv_where f used (v, n) Hinv Hin) as (sl & Hsh & _ & H1 & H2 & H3 & H4). simpl in *.
  destruct Hsh as (_ & _ & ? & _ & _ & ?). split_and!; try lia. by apply Z.divide_sub_r.
Qed.

Lemma allocate_frame_ok f used : forest_inv L hddm Q (f, used) →
  ∃ r f', allocate_frame f = Ret (r, f') ∧ pages_total f'.2 = pages_total f.2 ∧
    match r with
    | Some p => forest_inv L hddm Q (f', (p + hddm, 1) :: used) ∧ (4096 | p)
    | None => f' = f ∧ block_sum used = pages_total f.2
    end.
Proof.
  intros Hinv. destruct f as [m self].
  unfold allocate_frame, Forest_allocate_contiguous_frames. simpl rassert. cbn [mbind exec_bind].
  destruct (forest_alloc_ok m self used 0 Hinv) as (r & f1 & Hrun & Htotal & Hr); [lia|].
  change (2 ^ Z.of_nat 0) with 1 in *. rewrite Hrun. cbn [mbind exec_bind].
  destruct r as [v|]; [|destruct Hr as (-> & Hfull & _); exists None, (m, self); eauto].
  destruct (forest_inv_phys f1 _ v 1 Hr) as (Hv & Hphys & Hal); [by left|lia|].
  pose proof Hr as (Hd & _). cbn [fst] in Hd. rewrite Hd.
  rewrite sub_chk_ok by lia. cbn [mbind exec_bind]. rewrite PhysAddr_new_ok by lia.
  cbn [mbind exec_bind option_map mret exec_ret]. rewrite containing_aligned by (done || lia).
  exists (Some (v - hddm)), f1. split; [done|]. split; [done|]. by replace (v - hddm + hddm) with v by lia.
Qed.

Lemma deallocate_frame_ok f used used' p : forest_inv L hddm Q (f, used) →
  used ≡ₚ (p + hddm, 1) :: used' →
  ∃ f', deallocate_frame p f = Ret f' ∧ forest_inv L hddm Q (f', used').
Proof.
  intros Hinv Hp. destruct f as [m self].
  destruct (forest_inv_phys _ _ (p + hddm) 1 Hinv) as (Hv & Hphys & _); [rewrite Hp; by left|lia|].
  pose proof Hinv as (Hd & (Hlo & _) & _). cbn [fst snd] in Hd.
  destruct (forest_dealloc_ok m self used (p + hddm) 1 used' Hinv Hp) as (f' & Hrun & Hinv').
  exists f'. split; [|done]. unfold deallocate_frame, Forest_deallocate_contiguous_frames.
  rewrite PhysAddr_new_ok by lia. cbn [mbind exec_bind snd]. simpl rassert. cbn [mbind exec_bind].
  rewrite Hd. run. rewrite VirtAddr_new_ok by (right; lia). done.
Qed.

(** The forest as the source of frames of the other subsystems; [others] are
    the runs of pages it has handed out besides single frames. *)
Definition forest_source : FrameSource forest := {|
  fs_allocate_frame := allocate_frame;
  fs_deallocate_frame := deallocate_frame;
  fs_inv f used := ∃ others, forest_inv L hddm Q (f, ((λ p, (p + hddm, 1)) <$> used) ++ others);
|}.

Lemma forest_inv_perm f used used' : used ≡ₚ used' →
  forest_inv L hddm Q (f, used) → forest_inv L hddm Q (f, used').
Proof.
  intros Hp (? & ? & ? & slots & ? & ? & ? & Hh). cbn [fst snd] in *. split_and!; [done..|].
  exists slots. split_and!; [done..|]. cbn [fst snd]. by rewrite Hh.
Qed.

Lemma forest_source_ok : @FrameSourceOk forest forest_source.
Proof.
  split; cbn [fs_allocate_frame fs_deallocate_frame fs_inv forest_source].
  - intros f used used' Hp [others Hinv]. exists others. eapply forest_inv_perm; [|exact Hinv]. by rewrite Hp.
  - intros f used [others Hinv]. apply forest_inv_apart in Hinv.
    apply NoDup_alt. intros i j p Hi Hj. destruct (decide (i = j)) as [|Hij]; [done|]. exfalso.
    assert (∀ k, used !! k = Some p →
      (((λ q, (q + hddm, 1)) <$> used) ++ others) !! k = Some (p + hddm, 1)) as Hk.
    { intros k Hk. apply lookup_app_l_Some. by rewrite list_lookup_fmap, Hk. }
    eapply pairwise_lookup_ne in Hinv; [|unfold pages_apart; naive_solver|exact Hij|by apply Hk|by apply Hk].
    unfold pages_apart in Hinv. simpl in Hinv. lia.
  - intros f used p [others Hinv] Hp.
    destruct (forest_inv_phys f _ (p + hddm) 1 Hinv) as (_ & Hr & Hal); [|lia|].
    { apply elem_of_app. left. apply list_elem_of_fmap. by exists p. }
    by replace (p + hddm - hddm) with p in * by lia.
  - intros f used [others Hinv]. destruct (allocate_frame_ok f _ Hinv) as (r & f' & Ha & _ & Hr).
    exists r, f'. split; [done|]. destruct r as [p|]; [|by destruct Hr]. exists others. by destruct Hr.
  - intros f used p used' [others Hinv] Hp.
    destruct (deallocate_frame_ok f _ (((λ q, (q + hddm, 1)) <$> used') ++ others) p Hinv) as (f' & Hd & Hinv').
    { by rewrite Hp. }
    exists f'. eauto.
Qed.

End Forest.

(** ** What [init] plans *)

Lemma double_loop_ok fuel j r :
  0 ≤ j → 2 ^ j ≤ r < 2 ^ 62 → Z.log2 r - j < Z.of_nat fuel →
  double_loop fuel (2 ^ j) r = Ret (2 ^ Z.log2 r).
Proof.
  revert j. induction fuel as [|fuel IH]; intros j Hj Hr Hf.
  { assert (j ≤ Z.log2 r) by (apply Z.log2_le_pow2; lia). lia. }
  cbn [double_loop]. run. replace (2 ^ j * 2) with (2 ^ (j + 1)) by (rewrite Z.pow_add_r by lia; lia).
  destruct (Z.leb_spec (2 ^ (j + 1)) r) as [Hle|Hgt].
  - apply IH; lia.
  - assert (Z.log2 r = j) as -> by (apply Z.log2_unique; [lia|split; [lia|]; by replace (Z.succ j) with (j + 1) by lia]).
    done.
Qed.

(** Consecutive chunks of power-of-two sizes from [cur]. *)
Fixpoint chunks (list_start cur : Z) (cs : list allocator_config) : Prop :=
  match cs with
  | [] => True
  | c :: cs =>
      (∃ k, 0 ≤ k ∧ c = mkConfig cur (2 ^ k) (4096 * 2 ^ k) list_start) ∧
      chunks list_start (cur + c.(cf_bytes)) cs
  end.
Definition chunk_frames (cs : list allocator_config) : Z := foldr (λ c n, c.(cf_frames) + n) 0 cs.

Lemma carve_loop_ok fuel N min ls cur rem configs j :
  1 ≤ min → 0 ≤ rem < 2 ^ Z.of_nat j → Z.of_nat j ≤ 52 → (j < fuel)%nat → 0 ≤ cur →
  cur + 4096 * rem < 2 ^ 64 → (length configs + j ≤ N)%nat →
  ∃ new, carve_loop fuel N min ls cur rem configs = Ret (configs ++ new) ∧ chunks ls cur new ∧
    0 ≤ rem - chunk_frames new < min.
Proof.
  intros Hmin. revert j cur rem configs.
  induction fuel as [|fuel IH]; intros j cur rem configs Hrem Hj52 Hf Hcur Hb HN; [lia|].
  cbn [carve_loop]. destruct (Z.ltb_spec rem min) as [Hlt|Hge].
  { exists []. rewrite app_nil_r. split_and!; simpl; [done..|lia|lia]. }
  pose proof (Z.log2_spec rem ltac:(lia)) as [Hlo Hhi]. pose proof (Z.log2_nonneg rem) as Hl0.
  assert (Z.log2 rem < Z.of_nat j) as Hlj by (apply Z.log2_lt_pow2; lia).
  assert (2 ^ Z.of_nat j ≤ 2 ^ 52) by (apply Z.pow_le_mono_r; lia).
  run_by ltac:(apply Nat.ltb_lt; lia).
  change (double_loop 64 1) with (double_loop 64 (2 ^ 0)). rewrite double_loop_ok by lia. cbn [mbind exec_bind]. run. run. run.
  rewrite Z.pow_succ_r in Hhi by lia.
  replace (2 ^ Z.log2 rem * 4096) with (4096 * 2 ^ Z.log2 rem) by lia.
  set (s := 2 ^ Z.log2 rem) in *.
  destruct (IH (Z.to_nat (Z.log2 rem)) (cur + 4096 * s) (rem - s)
    (configs ++ [mkConfig cur s (4096 * s) ls])) as (new & Hrun & Hch & Hleft).
  { rewrite Z2Nat.id by done. fold s. lia. }
  all: try (rewrite ?Z2Nat.id by done; lia).
  { rewrite length_app. simpl. lia. }
  exists (mkConfig cur s (4096 * s) ls :: new). rewrite Hrun, <- (assoc_L (++)). split_and!; [done|..].
  - split; [|done]. by exists (Z.log2 rem).
  - simpl. lia.
  - simpl. lia.
Qed.

(** What a region holds: its frames, the pages of its page list, the rest. *)
Definition region_frames (e : Entry) : Z := e.(en_length) / 4096.
Definition region_list_pages (e : Entry) : Z := (region_frames e * 32 + 4095) / 4096.
Definition region_rest (e : Entry) : Z := region_frames e - region_list_pages e.

(** What the boot loader promises of a usable entry, and the size a 26-level
    allocator can hold (256 GiB). *)
Definition region_ok (hddm : Z) (e : Entry) : Prop :=
  0 < e.(en_base) ∧ (4096 | e.(en_base)) ∧ 0 ≤ e.(en_length) < 2 ^ 38 ∧
  hddm + e.(en_base) + e.(en_length) < 2 ^ 64.

Lemma region_bounds hddm e : region_ok hddm e →
  0 ≤ region_list_pages e ∧ 0 ≤ region_rest e < 2 ^ 26 ∧ 0 ≤ region_frames e < 2 ^ 26 ∧
  4096 * region_frames e ≤ e.(en_length) ∧ region_frames e * 32 ≤ 4096 * region_list_pages e.
Proof.
  intros (_ & _ & Hlen & _). unfold region_rest, region_list_pages, region_frames.
  pose proof (Z.div_mod e.(en_length) 4096 ltac:(lia)). pose proof (Z.mod_pos_bound e.(en_length) 4096 ltac:(lia)).
  set (T := e.(en_length) / 4096) in *.
  pose proof (Z.div_mod (T * 32 + 4095) 4096 ltac:(lia)). pose proof (Z.mod_pos_bound (T * 32 + 4095) 4096 ltac:(lia)).
  set (p := (T * 32 + 4095) / 4096) in *. lia.
Qed.

Lemma next_multiple_of_page a : 0 ≤ a → a + 4096 < 2 ^ 64 →
  next_multiple_of 64 a 4096 = Ret (4096 * ((a + 4095) / 4096)).
Proof.
  intros Ha Hb. unfold next_multiple_of.
  pose proof (Z.div_mod a 4096 ltac:(lia)). pose proof (Z.mod_pos_bound a 4096 ltac:(lia)).
  pose proof (Z.div_mod (a + 4095) 4096 ltac:(lia)). pose proof (Z.mod_pos_bound (a + 4095) 4096 ltac:(lia)).
  destruct (Z.eqb_spec (a mod 4096) 0) as [E|E]; [f_equal; nia|].
  rewrite add_chk_ok by lia. f_equal. nia.
Qed.

Lemma carve_region_run N min hddm e configs : e.(en_usable) = true → region_ok hddm e → 0 ≤ hddm →
  carve_region N min hddm e configs =
    if region_rest e <? min then Ret configs
    else carve_loop 65 N min (e.(en_base) + hddm) (e.(en_base) + 4096 * region_list_pages e)
           (region_rest e) configs.
Proof.
  intros Hu He Hh. pose proof (region_bounds hddm e He) as (H1 & H2 & H3 & H4 & H5).
  destruct He as (Hb & Hal & Hlen & Hend). unfold carve_region. rewrite Hu. cbn [negb].
  fold (region_frames e). unfold NODE_ALIGN. run.
  rewrite next_multiple_of_page by lia. cbn [mbind exec_bind]. fold (region_list_pages e).
  unfold region_rest in *. run. replace (4096 * region_list_pages e) with (region_list_pages e * 4096) by lia.
  rewrite Z.div_mul by lia. run. destruct (_ <? _); [done|]. by run.
Qed.

(** [init] cuts what a usable region has left behind its page list into
    consecutive blocks of power-of-two sizes and wastes fewer frames than the
    minimal allocator has. *)
Theorem carve_region_covers N min hddm e configs :
  e.(en_usable) = true → region_ok hddm e → 0 ≤ hddm → 1 ≤ min → (length configs + 26 ≤ N)%nat →
  ∃ new, carve_region N min hddm e configs = Ret (configs ++ new) ∧
    chunks (e.(en_base) + hddm) (e.(en_base) + 4096 * region_list_pages e) new ∧
    region_rest e - min < chunk_frames new ≤ region_rest e.
Proof.
  intros Hu He Hh Hmin HN. rewrite carve_region_run by done.
  pose proof (region_bounds hddm e He) as (H1 & H2 & H3 & H4 & H5). destruct He as (Hb & Hal & Hlen & Hend).
  destruct (Z.ltb_spec (region_rest e) min) as [Hlt|Hge].
  { exists []. rewrite app_nil_r. split_and!; simpl; [done..|lia|lia]. }
  destruct (carve_loop_ok 65 N min (e.(en_base) + hddm) (e.(en_base) + 4096 * region_list_pages e)
    (region_rest e) configs 26) as (new & Hrun & Hch & Hleft); [lia..|unfold region_rest in *; lia|done|].
  exists new. split_and!; [done..|lia|lia].
Qed.

(** The single allocator of a region whose rest is not worth a second one. *)
Definition one_allocator (e : Entry) : Prop :=
  e.(en_usable) = true → region_rest e - 2 ^ Z.log2 (region_rest e) < 16.

Definition region_config (hddm : Z) (e : Entry) : option allocator_config :=
  if e.(en_usable) && (16 <=? region_rest e) then
    let frames := 2 ^ Z.log2 (region_rest e) in
    Some (mkConfig (e.(en_base) + 4096 * region_list_pages e) frames (4096 * frames) (e.(en_base) + hddm))
  else None.

Lemma carve_region_single N hddm e configs :
  (e.(en_usable) = true → region_ok hddm e) → 0 ≤ hddm → one_allocator e → (length configs < N)%nat →
  carve_region N 16 hddm e configs = Ret (configs ++ option_list (region_config hddm e)).
Proof.
  intros He Hh Hone HN. unfold one_allocator, region_config in *.
  destruct (e.(en_usable)) eqn:Hu; simpl.
  2:{ unfold carve_region. rewrite Hu. by rewrite app_nil_r. }
  specialize (He eq_refl). specialize (Hone eq_refl). rewrite carve_region_run by done.
  pose proof (region_bounds hddm e He) as (H1 & H2 & H3 & H4 & H5). destruct He as (Hb & Hal & Hlen & Hend).
  destruct (Z.ltb_spec (region_rest e) 16) as [Hlt|Hge].
  { rewrite (proj2 (Z.leb_gt _ _)) by lia. simpl. by rewrite app_nil_r. }
  rewrite (proj2 (Z.leb_le _ _)) by lia. simpl option_list.
  pose proof (Z.log2_spec (region_rest e) ltac:(lia)) as [Hlo Hhi].
  cbn [carve_loop]. rewrite (proj2 (Z.ltb_ge _ _)) by lia. run_by ltac:(by apply Nat.ltb_lt).
  change (double_loop 64 1) with (double_loop 64 (2 ^ 0)). rewrite double_loop_ok; [|lia..|].
  2:{ assert (Z.log2 (region_rest e) < 26) by (apply Z.log2_lt_pow2; lia). lia. }
  unfold region_rest in *. cbn [mbind exec_bind]. run. run. run. rewrite (proj2 (Z.ltb_lt _ _)) by lia.
  unfold mret, exec_ret. by rewrite (Z.mul_comm _ 4096).
Qed.

Lemma carve_regions_single N hddm entries configs :
  (∀ e, e ∈ entries → e.(en_usable) = true → region_ok hddm e) → 0 ≤ hddm →
  (∀ e, e ∈ entries → one_allocator e) → (length configs + length entries ≤ N)%nat →
  carve_regions N 16 hddm entries configs = Ret (configs ++ omap (region_config hddm) entries).
Proof.
  intros He Hh Hone. revert configs He Hone. induction entries as [|e entries IH]; intros configs He Hone HN; simpl in *.
  { by rewrite app_nil_r. }
  rewrite carve_region_single; [|by apply He; left|done|by apply Hone; left|lia]. cbn [mbind exec_bind].
  rewrite IH; [|intros e' He'; apply He; by right|intros e' He'; apply Hone; by right|].
  - f_equal. rewrite <- (assoc_L (++)). by destruct (region_config hddm e).
  - rewrite length_app. destruct (region_config hddm e); simpl; lia.
Qed.

(** ** What [fill_page_list] clears *)

Definition no_tag (m : dnode_mem) (x : Z) : Prop := (m x).(nd_level_size) = None.

Lemma foldl_clear_keep (m : dnode_mem) (g : Z → Z) l x :
  no_tag m x → no_tag (foldl (λ m i, <[g i := empty_node]> m) m l) x.
Proof.
  revert m. induction l as [|i l IH]; intros m Hx; simpl; [done|]. apply IH. unfold no_tag.
  destruct (decide (x = g i)) as [->|Hne]; [by rewrite fn_lookup_insert|].
  by rewrite fn_lookup_insert_ne by done.
Qed.
Lemma foldl_clear (m : dnode_mem) (g : Z → Z) l i :
  i ∈ l → no_tag (foldl (λ m i, <[g i := empty_node]> m) m l) (g i).
Proof.
  revert m. induction l as [|j l IH]; intros m; [by intros ?%elem_of_nil|].
  intros [<-|Hi]%elem_of_cons; simpl; [|by apply IH].
  apply foldl_clear_keep. unfold no_tag. by rewrite fn_lookup_insert.
Qed.

Lemma fill_page_list_ok hddm entries m :
  (∀ e, e ∈ entries → e.(en_usable) = true → region_ok hddm e) →
  ∃ m', fill_page_list entries hddm m = Ret m' ∧ (∀ x, no_tag m x → no_tag m' x) ∧
    ∀ e i, e ∈ entries → e.(en_usable) = true → 4096 * 4 < e.(en_length) → 0 ≤ i < region_frames e →
      no_tag m' (e.(en_base) + hddm + 32 * i).
Proof.
  revert m. induction entries as [|e entries IH]; intros m He; simpl.
  { exists m. split_and!; try done. intros e i Hin. by apply elem_of_nil in Hin. }
  assert (∃ m1, fill_entry hddm e m = Ret m1 ∧ (∀ x, no_tag m x → no_tag m1 x) ∧
    (e.(en_usable) = true → 4096 * 4 < e.(en_length) → ∀ i, 0 ≤ i < region_frames e →
      no_tag m1 (e.(en_base) + hddm + 32 * i))) as (m1 & -> & Hkeep & Hclear).
  { unfold fill_entry. destruct (e.(en_usable)) eqn:Hu; simpl; [|by exists m].
    destruct (He e) as (Hb & _ & Hlen & Hend); [by left|done|].
    rewrite (proj2 (Z.eqb_neq _ _)) by lia. simpl.
    destruct (Z.ltb_spec (4096 * 4) e.(en_length)); simpl; [|exists m; split_and!; [done..|lia]].
    run. eexists. split; [reflexivity|]. split.
    - intros x Hx. by apply (foldl_clear_keep m (λ i, e.(en_base) + hddm + i * NODE_ALIGN)).
    - intros _ _ i Hi. replace (e.(en_base) + hddm + 32 * i) with (e.(en_base) + hddm + i * NODE_ALIGN)
        by (unfold NODE_ALIGN; lia).
      apply (foldl_clear m (λ i, e.(en_base) + hddm + i * NODE_ALIGN)). apply elem_of_seqZ.
      unfold region_frames in Hi. lia. }
  cbn [mbind exec_bind]. destruct (IH m1) as (m' & -> & Hkeep' & Hclear').
  { intros e' He'. apply He. by right. }
  exists m'. split_and!; [done|eauto|].
  intros e' i [->|Hin]%elem_of_cons Hu Hl Hi; eauto.
Qed.

(** ** What [init] builds *)

Definition slot_of (hddm : Z) (c : allocator_config) : slot :=
  mkSlot (Z.to_nat (Z.log2 c.(cf_frames))) (c.(cf_start) + hddm) c.(cf_list) [].

Lemma slot_of_shape hddm e c :
  hddm_ok hddm → region_ok hddm e → region_config hddm e = Some c →
  let sl := slot_of hddm c in
  shape_ok 26 sl ∧ sl.(sl_pl) = e.(en_base) + hddm ∧
  (sl.(sl_vs) - sl.(sl_pl)) / 4096 + 2 ^ Z.of_nat sl.(sl_n) ≤ region_frames e ∧
  4096 * 4 < e.(en_length) ∧ c.(cf_frames) = 2 ^ Z.of_nat sl.(sl_n) ∧
  c.(cf_bytes) = 4096 * 2 ^ Z.of_nat sl.(sl_n) ∧ c.(cf_list) = sl.(sl_pl) ∧
  e.(en_usable) = true ∧ sl_end sl ≤ e.(en_base) + e.(en_length) + hddm ∧
  e.(en_base) + hddm + 32 * region_frames e ≤ sl.(sl_vs).
Proof.
  intros [Hh Hh4] He Hc. pose proof (region_bounds hddm e He) as (H1 & H2 & H3 & H4 & H5).
  destruct He as (Hb & Hal & Hlen & Hend). unfold region_config in Hc.
  destruct (e.(en_usable)) eqn:Hu; [|done]. simpl in Hc.
  destruct (Z.leb_spec 16 (region_rest e)) as [Hge|]; [|done]. simplify_eq. unfold slot_of, sl_end, shape_ok; simpl.
  pose proof (Z.log2_spec (region_rest e) ltac:(lia)) as [Hlo _].
  pose proof (Z.log2_nonneg (region_rest e)).
  assert (Z.log2 (region_rest e) < 26) by (apply Z.log2_lt_pow2; lia).
  assert (4 ≤ Z.log2 (region_rest e)) by (apply (Z.log2_le_mono 16); lia).
  rewrite Z.log2_pow2, Z2Nat.id by lia. unfold region_rest in *.
  replace (e.(en_base) + 4096 * region_list_pages e + hddm - (e.(en_base) + hddm))
    with (region_list_pages e * 4096) by lia.
  rewrite Z.div_mul by lia. unfold sl_end; simpl. rewrite Z2Nat.id by lia.
  split_and!; try done; try lia; [|by apply Z.divide_factor_r].
  apply Z.divide_add_r; [|done]. apply Z.divide_add_r; [done|apply Z.divide_factor_l].
Qed.

Lemma build_one_ok hddm e c m :
  hddm_ok hddm → region_ok hddm e → region_config hddm e = Some c →
  (∀ x, in_zone (slot_of hddm c).(sl_n) (slot_of hddm c).(sl_vs) (slot_of hddm c).(sl_pl) x → no_tag m x) →
  ∃ m' a, build_one 26 hddm c m = Ret (m', a) ∧ slot_client 26 m' a (slot_of hddm c) ∧
    (∀ x, ¬ in_range (slot_of hddm c) x → m' x = m x).
Proof.
  intros Hh He Hc Hz.
  destruct (slot_of_shape hddm e c Hh He Hc) as (Hs & _ & _ & _ & Hf & Hby & Hl & _).
  pose proof Hs as (Hn & Hn1 & Hpl & Hal & Hoff & Hend). unfold build_one.
  set (sl := slot_of hddm c) in *.
  assert (c.(cf_start) + hddm = sl.(sl_vs)) as Hvs by done. unfold sl_end in Hend.
  pose proof (Z.pow_pos_nonneg 2 (Z.of_nat sl.(sl_n))).
  run. rewrite Hvs, Hby. run.
  assert (2 ^ 1 ≤ 2 ^ Z.of_nat sl.(sl_n)) by (apply Z.pow_le_mono_r; lia).
  rewrite Hf, (proj2 (Z.eqb_neq _ _)) by lia. rewrite trailing_zeros_pow2, Nat2Z.id by lia.
  rewrite (proj2 (Nat.leb_le _ _)) by lia. rewrite Hl.
  destruct (FrameBuddyAllocator_new_ok 26 sl.(sl_n) sl.(sl_vs) sl.(sl_pl)) with m
    as (m' & a & -> & Hkept & Hc'); try done; [lia|].
  exists m', a. done.
Qed.

Lemma build_loop_ok hddm cs : ∀ (done_ : list slot) m allocs count,
  hddm_ok hddm →
  (∀ c, c ∈ cs → ∃ e, region_ok hddm e ∧ region_config hddm e = Some c) →
  (∀ c x, c ∈ cs → in_zone (slot_of hddm c).(sl_n) (slot_of hddm c).(sl_vs) (slot_of hddm c).(sl_pl) x → no_tag m x) →
  pairwise isolated (done_ ++ (slot_of hddm <$> cs)) →
  (count + length cs ≤ length allocs)%nat → Forall2 (slot_ok 26 m) (take count allocs) done_ →
  ∃ m' allocs', build_loop 26 hddm cs count m allocs = Ret (m', allocs', (count + length cs)%nat) ∧
    length allocs' = length allocs ∧
    Forall2 (slot_ok 26 m') (take (count + length cs) allocs') (done_ ++ (slot_of hddm <$> cs)).
Proof.
  induction cs as [|c cs IH]; intros done_ m allocs count Hh Hcs Hz Hpw Hlen Hok; simpl in *.
  { exists m, allocs. rewrite Nat.add_0_r, app_nil_r. done. }
  destruct (Hcs c) as (e & He & Hc); [by left|].
  destruct (build_one_ok hddm e c m Hh He Hc) as (m1 & a & -> & Hcl & Hm1).
  { intros x. apply Hz. by left. }
  destruct (slot_of_shape hddm e c Hh He Hc) as (Hs & _).
  cbn [mbind exec_bind]. destruct (lookup_lt_is_Some_2 allocs count) as [oa Hoa]; [lia|]. run.
  rewrite cons_middle, (assoc_L (++)) in Hpw |- *.
  assert (∀ sl', sl' ∈ done_ → isolated (slot_of hddm c) sl') as Hiso.
  { intros sl' [i Hi]%list_elem_of_lookup. apply or_comm.
    eapply (pairwise_lookup isolated _ i (length done_)); [exact Hpw|by eapply lookup_lt_Some| |].
    - rewrite <- (assoc_L (++)). by rewrite lookup_app_l by (by eapply lookup_lt_Some).
    - rewrite <- (assoc_L (++)), lookup_app_r, Nat.sub_diag by lia. done. }
  replace (count + S (length cs))%nat with (S count + length cs)%nat by lia.
  edestruct (IH (done_ ++ [slot_of hddm c]) m1 (<[count := Some a]> allocs) (S count)) as (m' & allocs' & Hrun & Hl & Hok');
    [done|by intros c' Hc'; apply Hcs; right| |done|rewrite length_insert; lia| |].
  - intros c' x Hc' Hx. unfold no_tag. rewrite Hm1; [eapply Hz; [by right|done]|].
    destruct (Hcs c') as (e' & He' & Hce'); [by right|].
    destruct (slot_of_shape hddm e' c' Hh He' Hce') as (Hs' & _).
    eapply (isolated_range 26 (slot_of hddm c')); try done. apply or_comm.
    apply list_elem_of_lookup in Hc' as [j Hj].
    eapply (pairwise_lookup isolated _ (length done_) (S (length done_) + j)); [exact Hpw|lia| |].
    + rewrite <- (assoc_L (++)), lookup_app_r, Nat.sub_diag by lia. done.
    + rewrite lookup_app_r by (rewrite length_app; simpl; lia). rewrite length_app. simpl.
      replace (S (length done_ + j) - (length done_ + 1))%nat with j by lia. by rewrite list_lookup_fmap, Hj.
  - rewrite (take_S_r _ _ (Some a)) by (apply list_lookup_insert_eq; lia).
    rewrite take_insert_ge by done. apply Forall2_app.
    + by apply (slots_ok_foreign 26 m m1 _ _ (slot_of hddm c)).
    + constructor; [|constructor]. split; [done|eauto].
  - exists m', allocs'. rewrite length_insert in Hl. done.
Qed.

(** ** Booting the frame allocator *)

Definition regions_apart (e e' : Entry) : Prop :=
  e.(en_usable) = true → e'.(en_usable) = true →
  e.(en_base) + e.(en_length) ≤ e'.(en_base) ∨ e'.(en_base) + e'.(en_length) ≤ e.(en_base).

(** A memory map as the boot loader gives it, in which no region is cut into
    more than one allocator. *)
Definition memory_map_ok (hddm : Z) (entries : list Entry) : Prop :=
  hddm_ok hddm ∧ (∀ e, e ∈ entries → e.(en_usable) = true → region_ok hddm e) ∧
  pairwise regions_apart entries ∧ (∀ e, e ∈ entries → one_allocator e) ∧ (length entries ≤ 100)%nat.

(** The word after each page list reads as a node without a tag. *)
Definition guard_nodes (hddm : Z) (entries : list Entry) (m : dnode_mem) : Prop :=
  ∀ e, e ∈ entries → e.(en_usable) = true →
    no_tag m (e.(en_base) + hddm + 32 * region_frames e).

(** The allocator of [sl] was carved from an entry, past its page list. *)
Definition carved (hddm : Z) (entries : list Entry) (sl : slot) : Prop :=
  ∃ e, e ∈ entries ∧ e.(en_usable) = true ∧
    e.(en_base) + hddm + 32 * region_frames e ≤ sl.(sl_vs) ∧
    sl_end sl ≤ e.(en_base) + hddm + e.(en_length).

Lemma carved_used hddm entries sl u : carved hddm entries sl → carved hddm entries (with_used sl u).
Proof. intros (e & ? & ? & ? & ?). by exists e. Qed.

Lemma planned_isolated hddm entries :
  memory_map_ok hddm entries →
  pairwise isolated (slot_of hddm <$> omap (region_config hddm) entries).
Proof.
  intros (Hh & Hr & Hpw & _). apply pairwise_fmap.
  eapply pairwise_omap; [|exact Hpw]. intros e e' c c' He He' Hap Hc Hc'. cbv beta.
  assert (∀ e c, e ∈ entries → region_config hddm e = Some c → e.(en_usable) = true) as Hu.
  { clear. intros e c _ Hc. unfold region_config in Hc. by destruct (e.(en_usable)). }
  destruct (slot_of_shape hddm e c Hh) as (_ & Hpl & _ & _ & _ & _ & _ & Hue & Hend & _); [by eauto|done|].
  destruct (slot_of_shape hddm e' c' Hh) as (_ & Hpl' & _ & _ & _ & _ & _ & Hue' & Hend' & _); [by eauto|done|].
  destruct (Hap Hue Hue'); [left|right]; lia.
Qed.

Lemma planned_zone hddm entries m m1 e c x :
  memory_map_ok hddm entries → guard_nodes hddm entries m →
  (∀ x, no_tag m x → no_tag m1 x) →
  (∀ e i, e ∈ entries → e.(en_usable) = true → 4096 * 4 < e.(en_length) → 0 ≤ i < region_frames e →
    no_tag m1 (e.(en_base) + hddm + 32 * i)) →
  e ∈ entries → region_config hddm e = Some c →
  in_zone (slot_of hddm c).(sl_n) (slot_of hddm c).(sl_vs) (slot_of hddm c).(sl_pl) x → no_tag m1 x.
Proof.
  intros (Hh & Hr & _) Hg Hkeep Hclear He Hc [Hx [i Hi]].
  assert (e.(en_usable) = true) as Hu by (unfold region_config in Hc; by destruct (e.(en_usable))).
  destruct (slot_of_shape hddm e c Hh) as (_ & Hpl & Hfr & Hlen & _); [by eauto|done|].
  rewrite Hpl in *. replace x with (e.(en_base) + hddm + 32 * i) by lia.
  destruct (decide (i = region_frames e)) as [->|Hne]; [by apply Hkeep, Hg|].
  apply Hclear; try done. lia.
Qed.

Lemma forest_boot_ok sort hddm entries m :
  memory_map_ok hddm entries → guard_nodes hddm entries m → (∀ l, sort l ≡ₚ l) →
  ∃ m1 m2 self, fill_page_list entries hddm m = Ret m1 ∧
    init_frame_allocator sort entries hddm m1 None = Ret (m2, Some self) ∧
    forest_inv 26 hddm (carved hddm entries) ((m2, self), []).
Proof.
  intros Hmap Hg Hsort. pose proof Hmap as (Hh & Hr & Hpw & Hone & Hlen).
  destruct (fill_page_list_ok hddm entries m Hr) as (m1 & Hfill & Hkeep & Hclear).
  pose proof Hh as [Hh1 Hh4]. set (cs := omap (region_config hddm) entries).
  assert (∀ c, c ∈ sort cs → ∃ e, e ∈ entries ∧ e.(en_usable) = true ∧ region_config hddm e = Some c) as Hsrc.
  { intros c Hc. rewrite Hsort in Hc. apply list_elem_of_omap in Hc as (e & He & Hc). exists e.
    split_and!; try done. unfold region_config in Hc. by destruct (e.(en_usable)). }
  assert (length (sort cs) ≤ 100)%nat as Hcs.
  { rewrite Hsort. unfold cs. pose proof (length_omap_le (region_config hddm) entries). lia. }
  destruct (build_loop_ok hddm (sort cs) [] m1 (replicate 100 None) 0) as (m2 & allocs & Hb & Hal & Hok).
  - done.
  - intros c Hc. destruct (Hsrc c Hc) as (e & He & Hu & Hce). eauto.
  - intros c x Hc. destruct (Hsrc c Hc) as (e & He & Hu & Hce). by eapply planned_zone.
  - eapply pairwise_perm; [|by rewrite Hsort|by apply planned_isolated].
    intros ? ? []; [by right|by left].
  - rewrite length_replicate. done.
  - constructor.
  - exists m1, m2, (mkForest allocs (length (sort cs)) hddm). split_and!; [done|..].
    + unfold init_frame_allocator, Forest_init. simpl rassert. cbn [mbind exec_bind].
      rewrite carve_regions_single by (done || lia || (simpl; lia)). cbn [mbind exec_bind app].
      fold cs. by rewrite Hb.
    + split; [done|]. split; [done|]. simpl. split; [by rewrite Hal, length_replicate|].
      exists (slot_of hddm <$> sort cs). split_and!; simpl; [done| | |].
      * eapply pairwise_perm; [|by rewrite Hsort|by apply planned_isolated].
        intros ? ? []; [by right|by left].
      * intros sl (c & -> & Hc)%list_elem_of_fmap. destruct (Hsrc c Hc) as (e & He & Hu & Hce).
        destruct (slot_of_shape hddm e c Hh) as (_ & -> & _ & _ & _ & _ & _ & _ & Hend & Hvs); [by eauto|done|].
        pose proof (Hr e He Hu) as (? & _). split; [lia|]. exists e. split_and!; [done..|lia].
      * clear. induction (sort cs) as [|c l IH]; [done|]. by rewrite fmap_cons, held_pages_cons, IH.
Qed.

(** ** The kernel's frame allocator in use *)

Section Kernel_frames.
Context `{HA : Addresses}.

(** Reachable by page operations after boot. *)
Definition forest_reachable (sort : list allocator_config → list allocator_config) (hddm : Z)
    (entries : list Entry) (m : dnode_mem) (c : forest * list (Z * Z)) : Prop :=
  ∃ m1 m2 self, fill_page_list entries hddm m = Ret m1 ∧
    init_frame_allocator sort entries hddm m1 None = Ret (m2, Some self) ∧
    rtc forest_step ((m2, self), []) c.

(** The conditions of the theorems on the running allocator.  The memory map has at
    most 100 entries.  Its usable regions are disjoint, start at a page boundary
    above 0, are shorter than 2^38 bytes and in reach of the direct map, and each
    is cut into at most one allocator ([one_allocator]; see
    [forest_hands_out_page_past_region] for what happens otherwise).  The
    node-sized piece of memory after each page list reads as a node without a tag
    ([guard_nodes]; the code does not clear it).  And [sort] permutes its
    argument. *)
Definition forest_setup (sort : list allocator_config → list allocator_config) (hddm : Z)
    (entries : list Entry) (m : dnode_mem) : Prop :=
  memory_map_ok hddm entries ∧ guard_nodes hddm entries m ∧ ∀ l, sort l ≡ₚ l.

Lemma forest_reachable_inv `{!AddressesOk} sort hddm entries m c :
  forest_setup sort hddm entries m → forest_reachable sort hddm entries m c →
  forest_inv 26 hddm (carved hddm entries) c.
Proof.
  intros (Hmap & Hg & Hsort) (m1 & m2 & self & Hfill & Hinit & Hsteps).
  destruct (forest_boot_ok sort hddm entries m Hmap Hg Hsort) as (m1' & m2' & self' & Hfill' & Hinit' & Hinv).
  exec_eq. eapply forest_inv_steps; [apply carved_used|exact Hinv|exact Hsteps].
Qed.

(** C2: the frame allocator never hands out a page twice.  Under the conditions of
    [forest_setup] (at most 100 entries in the memory map; usable regions that are
    disjoint, page aligned, shorter than 2^38 bytes, in reach of the direct map
    and cut into at most one allocator each; an untagged node after each page
    list), outstanding runs of pages are page aligned, lie in a usable region past
    its page list, and two of them never overlap, in any interleaving of
    allocations and returns of runs. *)
Theorem forest_pages_disjoint `{!AddressesOk} sort hddm entries m f used i j x y :
  forest_setup sort hddm entries m → forest_reachable sort hddm entries m (f, used) →
  used !! i = Some x → used !! j = Some y → i ≠ j →
  pages_apart x y ∧ (4096 | x.1) ∧
  ∃ e, e ∈ entries ∧ e.(en_usable) = true ∧
    e.(en_base) + hddm + 32 * region_frames e ≤ x.1 ∧
    x.1 + 4096 * x.2 ≤ e.(en_base) + hddm + e.(en_length).
Proof.
  intros Hs Hr Hx Hy Hij. pose proof (forest_reachable_inv _ _ _ _ _ Hs Hr) as Hinv. split.
  - eapply (pairwise_lookup_ne pages_apart used i j); [|by eapply forest_inv_apart|done..].
    unfold pages_apart. intros ? ? []; [by right|by left].
  - destruct (forest_inv_where 26 hddm _ f used x Hinv) as (sl & _ & (e & He & Hu & Hlo & Hhi) & H1 & H2 & H3 & _);
      [by eapply list_elem_of_lookup_2|].
    split; [done|]. exists e. split_and!; [done..|lia|lia].
Qed.

(** C20: under the conditions of [forest_setup] (at most 100 entries in the memory
    map; usable regions that are disjoint, page aligned, shorter than 2^38 bytes,
    in reach of the direct map and cut into at most one allocator each; an
    untagged node after each page list), [allocate_contiguous_pages] returns for
    every power of two of fewer than 2^52 pages; when it returns [None], nothing
    has changed, and what is not outstanding is in free blocks of fewer pages; a
    request for a single page fails only when all the pages of the forest are
    outstanding. *)
Theorem forest_alloc_complete `{!AddressesOk} sort hddm entries m ms self used k :
  forest_setup sort hddm entries m → forest_reachable sort hddm entries m ((ms, self), used) →
  (k < 52)%nat →
  ∃ r f', Forest_allocate_contiguous_pages (2 ^ Z.of_nat k) (ms, self) = Ret (r, f') ∧
    (r = None → f' = (ms, self) ∧ (k = 0%nat → block_sum used = pages_total self) ∧
      ∃ slots, Forall2 (no_room 26 ms k) (take self.(ff_count) self.(ff_allocators)) slots ∧
        held_pages slots ≡ₚ used).
Proof.
  intros Hs Hr Hk. pose proof (forest_reachable_inv _ _ _ _ _ Hs Hr) as Hinv.
  destruct (forest_alloc_ok 26 hddm _ (carved_used hddm entries) ms self used k Hinv Hk)
    as (r & f' & Hrun & _ & Hr').
  exists r, f'. split; [done|]. by intros ->.
Qed.

Lemma forest_offset_kept pages f r f' :
  Forest_allocate_contiguous_pages pages f = Ret (r, f') → f'.2.(ff_hddm_offset) = f.2.(ff_hddm_offset).
Proof.
  destruct f as [m self]. unfold Forest_allocate_contiguous_pages. intros Ha.
  do 2 (apply bind_Ret_inv in Ha as (? & _ & Ha)). apply bind_Ret_inv in Ha as ([[? ?] ?] & _ & Ha). by exec_inv.
Qed.

(** A frame that [allocate_frame] hands out can be given back: its physical
    address is a page-aligned address of a usable region, and
    [deallocate_frame] accepts it. *)
Theorem forest_frame_roundtrip `{!AddressesOk} sort hddm entries m f used p f' :
  forest_setup sort hddm entries m → forest_reachable sort hddm entries m (f, used) →
  allocate_frame f = Ret (Some p, f') →
  (4096 | p) ∧ (∃ e, e ∈ entries ∧ e.(en_usable) = true ∧
    e.(en_base) + 32 * region_frames e ≤ p ∧ p + 4096 ≤ e.(en_base) + e.(en_length)) ∧
  ∃ f'', deallocate_frame p f' = Ret f'' ∧ forest_inv 26 hddm (carved hddm entries) (f'', used).
Proof.
  intros Hs Hr Ha. pose proof (forest_reachable_inv _ _ _ _ _ Hs Hr) as Hinv.
  destruct (allocate_frame_ok 26 hddm _ (carved_used hddm entries) f used Hinv) as (r & f1 & Ha' & _ & Hr1).
  rewrite Ha in Ha'. injection Ha' as <- <-. destruct Hr1 as [Hinv' Hal]. split; [done|].
  destruct (forest_inv_where 26 hddm _ _ _ (p + hddm, 1) Hinv')
    as (sl & Hsh & (e & He & Hu & Hlo & Hhi) & H1 & H2 & H3 & _); [by left|]. simpl in H1, H2, H3.
  split; [exists e; split_and!; [done..|lia|lia]|].
  by apply (deallocate_frame_ok 26 hddm _ (carved_used hddm entries) f' ((p + hddm, 1) :: used)).
Qed.

(** C21: the forest honours the frame-source contract that the page allocator,
    the stacks and the drivers rely on: under the conditions of [forest_setup] (at
    most 100 entries in the memory map; usable regions that are disjoint, page
    aligned, shorter than 2^38 bytes, in reach of the direct map and cut into at
    most one allocator each; an untagged node after each page list) it is, after
    boot, a frame source with no frame outstanding. *)
Theorem forest_is_frame_source `{!AddressesOk} sort hddm entries m f :
  forest_setup sort hddm entries m → forest_reachable sort hddm entries m (f, []) →
  @FrameSourceOk forest (forest_source 26 hddm (carved hddm entries)) ∧
  @fs_inv forest (forest_source 26 hddm (carved hddm entries)) f [].
Proof.
  intros Hs Hr. split; [apply forest_source_ok, carved_used|].
  exists []. apply (forest_reachable_inv _ _ _ _ _ Hs Hr).
Qed.

(** *** Replaying a sequence of operations *)

Inductive page_op : Type :=
  | Alloc (pages : Z)
  | Free (virt_addr pages : Z).

Fixpoint drop_first (x : Z * Z) (l : list (Z * Z)) : option (list (Z * Z)) :=
  match l with
  | [] => None
  | y :: l => if decide (x = y) then Some l else cons y <$> drop_first x l
  end.
Lemma drop_first_perm x l l' : drop_first x l = Some l' → l ≡ₚ x :: l'.
Proof.
  revert l'. induction l as [|y l IH]; intros l' Hl; simpl in Hl; [done|].
  case_decide as Hxy; [by simplify_eq|].
  apply fmap_Some in Hl as (l0 & Hl0 & ->). rewrite (IH l0 Hl0). by constructor.
Qed.

Fixpoint replay (ops : list page_op) (c : forest * list (Z * Z)) : exec (forest * list (Z * Z)) :=
  match ops with
  | [] => mret c
  | Alloc pages :: ops =>
      _ ← rassert (pages <? 2 ^ 52);
      '(r, f) ← Forest_allocate_contiguous_pages pages c.1;
      replay ops (f, match r with Some v => (v, pages) :: c.2 | None => c.2 end)
  | Free v pages :: ops =>
      used ← unwrap (drop_first (v, pages) c.2);
      f ← Forest_deallocate_contiguous_pages v pages c.1;
      replay ops (f, used)
  end.

Lemma replay_steps ops c c' : replay ops c = Ret c' → rtc forest_step c c'.
Proof.
  revert c. induction ops as [|[pages|v pages] ops IH]; intros [f used] Hr; cbn [replay fst snd] in Hr.
  - by exec_inv.
  - apply bind_Ret_inv in Hr as (? & Hlt%rassert_inv%Z.ltb_lt & Hr).
    apply bind_Ret_inv in Hr as ([r f1] & Ha & Hr). eapply rtc_l; [|by apply IH].
    destruct r; [by apply forest_step_alloc|by eapply forest_step_none].
  - apply bind_Ret_inv in Hr as (used' & Hu & Hr). apply bind_Ret_inv in Hr as (f1 & Hd & Hr).
    eapply rtc_l; [|by apply IH]. eapply forest_step_dealloc; [|exact Hd].
    unfold unwrap in Hu. destruct (drop_first (v, pages) used) as [l|] eqn:E; [|done]. simplify_eq.
    by apply drop_first_perm.
Qed.

Definition booted (sort : list allocator_config → list allocator_config) (entries : list Entry) (hddm : Z)
    (m : dnode_mem) : exec (forest * list (Z * Z)) :=
  m ← fill_page_list entries hddm m;
  '(m, f) ← init_frame_allocator sort entries hddm m None;
  f ← unwrap f;
  mret ((m, f), []).

Lemma booted_replay sort entries hddm m ops c :
  (c0 ← booted sort entries hddm m; replay ops c0) = Ret c → forest_reachable sort hddm entries m c.
Proof.
  intros Hr. apply bind_Ret_inv in Hr as (c0 & Hb & Hr). unfold booted in Hb.
  apply bind_Ret_inv in Hb as (m1 & Hfill & Hb). apply bind_Ret_inv in Hb as ([m2 fo] & Hinit & Hb).
  apply bind_Ret_inv in Hb as (self & Hself & Hb). destruct fo as [f|]; [|done]. simpl in Hself.
  simplify_eq. unfold mret, exec_ret in Hb. simplify_eq.
  exists m1, m2, self. split_and!; [done..|]. by eapply replay_steps.
Qed.

End Kernel_frames.

(** ** Runs *)

Section Runs.
#[local] Instance run_addresses : Addresses := model_addresses.

Definition HHDM : Z := 0xFFFF800000000000.
Definition blank : dnode_mem := λ _, empty_node.

Definition outcome {A} (m : exec (A * list (Z * Z))) : option (list (Z * Z)) :=
  match m with Ret (_, used) => Some used | _ => None end.
Lemma outcome_Ret {A} (m : exec (A * list (Z * Z))) used :
  outcome m = Some used → ∃ f, m = Ret (f, used).
Proof. destruct m as [[f u]| |]; simpl; intros; simplify_eq; eauto. Qed.

(** One usable region at 1 MiB. *)
Definition one_region (len : Z) : list Entry := [mkEntry 0x100000 len true; mkEntry 0 4096 false].

Lemma one_region_setup len : 0 ≤ len < 2 ^ 38 → one_allocator (mkEntry 0x100000 len true) →
  forest_setup (λ l, l) HHDM (one_region len) blank.
Proof.
  intros Hlen Hone. split; [|done]. split_and!; try done.
  - split; [done|]. by exists 0xFFFF800000000.
  - intros e [->|[->|[]%elem_of_nil]%elem_of_cons]%elem_of_cons Hu; [|done].
    split_and!; simpl; try (done || unfold HHDM; lia). by exists 0x100.
  - constructor; [|constructor; [|constructor]].
    + by intros e ->%list_elem_of_singleton _.
    + by intros e ?%elem_of_nil.
  - intros e [->|[->|[]%elem_of_nil]%elem_of_cons]%elem_of_cons; done.
  - simpl. lia.
Qed.

(** A region of 17 frames: one page of page list, one allocator of 16. *)
Definition small_map : list Entry := one_region (17 * 4096).

Lemma small_map_setup : forest_setup (λ l, l) HHDM small_map blank.
Proof. apply one_region_setup; [lia|]. intros _. by vm_compute. Qed.

Lemma run_reachable sort entries hddm m ops used :
  outcome (c ← booted sort entries hddm m; replay ops c) = Some used →
  ∃ f, forest_reachable sort hddm entries m (f, used).
Proof. intros [f Hf]%outcome_Ret. exists f. by eapply booted_replay. Qed.

Lemma next_alloc sort entries hddm m ops used pages r :
  match (c ← booted sort entries hddm m; replay ops c) with
  | Ret (f, u) => match Forest_allocate_contiguous_pages pages f with
                  | Ret (r, _) => Some (u, r) | _ => None end
  | _ => None
  end = Some (used, r) →
  ∃ f f', forest_reachable sort hddm entries m (f, used) ∧
    Forest_allocate_contiguous_pages pages f = Ret (r, f').
Proof.
  destruct (c ← booted sort entries hddm m; replay ops c) as [[f u]| |] eqn:Hb; [|done..].
  destruct (Forest_allocate_contiguous_pages pages f) as [[r' f']| |] eqn:Ha; [|done..].
  intros [= -> ->]. exists f, f'. split; [by eapply booted_replay|done].
Qed.

Lemma small_reachable :
  ∃ f, forest_reachable (λ l, l) HHDM small_map blank (f, [(HHDM + 0x107000, 2); (HHDM + 0x101000, 4)]).
Proof.
  apply (run_reachable _ _ _ _ [Alloc 4; Alloc 1; Alloc 2; Free (HHDM + 0x105000) 1]).
  vm_compute. reflexivity.
Qed.

Lemma forest_pages_disjoint_witness : pages_apart (HHDM + 0x107000, 2) (HHDM + 0x101000, 4).
Proof.
  destruct small_reachable as [f Hf].
  exact (proj1 (@forest_pages_disjoint _ model_addresses_ok _ _ _ _ _ _ 0%nat 1%nat _ _
    small_map_setup Hf eq_refl eq_refl ltac:(done))).
Defined.

Lemma forest_alloc_complete_witness : ∃ ms self used r f',
  forest_reachable (λ l, l) HHDM small_map blank ((ms, self), used) ∧
  Forest_allocate_contiguous_pages (2 ^ Z.of_nat 5) (ms, self) = Ret (r, f').
Proof.
  destruct small_reachable as [[ms self] Hf].
  destruct (@forest_alloc_complete _ model_addresses_ok _ _ _ _ ms self _ 5%nat small_map_setup Hf ltac:(lia))
    as (r & f' & Hrun & _).
  eexists ms, self, _, r, f'. split; [exact Hf|exact Hrun].
Defined.

Lemma first_frame sort entries hddm m p :
  match booted sort entries hddm m with
  | Ret (f, _) => match allocate_frame f with Ret (r, _) => r | _ => None end
  | _ => None
  end = Some p →
  ∃ f f', forest_reachable sort hddm entries m (f, []) ∧ allocate_frame f = Ret (Some p, f').
Proof.
  destruct (booted sort entries hddm m) as [[f u]| |] eqn:Hb; [|done..].
  destruct (allocate_frame f) as [[r f']| |] eqn:Ha; [|done..]. intros ->. exists f, f'. split; [|done].
  assert (u = []) as ->.
  { unfold booted in Hb. apply bind_Ret_inv in Hb as (m1 & _ & Hb). apply bind_Ret_inv in Hb as ([m2 fo] & _ & Hb).
    apply bind_Ret_inv in Hb as (self & _ & Hb). by exec_inv. }
  apply (booted_replay _ _ _ _ []). by rewrite Hb.
Qed.

Lemma small_frame :
  ∃ f f', forest_reachable (λ l, l) HHDM small_map blank (f, []) ∧
    allocate_frame f = Ret (Some 0x101000, f').
Proof. apply first_frame. vm_compute. reflexivity. Qed.

Lemma forest_frame_roundtrip_witness : ∃ f' f'', deallocate_frame 0x101000 f' = Ret f''.
Proof.
  destruct small_frame as (f & f' & Hr & Ha).
  destruct (@forest_frame_roundtrip _ model_addresses_ok _ _ _ _ f [] 0x101000 f' small_map_setup Hr Ha)
    as (_ & _ & f'' & Hd & _).
  exists f', f''. exact Hd.
Defined.

Lemma forest_is_frame_source_witness :
  ∃ f, @FrameSourceOk forest (forest_source 26 HHDM (carved HHDM small_map)) ∧
    @fs_inv forest (forest_source 26 HHDM (carved HHDM small_map)) f [].
Proof.
  destruct small_frame as (f & f' & Hr & Ha). exists f.
  apply (@forest_is_frame_source _ model_addresses_ok _ _ _ _ f small_map_setup Hr).
Defined.

(** *** Two allocators on one page list

    [merge_buddies] computes a buddy relative to the start of the page list and
    recognises a free block by the size tag of its node alone.  [init] puts all
    the allocators of a region on one page list, so a block at the edge of an
    allocator can be merged with a free block of its neighbour. *)

Definition big_map : list Entry := [mkEntry 0x100000 (1000 * 4096) true].
Definition page (i : Z) : Z := HHDM + 0x100000 + i * 4096.

(** In a region of 1000 frames, which [init] cuts into allocators of 512,
    256, 128, 64 and 32 frames, a sequence of allocations and correct returns
    makes the forest hand out page 512 twice. *)
Theorem forest_hands_out_page_twice :
  ∃ f used, forest_reachable (λ l, l) HHDM big_map blank (f, (page 512, 16) :: (page 512, 8) :: used).
Proof.
  destruct (run_reachable (λ l, l) big_map HHDM blank
    [Alloc 256; Alloc 8; Alloc 64; Alloc 64; Alloc 32; Alloc 32; Alloc 16; Alloc 16; Alloc 8; Alloc 8;
     Alloc 8; Alloc 8; Free (page 512) 8; Free (page 520) 8; Alloc 8; Alloc 16]
    ((page 512, 16) :: (page 512, 8) ::
      [(page 504, 8); (page 272, 8); (page 488, 16); (page 280, 16); (page 456, 32); (page 296, 32);
       (page 392, 64); (page 328, 64); (page 264, 8); (page 8, 256)])) as [f Hf].
  - vm_compute. reflexivity.
  - eauto.
Qed.

(** [fill_page_list] clears one node per frame, but returning the last
    frame of a region looks at the node after them.  With a stale tag there,
    the forest hands out a page past the end of the region. *)
Theorem forest_hands_out_page_past_region :
  ∃ m f used, memory_map_ok HHDM small_map ∧
    forest_reachable (λ l, l) HHDM small_map m (f, (page 16, 2) :: used) ∧
    page 16 + 2 * 4096 > HHDM + 0x100000 + 17 * 4096.
Proof.
  set (m := <[HHDM + 0x100000 + 32 * 17 := mkNode (mkLink None None) (Some 1)]> blank : dnode_mem).
  destruct (run_reachable (λ l, l) small_map HHDM m
    [Alloc 8; Alloc 4; Alloc 2; Alloc 1; Alloc 1; Free (page 15) 1; Free (page 16) 1; Alloc 2]
    [(page 16, 2); (page 13, 2); (page 9, 4); (page 1, 8)]) as [f Hf].
  - vm_compute. reflexivity.
  - eexists m, f, _. split; [apply small_map_setup|]. split; [exact Hf|done].
Qed.

(** Returned frames are not always glued together again: after one frame of
    a fresh 16-frame allocator has been allocated and returned, the 16 frames
    can no longer be allocated as one block. *)
Theorem forest_does_not_coalesce :
  ∃ f0 f1, forest_reachable (λ l, l) HHDM small_map blank (f0, []) ∧
    forest_reachable (λ l, l) HHDM small_map blank (f1, []) ∧
    (∃ f', Forest_allocate_contiguous_pages 16 f0 = Ret (Some (page 1), f')) ∧
    (∃ f', Forest_allocate_contiguous_pages 16 f1 = Ret (None, f')).
Proof.
  destruct (next_alloc (λ l, l) small_map HHDM blank [] [] 16 (Some (page 1))) as (f0 & f' & Hr0 & Ha0);
    [vm_compute; reflexivity|].
  destruct (next_alloc (λ l, l) small_map HHDM blank [Alloc 1; Free (page 1) 1] [] 16 None)
    as (f1 & f'' & Hr1 & Ha1); [vm_compute; reflexivity|].
  exists f0, f1. eauto 10.
Qed.

Lemma carve_region_covers_witness :
  ∃ new, carve_region 100 16 HHDM (mkEntry 0x100000 (1000 * 4096) true) [] = Ret ([] ++ new) ∧
    chunks (0x100000 + HHDM) (0x100000 + 4096 * 8) new ∧ 992 - 16 < chunk_frames new ≤ 992.
Proof.
  apply (carve_region_covers 100 16 HHDM (mkEntry 0x100000 (1000 * 4096) true) []); try done; [|simpl; lia].
  split_and!; try done. by exists 0x100.
Defined.

End Runs.
