(* ===== verification/PageAlloc.v ===== *)
(** * PageAlloc: ranges of kernel pages

    memory/alloc.rs, [PageAllocator]: a buddy allocator over a region of
    virtual addresses whose free lists are queues on the heap.
    [allocate_pages] takes a block and backs each of its pages with a frame;
    [deallocate_pages] unmaps them, returns the frames and merges the block.
    [init_page_allocator] sizes the region for the memory of the machine, and
    [init_heap] maps the kernel heap. *)

From S2P Require Import Prelude X86 FrameSource Blocks Buddy HeapAlloc.

Record PageAllocator := mkPageAllocator {
  pa_heap_start : Z;
  pa_heap_end : Z;
  pa_levels : nat;
  pa_free_lists : list (list Z);
}.

Definition set_page_list (self : PageAllocator) (level : nat) (l : list Z) : PageAllocator :=
  mkPageAllocator self.(pa_heap_start) self.(pa_heap_end) self.(pa_levels)
    (<[level := l]> self.(pa_free_lists)).

Record PageAllocLayout := mkPageAllocLayout { pl_page : Z; pl_length : Z }.

Definition PageAllocator_new (virt_start virt_end : Z) (levels : nat) : exec PageAllocator :=
  _ ← rassert (virt_start mod 4096 =? 0);
  _ ← rassert (virt_end mod 4096 =? 0);
  region_size ← sub_chk virt_end virt_start;
  shift ← sub_chk (Z.of_nat levels) 1;
  pages ← shl_chk 64 1 shift;
  expected_size ← mul_chk 64 pages 4096;
  _ ← rassert (region_size =? expected_size);
  let free_lists := replicate levels [] in
  first ← index free_lists 0;
  start ← nonnull virt_start;
  mret (mkPageAllocator virt_start virt_end levels (<[0%nat := first ++ [start]]> free_lists)).

Definition PageAllocator_max_size (self : PageAllocator) : exec Z :=
  sub_chk self.(pa_heap_end) self.(pa_heap_start).

Definition PageAllocator_block_size (self : PageAllocator) (level : nat) : exec Z :=
  max_size ← PageAllocator_max_size self;
  shr_chk 64 max_size (Z.of_nat level).

Definition PageAllocator_get_level_from_size (self : PageAllocator) (size : Z)
    : exec (option nat) :=
  max_size ← PageAllocator_max_size self;
  '(level, block_size) ← halving_loop (S self.(pa_levels)) self.(pa_levels) size 0 max_size;
  mret (if block_size <? size then None else Some level).

(** [split_level], given the [get_free_block] it calls. *)
Definition page_split_level_with
    (get_free_block : nat → PageAllocator → exec (option Z * PageAllocator))
    (level : nat) (self : PageAllocator) : exec (option Z * PageAllocator) :=
  match level with
  | O => mret (None, self)
  | S above =>
      '(r, self) ← get_free_block above self;
      match r with
      | Some block =>
          block_size ← PageAllocator_block_size self level;
          buddy_addr ← add_chk 64 block block_size;
          buddy_ptr ← nonnull buddy_addr;
          l ← index self.(pa_free_lists) level;
          mret (Some block, set_page_list self level (l ++ [buddy_ptr]))
      | None => mret (None, self)
      end
  end.

Fixpoint PageAllocator_get_free_block (level : nat) (self : PageAllocator) {struct level}
    : exec (option Z * PageAllocator) :=
  l ← index self.(pa_free_lists) level;
  match l with
  | block :: l => mret (Some block, set_page_list self level l)
  | [] => page_split_level_with PageAllocator_get_free_block level self
  end.

Definition PageAllocator_split_level : nat → PageAllocator → exec (option Z * PageAllocator) :=
  page_split_level_with PageAllocator_get_free_block.

Definition push_page (level : nat) (ptr : Z) (self : PageAllocator) : exec PageAllocator :=
  l ← index self.(pa_free_lists) level;
  mret (set_page_list self level (l ++ [ptr])).

Definition page_buddy (self : PageAllocator) (level : nat) (ptr : Z) : exec Z :=
  block_size ← PageAllocator_block_size self level;
  let base := self.(pa_heap_start) in
  offset ← sub_chk ptr base;
  let buddy_offset := Z.lxor offset block_size in
  buddy_addr ← add_chk 64 base buddy_offset;
  nonnull buddy_addr.

Fixpoint PageAllocator_merge_buddies (level : nat) (ptr : Z) (self : PageAllocator)
    : exec PageAllocator :=
  match level with
  | O => push_page level ptr self
  | S above =>
      buddy_ptr ← page_buddy self level ptr;
      l ← index self.(pa_free_lists) level;
      match list_find (λ p, p = buddy_ptr) l with
      | Some (pos, _) =>
          let merged_ptr := if buddy_ptr <? ptr then buddy_ptr else ptr in
          PageAllocator_merge_buddies above merged_ptr (set_page_list self level (delete pos l))
      | None => push_page level ptr self
      end
  end.

Section Mapping.
Context `{Addresses} {PT FA : Type} `{Mapper PT, FrameSource FA}.

(** [Page::containing_address(VirtAddr::new(addr))]. *)
Definition page_at (addr : Z) : exec Z :=
  va ← VirtAddr_new addr;
  mret (containing_address va).

Definition PageAllocator_allocate_pages (num_pages : Z) (self : PageAllocator) (pt : PT) (fa : FA)
    : exec (result PageAllocLayout MapToError * PageAllocator * PT * FA) :=
  bytes ← mul_chk 64 num_pages 4096;
  size ← next_power_of_two 64 bytes;
  level ← PageAllocator_get_level_from_size self size;
  level ← unwrap level;
  '(block, self) ← PageAllocator_get_free_block level self;
  block ← unwrap block;
  end_ ← add_chk 64 block size;
  '(r, pt, fa) ← map_each page_at FrameAllocationFailed (λ e, e) [PRESENT; WRITABLE]
                   (step_by block end_ 4096) pt fa;
  match r with
  | Err e => mret (Err e, self, pt, fa)
  | Ok _ =>
      page ← page_at block;
      mret (Ok (mkPageAllocLayout page num_pages), self, pt, fa)
  end.

Definition PageAllocator_deallocate_pages (info : PageAllocLayout) (self : PageAllocator)
    (pt : PT) (fa : FA) : exec (result unit UnmapError * PageAllocator * PT * FA) :=
  bytes ← mul_chk 64 info.(pl_length) 4096;
  size ← next_power_of_two 64 bytes;
  level ← PageAllocator_get_level_from_size self size;
  level ← unwrap level;
  end_ ← add_chk 64 info.(pl_page) size;
  '(r, pt, fa) ← unmap_each page_at (step_by info.(pl_page) end_ 4096) pt fa;
  match r with
  | Err e => mret (Err e, self, pt, fa)
  | Ok _ =>
      ptr ← nonnull info.(pl_page);
      self ← PageAllocator_merge_buddies level ptr self;
      mret (Ok (), self, pt, fa)
  end.

(** [Page::range_inclusive]: every page from [start] to [end_]. *)
Definition range_inclusive (start end_ : Z) : list Z := step_by start (end_ + 1) 4096.

Definition init_heap (pt : PT) (fa : FA) : exec (result unit MapToError * PT * FA) :=
  heap_start ← page_at HEAP_START;
  heap_end ← page_at (HEAP_START + HEAP_SIZE - 1);
  map_each mret FrameAllocationFailed (λ e, e) [PRESENT; WRITABLE]
    (range_inclusive heap_start heap_end) pt fa.

End Mapping.

Definition PAGEALLOC_START : Z := 0xFFFF900000000000.

(** The [while] loop of [init_page_allocator]: bits shifted out are lost. *)
Fixpoint pagealloc_size_loop (fuel : nat) (pagealloc_size available_ram_bytes : Z) : exec Z :=
  match fuel with
  | O => NoFuel
  | S fuel =>
      if pagealloc_size <? available_ram_bytes
      then pagealloc_size_loop fuel (cast 64 (Z.shiftl pagealloc_size 1)) available_ram_bytes
      else mret pagealloc_size
  end.

Definition init_page_allocator `{Addresses} (available_ram_bytes : Z)
    (PAGE_ALLOCATOR : option PageAllocator) : exec (option PageAllocator) :=
  match PAGE_ALLOCATOR with
  | Some _ => Panic
  | None =>
      pagealloc_size ← pagealloc_size_loop 64 4096 available_ram_bytes;
      pagealloc_end ← add_chk 64 PAGEALLOC_START pagealloc_size;
      let page_count := pagealloc_size / 4096 in
      count ← next_power_of_two 64 page_count;
      let levels := S (Z.to_nat (trailing_zeros 64 count)) in
      virt_start ← VirtAddr_new PAGEALLOC_START;
      virt_end ← VirtAddr_new pagealloc_end;
      pa ← PageAllocator_new virt_start virt_end levels;
      mret (Some pa)
  end.

(** ** The allocator as a buddy system *)

Section Instance_.
Context (n : nat) (base : Z).
Abbreviation L := (S n).
Abbreviation top := (12 + Z.of_nat n).
Definition page_size (i : nat) : Z := Z.shiftr (2 ^ top) (Z.of_nat i).
Abbreviation size := page_size.
Abbreviation pa F := (mkPageAllocator base (base + 2 ^ top) L F).
Context (Hn : top < 64) (Hpos : 0 < base) (Hend : base + 2 ^ top < 2 ^ 64).

Lemma page_size_pow i : (i < L)%nat → size i = 2 ^ (top - Z.of_nat i).
Proof.
  intros Hi. unfold page_size. rewrite Z.shiftr_div_pow2, <- Z.pow_sub_r by lia. done.
Qed.
Lemma page_top : Z.of_nat L ≤ top + 1.
Proof. lia. Qed.

Lemma page_block_size F i : (i < L)%nat → PageAllocator_block_size (pa F) i = Ret (size i).
Proof.
  intros Hi. unfold PageAllocator_block_size, PageAllocator_max_size. simpl.
  rewrite sub_chk_ok by lia. cbn [mbind exec_bind]. rewrite shr_chk_ok by lia. unfold page_size. do 2 f_equal. lia.
Qed.

Definition pages_pop (level : nat) (F : list (list Z)) : exec (option Z * list (list Z)) :=
  l ← index F level;
  match l with
  | block :: l => mret (Some block, <[level := l]> F)
  | [] => mret (None, F)
  end.
Definition pages_push (level : nat) (p : Z) (F : list (list Z)) : exec (list (list Z)) :=
  l ← index F level;
  mret (<[level := l ++ [p]]> F).
Definition pages_take (level : nat) (p : Z) (F : list (list Z)) : exec (option (list (list Z))) :=
  l ← index F level;
  mret (match list_find (λ q, q = p) l with
        | Some (pos, _) => Some (<[level := delete pos l]> F)
        | None => None
        end).

#[local] Instance page_impl : BuddyImpl (list (list Z)) := {
  bi_levels := L;
  bi_size := size;
  bi_base := base;
  bi_span := 2 ^ top;
  bi_legal := aligned_legal base top size;
  bi_split_buddy := λ level b, addr ← add_chk 64 b (size level); nonnull addr;
  bi_merge_buddy := λ level p,
    offset ← sub_chk p base; addr ← add_chk 64 base (Z.lxor offset (size level)); nonnull addr;
  bi_pop := pages_pop;
  bi_push := pages_push;
  bi_take := pages_take;
  bi_raw := λ F F', F = F' ∧ length F = L;
  bi_touch := λ _ F F', F = F';
  bi_writes := λ _ _ _, True;
}.

(** The code runs the generic algorithm on its free lists. *)
Lemma page_get_generic level F : (level < L)%nat →
  PageAllocator_get_free_block level (pa F) = '(r, F) ← get_block level F; mret (r, pa F).
Proof.
  revert F. induction level as [|above IH]; intros F Hl; simpl; unfold pages_pop.
  - destruct (index F 0) as [[|b l]| |]; done.
  - destruct (index F (S above)) as [[|b l]| |]; simpl; [|done..].
    rewrite IH by lia. destruct (get_block above F) as [[[b|] F']| |]; simpl; [|done..].
    rewrite page_block_size by done. simpl. destruct (add_chk _ _ _) as [addr| |]; simpl; [|done..].
    destruct (nonnull addr); simpl; [|done..]. unfold pages_push. by destruct (index F' (S above)).
Qed.

Lemma page_merge_generic level p F : (level < L)%nat →
  PageAllocator_merge_buddies level p (pa F) = F ← put_block level p F; mret (pa F).
Proof.
  revert p F. induction level as [|above IH]; intros p F Hl; simpl; unfold pages_push, push_page.
  - cbn [pa_free_lists]. by destruct (index F 0).
  - unfold page_buddy. rewrite page_block_size by done. simpl.
    destruct (sub_chk p base) as [off| |]; simpl; [|done..].
    destruct (add_chk _ _ _) as [addr| |]; simpl; [|done..].
    destruct (nonnull addr) as [q| |]; simpl; [|done..]. unfold pages_take, push_page.
    destruct (index F (S above)) as [l| |] eqn:Hi; simpl; [|done..].
    destruct (list_find _ l) as [[pos ?]|]; simpl; [|done].
    rewrite <- IH by lia. f_equal. destruct (Z.ltb_spec q p); lia.
Qed.

#[local] Instance page_impl_ok : BuddyImplOk (list (list Z)).
Proof.
  pose proof page_size_pow as Hsz. pose proof page_top as Htop.
  assert (∀ i p, (i < L)%nat → aligned_legal base top size i p → 0 < p ∧ p + size i < 2 ^ 64) as Hr.
  { intros i p Hi (? & ? & _). pose proof (Hsz i Hi). lia. }
  split; simpl; try done.
  - lia.
  - lia.
  - intros i Hi. rewrite Hsz by done. lia.
  - intros i Hi. by apply (aligned_half top L size Hsz Htop).
  - by intros i p _ (? & ? & _).
  - intros i p Hi Hp. destruct (aligned_split base top L size Hsz Htop i p Hi Hp) as (_ & H1 & H2).
    destruct (Hr _ _ Hi H1). destruct (Hr _ _ Hi H2).
    rewrite add_chk_ok by done. simpl. rewrite nonnull_ok by (simpl in *; lia). done.
  - intros i p Hi Hp. destruct (aligned_buddy base top L size Hsz Htop i p Hi Hp) as (Hd & Hq & Hm & Hback).
    destruct (Hr _ _ Hi Hp). destruct (Hr _ _ Hi Hq). pose proof (Hsz _ Hi). destruct Hp, Hq. simpl in *.
    exists (base + Z.lxor (p - base) (size (S i))). split; [|split; [done|intros _; split; [done|]]].
    + rewrite sub_chk_ok by lia. simpl. rewrite add_chk_ok by lia. simpl. apply nonnull_ok. lia.
    + rewrite sub_chk_ok by lia. simpl. rewrite add_chk_ok by lia. simpl. rewrite Hback. apply nonnull_ok. lia.
  - by intros s F [-> ?].
  - intros s F i [-> _] Hi. unfold pages_pop. by rewrite (index_ok _ _ _ Hi).
  - intros s F i x l [-> HF] Hi. unfold pages_pop. rewrite (index_ok _ _ _ Hi). simpl.
    exists x, (<[i := l]> F), l. by rewrite length_insert.
  - intros s F i l p [-> HF] Hi _ _ _. unfold pages_push. rewrite (index_ok _ _ _ Hi). simpl.
    exists (<[i := l ++ [p]]> F), (l ++ [p]). rewrite length_insert. split_and!; try done.
    by rewrite Permutation_app_comm.
  - intros s F i l p [-> HF] Hi Hp. unfold pages_take. rewrite (index_ok _ _ _ Hi). simpl.
    destruct (list_find_elem_of (λ q, q = p) l p Hp eq_refl) as [[pos q] Hfind]. rewrite Hfind.
    apply list_find_Some in Hfind as (Hpos' & -> & _). do 2 eexists. split; [done|].
    rewrite length_insert. split_and!; try done. by apply delete_Permutation.
  - intros s F i l p q [-> HF] Hi _ _ Hq. unfold pages_take. rewrite (index_ok _ _ _ Hi). simpl.
    destruct (list_find _ l) as [[pos x]|] eqn:Hfind; [|done].
    apply list_find_Some in Hfind as (Hpos' & -> & _). by apply list_elem_of_lookup_2 in Hpos'.
  - by intros P s s' F [-> ?] <-.
Qed.

#[local] Instance page_aligned : BuddyAligned (list (list Z)).
Proof.
  split; simpl.
  - unfold page_size. by rewrite Z.shiftr_0_r.
  - by intros i p (_ & _ & ?).
  - intros i p q Hi Hp Hq. exec_inv.
    by apply (aligned_buddy base top L size page_size_pow page_top).
Qed.

End Instance_.

(** ** Sizes of requests *)

(** A request for [m] pages takes a block of [2 ^ order m] pages. *)
Definition order (m : Z) : nat := Z.to_nat (Z.log2_up m).
Definition range_pages (l : PageAllocLayout) : list Z :=
  (λ i, l.(pl_page) + 4096 * i) <$> seqZ 0 (2 ^ Z.of_nat (order l.(pl_length))).
Definition request_size (m : Z) : Z := if m =? 0 then 1 else 4096 * 2 ^ Z.of_nat (order m).

Lemma log2_up_mul_pow2 a k : 0 ≤ k → 1 ≤ a → Z.log2_up (2 ^ k * a) = k + Z.log2_up a.
Proof.
  intros Hk Ha. destruct (decide (a = 1)) as [->|]; [rewrite Z.mul_1_r, Z.log2_up_pow2 by lia; change (Z.log2_up 1) with 0; lia|].
  apply Z.log2_up_unique; [pose proof (Z.log2_up_pos a); lia|].
  pose proof (Z.log2_up_spec a ltac:(lia)) as [H1 H2].
  rewrite (Z.pow_add_r 2 k) by (try apply Z.log2_up_nonneg; lia).
  replace (Z.pred (k + Z.log2_up a)) with (k + Z.pred (Z.log2_up a)) by lia.
  pose proof (Z.log2_up_pos a ltac:(lia)). rewrite Z.pow_add_r by lia.
  assert (0 < 2 ^ k) by lia. nia.
Qed.

Lemma order_bound m n : 0 ≤ m ≤ 2 ^ Z.of_nat n → (order m ≤ n)%nat.
Proof.
  intros Hm. unfold order. rewrite <- (Nat2Z.id n). apply Z2Nat.inj_le; [apply Z.log2_up_nonneg|lia|].
  rewrite <- (Z.log2_up_pow2 (Z.of_nat n)) by lia. apply Z.log2_up_le_mono. lia.
Qed.

Lemma order_fits m : 0 ≤ m → m ≤ 2 ^ Z.of_nat (order m).
Proof.
  intros Hm. unfold order. rewrite Z2Nat.id by apply Z.log2_up_nonneg.
  destruct (decide (m ≤ 1)); [|apply Z.log2_up_spec; lia].
  pose proof (Z.pow_pos_nonneg 2 (Z.log2_up m) ltac:(lia) (Z.log2_up_nonneg m)). lia.
Qed.

Lemma request_size_ok m : 0 ≤ m ≤ 2 ^ 51 → next_power_of_two 64 (m * 4096) = Ret (request_size m).
Proof.
  intros Hm. unfold next_power_of_two, request_size. destruct (Z.eqb_spec m 0) as [->|Hm0]; [done|].
  replace (m * 4096) with (2 ^ 12 * m) by lia. rewrite log2_up_mul_pow2 by lia.
  unfold order. rewrite Z2Nat.id by apply Z.log2_up_nonneg.
  assert (Z.log2_up m ≤ 51) by (rewrite <- (Z.log2_up_pow2 51) by lia; apply Z.log2_up_le_mono; lia).
  assert (2 ^ (12 + Z.log2_up m) ≤ 2 ^ 63) by (apply Z.pow_le_mono_r; lia).
  rewrite (proj2 (Z.ltb_lt _ _)) by lia. rewrite Z.pow_add_r by (try apply Z.log2_up_nonneg; lia). done.
Qed.

Lemma request_pages p m : 0 ≤ m → step_by p (p + request_size m) 4096 = range_pages (mkPageAllocLayout p m).
Proof.
  intros Hm. unfold step_by, range_pages, request_size. cbn [pl_page pl_length]. do 2 f_equal. unfold div_ceil.
  destruct (Z.eqb_spec m 0) as [->|Hm0]; [by replace (p + 1 - p + 4096 - 1) with (1 * 4096) by lia|].
  set (s := 2 ^ Z.of_nat (order m)).
  replace (p + 4096 * s - p + 4096 - 1) with (4095 + s * 4096) by lia.
  rewrite Z.div_add by lia. change (4095 / 4096) with 0. lia.
Qed.

Lemma elem_of_range_pages q l :
  q ∈ range_pages l ↔
  ∃ i, 0 ≤ i < 2 ^ Z.of_nat (order l.(pl_length)) ∧ q = l.(pl_page) + 4096 * i.
Proof.
  unfold range_pages. rewrite list_elem_of_fmap. setoid_rewrite elem_of_seqZ.
  split; intros (i & H1 & H2); exists i; naive_solver lia.
Qed.
Lemma range_pages_NoDup l : NoDup (range_pages l).
Proof. apply NoDup_fmap_2; [intros i j; lia|apply NoDup_seqZ]. Qed.

(** ** The kernel's page allocator *)

(** The allocator of a region of [2 ^ n] pages, all free. *)
Definition page_region (n : nat) : PageAllocator :=
  mkPageAllocator PAGEALLOC_START (PAGEALLOC_START + 2 ^ (12 + Z.of_nat n)) (S n)
    ([PAGEALLOC_START] :: replicate n []).

Section Kernel_pages.
Context `{AddressesOk} {PT FA : Type} `{MapperOk PT, FrameSourceOk FA}.
Context (n : nat) (Hn : (n ≤ 34)%nat).

Abbreviation top := (12 + Z.of_nat n).
Abbreviation span := (2 ^ top).
Abbreviation pa F := (mkPageAllocator PAGEALLOC_START (PAGEALLOC_START + span) (S n) F).
Abbreviation level m := (n - order m)%nat.

#[local] Instance kernel_pages : BuddyImpl (list (list Z)) := page_impl n PAGEALLOC_START.

Lemma span_bound : span ≤ 2 ^ 46.
Proof. apply Z.pow_le_mono_r; lia. Qed.
#[local] Instance kernel_pages_ok : BuddyImplOk (list (list Z)).
Proof. pose proof span_bound. apply page_impl_ok; unfold PAGEALLOC_START; lia. Qed.
#[local] Instance kernel_pages_aligned : BuddyAligned (list (list Z)).
Proof. apply page_aligned. Qed.

Lemma pages_bound : 2 ^ Z.of_nat n ≤ 2 ^ 34.
Proof. apply Z.pow_le_mono_r; lia. Qed.

Lemma level_size m : 0 ≤ m ≤ 2 ^ Z.of_nat n → page_size n (level m) = 4096 * 2 ^ Z.of_nat (order m).
Proof.
  intros Hm. pose proof (order_bound m n Hm). rewrite page_size_pow by lia.
  replace (top - Z.of_nat (n - order m)) with (12 + Z.of_nat (order m)) by lia.
  rewrite Z.pow_add_r by lia. done.
Qed.

Lemma level_ok m F : 0 ≤ m ≤ 2 ^ Z.of_nat n →
  PageAllocator_get_level_from_size (pa F) (request_size m) = Ret (Some (level m)).
Proof.
  intros Hm. pose proof (order_bound m n Hm). pose proof span_bound.
  unfold PageAllocator_get_level_from_size, PageAllocator_max_size. cbn [pa_heap_end pa_heap_start pa_levels].
  rewrite sub_chk_ok by lia. cbn [mbind exec_bind].
  replace (PAGEALLOC_START + span - PAGEALLOC_START) with (4096 * 2 ^ Z.of_nat n)
    by (rewrite Z.pow_add_r by lia; lia).
  unfold request_size. destruct (Z.eqb_spec m 0) as [->|Hm0].
  - destruct (halving_loop_ok (S (S n)) (S n) 1 0 (4096 * 2 ^ Z.of_nat n)) as (l & Heq & Hl & _ & Hor); [lia..|].
    rewrite Z.shiftr_0_r in Heq. rewrite Heq. cbn [mbind exec_bind].
    assert (4096 ≤ Z.shiftr (4096 * 2 ^ Z.of_nat n) (Z.of_nat l)) as Hge.
    { change 4096 with (2 ^ 12). rewrite <- Z.pow_add_r by lia.
      rewrite Z.shiftr_div_pow2, <- Z.pow_sub_r by lia. apply Z.pow_le_mono_r; lia. }
    destruct Hor as [Hor|[= ->]]; [lia|]. rewrite (proj2 (Z.ltb_ge _ _)) by lia.
    by rewrite Nat.sub_0_r.
  - rewrite halving_loop_exact by lia. cbn [mbind exec_bind]. by rewrite Z.ltb_irrefl.
Qed.

(** Every address of the region is canonical. *)
Lemma page_at_region a :
  PAGEALLOC_START ≤ a < PAGEALLOC_START + span → (4096 | a) → page_at a = Ret a.
Proof.
  intros Ha Hal. pose proof span_bound. unfold page_at, PAGEALLOC_START in *.
  rewrite VirtAddr_new_ok by (right; lia). cbn [mbind exec_bind].
  by rewrite containing_aligned by (done || lia).
Qed.

(** The blocks of the region and their pages. *)
Lemma legal_range m p : 0 ≤ m ≤ 2 ^ Z.of_nat n → bi_legal (level m) p →
  PAGEALLOC_START ≤ p ∧ p + 4096 * 2 ^ Z.of_nat (order m) ≤ PAGEALLOC_START + span ∧ (4096 | p).
Proof.
  intros Hm (H1' & H2' & H3'). rewrite level_size in * by done. split_and!; [done..|].
  assert (4096 | PAGEALLOC_START) as HS by (by exists 0xFFFF900000000).
  replace p with ((p - PAGEALLOC_START) + PAGEALLOC_START) by lia.
  apply Z.divide_add_r; [|done]. etrans; [|exact H3']. by exists (2 ^ Z.of_nat (order m)); lia.
Qed.

Lemma range_page_at m p q : 0 ≤ m ≤ 2 ^ Z.of_nat n → bi_legal (level m) p →
  q ∈ range_pages (mkPageAllocLayout p m) → page_at q = Ret q.
Proof.
  intros Hm Hp (i & Hi & ->)%elem_of_range_pages. simpl in *.
  destruct (legal_range m p Hm Hp) as (? & ? & ?). apply page_at_region; [lia|].
  apply Z.divide_add_r; [done|]. by exists i; lia.
Qed.

(** *** Ranges and their frames *)

Abbreviation state := (PageAllocator * PT * FA)%type.
Abbreviation rw := [PRESENT; WRITABLE].

Definition as_range (l : PageAllocLayout) : nat * Z := (level l.(pl_length), l.(pl_page)).

(** [pages_inv c held lost]: the ranges [held], each with the frames behind
    it, are outstanding; the blocks [lost] belong to nobody. *)
Definition pages_inv (c : state) (held : list (PageAllocLayout * list Z)) (lost : list (nat * Z)) : Prop :=
  (∃ F, c.1.1 = pa F ∧
    client_inv PAGEALLOC_START span (F, (as_range ∘ fst <$> held) ++ lost)) ∧
  (∃ others, fs_inv c.2 (concat (held.*2) ++ others)) ∧
  Forall (λ h, 0 ≤ h.1.(pl_length) ≤ 2 ^ Z.of_nat n ∧ backed c.1.2 rw (range_pages h.1) h.2) held.

Lemma held_legal F used lvl p :
  client_inv PAGEALLOC_START span (F, used) → (lvl, p) ∈ used → (lvl < S n)%nat ∧ bi_legal lvl p.
Proof. intros (bl & _ & _ & Hu) Hin. rewrite Forall_forall in Hu. by apply (Hu (lvl, p)). Qed.

(** Pages of different outstanding blocks are different. *)
Lemma ranges_apart F used i j l1 l2 q :
  client_inv PAGEALLOC_START span (F, used) → i ≠ j →
  used !! i = Some (as_range l1) → used !! j = Some (as_range l2) →
  0 ≤ l1.(pl_length) ≤ 2 ^ Z.of_nat n → 0 ≤ l2.(pl_length) ≤ 2 ^ Z.of_nat n →
  q ∈ range_pages l1 → q ∉ range_pages l2.
Proof.
  intros Hc Hij Hi Hj Hl1 Hl2 (a & Ha & Hqa)%elem_of_range_pages (b & Hb & Hqb)%elem_of_range_pages.
  apply (client_inv_disjoint PAGEALLOC_START span F used i j _ _ Hc Hi Hj Hij q);
    apply elem_of_units; simpl; rewrite level_size by done; lia.
Qed.

Lemma pages_inv_other c held lost l frames lvl p :
  pages_inv c held ((lvl, p) :: lost) → (l, frames) ∈ held →
  ∀ m, 0 ≤ m ≤ 2 ^ Z.of_nat n → lvl = level m →
  ∀ q, q ∈ range_pages l → q ∉ range_pages (mkPageAllocLayout p m).
Proof.
  intros ((F & _ & Hc) & _ & Hall) Hin m Hm -> q Hq. rewrite Forall_forall in Hall.
  apply list_elem_of_lookup in Hin as [i Hi]. destruct (Hall (l, frames)) as [Hl _]; [by eapply list_elem_of_lookup_2|].
  eapply (ranges_apart F _ i (length held) l (mkPageAllocLayout p m) q Hc); try done.
  - apply lookup_lt_Some in Hi. lia.
  - rewrite lookup_app_l by (rewrite length_fmap; by eapply lookup_lt_Some).
    by rewrite list_lookup_fmap, Hi.
  - rewrite lookup_app_r by (by rewrite length_fmap). by rewrite length_fmap, Nat.sub_diag.
Qed.

(** Mappings and frames elsewhere may change. *)
Lemma pages_inv_frame pa0 pt fa pt' fa' held lost :
  pages_inv (pa0, pt, fa) held lost →
  (∀ h q, h ∈ held → q ∈ range_pages h.1 → translate pt' q = translate pt q) →
  (∃ others, fs_inv fa' (concat (held.*2) ++ others)) → pages_inv (pa0, pt', fa') held lost.
Proof.
  intros (HF & _ & Hall) Hq Hfs. split_and!; [done..|]. cbn [fst snd] in *.
  apply Forall_forall. intros h Hh. rewrite Forall_forall in Hall. destruct (Hall h Hh) as [Hl Hb].
  split; [done|]. eapply backed_agree; [|exact Hb]. intros q. by apply Hq.
Qed.

(** Backing the pages of a block that belongs to nobody yet. *)
Lemma map_range_spec F pt fa held lost m block :
  pages_inv (pa F, pt, fa) held ((level m, block) :: lost) → 0 ≤ m ≤ 2 ^ Z.of_nat n →
  ∃ r pt' fa',
    map_each page_at FrameAllocationFailed (λ e, e) rw (range_pages (mkPageAllocLayout block m)) pt fa
      = Ret (r, pt', fa') ∧
    match r with
    | Ok _ =>
        (∃ frames, pages_inv (pa F, pt', fa') ((mkPageAllocLayout block m, frames) :: held) lost) ∧
        ∀ q, q ∉ range_pages (mkPageAllocLayout block m) → translate pt' q = translate pt q
    | Err _ => pages_inv (pa F, pt', fa') held ((level m, block) :: lost)
    end.
Proof.
  intros Hinv Hm. pose proof Hinv as ((F0 & [= <-] & Hc) & [others Hfs] & Hall). cbn [fst snd] in *.
  destruct (held_legal F _ (level m) block Hc) as [_ Hleg]; [set_solver|].
  destruct (map_each_ok page_at FrameAllocationFailed (λ e, e) rw (range_pages (mkPageAllocLayout block m)) pt fa _ Hfs)
    as (r & pt' & fa' & frames & more & done_ & rest & -> & Hfs' & Hpages & Hb & Hother & Hrest);
    [apply range_pages_NoDup|by intros a; apply range_page_at|].
  exists r, pt', fa'. split; [done|].
  assert (∀ h q, h ∈ held → q ∈ range_pages h.1 → translate pt' q = translate pt q) as Hsame.
  { intros [l fr] q Hh Hq. apply Hother. intros Hd.
    apply (pages_inv_other _ _ _ _ _ _ _ Hinv Hh m Hm eq_refl q Hq). rewrite Hpages. set_solver. }
  destruct r as [[]|e].
  - subst rest. rewrite app_nil_r in Hpages. subst done_. split; [|done].
    exists frames. split_and!; cbn [fst snd].
    + exists F. split; [done|]. eapply client_inv_perm; [|exact Hc]. by rewrite <- Permutation_middle.
    + exists (more ++ others). eapply fs_inv_perm; [|exact Hfs']. simpl. solve_Permutation.
    + constructor; [done|]. rewrite Forall_forall in Hall |- *. intros h Hh. destruct (Hall h Hh).
      split; [done|]. eapply backed_agree; [|done]. eauto.
  - eapply pages_inv_frame; [exact Hinv|done|].
    exists (more ++ frames ++ others). eapply fs_inv_perm; [|exact Hfs']. solve_Permutation.
Qed.

(** The three outcomes of [allocate_pages]. *)
Lemma allocate_pages_spec m c held lost :
  pages_inv c held lost → 0 ≤ m ≤ 2 ^ Z.of_nat n →
  match PageAllocator_allocate_pages m c.1.1 c.1.2 c.2 with
  | Ret (Ok l, pa', pt', fa') =>
      l.(pl_length) = m ∧ (∃ frames, pages_inv (pa', pt', fa') ((l, frames) :: held) lost) ∧
      ∀ q, q ∉ range_pages l → translate pt' q = translate c.1.2 q
  | Ret (Err _, pa', pt', fa') => ∃ p, pages_inv (pa', pt', fa') held ((level m, p) :: lost)
  | Panic => ∀ i, (i ≤ level m)%nat → c.1.1.(pa_free_lists) !! i = Some []
  | NoFuel => False
  end.
Proof.
  destruct c as [[pa0 pt] fa]. intros ((F & Hpa & Hc) & [others Hfs] & Hall) Hm. cbn [fst snd] in *. subst pa0.
  pose proof pages_bound as Hpb. pose proof (order_bound m n Hm) as Hord. pose proof span_bound as Hspan.
  assert (level m < S n)%nat as Hlvl by lia.
  unfold PageAllocator_allocate_pages. run. rewrite request_size_ok by lia. run.
  rewrite level_ok by done. cbn [mbind exec_bind unwrap].
  rewrite page_get_generic by (done || unfold PAGEALLOC_START; lia).
  pose proof Hc as (bl & Hrep & Ht & Hu).
  destruct (bs_get_ok F bl (level m) Hrep Hlvl) as (r & F' & bl' & Hget & Hrep' & _ & Hr).
  change (get_block (level m) F) with (bs_get (level m) F). rewrite Hget. cbn [mbind exec_bind].
  destruct r as [block|]; cbn [unwrap mret exec_ret mbind exec_bind].
  2:{ intros i Hi. destruct Hrep as (F2 & Hinv & _ & ->). assert (F2 = F) as -> by (symmetry; apply Hinv).
      destruct (inv_lookup F F i Hinv ltac:(simpl; lia)) as [[|x l] Hl]; [done|].
      destruct Hr as (_ & _ & Hr).
      assert (page_size n i < page_size n (level m)) as Hlt.
      { apply (Hr (x, page_size n i)). apply elem_of_level_blocks. exists i, (x :: l), x. set_solver. }
      rewrite !page_size_pow in Hlt by lia.
      assert (2 ^ (top - Z.of_nat (level m)) ≤ 2 ^ (top - Z.of_nat i)) by (apply Z.pow_le_mono_r; lia). lia. }
  assert (client_inv PAGEALLOC_START span (F', (level m, block) :: (as_range ∘ fst <$> held) ++ lost)) as Hc'.
  { eapply client_inv_step; [exact Hc|]. by apply client_get. }
  destruct (held_legal F' _ (level m) block Hc') as [_ Hleg]; [by left|].
  destruct (legal_range m block Hm Hleg) as (Hlo & Hhi & Hal).
  assert (request_size m ≤ 4096 * 2 ^ Z.of_nat (order m)) as Hrs
    by (unfold request_size; destruct (m =? 0); lia).
  rewrite add_chk_ok by (unfold PAGEALLOC_START in *; lia). cbn [mbind exec_bind].
  rewrite request_pages by lia.
  destruct (map_range_spec F' pt fa held lost m block) as (r & pt' & fa' & -> & Hres); [|done|].
  { split_and!; cbn [fst snd]; [|by exists others|done]. exists F'. split; [done|].
    eapply client_inv_perm; [|exact Hc']. by rewrite <- Permutation_middle. }
  cbn [mbind exec_bind]. destruct r as [[]|e]; [|by exists block].
  rewrite (range_page_at m block block) by (done || apply elem_of_range_pages; exists 0; simpl; lia).
  done.
Qed.

(** An outstanding range, seen as a block that belongs to nobody. *)
Lemma pages_inv_release c held held' lost l frames :
  pages_inv c held lost → held ≡ₚ (l, frames) :: held' →
  0 ≤ l.(pl_length) ≤ 2 ^ Z.of_nat n ∧ backed c.1.2 rw (range_pages l) frames ∧
  (∃ others, fs_inv c.2 (frames ++ concat (held'.*2) ++ others)) ∧
  pages_inv c held' (as_range l :: lost).
Proof.
  intros ((F & Hpa & Hc) & [others Hfs] & Hall) Hp.
  rewrite Hp in Hall. apply Forall_cons in Hall as [[Hl Hb] Hall].
  assert (concat (held.*2) ≡ₚ frames ++ concat (held'.*2)) as Hfr.
  { by rewrite Hp. }
  split; [done|]. split; [done|]. split.
  - exists others. eapply fs_inv_perm; [|exact Hfs]. rewrite Hfr. solve_Permutation.
  - split_and!; [|exists (frames ++ others)|done]; cbn [fst snd].
    + exists F. split; [done|]. eapply client_inv_perm; [|exact Hc]. rewrite Hp. simpl.
      by rewrite <- Permutation_middle.
    + eapply fs_inv_perm; [|exact Hfs]. rewrite Hfr. solve_Permutation.
Qed.

(** Giving back an outstanding range. *)
Lemma deallocate_pages_spec c held held' lost l frames :
  pages_inv c held lost → held ≡ₚ (l, frames) :: held' →
  ∃ pa' pt' fa', PageAllocator_deallocate_pages l c.1.1 c.1.2 c.2 = Ret (Ok (), pa', pt', fa') ∧
    pages_inv (pa', pt', fa') held' lost ∧
    (∀ q, q ∈ range_pages l → translate pt' q = None) ∧
    (∀ q, q ∉ range_pages l → translate pt' q = translate c.1.2 q) ∧
    ∃ rest, fs_inv c.2 (frames ++ rest) ∧ fs_inv fa' rest.
Proof.
  destruct c as [[pa0 pt] fa]. intros Hinv Hp.
  destruct (pages_inv_release _ _ _ _ _ _ Hinv Hp) as (Hl & Hb & [others Hfs] & Hrel).
  pose proof Hrel as ((F & Hpa & Hc) & _ & Hall). cbn [fst snd] in *. subst pa0. destruct l as [block m].
  simpl in Hl. pose proof pages_bound as Hpb. pose proof (order_bound m n Hl) as Hord. pose proof span_bound as Hspan.
  destruct (held_legal F _ (level m) block Hc) as [Hlvl Hleg]; [set_solver|].
  destruct (legal_range m block Hl Hleg) as (Hlo & Hhi & Hal).
  assert (request_size m ≤ 4096 * 2 ^ Z.of_nat (order m)) as Hrs
    by (unfold request_size; destruct (m =? 0); lia).
  unfold PageAllocator_deallocate_pages. cbn [pl_length pl_page]. run. rewrite request_size_ok by lia. run.
  rewrite level_ok by done. cbn [mbind exec_bind unwrap].
  rewrite add_chk_ok by (unfold PAGEALLOC_START in *; lia). cbn [mbind exec_bind].
  rewrite request_pages by lia.
  destruct (unmap_each_ok page_at rw _ frames pt fa _ Hb Hfs) as (pt' & fa' & -> & Hfs' & Hin & Hout);
    [apply range_pages_NoDup|by intros a; apply range_page_at|].
  cbn [mbind exec_bind]. rewrite nonnull_ok by (unfold PAGEALLOC_START in *; lia). cbn [mbind exec_bind].
  rewrite page_merge_generic by (done || unfold PAGEALLOC_START; lia).
  destruct (client_inv_put _ _ F _ (level m, block) Hc) as [F' Hput]; [set_solver|].
  cbn [fst snd] in Hput.
  change (put_block (level m) block F) with (bs_put (level m) block F). rewrite Hput.
  exists (pa F'), pt', fa'. split_and!; [done| |done..|by eexists].
  apply (pages_inv_frame _ pt fa); [split_and!; [| |done]| |by exists others].
  - exists F'. split; [done|]. eapply client_inv_step; [exact Hc|]. eapply client_put; [|exact Hput].
    by rewrite <- Permutation_middle.
  - exists (frames ++ others). eapply fs_inv_perm; [|exact Hfs]. cbn [fst snd]. solve_Permutation.
  - intros [l' fr] q Hh Hq. apply Hout. by eapply (pages_inv_other _ _ _ _ _ _ _ Hrel Hh m Hl eq_refl q).
Qed.

(** A request larger than the region. *)
Lemma allocate_pages_large m F pt fa : 2 ^ Z.of_nat n < m →
  PageAllocator_allocate_pages m (pa F) pt fa = Panic.
Proof.
  intros Hm. pose proof span_bound as Hspan. unfold PageAllocator_allocate_pages.
  destruct (mul_chk 64 m 4096) as [bytes| |] eqn:Hb; [|done|by unfold mul_chk in Hb; case_match].
  apply mul_chk_inv in Hb as [-> Hb]. cbn [mbind exec_bind]. unfold next_power_of_two.
  case_match; [|done]. cbn [mbind exec_bind].
  assert (span < 2 ^ Z.log2_up (m * 4096)) as Hlarge.
  { pose proof (Z.log2_up_spec (m * 4096) ltac:(lia)) as [_ Hup].
    eapply Z.lt_le_trans; [|exact Hup]. rewrite Z.pow_add_r by lia. lia. }
  unfold PageAllocator_get_level_from_size, PageAllocator_max_size. cbn [pa_heap_end pa_heap_start pa_levels].
  rewrite sub_chk_ok by lia. cbn [mbind exec_bind]. rewrite halving_loop_large by lia.
  cbn [mbind exec_bind]. by rewrite (proj2 (Z.ltb_lt _ _)) by lia.
Qed.

(** The page allocator in use: ranges come and go, mappings fail, and other
    kernel code maps pages elsewhere and takes frames. *)
Inductive pages_step : state * list PageAllocLayout → state * list PageAllocLayout → Prop :=
  | pages_alloc pa0 pt fa outs m l pa' pt' fa' :
      0 ≤ m → PageAllocator_allocate_pages m pa0 pt fa = Ret (Ok l, pa', pt', fa') →
      pages_step ((pa0, pt, fa), outs) ((pa', pt', fa'), l :: outs)
  | pages_alloc_err pa0 pt fa outs m e pa' pt' fa' :
      0 ≤ m → PageAllocator_allocate_pages m pa0 pt fa = Ret (Err e, pa', pt', fa') →
      pages_step ((pa0, pt, fa), outs) ((pa', pt', fa'), outs)
  | pages_dealloc pa0 pt fa outs outs' l r pa' pt' fa' :
      outs ≡ₚ l :: outs' → PageAllocator_deallocate_pages l pa0 pt fa = Ret (r, pa', pt', fa') →
      pages_step ((pa0, pt, fa), outs) ((pa', pt', fa'), outs')
  | pages_other pa0 pt fa outs pt' fa' :
      (∀ q, PAGEALLOC_START ≤ q < pa0.(pa_heap_end) → translate pt' q = translate pt q) →
      rtc (draws fs_allocate_frame) fa fa' →
      pages_step ((pa0, pt, fa), outs) ((pa0, pt', fa'), outs).

Definition pages_good (c : state * list PageAllocLayout) : Prop :=
  ∃ held lost, pages_inv c.1 held lost ∧ held.*1 = c.2.

Lemma pages_inv_large c held lost m : pages_inv c held lost → 2 ^ Z.of_nat n < m →
  PageAllocator_allocate_pages m c.1.1 c.1.2 c.2 = Panic.
Proof. intros ((F & -> & _) & _) Hm. by apply allocate_pages_large. Qed.

Lemma held_perm (held : list (PageAllocLayout * list Z)) l outs' :
  held.*1 ≡ₚ l :: outs' → ∃ frames held', held ≡ₚ (l, frames) :: held' ∧ held'.*1 ≡ₚ outs'.
Proof.
  intros Hp. assert (l ∈ held.*1) as Hl by (rewrite Hp; by left).
  apply list_elem_of_fmap in Hl as ([l' frames] & -> & Hin). simpl in *.
  apply elem_of_Permutation in Hin as [held' Hh]. exists frames, held'. split; [done|].
  rewrite Hh in Hp. simpl in Hp. by apply Permutation_cons_inv in Hp.
Qed.

Lemma pages_inv_perm c held held' lost :
  held ≡ₚ held' → pages_inv c held lost → pages_inv c held' lost.
Proof.
  intros Hp ((F & Hpa & Hc) & [others Hfs] & Hall). split_and!; [|exists others|by rewrite <- Hp].
  - exists F. split; [done|]. eapply client_inv_perm; [|exact Hc]. by rewrite Hp.
  - eapply fs_inv_perm; [|exact Hfs]. by rewrite Hp.
Qed.

Lemma permute_fst (held : list (PageAllocLayout * list Z)) outs :
  held.*1 ≡ₚ outs → ∃ held', held ≡ₚ held' ∧ held'.*1 = outs.
Proof.
  revert held. induction outs as [|l outs IH]; intros held Hp.
  - apply Permutation_nil_r, fmap_nil_inv in Hp as ->. by exists [].
  - apply held_perm in Hp as (frames & h & Hh & (h' & Hh' & <-)%IH).
    exists ((l, frames) :: h'). by rewrite Hh, Hh'.
Qed.

Lemma pages_good_step c c' : pages_good c → pages_step c c' → pages_good c'.
Proof.
  intros (held & lost & Hinv & Houts) Hstep.
  destruct Hstep as [pa0 pt fa outs m l pa' pt' fa' Hm Ha|pa0 pt fa outs m e pa' pt' fa' Hm Ha
    |pa0 pt fa outs outs' l r pa' pt' fa' Hp Hd|pa0 pt fa outs pt' fa' Hq Hdr]; simpl in Houts; subst outs.
  - destruct (decide (m ≤ 2 ^ Z.of_nat n)) as [Hle|Hgt];
      [|pose proof (pages_inv_large _ _ _ m Hinv ltac:(lia)) as Hx; cbn [fst snd] in Hx; congruence].
    pose proof (allocate_pages_spec m _ held lost Hinv ltac:(lia)) as Hs. cbn [fst snd] in *.
    rewrite Ha in Hs. destruct Hs as (_ & [frames Hs] & _). by exists ((l, frames) :: held), lost.
  - destruct (decide (m ≤ 2 ^ Z.of_nat n)) as [Hle|Hgt];
      [|pose proof (pages_inv_large _ _ _ m Hinv ltac:(lia)) as Hx; cbn [fst snd] in Hx; congruence].
    pose proof (allocate_pages_spec m _ held lost Hinv ltac:(lia)) as Hs. cbn [fst snd] in *.
    rewrite Ha in Hs. destruct Hs as [p Hs]. by exists held, ((level m, p) :: lost).
  - apply held_perm in Hp as (frames & held' & Hh & (h' & Hh' & <-)%permute_fst).
    destruct (deallocate_pages_spec _ _ _ _ _ _ Hinv Hh) as (pa1 & pt1 & fa1 & Hd' & Hinv' & _).
    cbn [fst snd] in *. exec_eq. exists h', lost. split; [|done]. by eapply pages_inv_perm.
  - exists held, lost. split; [|done]. pose proof Hinv as ((F & Hpa & Hc) & [others Hfs] & Hall).
    cbn [fst snd] in *. subst pa0. eapply pages_inv_frame; [exact Hinv| |].
    + intros h q Hh Hin. apply Hq. cbn [pa_heap_end]. rewrite Forall_forall in Hall.
      destruct (Hall h Hh) as [Hl _]. apply elem_of_range_pages in Hin as (i & Hi & ->).
      destruct (held_legal F _ (level h.1.(pl_length)) h.1.(pl_page) Hc) as [_ Hleg].
      { apply elem_of_app. left. apply list_elem_of_fmap. by exists h. }
      destruct (legal_range _ _ Hl Hleg) as (? & ? & _). lia.
    + destruct (draws_inv _ _ _ Hdr Hfs) as [more Hmore]. exists (more ++ others).
      eapply fs_inv_perm; [|exact Hmore]. solve_Permutation.
Qed.

Lemma page_region_inv pt fa used :
  fs_inv fa used → pages_inv (page_region n, pt, fa) [] [].
Proof.
  intros Hfs. split_and!; cbn [fst snd]; [|by exists used|done].
  exists ([PAGEALLOC_START] :: replicate n []). split; [done|].
  change (client_inv bi_base bi_span ([PAGEALLOC_START] :: replicate n [], [])). apply whole_table_init.
  - simpl. unfold page_size. by rewrite Z.shiftr_0_r.
  - split; [done|]. simpl. by rewrite length_replicate.
  - split_and!; [done| |exists 0; simpl; lia]. simpl. unfold page_size. by rewrite Z.shiftr_0_r.
Qed.

(** Pages of different ranges are different, and no frame is behind two pages. *)
Lemma pages_inv_apart c held lost i j l1 fr1 l2 fr2 q1 q2 :
  pages_inv c held lost → held !! i = Some (l1, fr1) → held !! j = Some (l2, fr2) →
  q1 ∈ range_pages l1 → q2 ∈ range_pages l2 →
  (i ≠ j → q1 ≠ q2) ∧
  ∃ f1 f2, translate c.1.2 q1 = Some (f1, rw) ∧ translate c.1.2 q2 = Some (f2, rw) ∧ (q1 ≠ q2 → f1 ≠ f2).
Proof.
  intros ((F & _ & Hc) & [others Hfs] & Hall) Hi Hj Hq1 Hq2. rewrite Forall_forall in Hall.
  destruct (Hall _ (list_elem_of_lookup_2 _ _ _ Hi)) as [Hl1 Hb1].
  destruct (Hall _ (list_elem_of_lookup_2 _ _ _ Hj)) as [Hl2 Hb2]. cbn [fst snd] in *.
  assert (∀ k l fr, held !! k = Some (l, fr) →
    ((as_range ∘ fst <$> held) ++ lost) !! k = Some (as_range l)) as Hlook.
  { intros k l fr Hk. apply lookup_app_l_Some. by rewrite list_lookup_fmap, Hk. }
  split.
  { intros Hij ->. eapply (ranges_apart F _ i j l1 l2 q2 Hc); eauto. }
  apply list_elem_of_lookup in Hq1 as [a Ha]. apply list_elem_of_lookup in Hq2 as [b Hb].
  destruct (Forall2_lookup_l _ _ _ _ _ Hb1 Ha) as (f1 & Hf1 & Ht1).
  destruct (Forall2_lookup_l _ _ _ _ _ Hb2 Hb) as (f2 & Hf2 & Ht2).
  exists f1, f2. split_and!; [done..|]. intros Hq ->.
  apply fs_inv_NoDup, NoDup_app in Hfs as (Hnd & _).
  assert (held.*2 !! i = Some fr1) as Hi' by (by rewrite list_lookup_fmap, Hi).
  assert (held.*2 !! j = Some fr2) as Hj' by (by rewrite list_lookup_fmap, Hj).
  destruct (decide (i = j)) as [<-|Hij].
  - apply Hq. assert (fr1 = fr2) as <- by congruence.
    pose proof (NoDup_lookup _ _ _ _ (concat_NoDup _ _ _ Hnd Hi') Hf1 Hf2) as <-. congruence.
  - revert Hnd. apply (concat_NoDup_lookup _ i j fr1 fr2 f2); eauto using list_elem_of_lookup_2.
Qed.

End Kernel_pages.

(** ** Boot *)

Section Boot.
Context `{AddressesOk}.

(** The region is the smallest power of two that covers the memory. *)
Lemma pagealloc_size_loop_ok fuel i ram :
  (51 - i < fuel)%nat → (i ≤ 51)%nat → ram ≤ 2 ^ 63 →
  ∃ n, pagealloc_size_loop fuel (2 ^ (12 + Z.of_nat i)) ram = Ret (2 ^ (12 + Z.of_nat n)) ∧
    (i ≤ n ≤ 51)%nat ∧ ram ≤ 2 ^ (12 + Z.of_nat n) ∧
    ∀ j, (i ≤ j < n)%nat → 2 ^ (12 + Z.of_nat j) < ram.
Proof.
  revert i. induction fuel as [|fuel IH]; intros i Hf Hi Hram; [lia|]. cbn [pagealloc_size_loop].
  destruct (Z.ltb_spec (2 ^ (12 + Z.of_nat i)) ram) as [Hlt|Hge].
  - assert (i ≠ 51)%nat as Hne by (intros ->; simpl in Hlt; lia).
    assert (cast 64 (Z.shiftl (2 ^ (12 + Z.of_nat i)) 1) = 2 ^ (12 + Z.of_nat (S i))) as ->.
    { unfold cast. rewrite Z.shiftl_mul_pow2 by lia. rewrite <- Z.pow_add_r by lia.
      replace (12 + Z.of_nat i + 1) with (12 + Z.of_nat (S i)) by lia.
      apply Z.mod_small. split; [lia|]. apply Z.pow_lt_mono_r; lia. }
    destruct (IH (S i)) as (n & -> & Hn & Hr & Hleast); [lia..|]. exists n. split_and!; try done; [lia..|].
    intros j Hj. destruct (decide (j = i)) as [->|]; [done|]. apply Hleast. lia.
  - exists i. split_and!; try done; lia.
Qed.

Lemma PageAllocator_new_ok n : (n ≤ 34)%nat →
  PageAllocator_new PAGEALLOC_START (PAGEALLOC_START + 2 ^ (12 + Z.of_nat n)) (S n) = Ret (page_region n).
Proof.
  intros Hn. assert (2 ^ (12 + Z.of_nat n) = 2 ^ Z.of_nat n * 4096) as Hp by (rewrite Z.pow_add_r by lia; lia).
  assert (2 ^ Z.of_nat n ≤ 2 ^ 34) by (apply Z.pow_le_mono_r; lia).
  unfold PageAllocator_new. run_by ltac:(by vm_compute).
  run_by ltac:(apply Z.eqb_eq; rewrite Hp, Z.mod_add by lia; by vm_compute).
  run. run. replace (Z.of_nat (S n) - 1) with (Z.of_nat n) by lia. run_by lia. run.
  run_by ltac:(apply Z.eqb_eq; lia). reflexivity.
Qed.

(** Up to 64 TiB of memory. *)
Lemma init_page_allocator_ok ram : 0 ≤ ram ≤ 2 ^ 46 →
  ∃ n, (n ≤ 34)%nat ∧ ram ≤ 2 ^ (12 + Z.of_nat n) ∧
    (∀ j, (j < n)%nat → 2 ^ (12 + Z.of_nat j) < ram) ∧
    init_page_allocator ram None = Ret (Some (page_region n)).
Proof.
  intros Hram. destruct (pagealloc_size_loop_ok 64 0 ram) as (n & Hloop & Hn51 & Hle & Hleast); [lia..|].
  assert (n ≤ 34)%nat as Hn.
  { destruct (decide (n ≤ 34)%nat); [done|]. specialize (Hleast 34%nat ltac:(lia)). simpl in Hleast. lia. }
  exists n. split_and!; [lia|done|intros j Hj; apply Hleast; lia|].
  assert (2 ^ (12 + Z.of_nat n) ≤ 2 ^ 46) by (apply Z.pow_le_mono_r; lia).
  unfold init_page_allocator. change 4096 with (2 ^ (12 + Z.of_nat 0)). rewrite Hloop. cbn [mbind exec_bind].
  rewrite add_chk_ok by (unfold PAGEALLOC_START; lia). cbn [mbind exec_bind].
  change (2 ^ (12 + Z.of_nat 0)) with (2 ^ 12). rewrite <- Z.pow_sub_r by lia.
  replace (12 + Z.of_nat n - 12) with (Z.of_nat n) by lia. unfold next_power_of_two.
  rewrite Z.log2_up_pow2 by lia. rewrite (proj2 (Z.ltb_lt _ _)) by (apply Z.pow_lt_mono_r; lia).
  cbn [mbind exec_bind]. rewrite trailing_zeros_pow2, Nat2Z.id by lia.
  rewrite !VirtAddr_new_ok by (right; unfold PAGEALLOC_START; lia). cbn [mbind exec_bind].
  rewrite PageAllocator_new_ok by lia. done.
Qed.

(** [init_page_allocator] manages the smallest region of a power of two of
    pages that covers the memory, as one free block, for up to 64 TiB of memory;
    beyond that, and when called a second time, it panics. *)
Theorem page_allocator_boot ram pa0 :
  0 ≤ ram ≤ 2 ^ 63 →
  init_page_allocator ram (Some pa0) = Panic ∧
  (2 ^ 46 < ram → init_page_allocator ram None = Panic) ∧
  (ram ≤ 2 ^ 46 → ∃ n, (n ≤ 34)%nat ∧ ram ≤ 4096 * 2 ^ Z.of_nat n ∧
    (∀ j, (j < n)%nat → 4096 * 2 ^ Z.of_nat j < ram) ∧
    init_page_allocator ram None = Ret (Some (mkPageAllocator PAGEALLOC_START
      (PAGEALLOC_START + 4096 * 2 ^ Z.of_nat n) (S n) ([PAGEALLOC_START] :: replicate n [])))).
Proof.
  intros Hram. split_and!; [done| |].
  - intros Hlarge. destruct (pagealloc_size_loop_ok 64 0 ram) as (n & Hloop & Hn & Hle & _); [lia..|].
    unfold init_page_allocator. change 4096 with (2 ^ (12 + Z.of_nat 0)). rewrite Hloop. cbn [mbind exec_bind].
    assert (2 ^ 47 ≤ 2 ^ (12 + Z.of_nat n)).
    { apply Z.pow_le_mono_r; [lia|]. destruct (decide (35 ≤ n)%nat); [lia|].
      assert (2 ^ (12 + Z.of_nat n) ≤ 2 ^ 46) by (apply Z.pow_le_mono_r; lia). lia. }
    unfold add_chk. rewrite (proj2 (Z.ltb_ge _ _)) by (unfold PAGEALLOC_START; lia). done.
  - intros Hsmall. destruct (init_page_allocator_ok ram) as (n & Hn & Hle & Hleast & Hinit); [lia|].
    assert (∀ j, 2 ^ (12 + Z.of_nat j) = 4096 * 2 ^ Z.of_nat j) as Hp by (intros j; rewrite Z.pow_add_r by lia; lia).
    exists n. rewrite <- Hp. split_and!; [done..| |done]. intros j Hj. rewrite <- Hp. by apply Hleast.
Qed.

End Boot.

(** ** The page allocator from boot on *)

Section Reachable.
Context `{AddressesOk} {PT FA : Type} `{MapperOk PT, FrameSourceOk FA}.

Definition pages_reachable (ram : Z) (c : PageAllocator * PT * FA * list PageAllocLayout) : Prop :=
  ∃ pa0 pt fa used, init_page_allocator ram None = Ret (Some pa0) ∧ fs_inv fa used ∧
    rtc pages_step ((pa0, pt, fa), []) c.

Lemma pages_reachable_good ram c : 0 ≤ ram ≤ 2 ^ 46 → pages_reachable ram c →
  ∃ n, (n ≤ 34)%nat ∧ ram ≤ 2 ^ (12 + Z.of_nat n) ∧ pages_good n c.
Proof.
  intros Hram (pa0 & pt & fa & used & Hinit & Hfs & Hsteps).
  destruct (init_page_allocator_ok ram Hram) as (n & Hn & Hle & _ & Hinit').
  assert (pa0 = page_region n) as -> by congruence.
  exists n. split_and!; [done..|].
  assert (pages_good n (page_region n, pt, fa, [])) as Hgood.
  { exists [], []. split; [by eapply page_region_inv|done]. }
  remember (page_region n, pt, fa, []) as c0 eqn:Hc0. clear Hc0.
  induction Hsteps as [|c0 c1 c2 Hstep _ IH]; [done|]. apply IH. by apply (pages_good_step n Hn c0).
Qed.

(** C6: page ranges handed out by [allocate_pages] never overlap: in every state
    that calls of [allocate_pages] and [deallocate_pages], failing mappings and
    activity elsewhere in the kernel can reach from boot, two different
    outstanding ranges have no page in common, every page of an outstanding range
    is mapped writable, and no frame is behind two of their pages, be they of one
    range or of two. *)
Theorem page_ranges_disjoint ram c i j l1 l2 q1 q2 :
  0 ≤ ram ≤ 2 ^ 46 → pages_reachable ram c → c.2 !! i = Some l1 → c.2 !! j = Some l2 →
  q1 ∈ range_pages l1 → q2 ∈ range_pages l2 →
  (i ≠ j → q1 ≠ q2) ∧ ∃ f1 f2, translate c.1.1.2 q1 = Some (f1, [PRESENT; WRITABLE]) ∧
    translate c.1.1.2 q2 = Some (f2, [PRESENT; WRITABLE]) ∧ (q1 ≠ q2 → f1 ≠ f2).
Proof.
  intros Hram Hreach Hi Hj Hq1 Hq2.
  destruct (pages_reachable_good ram c Hram Hreach) as (n & Hn & _ & held & lost & Hinv & Houts).
  rewrite <- Houts in Hi, Hj. apply list_lookup_fmap_Some_1 in Hi as ([k1 fr1] & -> & Hi).
  apply list_lookup_fmap_Some_1 in Hj as ([k2 fr2] & -> & Hj). cbn [fst snd] in *.
  by eapply (pages_inv_apart n Hn _ held lost i j).
Qed.

(** C30: [deallocate_pages] of an outstanding range always succeeds, in every
    reachable state: no page of the range is mapped afterwards, no mapping
    outside it changes, and the frames that were behind the range are given back
    to the frame allocator, which then has exactly the others outstanding. *)
Theorem page_dealloc_total ram c l :
  0 ≤ ram ≤ 2 ^ 46 → pages_reachable ram c → l ∈ c.2 →
  ∃ pa' pt' fa', PageAllocator_deallocate_pages l c.1.1.1 c.1.1.2 c.1.2 = Ret (Ok (), pa', pt', fa') ∧
    (∀ q, q ∈ range_pages l → translate pt' q = None) ∧
    (∀ q, q ∉ range_pages l → translate pt' q = translate c.1.1.2 q) ∧
    ∃ frames rest, backed c.1.1.2 [PRESENT; WRITABLE] (range_pages l) frames ∧
      fs_inv c.1.2 (frames ++ rest) ∧ fs_inv fa' rest.
Proof.
  intros Hram Hreach Hl.
  destruct (pages_reachable_good ram c Hram Hreach) as (n & Hn & _ & held & lost & Hinv & Houts).
  rewrite <- Houts in Hl. apply list_elem_of_fmap in Hl as ([l' frames] & -> & Hin). cbn [fst].
  pose proof Hinv as (_ & _ & Hall). rewrite Forall_forall in Hall. destruct (Hall _ Hin) as [_ Hb].
  apply elem_of_Permutation in Hin as [held' Hp].
  destruct (deallocate_pages_spec n Hn _ _ _ _ _ _ Hinv Hp) as (pa' & pt' & fa' & ? & _ & ? & ? & rest & ? & ?).
  exists pa', pt', fa'. split_and!; [done..|]. by exists frames, rest.
Qed.

(** C31: what [allocate_pages] does in any reachable state.  A range it returns
    has the requested length, all its pages are mapped writable, and no other
    mapping changes; it panics only when every free list that could serve the
    request is empty or the request exceeds the region; it never hangs. *)
Theorem page_alloc_outcomes ram c m :
  0 ≤ ram ≤ 2 ^ 46 → pages_reachable ram c → 0 ≤ m →
  match PageAllocator_allocate_pages m c.1.1.1 c.1.1.2 c.1.2 with
  | Ret (Ok l, _, pt', _) =>
      l.(pl_length) = m ∧ m ≤ Z.of_nat (length (range_pages l)) ∧
      (∀ q, q ∈ range_pages l → ∃ f, translate pt' q = Some (f, [PRESENT; WRITABLE])) ∧
      ∀ q, q ∉ range_pages l → translate pt' q = translate c.1.1.2 q
  | Ret (Err _, _, _, _) => True
  | Panic =>
      2 ^ Z.of_nat (pred c.1.1.1.(pa_levels)) < m ∨
      ∀ i l, (i + order m < c.1.1.1.(pa_levels))%nat → c.1.1.1.(pa_free_lists) !! i = Some l → l = []
  | NoFuel => False
  end.
Proof.
  intros Hram Hreach Hm.
  destruct (pages_reachable_good ram c Hram Hreach) as (n & Hn & _ & held & lost & Hinv & _).
  assert (c.1.1.1.(pa_levels) = S n) as Hlev by (destruct Hinv as ((F & -> & _) & _); done).
  destruct (decide (m ≤ 2 ^ Z.of_nat n)) as [Hle|Hgt].
  - pose proof (allocate_pages_spec n Hn m _ held lost Hinv ltac:(lia)) as Hs.
    destruct (PageAllocator_allocate_pages _ _ _ _) as [[[[[l|e] pa'] pt'] fa']| |]; [|done| |done].
    + destruct Hs as (Hlen & (frames & _ & _ & Hall) & Hother). split_and!; try done.
      * unfold range_pages. rewrite length_fmap, length_seqZ, Hlen. pose proof (order_fits m Hm). lia.
      * intros q [a Ha]%list_elem_of_lookup. apply Forall_cons in Hall as [[_ Hb] _].
        destruct (Forall2_lookup_l _ _ _ _ _ Hb Ha) as (f & _ & Ht). by exists f.
    + right. intros i l Hi Hl. rewrite Hlev in Hi. rewrite Hs in Hl by lia. by simplify_eq.
  - rewrite (pages_inv_large n Hn _ held lost m Hinv) by lia. left. rewrite Hlev. simpl. lia.
Qed.

(** An allocator without free blocks. *)
Lemma get_free_block_empty self level :
  Forall (λ l, l = []) self.(pa_free_lists) → (level < length self.(pa_free_lists))%nat →
  PageAllocator_get_free_block level self = Ret (None, self).
Proof.
  intros Hall. assert (∀ i, (i < length self.(pa_free_lists))%nat → index self.(pa_free_lists) i = Ret []) as Hi.
  { intros i [l Hl]%lookup_lt_is_Some. apply index_ok. rewrite Forall_lookup in Hall.
    by rewrite (Hall i l Hl) in Hl. }
  induction level as [|above IH]; intros Hl; simpl; rewrite Hi by done; simpl; [done|].
  by rewrite IH by lia.
Qed.

(** A range whose pages cannot be backed is lost.  When frames have run
    out, a request for the whole region reports the error, and the block it
    took is not returned to the free lists: every later request panics, also
    when frames are available again. *)
Theorem page_alloc_failure_leaks n pt fa fa' :
  (n ≤ 34)%nat → fs_allocate_frame fa = Ret (None, fa') →
  ∃ pa', PageAllocator_allocate_pages (2 ^ Z.of_nat n) (page_region n) pt fa
           = Ret (Err FrameAllocationFailed, pa', pt, fa') ∧
    ∀ m pt2 (fa2 : FA), 0 ≤ m → PageAllocator_allocate_pages m pa' pt2 fa2 = Panic.
Proof.
  intros Hn Hnone. pose proof (pages_bound n Hn) as Hpb. pose proof (span_bound n Hn) as Hspan.
  assert (order (2 ^ Z.of_nat n) = n) as Hord by (unfold order; rewrite Z.log2_up_pow2 by lia; lia).
  exists (mkPageAllocator PAGEALLOC_START (PAGEALLOC_START + 2 ^ (12 + Z.of_nat n)) (S n) ([] :: replicate n [])).
  split.
  - unfold PageAllocator_allocate_pages, page_region. run. rewrite request_size_ok by lia. run.
    rewrite level_ok by (done || lia). rewrite Hord, Nat.sub_diag. cbn [mbind exec_bind unwrap].
    cbn [PageAllocator_get_free_block pa_free_lists index lookup list_lookup unwrap mbind exec_bind].
    unfold mret, exec_ret. cbn [mbind exec_bind unwrap].
    assert (request_size (2 ^ Z.of_nat n) = 2 ^ (12 + Z.of_nat n)) as Hrs.
    { unfold request_size. rewrite (proj2 (Z.eqb_neq _ _)), Hord, Z.pow_add_r by lia. done. }
    rewrite add_chk_ok by (rewrite Hrs; unfold PAGEALLOC_START; lia). cbn [mbind exec_bind].
    rewrite request_pages by lia.
    destruct (range_pages _) as [|q qs] eqn:Hq; [|simpl; by rewrite Hnone].
    apply (f_equal length) in Hq. unfold range_pages in Hq. rewrite length_fmap, length_seqZ in Hq.
    simpl in Hq. rewrite Hord in Hq. lia.
  - intros m pt2 fa2 Hm. destruct (decide (m ≤ 2 ^ Z.of_nat n)); [|by apply allocate_pages_large; [|lia]].
    unfold PageAllocator_allocate_pages. run. rewrite request_size_ok by lia. run.
    rewrite level_ok by (done || lia). cbn [mbind exec_bind unwrap].
    rewrite get_free_block_empty; [done| |simpl; rewrite length_replicate; lia].
    constructor; [done|]. apply Forall_replicate. done.
Qed.

(** The pages of the heap. *)
Definition heap_pages : list Z := (λ i, HEAP_START + 4096 * i) <$> seqZ 0 4096.

Lemma init_heap_pages pt fa :
  init_heap pt fa = map_each mret FrameAllocationFailed (λ e, e) [PRESENT; WRITABLE] heap_pages pt fa.
Proof.
  unfold init_heap, page_at. rewrite !VirtAddr_new_ok by (right; unfold HEAP_START, HEAP_SIZE; lia).
  cbn [mbind exec_bind]. unfold mret, exec_ret. cbn [mbind exec_bind].
  rewrite !containing_address_ok by (unfold HEAP_START, HEAP_SIZE; lia). reflexivity.
Qed.

Lemma heap_pages_lookup a : HEAP_START ≤ a < HEAP_START + HEAP_SIZE →
  heap_pages !! Z.to_nat (a / 4096 - HEAP_START / 4096) = Some (4096 * (a / 4096)).
Proof.
  intros Ha. change (HEAP_START / 4096) with 0xFFFF880000000. unfold HEAP_START, HEAP_SIZE in *.
  assert (0xFFFF880000000 ≤ a / 4096) by (apply Z.div_le_lower_bound; lia).
  assert (a / 4096 < 0xFFFF880001000) by (apply Z.div_lt_upper_bound; lia).
  unfold heap_pages. rewrite list_lookup_fmap, lookup_seqZ_lt by lia. cbn [fmap option_fmap option_map].
  f_equal. unfold HEAP_START. lia.
Qed.

Lemma init_heap_ok pt (fa : FA) used : fs_inv fa used →
  ∃ r pt' fa', init_heap pt fa = Ret (r, pt', fa') ∧
    (r = Ok () → ∃ frames more, fs_inv fa' (more ++ frames ++ used) ∧
      backed pt' [PRESENT; WRITABLE] heap_pages frames ∧
      ∀ q, q ∉ heap_pages → translate pt' q = translate pt q).
Proof.
  intros Hfs. rewrite init_heap_pages.
  destruct (map_each_ok mret FrameAllocationFailed (λ e, e) [PRESENT; WRITABLE] heap_pages pt fa used Hfs)
    as (r & pt' & fa' & frames & more & done_ & rest & Heq & Hfs' & Hpages & Hb & Hother & Hrest).
  { apply NoDup_fmap_2; [intros i j; lia|apply NoDup_seqZ]. }
  { done. }
  exists r, pt', fa'. split; [done|]. intros ->. subst rest. rewrite app_nil_r in Hpages. subst done_.
  by exists frames, more.
Qed.

(** [init_heap] returns, and when it reports success every byte of the
    kernel heap lies on a page that is mapped writable, no frame is behind two
    of these pages, none of the frames was in use before, and no mapping outside
    the heap has changed. *)
Theorem init_heap_maps_heap pt (fa : FA) used :
  fs_inv fa used →
  ∃ r pt' fa', init_heap pt fa = Ret (r, pt', fa') ∧
    (r = Ok () → ∃ frame_of : Z → Z,
      (∀ a, HEAP_START ≤ a < HEAP_START + HEAP_SIZE →
        translate pt' (4096 * (a / 4096)) = Some (frame_of (a / 4096), [PRESENT; WRITABLE]) ∧
        frame_of (a / 4096) ∉ used) ∧
      (∀ a b, HEAP_START ≤ a < HEAP_START + HEAP_SIZE → HEAP_START ≤ b < HEAP_START + HEAP_SIZE →
        frame_of (a / 4096) = frame_of (b / 4096) → a / 4096 = b / 4096) ∧
      ∀ a, ¬ (HEAP_START ≤ a < HEAP_START + HEAP_SIZE) → translate pt' a = translate pt a).
Proof.
  intros Hfs. destruct (init_heap_ok pt fa used Hfs) as (r & pt' & fa' & Heq & Hok).
  exists r, pt', fa'. split; [done|]. intros Hr. destruct (Hok Hr) as (frames & more & Hfs' & Hb & Hother).
  pose proof (fs_inv_NoDup _ _ Hfs') as (_ & _ & (Hnd & Hfresh & _)%NoDup_app)%NoDup_app.
  exists (λ x, default 0 (frames !! Z.to_nat (x - HEAP_START / 4096))).
  assert (∀ a, HEAP_START ≤ a < HEAP_START + HEAP_SIZE →
    ∃ f, frames !! Z.to_nat (a / 4096 - HEAP_START / 4096) = Some f ∧
      translate pt' (4096 * (a / 4096)) = Some (f, [PRESENT; WRITABLE])) as Hf.
  { intros a Ha. by apply (Forall2_lookup_l _ _ _ _ _ Hb (heap_pages_lookup a Ha)). }
  split_and!.
  - intros a Ha. destruct (Hf a Ha) as (f & Hl & Ht). rewrite Hl. split; [done|]. apply Hfresh.
    by eapply list_elem_of_lookup_2.
  - intros a b Ha Hb'. destruct (Hf a Ha) as (f & Hla & _), (Hf b Hb') as (g & Hlb & _).
    rewrite Hla, Hlb. simpl. intros ->. pose proof (NoDup_lookup _ _ _ _ Hnd Hla Hlb).
    change (HEAP_START / 4096) with 0xFFFF880000000 in *. unfold HEAP_START in *.
    assert (∀ x, 0xFFFF880000000000 ≤ x → 0xFFFF880000000 ≤ x / 4096) as Hge
      by (intros x Hx; apply Z.div_le_lower_bound; lia).
    pose proof (Hge a ltac:(lia)). pose proof (Hge b ltac:(lia)). lia.
  - intros a Ha. apply Hother. intros (i & -> & Hi%elem_of_seqZ)%list_elem_of_fmap.
    apply Ha. unfold HEAP_SIZE. lia.
Qed.

End Reachable.

(** ** Runs *)

Section Runs.
#[local] Existing Instances model_addresses model_addresses_ok model_mapper model_mapper_ok
  model_source model_source_ok.

Abbreviation mstate := (PageAllocator * gmap Z (Z * PageTableFlags) * (list Z * list Z))%type.

(** Allocate ranges of the given lengths one after the other. *)
Fixpoint replay_pages (ms : list Z) (c : mstate) (outs : list PageAllocLayout)
    : exec (mstate * list PageAllocLayout) :=
  match ms with
  | [] => mret (c, outs)
  | m :: ms =>
      '(r, pa0, pt, fa) ← PageAllocator_allocate_pages m c.1.1 c.1.2 c.2;
      match r with
      | Ok l => replay_pages ms (pa0, pt, fa) (l :: outs)
      | Err _ => Panic
      end
  end.

Lemma replay_pages_steps ms c outs c' :
  Forall (λ m, 0 ≤ m) ms → replay_pages ms c outs = Ret c' → rtc pages_step (c, outs) c'.
Proof.
  revert c outs. induction ms as [|m ms IH]; intros [[pa0 pt] fa] outs Hall Hr; simpl in Hr.
  - by injection Hr as <-.
  - apply Forall_cons in Hall as [Hm Hall].
    destruct (PageAllocator_allocate_pages m pa0 pt fa) as [[[[[l|e] pa1] pt1] fa1]| |] eqn:Ha;
      [|done..]. simpl in Hr. eapply rtc_l; [|by apply IH].
    by apply (pages_alloc pa0 pt fa outs m l).
Qed.

Definition four_pages : mstate := (page_region 2, ∅, free_frames 5).

Lemma four_pages_reachable ms c' : Forall (λ m, 0 ≤ m) ms →
  replay_pages ms four_pages [] = Ret c' → pages_reachable 16384 c'.
Proof.
  intros Hms Hr. exists (page_region 2), ∅, (free_frames 5), [].
  split_and!; [by vm_compute| |by apply (replay_pages_steps ms)].
  by apply free_frames_inv.
Qed.

(** Two pages, then one: the layouts and the mappings of the result. *)
Lemma three_pages_run :
  match replay_pages [2; 1] four_pages [] with
  | Ret c' => c'.2 = [mkPageAllocLayout (PAGEALLOC_START + 8192) 1; mkPageAllocLayout PAGEALLOC_START 2]
  | _ => False
  end.
Proof. vm_compute. reflexivity. Qed.

Lemma three_pages : ∃ c', pages_reachable 16384 c' ∧
  c'.2 = [mkPageAllocLayout (PAGEALLOC_START + 8192) 1; mkPageAllocLayout PAGEALLOC_START 2].
Proof.
  pose proof three_pages_run as Hrun. destruct (replay_pages _ _ _) as [c'| |] eqn:Hr; [|done..].
  exists c'. split; [|done]. apply (four_pages_reachable [2; 1]); [|done].
  repeat constructor; lia.
Qed.

Lemma page_ranges_disjoint_witness :
  ∃ (c : mstate * list PageAllocLayout) f1 f2,
    translate c.1.1.2 PAGEALLOC_START = Some (f1, [PRESENT; WRITABLE]) ∧
    translate c.1.1.2 (PAGEALLOC_START + 4096) = Some (f2, [PRESENT; WRITABLE]) ∧ f1 ≠ f2.
Proof.
  destruct three_pages as (c & Hreach & Hc).
  destruct (page_ranges_disjoint 16384 c 1 1 (mkPageAllocLayout PAGEALLOC_START 2) (mkPageAllocLayout PAGEALLOC_START 2)
    PAGEALLOC_START (PAGEALLOC_START + 4096)) as (_ & f1 & f2 & H1 & H2 & H3);
    [lia|done|by rewrite Hc|by rewrite Hc|apply elem_of_range_pages..|].
  - exists 0. split; [by vm_compute|done].
  - exists 1. split; [by vm_compute|done].
  - exists c, f1, f2. split_and!; [done..|]. by apply H3.
Defined.

Lemma init_heap_maps_heap_witness :
  ∃ r pt' fa', init_heap (∅ : gmap Z (Z * PageTableFlags)) (free_frames 5000) = Ret (r, pt', fa') ∧
    (r = Ok () → ∃ frame_of : Z → Z,
      (∀ a, HEAP_START ≤ a < HEAP_START + HEAP_SIZE →
        translate pt' (4096 * (a / 4096)) = Some (frame_of (a / 4096), [PRESENT; WRITABLE]) ∧
        frame_of (a / 4096) ∉ []) ∧
      (∀ a b, HEAP_START ≤ a < HEAP_START + HEAP_SIZE → HEAP_START ≤ b < HEAP_START + HEAP_SIZE →
        frame_of (a / 4096) = frame_of (b / 4096) → a / 4096 = b / 4096) ∧
      ∀ a, ¬ (HEAP_START ≤ a < HEAP_START + HEAP_SIZE) → translate pt' a = translate ∅ a).
Proof.
  apply (init_heap_maps_heap ∅ (free_frames 5000) []). by apply free_frames_inv.
Defined.

Lemma page_allocator_boot_witness :
  init_page_allocator 20000 (Some (page_region 0)) = Panic ∧
  (2 ^ 46 < 20000 → init_page_allocator 20000 None = Panic) ∧
  (20000 ≤ 2 ^ 46 → ∃ n, (n ≤ 34)%nat ∧ 20000 ≤ 4096 * 2 ^ Z.of_nat n ∧
    (∀ j, (j < n)%nat → 4096 * 2 ^ Z.of_nat j < 20000) ∧
    init_page_allocator 20000 None = Ret (Some (mkPageAllocator PAGEALLOC_START
      (PAGEALLOC_START + 4096 * 2 ^ Z.of_nat n) (S n) ([PAGEALLOC_START] :: replicate n [])))).
Proof. apply (page_allocator_boot 20000 (page_region 0)). lia. Defined.

Lemma page_dealloc_total_witness :
  ∃ c : mstate * list PageAllocLayout, ∃ pa' pt' fa',
    PageAllocator_deallocate_pages (mkPageAllocLayout PAGEALLOC_START 2) c.1.1.1 c.1.1.2 c.1.2
      = Ret (Ok (), pa', pt', fa') ∧
    (∀ q, q ∈ range_pages (mkPageAllocLayout PAGEALLOC_START 2) → translate pt' q = None) ∧
    (∀ q, q ∉ range_pages (mkPageAllocLayout PAGEALLOC_START 2) → translate pt' q = translate c.1.1.2 q) ∧
    ∃ frames rest, backed c.1.1.2 [PRESENT; WRITABLE] (range_pages (mkPageAllocLayout PAGEALLOC_START 2)) frames ∧
      fs_inv c.1.2 (frames ++ rest) ∧ fs_inv fa' rest.
Proof.
  destruct three_pages as (c & Hreach & Hc). exists c.
  apply (page_dealloc_total 16384 c); [lia|done|]. rewrite Hc. set_solver.
Defined.

Lemma page_alloc_outcomes_witness :
  ∃ c : mstate * list PageAllocLayout, pages_reachable 16384 c ∧
    PageAllocator_allocate_pages 1 c.1.1.1 c.1.1.2 c.1.2 ≠ NoFuel.
Proof.
  destruct three_pages as (c & Hreach & Hc). exists c. split; [done|].
  pose proof (page_alloc_outcomes 16384 c 1 ltac:(lia) Hreach ltac:(lia)) as Ho.
  by destruct (PageAllocator_allocate_pages _ _ _ _).
Defined.

Lemma page_alloc_failure_leaks_witness :
  ∃ pa', PageAllocator_allocate_pages 4 (page_region 2) (∅ : gmap Z (Z * PageTableFlags)) ([], [] : list Z)
           = Ret (Err FrameAllocationFailed, pa', ∅, ([], [])) ∧
    ∀ m pt2 (fa2 : list Z * list Z), 0 ≤ m → PageAllocator_allocate_pages m pa' (pt2 : gmap Z (Z * PageTableFlags)) fa2 = Panic.
Proof. apply (page_alloc_failure_leaks 2 ∅ ([], []) ([], [])); [lia|reflexivity]. Defined.

End Runs.
