(* ===== verification/KernelSlab.v ===== *)
(** * KernelSlab: task stacks

    tasks/kernelslab.rs.  [KernelSlabAlloc] hands out one of 128 slots of four
    pages for a kernel stack, of which the lowest page is left unmapped as a
    guard; the slots in use are the bits of a [u128].  [get_user_stack] and
    [return_user_stack] map and unmap the initial stack of a user task.  Frames
    come from any [FrameSource], mappings go through any [Mapper]. *)

From S2P Require Import Prelude X86 FrameSource PageAlloc.

Definition KERNEL_TASKS_START : Z := 0xFFFFF30000000000.
Definition USER_STACKS_START : Z := 0x00007fffffff0000.
Definition USTACK_SIZE : Z := 512.
Definition INITIAL_STACK_PAGES : Z := 4.
(** tasks/scheduler.rs. *)
Definition KSTACK_SIZE : Z := 4.

Inductive StackAllocError : Type := FrameError | MapError.

Record KernelSlabAlloc := mkKernelSlabAlloc { block_bitmap : Z }.
Definition KernelSlabAlloc_new : KernelSlabAlloc := mkKernelSlabAlloc 0.

(** What the scheduler keeps of a user task's stack (tasks/scheduler.rs). *)
Record UserInfo := mkUserInfo {
  ui_stack_start : Z;
  ui_stack_end : Z;
  ui_stack_size : Z;
  ui_kernel_stack : Z;
}.

Record UserStackAllocation := mkUserStackAllocation {
  us_stack_start : Z;
  us_stack_end : Z;
  us_stack_size : Z;
}.

Section Stacks.
Context `{Addresses} {PT FA : Type} `{Mapper PT, FrameSource FA}.

Definition get_stack (self : KernelSlabAlloc) (pt : PT) (fa : FA)
    : exec (result Z StackAllocError * KernelSlabAlloc * PT * FA) :=
  let block_index := trailing_ones 128 self.(block_bitmap) in
  if 128 <=? block_index then mret (Err FrameError, self, pt, fa)
  else
    block_start ← add_chk 64 KERNEL_TASKS_START (block_index * KSTACK_SIZE * 0x1000);
    first ← add_chk 64 block_start 0x1000;
    last ← add_chk 64 block_start (KSTACK_SIZE * 0x1000);
    '(r, pt, fa) ← map_each page_at FrameError (λ _, MapError) [PRESENT; WRITABLE]
                     (step_by first last 0x1000) pt fa;
    match r with
    | Err e => mret (Err e, self, pt, fa)
    | Ok _ =>
        let self := mkKernelSlabAlloc (Z.lor self.(block_bitmap) (Z.shiftl 1 block_index)) in
        let stack_top := Z.land (last - 1) (not_ 64 0xF) in
        stack_top ← VirtAddr_new stack_top;
        mret (Ok stack_top, self, pt, fa)
    end.

Definition return_stack (stack_top : Z) (self : KernelSlabAlloc) : exec KernelSlabAlloc :=
  let stack_addr := stack_top in
  offset ← sub_chk stack_addr KERNEL_TASKS_START;
  let block_index := Z.land offset (not_ 64 (KSTACK_SIZE * 0x1000 - 1)) / (KSTACK_SIZE * 0x1000) in
  _ ← rassert ((block_index <? 128) &&
               negb (Z.land self.(block_bitmap) (Z.shiftl 1 block_index) =? 0));
  mret (mkKernelSlabAlloc (Z.ldiff self.(block_bitmap) (Z.shiftl 1 block_index))).

Definition get_user_stack (pt : PT) (fa : FA)
    : exec (result UserStackAllocation StackAllocError * PT * FA) :=
  stack_end ← sub_chk USER_STACKS_START (INITIAL_STACK_PAGES * 0x1000);
  '(r, pt, fa) ← map_each page_at FrameError (λ _, MapError) [PRESENT; WRITABLE; USER_ACCESSIBLE]
                   (step_by stack_end USER_STACKS_START 0x1000) pt fa;
  match r with
  | Err e => mret (Err e, pt, fa)
  | Ok _ =>
      max_stack_end ← sub_chk USER_STACKS_START (USTACK_SIZE * 0x1000);
      top ← VirtAddr_new USER_STACKS_START;
      bottom ← VirtAddr_new max_stack_end;
      mret (Ok (mkUserStackAllocation top bottom INITIAL_STACK_PAGES), pt, fa)
  end.

(** The loop of [return_user_stack]: pages that are not mapped are skipped. *)
Fixpoint return_pages (addrs : list Z) (pt : PT) (fa : FA) : exec (PT * FA) :=
  match addrs with
  | [] => mret (pt, fa)
  | page_addr :: addrs =>
      page ← page_at page_addr;
      match unmap page pt with
      | (Ok frame, pt) =>
          fa ← fs_deallocate_frame frame fa;
          return_pages addrs pt fa
      | (Err _, pt) => return_pages addrs pt fa
      end
  end.

Definition return_user_stack (info : UserInfo) (pt : PT) (fa : FA) : exec (PT * FA) :=
  bytes ← mul_chk 64 info.(ui_stack_size) 0x1000;
  actual_stack_bottom ← sub_chk info.(ui_stack_start) bytes;
  return_pages (step_by actual_stack_bottom info.(ui_stack_start) 0x1000) pt fa.

End Stacks.

(** ** Slots *)

Definition slot_base (i : Z) : Z := KERNEL_TASKS_START + i * 16384.
Definition slot_pages (i : Z) : list Z := [slot_base i + 4096; slot_base i + 8192; slot_base i + 12288].
Definition slot_top (i : Z) : Z := slot_base i + 0x3FF0.

Lemma slot_pages_steps i : step_by (slot_base i + 0x1000) (slot_base i + KSTACK_SIZE * 0x1000) 0x1000 = slot_pages i.
Proof.
  unfold step_by, div_ceil. replace (_ - _ + _ - 1) with 16383 by (unfold KSTACK_SIZE; lia).
  change (seqZ 0 (16383 / 4096)) with [0; 1; 2]. unfold slot_pages. cbn [fmap list_fmap].
  do 2 (apply f_equal2; [lia|]). apply f_equal2; [lia|done].
Qed.

Lemma slot_pages_NoDup i : NoDup (slot_pages i).
Proof.
  unfold slot_pages. repeat (apply NoDup_cons; split; [rewrite ?elem_of_cons, elem_of_nil; lia|]). apply NoDup_nil_2.
Qed.

Lemma elem_of_slot_pages q i :
  q ∈ slot_pages i ↔ q = slot_base i + 4096 ∨ q = slot_base i + 8192 ∨ q = slot_base i + 12288.
Proof. unfold slot_pages. rewrite !elem_of_cons, elem_of_nil. naive_solver. Qed.

(** The stack pointer of a slot names the slot. *)
Lemma slot_top_index i : 0 ≤ i < 128 →
  Z.land (slot_base i + 16384 - 1) (not_ 64 0xF) = slot_top i ∧
  Z.land (slot_top i - KERNEL_TASKS_START) (not_ 64 (KSTACK_SIZE * 0x1000 - 1)) / (KSTACK_SIZE * 0x1000) = i.
Proof.
  intros Hi. unfold slot_top, slot_base, KERNEL_TASKS_START, KSTACK_SIZE. split.
  - rewrite (land_not_ones 64 4) by lia.
    replace (0xFFFFF30000000000 + i * 16384 + 16384 - 1)
      with (15 + (0xFFFFF3000000000 + i * 1024 + 1023) * 2 ^ 4) by lia.
    rewrite Z.div_add by lia. change (15 / 2 ^ 4) with 0. lia.
  - change (4 * 4096 - 1) with (2 ^ 14 - 1). rewrite (land_not_ones 64 14) by lia.
    replace (0xFFFFF30000000000 + i * 16384 + 16368 - 0xFFFFF30000000000) with (16368 + i * 2 ^ 14) by lia.
    rewrite Z.div_add by lia. change (16368 / 2 ^ 14) with 0. change (4 * 4096) with (2 ^ 14).
    rewrite Z.mul_comm. rewrite Z.div_mul by lia. lia.
Qed.

Lemma testbit_set n i j : 0 ≤ i → 0 ≤ j →
  Z.testbit (Z.lor n (Z.shiftl 1 i)) j = Z.testbit n j || bool_decide (j = i).
Proof.
  intros Hi Hj. rewrite Z.lor_spec, Z.shiftl_1_l, Z.pow2_bits_eqb by done. f_equal.
  destruct (Z.eqb_spec i j); [by rewrite bool_decide_eq_true_2|by rewrite bool_decide_eq_false_2].
Qed.
Lemma testbit_clear n i j : 0 ≤ i → 0 ≤ j →
  Z.testbit (Z.ldiff n (Z.shiftl 1 i)) j = Z.testbit n j && negb (bool_decide (j = i)).
Proof.
  intros Hi Hj. rewrite Z.ldiff_spec, Z.shiftl_1_l, Z.pow2_bits_eqb by done. do 2 f_equal.
  destruct (Z.eqb_spec i j); [by rewrite bool_decide_eq_true_2|by rewrite bool_decide_eq_false_2].
Qed.
Lemma land_shifted_bit n i : 0 ≤ i → (Z.land n (Z.shiftl 1 i) =? 0) = negb (Z.testbit n i).
Proof. intros Hi. rewrite Z.shiftl_1_l, <- land_bit by done. by rewrite negb_involutive. Qed.

Section Kernel_stacks.
Context `{AddressesOk} {PT FA : Type} `{MapperOk PT, FrameSourceOk FA}.

Abbreviation state := (KernelSlabAlloc * PT * FA)%type.
Abbreviation rw := [PRESENT; WRITABLE].

(** [slab_inv c held]: the slots of [held], each with its frames, are in use,
    and no guard page is mapped. *)
Definition slab_inv (c : state) (held : list (Z * list Z)) : Prop :=
  NoDup held.*1 ∧
  (∀ i, 0 ≤ i < 128 → Z.testbit c.1.1.(block_bitmap) i = bool_decide (i ∈ held.*1)) ∧
  Forall (λ h, 0 ≤ h.1 < 128 ∧ backed c.1.2 rw (slot_pages h.1) h.2) held ∧
  (∃ others, fs_inv c.2 (concat held.*2 ++ others)) ∧
  (∀ i, 0 ≤ i < 128 → translate c.1.2 (slot_base i) = None).

Lemma slot_page_at i q : 0 ≤ i < 128 → q ∈ slot_pages i → page_at q = Ret q.
Proof.
  intros Hi Hq%elem_of_slot_pages. unfold page_at, slot_base, KERNEL_TASKS_START in *.
  rewrite VirtAddr_new_ok by (right; lia). cbn [mbind exec_bind].
  rewrite containing_aligned; [done|lia|].
  destruct Hq as [ -> | [ -> | -> ] ];
    [exists (0xFFFFF30000000 + i * 4 + 1)|exists (0xFFFFF30000000 + i * 4 + 2)|exists (0xFFFFF30000000 + i * 4 + 3)]; lia.
Qed.

Lemma slot_pages_apart_slot i j q : q ∈ slot_pages i → i ≠ j → q ∉ slot_pages j ∧ q ≠ slot_base j.
Proof. rewrite !elem_of_slot_pages. unfold slot_base. lia. Qed.
Lemma slot_pages_guard i j q : q ∈ slot_pages i → q ≠ slot_base j.
Proof. rewrite elem_of_slot_pages. unfold slot_base. lia. Qed.

(** Backing pages of a slot that is not in use. *)
Lemma slab_inv_map bm pt fa held i {E} (no_frame : E) no_map :
  slab_inv (mkKernelSlabAlloc bm, pt, fa) held → 0 ≤ i < 128 → i ∉ held.*1 →
  ∃ r pt' fa', map_each page_at no_frame no_map rw (slot_pages i) pt fa = Ret (r, pt', fa') ∧
    slab_inv (mkKernelSlabAlloc bm, pt', fa') held ∧
    (r = Ok () → ∃ frames, backed pt' rw (slot_pages i) frames ∧
      ∃ others, fs_inv fa' (concat ((i, frames) :: held).*2 ++ others)).
Proof.
  intros (Hnd & Hbits & Hall & [others Hfs] & Hguard) Hi Hnew. cbn [fst snd block_bitmap] in *.
  destruct (map_each_ok page_at no_frame no_map rw (slot_pages i) pt fa _ Hfs)
    as (r & pt' & fa' & frames & more & done_ & rest & -> & Hfs' & Hpages & Hb & Hother & Hrest);
    [apply slot_pages_NoDup|by intros a; apply slot_page_at|].
  exists r, pt', fa'. split; [done|].
  assert (∀ q, q ∉ slot_pages i → translate pt' q = translate pt q) as Hsame.
  { intros q Hq. apply Hother. rewrite Hpages in Hq. set_solver. }
  split.
  - split_and!; cbn [fst snd block_bitmap]; [done|done| | |].
    + rewrite Forall_forall in Hall |- *. intros h Hh. destruct (Hall h Hh) as [? Hbh]. split; [done|].
      eapply backed_agree; [|exact Hbh]. intros q Hq. apply Hsame.
      eapply slot_pages_apart_slot; [exact Hq|]. intros <-. apply Hnew. apply list_elem_of_fmap. eauto.
    + exists (more ++ frames ++ others). eapply fs_inv_perm; [|exact Hfs']. solve_Permutation.
    + intros j Hj. rewrite Hsame; [by apply Hguard|]. intros Hq. by apply (slot_pages_guard i j _ Hq).
  - intros ->. subst rest. rewrite app_nil_r in Hpages. subst done_. exists frames. split; [done|].
    exists (more ++ others). eapply fs_inv_perm; [|exact Hfs']. simpl. solve_Permutation.
Qed.

(** The outcomes of [get_stack]. *)
Lemma get_stack_spec c held : slab_inv c held →
  ∃ r self' pt' fa', get_stack c.1.1 c.1.2 c.2 = Ret (r, self', pt', fa') ∧
    match r with
    | Ok top => ∃ i frames, i = trailing_ones 128 c.1.1.(block_bitmap) ∧ 0 ≤ i < 128 ∧
        top = slot_top i ∧ slab_inv (self', pt', fa') ((i, frames) :: held)
    | Err _ => self' = c.1.1 ∧ slab_inv (self', pt', fa') held
    end.
Proof.
  destruct c as [[[bm] pt] fa]. intros Hinv. pose proof Hinv as (Hnd & Hbits & Hall & _). cbn [fst snd block_bitmap] in *.
  pose proof (trailing_ones_spec 128 bm) as (Ht & Hfree & _). unfold get_stack. cbn [block_bitmap].
  set (i := trailing_ones 128 bm) in *. destruct (Z.leb_spec 128 i) as [Hge|Hlt].
  { by exists (Err FrameError), (mkKernelSlabAlloc bm), pt, fa. }
  assert (i ∉ held.*1) as Hi.
  { rewrite Hbits in Hfree by lia. specialize (Hfree ltac:(lia)). by apply bool_decide_eq_false in Hfree. }
  rewrite add_chk_ok by (unfold KERNEL_TASKS_START, KSTACK_SIZE; lia). cbn [mbind exec_bind].
  replace (KERNEL_TASKS_START + i * KSTACK_SIZE * 0x1000) with (slot_base i) by (unfold slot_base, KSTACK_SIZE; lia).
  rewrite !add_chk_ok by (unfold slot_base, KERNEL_TASKS_START, KSTACK_SIZE; lia). cbn [mbind exec_bind].
  rewrite slot_pages_steps.
  destruct (slab_inv_map bm pt fa held i FrameError (λ _, MapError) Hinv) as (r & pt' & fa' & -> & Hinv' & Hr);
    [lia|done|]. cbn [mbind exec_bind].
  destruct r as [[]|e]; [|by exists (Err e), (mkKernelSlabAlloc bm), pt', fa'].
  destruct (slot_top_index i ltac:(lia)) as [Htop _]. change (KSTACK_SIZE * 0x1000) with 16384. rewrite Htop.
  rewrite VirtAddr_new_ok by (right; unfold slot_top, slot_base, KERNEL_TASKS_START; lia). cbn [mbind exec_bind].
  exists (Ok (slot_top i)), (mkKernelSlabAlloc (Z.lor bm (Z.shiftl 1 i))), pt', fa'. split; [done|].
  destruct (Hr eq_refl) as (frames & Hb & Hfs'). exists i, frames. split_and!; [done|lia|lia|done|].
  destruct Hinv' as (_ & _ & Hall' & _ & Hguard'). cbn [fst snd] in *.
  split_and!; cbn [fst snd block_bitmap]; [by constructor| |constructor; [by split; [simpl; lia|]|done]|done|done].
  intros j Hj. rewrite testbit_set, Hbits by lia. apply eq_bool_prop_intro.
  rewrite orb_True, !bool_decide_spec. simpl. rewrite elem_of_cons. naive_solver.
Qed.

(** Returning a stack in use clears its bit; the pages stay mapped. *)
Lemma return_stack_spec self pt fa held held' i frames :
  slab_inv (self, pt, fa) held → held ≡ₚ (i, frames) :: held' →
  ∃ self', return_stack (slot_top i) self = Ret self' ∧ slab_inv (self', pt, fa) held' ∧
    0 ≤ i < 128 ∧ (∀ j, 0 ≤ j < 128 → j ≠ i → Z.testbit self'.(block_bitmap) j = Z.testbit self.(block_bitmap) j) ∧
    Z.testbit self'.(block_bitmap) i = false.
Proof.
  destruct self as [bm]. intros (Hnd & Hbits & Hall & [others Hfs] & Hguard) Hp. cbn [fst snd block_bitmap] in *.
  rewrite Hp in Hall, Hnd. apply Forall_cons in Hall as [[Hi Hb] Hall]. cbn [fst snd] in Hi.
  apply NoDup_cons in Hnd as [Hnew Hnd]. cbn [fst] in Hnew.
  destruct (slot_top_index i Hi) as [_ Hidx]. unfold return_stack. cbn [block_bitmap].
  rewrite sub_chk_ok by (unfold slot_top, slot_base; lia). cbn [mbind exec_bind]. rewrite Hidx.
  rewrite land_shifted_bit, negb_involutive, Hbits by lia.
  rewrite bool_decide_eq_true_2 by (rewrite Hp; by left).
  rewrite (proj2 (Z.ltb_lt _ _)) by lia. simpl rassert. cbn [mbind exec_bind].
  eexists. split; [reflexivity|]. cbn [block_bitmap]. split_and!; try lia.
  - split_and!; cbn [fst snd block_bitmap]; [done| |done| |done].
    + intros j Hj. rewrite testbit_clear, Hbits by lia. apply eq_bool_prop_intro.
      rewrite andb_True, negb_True, !bool_decide_spec. rewrite Hp. simpl. rewrite elem_of_cons.
      split; [naive_solver|]. intros Hin. split; [by right|]. by intros ->.
    + exists (frames ++ others). eapply fs_inv_perm; [|exact Hfs]. rewrite Hp. simpl. solve_Permutation.
  - intros j Hj Hne. rewrite testbit_clear, bool_decide_eq_false_2 by lia. by rewrite andb_true_r.
  - rewrite testbit_clear, bool_decide_eq_true_2 by lia. by rewrite andb_false_r.
Qed.

(** Kernel stacks in use: tasks come and go, requests fail, and other kernel
    code maps pages elsewhere and takes frames. *)
Inductive slab_step : state * list Z → state * list Z → Prop :=
  | slab_get self pt fa outs top self' pt' fa' :
      get_stack self pt fa = Ret (Ok top, self', pt', fa') →
      slab_step ((self, pt, fa), outs) ((self', pt', fa'), top :: outs)
  | slab_get_err self pt fa outs e self' pt' fa' :
      get_stack self pt fa = Ret (Err e, self', pt', fa') →
      slab_step ((self, pt, fa), outs) ((self', pt', fa'), outs)
  | slab_return self pt fa outs outs' top self' :
      outs ≡ₚ top :: outs' → return_stack top self = Ret self' →
      slab_step ((self, pt, fa), outs) ((self', pt, fa), outs')
  | slab_other self pt fa outs pt' fa' :
      (∀ q, KERNEL_TASKS_START ≤ q < slot_base 128 → translate pt' q = translate pt q) →
      rtc (draws fs_allocate_frame) fa fa' →
      slab_step ((self, pt, fa), outs) ((self, pt', fa'), outs).

(** From a kernel whose stack region is not mapped yet. *)
Definition slab_reachable (c : state * list Z) : Prop :=
  ∃ pt fa used, fs_inv fa used ∧
    (∀ q, KERNEL_TASKS_START ≤ q < slot_base 128 → translate pt q = None) ∧
    rtc slab_step ((KernelSlabAlloc_new, pt, fa), []) c.

Definition slab_good (c : state * list Z) : Prop :=
  ∃ held, slab_inv c.1 held ∧ slot_top <$> held.*1 ≡ₚ c.2.

Lemma slot_top_inj i j : slot_top i = slot_top j → i = j.
Proof. unfold slot_top, slot_base. lia. Qed.

Lemma held_top (held : list (Z * list Z)) top outs' : slot_top <$> held.*1 ≡ₚ top :: outs' →
  ∃ i frames held', top = slot_top i ∧ held ≡ₚ (i, frames) :: held' ∧ slot_top <$> held'.*1 ≡ₚ outs'.
Proof.
  intros Hp. assert (top ∈ slot_top <$> held.*1) as Hin by (rewrite Hp; by left).
  apply list_elem_of_fmap in Hin as (i & -> & ([i' frames] & -> & Hin)%list_elem_of_fmap).
  apply elem_of_Permutation in Hin as [held' Hh]. exists i', frames, held'. split_and!; [done..|].
  rewrite Hh in Hp. simpl in Hp. by apply Permutation_cons_inv in Hp.
Qed.

Lemma slab_inv_other self pt fa pt' fa' held : slab_inv (self, pt, fa) held →
  (∀ q, KERNEL_TASKS_START ≤ q < slot_base 128 → translate pt' q = translate pt q) →
  rtc (draws fs_allocate_frame) fa fa' → slab_inv (self, pt', fa') held.
Proof.
  intros (Hnd & Hbits & Hall & [others Hfs] & Hguard) Hq Hdr. cbn [fst snd] in *.
  split_and!; cbn [fst snd]; [done|done| | |].
  - rewrite Forall_forall in Hall |- *. intros h Hh. destruct (Hall h Hh) as [Hi Hb]. split; [done|].
    eapply backed_agree; [|exact Hb]. intros q Hin%elem_of_slot_pages. apply Hq. unfold slot_base in *. lia.
  - destruct (draws_inv _ _ _ Hdr Hfs) as [more Hmore]. exists (more ++ others).
    eapply fs_inv_perm; [|exact Hmore]. solve_Permutation.
  - intros i Hi. rewrite Hq; [by apply Hguard|]. unfold slot_base. lia.
Qed.

Lemma slab_good_step c c' : slab_good c → slab_step c c' → slab_good c'.
Proof.
  intros (held & Hinv & Houts) Hstep.
  destruct Hstep as [self pt fa outs top self' pt' fa' Hg|self pt fa outs e self' pt' fa' Hg
    |self pt fa outs outs' top self' Hp Hr|self pt fa outs pt' fa' Hq Hdr]; cbn [fst snd] in *.
  - destruct (get_stack_spec _ held Hinv) as (r & s1 & p1 & f1 & Hg' & Hres). cbn [fst snd] in Hg'. exec_eq.
    destruct Hres as (i & frames & _ & _ & -> & Hinv'). exists ((i, frames) :: held). split; [done|].
    simpl. by rewrite Houts.
  - destruct (get_stack_spec _ held Hinv) as (r & s1 & p1 & f1 & Hg' & Hres). cbn [fst snd] in Hg'. exec_eq.
    exists held. by destruct Hres.
  - rewrite Hp in Houts. apply held_top in Houts as (i & frames & held' & -> & Hh & Ho).
    destruct (return_stack_spec self pt fa held held' i frames Hinv Hh) as (s1 & Hr' & Hinv' & _). exec_eq.
    by exists held'.
  - exists held. split; [|done]. by eapply slab_inv_other.
Qed.

Lemma slab_reachable_good c : slab_reachable c → slab_good c.
Proof.
  intros (pt & fa & used & Hfs & Hnone & Hsteps).
  assert (slab_good ((KernelSlabAlloc_new, pt, fa), [])) as Hgood.
  { exists []. split; [|done]. split_and!; cbn [fst snd]; [constructor| |done|by exists used|].
    - intros i Hi. simpl. rewrite Z.bits_0. done.
    - intros i Hi. apply Hnone. unfold slot_base. lia. }
  revert Hgood. induction Hsteps as [|c0 c1 c2 Hstep _ IH]; [done|]. intros Hgood. apply IH.
  by apply (slab_good_step c0).
Qed.

Lemma held_lookup held outs top : slot_top <$> held.*1 ≡ₚ outs → top ∈ outs →
  ∃ (a : nat) k (frames : list Z), held !! a = Some (k, frames) ∧ top = slot_top k.
Proof.
  intros Hp Hin. rewrite <- Hp in Hin.
  apply list_elem_of_fmap in Hin as (k & -> & ([k' frames] & -> & [a Ha]%list_elem_of_lookup)%list_elem_of_fmap).
  by exists a, k', frames.
Qed.

(** Pages of different slots in use have different frames. *)
Lemma slab_frames_apart c held a b k1 fr1 k2 fr2 q1 q2 f1 f2 :
  slab_inv c held → held !! a = Some (k1, fr1) → held !! b = Some (k2, fr2) → a ≠ b →
  q1 ∈ slot_pages k1 → q2 ∈ slot_pages k2 →
  translate c.1.2 q1 = Some (f1, rw) → translate c.1.2 q2 = Some (f2, rw) → f1 ≠ f2.
Proof.
  intros (_ & _ & Hall & [others Hfs] & _) Ha Hb Hab Hq1 Hq2 Ht1 Ht2 ->. rewrite Forall_forall in Hall.
  destruct (Hall _ (list_elem_of_lookup_2 _ _ _ Ha)) as [_ Hb1].
  destruct (Hall _ (list_elem_of_lookup_2 _ _ _ Hb)) as [_ Hb2]. cbn [fst snd] in *.
  apply list_elem_of_lookup in Hq1 as [x Hx]. apply list_elem_of_lookup in Hq2 as [y Hy].
  destruct (Forall2_lookup_l _ _ _ _ _ Hb1 Hx) as (g1 & Hg1 & Ht1').
  destruct (Forall2_lookup_l _ _ _ _ _ Hb2 Hy) as (g2 & Hg2 & Ht2').
  assert (g1 = f2) as -> by congruence. assert (g2 = f2) as -> by congruence.
  apply fs_inv_NoDup, NoDup_app in Hfs as (Hnd & _). revert Hnd.
  apply (concat_NoDup_lookup _ a b fr1 fr2 f2); eauto using list_elem_of_lookup_2.
  - by rewrite list_lookup_fmap, Ha.
  - by rewrite list_lookup_fmap, Hb.
Qed.

(** C14: kernel stacks are isolated.  In every reachable state a stack that is in
    use has its three pages mapped writable, the page below them unmapped, and
    of two stacks in use neither the pages nor the frames behind them coincide. *)
Theorem kernel_stacks_isolated c i j top1 top2 :
  slab_reachable c → c.2 !! i = Some top1 → c.2 !! j = Some top2 →
  ∃ k1 k2, 0 ≤ k1 < 128 ∧ 0 ≤ k2 < 128 ∧ top1 = slot_top k1 ∧ top2 = slot_top k2 ∧
    translate c.1.1.2 (slot_base k1) = None ∧
    (∀ q, q ∈ slot_pages k1 → ∃ f, translate c.1.1.2 q = Some (f, [PRESENT; WRITABLE])) ∧
    (i ≠ j → k1 ≠ k2 ∧ ∀ q1 q2 f1 f2, q1 ∈ slot_pages k1 → q2 ∈ slot_pages k2 →
      translate c.1.1.2 q1 = Some (f1, [PRESENT; WRITABLE]) →
      translate c.1.1.2 q2 = Some (f2, [PRESENT; WRITABLE]) → q1 ≠ q2 ∧ f1 ≠ f2).
Proof.
  intros Hr Hi Hj. destruct (slab_reachable_good c Hr) as (held & Hinv & Houts).
  destruct (held_lookup held _ top1 Houts) as (a & k1 & fr1 & Ha & ->); [by eapply list_elem_of_lookup_2|].
  destruct (held_lookup held _ top2 Houts) as (b & k2 & fr2 & Hb & ->); [by eapply list_elem_of_lookup_2|].
  pose proof Hinv as (Hnd & _ & Hall & _ & Hguard). rewrite Forall_forall in Hall.
  destruct (Hall _ (list_elem_of_lookup_2 _ _ _ Ha)) as [Hk1 Hb1].
  destruct (Hall _ (list_elem_of_lookup_2 _ _ _ Hb)) as [Hk2 _]. cbn [fst snd] in *.
  exists k1, k2. split_and!; try lia; [by apply Hguard| |].
  { intros q [x Hx]%list_elem_of_lookup. destruct (Forall2_lookup_l _ _ _ _ _ Hb1 Hx) as (f & _ & Ht). by exists f. }
  intros Hij. assert (NoDup c.2) as Hout.
  { rewrite <- Houts. apply NoDup_fmap_2; [intros ? ?; apply slot_top_inj|done]. }
  assert (k1 ≠ k2) as Hk by (intros ->; apply Hij; by eapply NoDup_lookup).
  split; [done|]. intros q1 q2 f1 f2 Hq1 Hq2 Ht1 Ht2. split.
  - intros ->. by destruct (slot_pages_apart_slot k1 k2 q2 Hq1 Hk).
  - eapply (slab_frames_apart _ held a b); try done. intros ->. congruence.
Qed.

(** A stack in use can be returned, and returning it twice panics. *)
Theorem return_stack_once c top :
  slab_reachable c → top ∈ c.2 →
  ∃ self', return_stack top c.1.1.1 = Ret self' ∧ return_stack top self' = Panic.
Proof.
  intros Hr Hin. destruct (slab_reachable_good c Hr) as (held & Hinv & Houts).
  apply elem_of_Permutation in Hin as [outs' Hp]. rewrite Hp in Houts.
  apply held_top in Houts as (i & frames & held' & -> & Hh & _). destruct c as [[[self pt] fa] outs].
  destruct (return_stack_spec self pt fa held held' i frames Hinv Hh) as (self' & Hret & Hinv' & Hi & _ & Hclear).
  exists self'. split; [done|]. unfold return_stack. cbn [fst snd] in *.
  rewrite sub_chk_ok by (unfold slot_top, slot_base; lia). cbn [mbind exec_bind].
  rewrite (proj2 (slot_top_index i Hi)), land_shifted_bit, Hclear by lia. by rewrite andb_false_r.
Qed.

(** A slot whose pages are mapped cannot be handed out. *)
Lemma get_stack_mapped self pt fa used i frames :
  0 ≤ i < 128 → trailing_ones 128 self.(block_bitmap) = i → fs_inv fa used →
  backed pt rw (slot_pages i) frames →
  ∃ e pt' fa', get_stack self pt fa = Ret (Err e, self, pt', fa').
Proof.
  intros Hi Ht Hfs Hb. unfold get_stack. rewrite Ht, (proj2 (Z.leb_gt _ _)) by lia.
  rewrite add_chk_ok by (unfold KERNEL_TASKS_START, KSTACK_SIZE; lia). cbn [mbind exec_bind].
  replace (KERNEL_TASKS_START + i * KSTACK_SIZE * 0x1000) with (slot_base i) by (unfold slot_base, KSTACK_SIZE; lia).
  rewrite !add_chk_ok by (unfold slot_base, KERNEL_TASKS_START, KSTACK_SIZE; lia). cbn [mbind exec_bind].
  rewrite slot_pages_steps. cbn [map_each slot_pages].
  destruct (fs_allocate_ok fa used Hfs) as (r & fa' & -> & _). cbn [mbind exec_bind].
  destruct r as [frame|]; [|by exists FrameError, pt, fa'].
  assert (slot_base i + 4096 ∈ slot_pages i) as Hin by (apply elem_of_slot_pages; by left).
  rewrite (slot_page_at i (slot_base i + 4096) Hi Hin). cbn [mbind exec_bind].
  apply Forall2_cons_inv_l in Hb as (f0 & frames' & Hf0 & _ & _).
  destruct (map_to_mapped fs_allocate_frame (slot_base i + 4096) frame rw pt fa' f0 rw Hf0) as [pt' ->].
  by exists MapError, pt', fa'.
Qed.

(** The stack of a finished task is never reused.  [return_stack] marks the
    slot free and leaves its pages mapped; the next [get_stack] picks the same
    slot, cannot map the pages a second time, and fails, whatever happens to
    other mappings in between. *)
Theorem returned_stack_not_reusable c top self1 pt1 fa1 self2 pt2 fa2 used2 :
  slab_reachable c → get_stack c.1.1.1 c.1.1.2 c.1.2 = Ret (Ok top, self1, pt1, fa1) →
  return_stack top self1 = Ret self2 →
  (∀ q, KERNEL_TASKS_START ≤ q < slot_base 128 → translate pt2 q = translate pt1 q) →
  fs_inv fa2 used2 →
  ∃ e pt3 fa3, get_stack self2 pt2 fa2 = Ret (Err e, self2, pt3, fa3).
Proof.
  intros Hr Hg Hret Hsame Hfs2. destruct (slab_reachable_good c Hr) as (held & Hinv & _).
  destruct (get_stack_spec _ held Hinv) as (r & s1 & p1 & f1 & Hg' & Hres). rewrite Hg in Hg'. injection Hg' as <- <- <- <-.
  destruct Hres as (i & frames & Hidx & Hi & -> & Hinv1). destruct Hinv as (_ & Hbits & _).
  pose proof Hinv1 as (_ & Hbits1 & Hall & _). apply Forall_cons in Hall as [[_ Hb] _]. cbn [fst snd] in Hb, Hbits1.
  destruct (return_stack_spec self1 pt1 fa1 _ held i frames Hinv1) as (s2 & Hret' & _ & _ & Hkeep & Hclear);
    [done|]. assert (s2 = self2) as -> by congruence.
  assert (trailing_ones 128 self2.(block_bitmap) = i) as Ht.
  { apply trailing_ones_unique; [lia|done|]. intros j Hj. rewrite Hkeep, Hbits1 by lia.
    pose proof (trailing_ones_spec 128 c.1.1.1.(block_bitmap)) as (_ & _ & Hlow).
    rewrite <- Hidx in Hlow. specialize (Hlow j Hj). rewrite Hbits in Hlow by lia.
    apply bool_decide_eq_true in Hlow. apply bool_decide_eq_true. by right. }
  apply (get_stack_mapped self2 pt2 fa2 used2 i frames); [done..|].
  eapply backed_agree; [|exact Hb]. intros q Hq%elem_of_slot_pages. apply Hsame. unfold slot_base in *. lia.
Qed.

End Kernel_stacks.

(** ** User stacks *)

Section User_stacks.
Context `{AddressesOk} {PT FA : Type} `{MapperOk PT, FrameSourceOk FA}.

Definition user_stack_pages : list Z :=
  [0x7fffffff0000 - 0x4000; 0x7fffffff0000 - 0x3000; 0x7fffffff0000 - 0x2000; 0x7fffffff0000 - 0x1000].
Abbreviation urw := [PRESENT; WRITABLE; USER_ACCESSIBLE].

Lemma user_page_at q : q ∈ user_stack_pages → page_at q = Ret q.
Proof.
  unfold user_stack_pages. rewrite !elem_of_cons, elem_of_nil. intros Hq. unfold page_at.
  rewrite VirtAddr_new_ok by (left; lia). cbn [mbind exec_bind].
  destruct Hq as [->|[->|[->|[->|[]]]]]; (rewrite containing_aligned; [done|lia|]).
  - by exists 0x7ffffffec.
  - by exists 0x7ffffffed.
  - by exists 0x7ffffffee.
  - by exists 0x7ffffffef.
Qed.

(** Where every page is mapped, the loop of [return_user_stack] is [unmap_each]. *)
Lemma return_pages_unmap addrs pt fa pt' fa' :
  unmap_each page_at addrs pt fa = Ret (Ok (), pt', fa') → return_pages addrs pt fa = Ret (pt', fa').
Proof.
  revert pt fa. induction addrs as [|a addrs IH]; intros pt fa Hu; cbn [unmap_each return_pages] in *.
  - by exec_inv.
  - apply bind_Ret_inv in Hu as (page & -> & Hu). cbn [mbind exec_bind].
    destruct (unmap page pt) as [[frame|e] pt1]; [|by exec_inv].
    apply bind_Ret_inv in Hu as (fa1 & -> & Hu). cbn [mbind exec_bind]. by apply IH.
Qed.

(** The initial stack of a user task is the four pages below
    [USER_STACKS_START], mapped for user mode with frames that were free;
    [return_user_stack] unmaps exactly them and gives all four frames back
    (the frames of page tables made on the way, [more], are kept). *)
Theorem user_stack_roundtrip pt fa used a pt1 (fa1 : FA) k :
  fs_inv fa used → get_user_stack pt fa = Ret (Ok a, pt1, fa1) →
  a = mkUserStackAllocation USER_STACKS_START (USER_STACKS_START - 0x200000) 4 ∧
  (∃ frames, backed pt1 [PRESENT; WRITABLE; USER_ACCESSIBLE] user_stack_pages frames ∧
    NoDup frames ∧ ∀ f, f ∈ frames → f ∉ used) ∧
  ∃ pt2 fa2 more,
    return_user_stack (mkUserInfo a.(us_stack_start) a.(us_stack_end) a.(us_stack_size) k) pt1 fa1
      = Ret (pt2, fa2) ∧
    fs_inv fa2 (more ++ used) ∧ (∀ q, q ∈ user_stack_pages → translate pt2 q = None) ∧
    ∀ q, q ∉ user_stack_pages → translate pt2 q = translate pt q.
Proof.
  intros Hfs Hg. unfold get_user_stack in Hg.
  rewrite (sub_chk_ok USER_STACKS_START (INITIAL_STACK_PAGES * 0x1000)) in Hg by done. cbn [mbind exec_bind] in Hg.
  change (step_by _ _ _) with user_stack_pages in Hg.
  assert (NoDup user_stack_pages) as Hnd by (by apply (bool_decide_unpack _); vm_compute).
  destruct (map_each_ok page_at FrameError (λ _, MapError) urw user_stack_pages pt fa used Hfs Hnd)
    as (r & pt' & fa' & frames & more & done_ & rest & Hrun & Hfs' & Hpages & Hb & Hother & Hrest);
    [by intros q; apply user_page_at|].
  rewrite Hrun in Hg. cbn [mbind exec_bind] in Hg. destruct r as [[]|e]; [|by exec_inv].
  subst rest. rewrite app_nil_r in Hpages. subst done_.
  rewrite sub_chk_ok in Hg by (unfold USER_STACKS_START, USTACK_SIZE; lia). cbn [mbind exec_bind] in Hg.
  rewrite !VirtAddr_new_ok in Hg by (left; unfold USER_STACKS_START, USTACK_SIZE; lia).
  cbn [mbind exec_bind] in Hg. injection Hg as <- <- <-. split; [done|].
  pose proof (fs_inv_NoDup _ _ Hfs') as (_ & _ & (Hndf & Hfresh & _)%NoDup_app)%NoDup_app.
  split; [by exists frames|].
  destruct (unmap_each_ok page_at urw user_stack_pages frames pt' fa' (more ++ used) Hb)
    as (pt2 & fa2 & Hun & Hfs2 & Hin & Hout); [|done|by intros q; apply user_page_at|].
  { eapply fs_inv_perm; [|exact Hfs']. solve_Permutation. }
  exists pt2, fa2, more. split_and!; [|done|done|].
  - unfold return_user_stack. cbn [ui_stack_size ui_stack_start us_stack_size us_stack_start]. run_by done.
    rewrite sub_chk_ok by (unfold USER_STACKS_START, INITIAL_STACK_PAGES; lia). cbn [mbind exec_bind].
    by apply return_pages_unmap.
  - intros q Hq. rewrite Hout by done. by apply Hother.
Qed.

End User_stacks.

(** ** Runs *)

Section Runs.
#[local] Existing Instances model_addresses model_addresses_ok model_mapper model_mapper_ok
  model_source model_source_ok.

Abbreviation mstate := (KernelSlabAlloc * gmap Z (Z * PageTableFlags) * (list Z * list Z))%type.

Definition fresh_slab : mstate := (KernelSlabAlloc_new, ∅, free_frames 20).

(** Two stacks taken from a fresh slab. *)
Lemma two_stacks_run :
  match get_stack fresh_slab.1.1 fresh_slab.1.2 fresh_slab.2 with
  | Ret (Ok top, self, pt, fa) => top = slot_top 0 ∧
      match get_stack self pt fa with
      | Ret (Ok top', self', _, _) => top' = slot_top 1 ∧ self'.(block_bitmap) = 3
      | _ => False
      end
  | _ => False
  end.
Proof. by vm_compute. Qed.

Lemma fresh_reachable : slab_reachable (fresh_slab, []).
Proof.
  exists ∅, (free_frames 20), []. split_and!; [by apply free_frames_inv|done|done].
Qed.

Lemma one_stack : ∃ c, slab_reachable c ∧ c.2 = [slot_top 0] ∧
  ∃ self pt fa, get_stack c.1.1.1 c.1.1.2 c.1.2 = Ret (Ok (slot_top 1), self, pt, fa) ∧
    slab_reachable ((self, pt, fa), [slot_top 1; slot_top 0]) ∧ self.(block_bitmap) = 3.
Proof.
  pose proof two_stacks_run as Hrun. pose proof fresh_reachable as (pt0 & fa0 & used & Hfs & Hnone & Hsteps).
  destruct (get_stack _ _ _) as [[[[[top|] self] pt] fa]| |] eqn:Hg; [|done..]. destruct Hrun as [-> Hrun].
  assert (rtc slab_step ((KernelSlabAlloc_new, pt0, fa0), []) ((self, pt, fa), [slot_top 0])) as Hsteps1.
  { eapply rtc_r; [exact Hsteps|]. by apply (slab_get KernelSlabAlloc_new). }
  exists ((self, pt, fa), [slot_top 0]). split; [by exists pt0, fa0, used|]. split; [done|]. cbn [fst snd].
  destruct (get_stack self pt fa) as [[[[[top|] self'] pt'] fa']| |] eqn:Hg'; [|done..]. destruct Hrun as [-> Hbm].
  exists self', pt', fa'. split; [done|]. split; [|done]. exists pt0, fa0, used. split_and!; [done..|].
  eapply rtc_r; [exact Hsteps1|]. by apply (slab_get self).
Qed.

Lemma kernel_stacks_isolated_witness :
  ∃ (c : mstate * list Z) k1 k2, slot_top 1 = slot_top k1 ∧ slot_top 0 = slot_top k2 ∧ k1 ≠ k2 ∧
    translate c.1.1.2 (slot_base k1) = None.
Proof.
  destruct one_stack as (c & _ & _ & self & pt & fa & _ & Hr & _).
  destruct (kernel_stacks_isolated ((self, pt, fa), [slot_top 1; slot_top 0]) 0 1 (slot_top 1) (slot_top 0) Hr)
    as (k1 & k2 & _ & _ & H1 & H2 & H3 & _ & H4); [done..|].
  exists ((self, pt, fa), []), k1, k2. split_and!; [done..|by apply H4|done].
Defined.

Lemma return_stack_once_witness :
  ∃ self self' : KernelSlabAlloc, return_stack (slot_top 0) self = Ret self' ∧
    return_stack (slot_top 0) self' = Panic.
Proof.
  destruct one_stack as (c & Hr & Hc & _). exists c.1.1.1.
  apply (return_stack_once c); [done|]. rewrite Hc. by left.
Defined.

Lemma returned_stack_not_reusable_witness :
  ∃ self (pt : gmap Z (Z * PageTableFlags)) (fa : list Z * list Z) e pt' fa',
    get_stack self pt fa = Ret (Err e, self, pt', fa').
Proof.
  destruct one_stack as (c & Hr & _ & self & pt & fa & Hg & Hr2 & Hbm).
  assert (fs_inv (free_frames 5) []) as Hfs by (by apply free_frames_inv).
  exists (mkKernelSlabAlloc 1), pt, (free_frames 5).
  apply (returned_stack_not_reusable c (slot_top 1) self pt fa (mkKernelSlabAlloc 1) pt (free_frames 5) [] Hr Hg);
    [|done|done]. destruct self as [bm]. simpl in Hbm. subst bm. by vm_compute.
Defined.

Lemma user_stack_roundtrip_witness :
  match get_user_stack (∅ : gmap Z (Z * PageTableFlags)) (free_frames 20) with
  | Ret (Ok a, pt1, fa1) => ∃ pt2 fa2,
      return_user_stack (mkUserInfo a.(us_stack_start) a.(us_stack_end) a.(us_stack_size) 0) pt1 fa1
        = Ret (pt2, fa2)
  | _ => False
  end.
Proof.
  destruct (get_user_stack _ _) as [[[[a|] pt1] fa1]| |] eqn:Hg; [|by vm_compute in Hg..].
  destruct (user_stack_roundtrip ∅ (free_frames 20) [] a pt1 fa1 0) as (_ & _ & pt2 & fa2 & more & Hret & _).
  - by apply free_frames_inv.
  - exact Hg.
  - by exists pt2, fa2.
Defined.

End Runs.
