(* ===== verification/Asm.v ===== *)
(** * Asm: the instructions of the kernel's naked functions

    [schedule] (tasks/scheduler.rs) and [syscall_handler] (syscall.rs) are
    lists of x86-64 instructions around one call of a Rust function.  This file
    has the instructions they use, on a register file and a memory of 64-bit
    words, and the two facts their proofs need: what a run of pushes leaves on
    the stack, and what a run of pops loads from it.  The called function is a
    parameter: it may do to the machine what the C calling convention allows. *)

From stdpp Require Import functions.
From S2P Require Import Prelude.

Inductive reg : Type :=
  | RAX | RBX | RCX | RDX | RSI | RDI | RBP | R8 | R9 | R10 | R11 | R12 | R13 | R14 | R15
  | RSP | RIP | CS | RFLAGS | SS.
#[export] Instance reg_eq_dec : EqDecision reg.
Proof. solve_decision. Defined.

(** The static variables of syscall.rs that the handler uses. *)
Inductive static : Type := USER_RSP | KERNEL_SYSCALL_STACK.
#[export] Instance static_eq_dec : EqDecision static.
Proof. solve_decision. Defined.

Record machine := mkMachine {
  m_reg : reg → Z;
  m_mem : Z → Z;
  m_static : static → Z;
  m_msr : list (Z * Z);
}.

Definition set_reg (r : reg) (v : Z) (m : machine) : machine :=
  mkMachine (<[r := v]> m.(m_reg)) m.(m_mem) m.(m_static) m.(m_msr).
Definition set_mem (a v : Z) (m : machine) : machine :=
  mkMachine m.(m_reg) (<[a := v]> m.(m_mem)) m.(m_static) m.(m_msr).
Definition set_static (s : static) (v : Z) (m : machine) : machine :=
  mkMachine m.(m_reg) m.(m_mem) (<[s := v]> m.(m_static)) m.(m_msr).

Inductive instr : Type :=
  | Push (r : reg)
  | PushStatic (s : static)
  | Pop (r : reg)
  | Mov (dst src : reg)
  | MovImm (dst : reg) (v : Z)
  | LoadStatic (dst : reg) (s : static)
  | StoreStatic (s : static) (src : reg)
  | AddImm (dst : reg) (v : Z)
  | Zero (dst : reg)
  | Wrmsr
  | Call
  | Iretq
  | Sysretq.

Definition push (v : Z) (m : machine) : machine :=
  let sp := m.(m_reg) RSP - 8 in set_mem sp v (set_reg RSP sp m).
Definition pop (r : reg) (m : machine) : machine :=
  let sp := m.(m_reg) RSP in set_reg r (m.(m_mem) sp) (set_reg RSP (sp + 8) m).

(** The value of a model-specific register: the last one written to it.  [STAR]
    holds the selectors of [syscall] and [sysret]. *)
Definition msr_value (n : Z) (m : machine) : Z :=
  foldl (λ v w, if w.1 =? n then w.2 else v) 0 m.(m_msr).
Abbreviation STAR := (msr_value 0xC0000081) (only parsing).

(** The selectors [sysretq] loads, from bits 48 to 63 of [STAR], and the flags it
    takes from [R11]. *)
Definition sysret_cs (star : Z) : Z := Z.lor (Z.shiftr star 48 + 16) 3.
Definition sysret_ss (star : Z) : Z := Z.lor (Z.shiftr star 48 + 8) 3.
Definition sysret_flags (r11 : Z) : Z := Z.lor (Z.land r11 0x3C7FD7) 2.

Section Run.
Context (callee : machine → machine).

Definition run_instr (i : instr) (m : machine) : machine :=
  match i with
  | Push r => push (m.(m_reg) r) m
  | PushStatic s => push (m.(m_static) s) m
  | Pop r => pop r m
  | Mov dst src => set_reg dst (m.(m_reg) src) m
  | MovImm dst v => set_reg dst v m
  | LoadStatic dst s => set_reg dst (m.(m_static) s) m
  | StoreStatic s src => set_static s (m.(m_reg) src) m
  | AddImm dst v => set_reg dst (m.(m_reg) dst + v) m
  | Zero dst => set_reg dst 0 m
  | Wrmsr =>
      mkMachine m.(m_reg) m.(m_mem) m.(m_static)
        (m.(m_msr) ++ [(m.(m_reg) RCX, m.(m_reg) RDX * 2 ^ 32 + m.(m_reg) RAX)])
  | Call => callee m
  | Iretq =>
      let sp := m.(m_reg) RSP in
      let w k := m.(m_mem) (sp + 8 * k) in
      set_reg RSP (w 3) (set_reg SS (w 4) (set_reg RFLAGS (w 2) (set_reg CS (w 1) (set_reg RIP (w 0) m))))
  | Sysretq =>
      set_reg SS (sysret_ss (STAR m)) (set_reg CS (sysret_cs (STAR m))
        (set_reg RFLAGS (sysret_flags (m.(m_reg) R11)) (set_reg RIP (m.(m_reg) RCX) m)))
  end.

Definition run_all (code : list instr) (m : machine) : machine := foldl (λ m i, run_instr i m) m code.

Lemma run_app c c' m : run_all (c ++ c') m = run_all c' (run_all c m).
Proof. apply foldl_app. Qed.

(** [n] words of memory from address [a] on, and writing words there. *)
Definition words (mem : Z → Z) (a : Z) (n : nat) : list Z := (λ k, mem (a + 8 * k)) <$> seqZ 0 (Z.of_nat n).

Lemma words_lookup mem a n (k : nat) : (k < n)%nat → words mem a n !! k = Some (mem (a + 8 * Z.of_nat k)).
Proof. intros Hk. unfold words. rewrite list_lookup_fmap, lookup_seqZ_lt by lia. simpl. do 3 f_equal. Qed.
Lemma words_length mem a n : length (words mem a n) = n.
Proof. unfold words. rewrite length_fmap, length_seqZ. lia. Qed.
Lemma words_ext mem mem' a n :
  (∀ k, 0 ≤ k < Z.of_nat n → mem' (a + 8 * k) = mem (a + 8 * k)) → words mem' a n = words mem a n.
Proof. intros Hk. unfold words. apply list_fmap_ext. intros i k Hi%lookup_seqZ. apply Hk. lia. Qed.

(** A run of pushes. *)
Lemma run_pushes rs m : RSP ∉ rs →
  let m' := run_all (Push <$> rs) m in
  let n := length rs in
  m'.(m_reg) RSP = m.(m_reg) RSP - 8 * Z.of_nat n ∧
  (∀ r, r ≠ RSP → m'.(m_reg) r = m.(m_reg) r) ∧ m'.(m_static) = m.(m_static) ∧ m'.(m_msr) = m.(m_msr) ∧
  words m'.(m_mem) (m'.(m_reg) RSP) n = reverse (m.(m_reg) <$> rs) ∧
  ∀ a, m.(m_reg) RSP ≤ a → m'.(m_mem) a = m.(m_mem) a.
Proof.
  induction rs as [|r rs IH] using rev_ind; intros Hnin.
  { simpl. split_and!; try done. lia. }
  rewrite not_elem_of_app, list_elem_of_singleton in Hnin. destruct Hnin as [Hnin Hr].
  rewrite fmap_app, run_app. destruct (IH Hnin) as (Hsp & Hreg & Hst & Hmsr & Hw & Hhigh).
  set (m1 := run_all (Push <$> rs) m) in *. cbn [run_all foldl run_instr fmap list_fmap].
  unfold push, set_mem, set_reg. cbn [m_reg m_mem m_static m_msr].
  rewrite length_app, fn_lookup_insert. simpl length. cbn zeta. split_and!; try done.
  - lia.
  - intros r' Hr'. rewrite fn_lookup_insert_ne by done. by apply Hreg.
  - rewrite fmap_app, reverse_app. simpl. rewrite <- Hw, (Hreg r) by done.
    rewrite Nat.add_1_r. unfold words. rewrite Nat2Z.inj_succ, <- Z.add_1_l, seqZ_app by lia.
    rewrite fmap_app. simpl. rewrite Z.mul_0_r, Z.add_0_r, fn_lookup_insert. f_equal.
    change (seqZ 1 (Z.of_nat (length rs))) with (seqZ (1 + 0) (Z.of_nat (length rs))).
    rewrite <- (fmap_add_seqZ 1 0), <- list_fmap_compose. apply list_fmap_ext. intros i k Hk%lookup_seqZ. simpl.
    rewrite fn_lookup_insert_ne by lia. f_equal. lia.
  - intros a Ha. rewrite fn_lookup_insert_ne by lia. by apply Hhigh.
Qed.

(** A run of pops. *)
Lemma run_pops rs m : RSP ∉ rs → NoDup rs →
  let m' := run_all (Pop <$> rs) m in
  m'.(m_reg) RSP = m.(m_reg) RSP + 8 * Z.of_nat (length rs) ∧
  m'.(m_mem) = m.(m_mem) ∧ m'.(m_static) = m.(m_static) ∧ m'.(m_msr) = m.(m_msr) ∧
  m'.(m_reg) <$> rs = words m.(m_mem) (m.(m_reg) RSP) (length rs) ∧
  ∀ r, r ≠ RSP → r ∉ rs → m'.(m_reg) r = m.(m_reg) r.
Proof.
  revert m. induction rs as [|r rs IH]; intros m Hnin Hnd.
  { simpl. split_and!; try done. lia. }
  apply not_elem_of_cons in Hnin as [Hr Hnin]. apply NoDup_cons in Hnd as [Hnew Hnd].
  cbn [fmap list_fmap]. change (Pop r :: (Pop <$> rs)) with ([Pop r] ++ (Pop <$> rs)). rewrite run_app.
  cbn [run_all foldl run_instr]. set (m1 := pop r m).
  assert (m1.(m_reg) RSP = m.(m_reg) RSP + 8) as Hsp1.
  { unfold m1, pop, set_reg. simpl. by rewrite fn_lookup_insert_ne, fn_lookup_insert. }
  destruct (IH m1 Hnin Hnd) as (Hsp & Hmem & Hst & Hmsr & Hw & Hoth).
  fold (run_all (Pop <$> rs) m1). split_and!; try done.
  - rewrite Hsp, Hsp1. simpl length. lia.
  - simpl length. unfold words in *. rewrite Nat2Z.inj_succ, <- Z.add_1_l, seqZ_app, fmap_app by lia. simpl.
    rewrite Z.mul_0_r, Z.add_0_r. f_equal.
    + rewrite Hoth by done. unfold m1, pop, set_reg. simpl. by rewrite fn_lookup_insert.
    + change (seqZ 1 (Z.of_nat (length rs))) with (seqZ (1 + 0) (Z.of_nat (length rs))).
      change (list_fmap reg Z) with (@fmap list list_fmap reg Z).
      rewrite Hw, Hsp1, <- (fmap_add_seqZ 1 0), <- list_fmap_compose. apply list_fmap_ext. intros i k Hk. simpl.
      f_equal. lia.
  - intros r' Hr' [Hne Hnin']%not_elem_of_cons. rewrite Hoth by done. unfold m1, pop, set_reg. simpl.
    by rewrite !fn_lookup_insert_ne.
Qed.

End Run.
