(* ===== verification/Scheduler.v ===== *)
(** * Scheduler: tasks, context switches and user address spaces

    tasks/scheduler.rs.  The state is the task list, the stack slab, the frames
    and page tables it works on, the memory the direct map shows, and the
    processor registers the code reads and writes.  [schedule] is the naked
    interrupt entry, as instructions of Asm.v around [schedule_inner].

    Page tables are reached through the x86_64 crate: [PageTables] is the table
    entries the code inspects directly, and [Mapper] at [PM * Z] the
    [OffsetPageTable] on the table of a given level-4 frame.  [kernel_l4] is the
    frame of the kernel's own table ([PAGE_TABLE]) and [hddm] the offset of the
    direct map. *)

From stdpp Require Import functions.
From S2P Require Import Prelude X86 FrameSource PageAlloc KernelSlab Asm.

(** Entries of page tables: [entry.flags().contains(PRESENT)], [entry.frame()],
    [PageTable::zero] and the copy of one entry. *)
Class PageTables (PM : Type) := {
  pte_present : PM → Z → nat → bool;
  pte_frame : PM → Z → nat → option Z;
  zero_table : Z → PM → PM;
  copy_entry : Z → Z → nat → PM → PM;
}.

Record TaskRegisters := mkTaskRegisters {
  tr_r15 : Z; tr_r14 : Z; tr_r13 : Z; tr_r12 : Z; tr_r11 : Z; tr_r10 : Z; tr_r9 : Z; tr_r8 : Z;
  tr_rbp : Z; tr_rdi : Z; tr_rsi : Z; tr_rdx : Z; tr_rcx : Z; tr_rbx : Z; tr_rax : Z;
  tr_interrupt_rip : Z; tr_interrupt_cs : Z; tr_interrupt_rflags : Z; tr_interrupt_rsp : Z;
  tr_interrupt_ss : Z;
}.

Inductive WaitReason : Type := Interrupt (vector : Z).
Inductive TaskState : Type := Ready | Running | Terminated | Waiting (reason : WaitReason).
Inductive TaskType : Type := Kernel (stack_start : option Z) | User (info : UserInfo).

Record ProcessControlBlock := mkProcessControlBlock {
  pcb_task_type : TaskType;
  pcb_regs : TaskRegisters;
  pcb_state : TaskState;
  pcb_cr3 : Z;
}.

Definition set_state (s : TaskState) (t : ProcessControlBlock) : ProcessControlBlock :=
  mkProcessControlBlock t.(pcb_task_type) t.(pcb_regs) s t.(pcb_cr3).
Definition set_regs (r : TaskRegisters) (t : ProcessControlBlock) : ProcessControlBlock :=
  mkProcessControlBlock t.(pcb_task_type) r t.(pcb_state) t.(pcb_cr3).

Inductive StackGrowthError : Type := StackOverflow | StackUnderflow | NotUserTask | Other.

(** The errors [ucreate_task] boxes. *)
Inductive UcreateError : Type :=
  | EntryPointNotUser
  | NoCodeFrame
  | CodeMapFailed (e : MapToError)
  | StackFailed (e : StackAllocError).

(** Segment indices of gdt.rs. *)
Definition USER_CODE_SEGMENT_INDEX : Z := 3.
Definition USER_DATA_SEGMENT_INDEX : Z := 4.

(** The processor state the code uses: [CR3], [CS], [SS], [RFLAGS], the kernel
    stack in the TSS and the stack of the system call entry. *)
Record cpu := mkCpu {
  cpu_cr3 : Z; cpu_cs : Z; cpu_ss : Z; cpu_rflags : Z; cpu_rsp0 : Z; cpu_syscall_stack : Z;
}.

Record system (PM FA : Type) := mkKernel {
  k_tasks : list ProcessControlBlock;
  k_slab : KernelSlabAlloc;
  k_pm : PM;
  k_fa : FA;
  k_ram : Z → Z;
  k_cpu : cpu;
}.
Arguments mkKernel {PM FA} _ _ _ _ _ _.
Arguments k_tasks {PM FA} _.
Arguments k_slab {PM FA} _.
Arguments k_pm {PM FA} _.
Arguments k_fa {PM FA} _.
Arguments k_ram {PM FA} _.
Arguments k_cpu {PM FA} _.

Definition set_tasks {PM FA} (ts : list ProcessControlBlock) (k : system PM FA) : system PM FA :=
  mkKernel ts k.(k_slab) k.(k_pm) k.(k_fa) k.(k_ram) k.(k_cpu).

(** Set the kernel stack for interrupts (gdt.rs) and for system calls (syscall.rs). *)
Definition set_kernel_stack (stack_top : Z) (c : cpu) : cpu :=
  mkCpu c.(cpu_cr3) c.(cpu_cs) c.(cpu_ss) c.(cpu_rflags) stack_top c.(cpu_syscall_stack).
Definition set_syscall_stack (stack_bottom : Z) (c : cpu) : cpu :=
  mkCpu c.(cpu_cr3) c.(cpu_cs) c.(cpu_ss) c.(cpu_rflags) c.(cpu_rsp0) stack_bottom.
Definition set_cr3 (cr3 : Z) (c : cpu) : cpu :=
  mkCpu cr3 c.(cpu_cs) c.(cpu_ss) c.(cpu_rflags) c.(cpu_rsp0) c.(cpu_syscall_stack).

(** A register frame with the general registers cleared. *)
Definition zeroed_regs (rip cs rflags rsp ss : Z) : TaskRegisters :=
  mkTaskRegisters 0 0 0 0 0 0 0 0 0 0 0 0 0 0 0 rip cs rflags rsp ss.

Section Scheduler.
Context `{Addresses} {PM FA : Type} `{PageTables PM, Mapper (PM * Z), FrameSource FA}.
Context (kernel_l4 hddm : Z).
Abbreviation kernel := (system PM FA).

Definition kinit_multitasking (k : kernel) : kernel :=
  let c := k.(k_cpu) in
  let current_regs := zeroed_regs 0 c.(cpu_cs) c.(cpu_rflags) 0 c.(cpu_ss) in
  let current_task := mkProcessControlBlock (Kernel None) current_regs Running c.(cpu_cr3) in
  set_tasks (current_task :: k.(k_tasks)) k.

Definition kcreate_task (task_ptr : Z) (k : kernel) : exec kernel :=
  '(r, slab, (pm, _), fa) ← get_stack k.(k_slab) (k.(k_pm), kernel_l4) k.(k_fa);
  match r with
  | Err _ => Panic
  | Ok stack_start =>
      let c := k.(k_cpu) in
      let task := mkProcessControlBlock (Kernel (Some stack_start))
        (zeroed_regs task_ptr c.(cpu_cs) (Z.lor c.(cpu_rflags) 0x200) stack_start c.(cpu_ss))
        Ready c.(cpu_cr3) in
      mret (mkKernel (k.(k_tasks) ++ [task]) slab pm fa k.(k_ram) c)
  end.

(** The address the direct map shows a frame at. *)
Definition frame_virt (frame : Z) : exec Z :=
  a ← add_chk 64 frame hddm;
  VirtAddr_new a.

(** The loop over entries of a table: [descend] into the child, then free it. *)
Fixpoint visit_entries (pm : PM) (table_frame : Z) (descend : Z → FA → exec FA) (entries : list nat)
    (fa : FA) : exec FA :=
  match entries with
  | [] => mret fa
  | i :: entries =>
      if pte_present pm table_frame i then
        child_frame ← unwrap (pte_frame pm table_frame i);
        fa ← descend child_frame fa;
        fa ← fs_deallocate_frame child_frame fa;
        visit_entries pm table_frame descend entries fa
      else visit_entries pm table_frame descend entries fa
  end.

Fixpoint deallocate_user_page_table_recursive (pm : PM) (level : nat) (table_frame : Z) (fa : FA)
    {struct level} : exec FA :=
  _ ← frame_virt table_frame;
  visit_entries pm table_frame
    (λ child_frame fa,
      match level with
      | S ((S _) as below) => deallocate_user_page_table_recursive pm below child_frame fa
      | _ => mret fa
      end) (seq 0 256) fa.

Definition create_user_page_table (cr3 : Z) (pm : PM) (fa : FA) : exec (Z * PM * FA) :=
  '(r, fa) ← fs_allocate_frame fa;
  new_l4_frame ← unwrap r;
  _ ← frame_virt new_l4_frame;
  let pm := zero_table new_l4_frame pm in
  _ ← frame_virt cr3;
  mret (new_l4_frame, foldl (λ pm i, copy_entry new_l4_frame cr3 i pm) pm (seq 256 256), fa).

(** The loop of [ucreate_task] that maps and fills the code pages. *)
Fixpoint load_code (user_cr3 : Z) (code_data : list Z) (pages : list Z) (code_offset : nat)
    (pm : PM) (fa : FA) (ram : Z → Z) : exec (result unit UcreateError * PM * FA * (Z → Z)) :=
  match pages with
  | [] => mret (Ok (), pm, fa, ram)
  | page :: pages =>
      '(r, fa) ← fs_allocate_frame fa;
      match r with
      | None => mret (Err NoCodeFrame, pm, fa, ram)
      | Some frame =>
          '(r, (pm, _), fa) ← map_to fs_allocate_frame page frame
                                [PRESENT; USER_ACCESSIBLE; WRITABLE] (pm, user_cr3) fa;
          match r with
          | Err e => mret (Err (CodeMapFailed e), pm, fa, ram)
          | Ok _ =>
              dst ← frame_virt frame;
              rest ← sub_chk (Z.of_nat (length code_data)) (Z.of_nat code_offset);
              let bytes_to_copy := Z.to_nat (Z.min 4096 rest) in
              let ram := copy_bytes ram dst (take bytes_to_copy (drop code_offset code_data)) in
              load_code user_cr3 code_data pages (code_offset + bytes_to_copy) pm fa ram
          end
      end
  end.

Definition load_code_opt (user_cr3 entry_point : Z) (code : option (list Z)) (pm : PM) (fa : FA)
    (ram : Z → Z) : exec (result unit UcreateError * PM * FA * (Z → Z)) :=
  match code with
  | None => mret (Ok (), pm, fa, ram)
  | Some code_data =>
      let code_start_page := containing_address entry_point in
      last ← sub_chk (Z.of_nat (length code_data)) 1;
      end_ ← add_chk 64 entry_point last;
      end_ ← VirtAddr_new end_;
      let code_end_page := containing_address end_ in
      load_code user_cr3 code_data (range_inclusive code_start_page code_end_page) 0 pm fa ram
  end.

Definition ucreate_task (entry_point : Z) (code : option (list Z)) (k : kernel)
    : exec (result unit UcreateError * kernel) :=
  if 0x0000800000000000 <=? entry_point then mret (Err EntryPointNotUser, k)
  else
    let c := k.(k_cpu) in
    '(user_cr3, pm, fa) ← create_user_page_table c.(cpu_cr3) k.(k_pm) k.(k_fa);
    _ ← frame_virt user_cr3;
    '(r, pm, fa, ram) ← load_code_opt user_cr3 entry_point code pm fa k.(k_ram);
    match r with
    | Err e => mret (Err e, mkKernel k.(k_tasks) k.(k_slab) pm fa ram c)
    | Ok _ =>
        '(r, (pm, _), fa) ← get_user_stack (pm, user_cr3) fa;
        match r with
        | Err e =>
            fa ← fs_deallocate_frame user_cr3 fa;
            mret (Err (StackFailed e), mkKernel k.(k_tasks) k.(k_slab) pm fa ram c)
        | Ok stack =>
            '(r, slab, (pm, _), fa) ← get_stack k.(k_slab) (pm, kernel_l4) fa;
            match r with
            | Err e =>
                let info := mkUserInfo stack.(us_stack_start) stack.(us_stack_end) INITIAL_STACK_PAGES 0 in
                '((pm, _), fa) ← return_user_stack info (pm, user_cr3) fa;
                fa ← fs_deallocate_frame user_cr3 fa;
                mret (Err (StackFailed e), mkKernel k.(k_tasks) slab pm fa ram c)
            | Ok kernel_stack =>
                let info := mkUserInfo stack.(us_stack_start) stack.(us_stack_end)
                              INITIAL_STACK_PAGES kernel_stack in
                let regs := zeroed_regs entry_point
                  (Z.lor (Z.shiftl USER_CODE_SEGMENT_INDEX 3) 3) (Z.lor c.(cpu_rflags) 0x200)
                  stack.(us_stack_start) (Z.lor (Z.shiftl USER_DATA_SEGMENT_INDEX 3) 3) in
                let task := mkProcessControlBlock (User info) regs Ready user_cr3 in
                mret (Ok (), mkKernel (k.(k_tasks) ++ [task]) slab pm fa ram c)
            end
        end
    end.

Definition get_current_task_stack_info (k : kernel) : option (Z * Z * Z) :=
  match head k.(k_tasks) with
  | Some task =>
      match task.(pcb_task_type) with
      | User info => Some (info.(ui_stack_end), info.(ui_stack_start), task.(pcb_cr3))
      | Kernel _ => None
      end
  | None => None
  end.

(** [user_info.stack_size += 1] on the front task. *)
Definition grow_front (ts : list ProcessControlBlock) : exec (list ProcessControlBlock) :=
  match ts with
  | mkProcessControlBlock (User info) regs st cr3 :: rest =>
      size ← add_chk 64 info.(ui_stack_size) 1;
      let info := mkUserInfo info.(ui_stack_start) info.(ui_stack_end) size info.(ui_kernel_stack) in
      mret (mkProcessControlBlock (User info) regs st cr3 :: rest)
  | _ => mret ts
  end.

Definition try_grow_user_stack (fault_addr : Z) (k : kernel)
    : exec (result unit StackGrowthError * kernel) :=
  match get_current_task_stack_info k with
  | None => mret (Err NotUserTask, k)
  | Some (stack_bottom, stack_top, user_cr3) =>
      if fault_addr <? stack_bottom then mret (Err StackOverflow, k)
      else if stack_top <=? fault_addr then mret (Err StackUnderflow, k)
      else
        let page := containing_address fault_addr in
        _ ← frame_virt user_cr3;
        '(r, fa) ← fs_allocate_frame k.(k_fa);
        match r with
        | None => mret (Err Other, mkKernel k.(k_tasks) k.(k_slab) k.(k_pm) fa k.(k_ram) k.(k_cpu))
        | Some frame =>
            '(r, (pm, _), fa) ← map_to fs_allocate_frame page frame
                                  [PRESENT; WRITABLE; USER_ACCESSIBLE] (k.(k_pm), user_cr3) fa;
            match r with
            | Ok _ =>
                ts ← grow_front k.(k_tasks);
                mret (Ok (), mkKernel ts k.(k_slab) pm fa k.(k_ram) k.(k_cpu))
            | Err _ =>
                fa ← fs_deallocate_frame frame fa;
                mret (Err Other, mkKernel k.(k_tasks) k.(k_slab) pm fa k.(k_ram) k.(k_cpu))
            end
        end
  end.

(** The state changes of [kyield_task] and [exit_task] before they raise the
    timer interrupt, which is a call of [schedule]. *)
Definition kyield_task (interrupt : Z) (k : kernel) : exec kernel :=
  match k.(k_tasks) with
  | current_task :: rest => mret (set_tasks (set_state (Waiting (Interrupt interrupt)) current_task :: rest) k)
  | [] => Panic
  end.
Definition exit_task (k : kernel) : exec kernel :=
  match k.(k_tasks) with
  | current_task :: rest => mret (set_tasks (set_state Terminated current_task :: rest) k)
  | [] => Panic
  end.

Definition wake_tasks (interrupt : Z) (k : kernel) : kernel :=
  set_tasks ((λ t, match t.(pcb_state) with
                   | Waiting (Interrupt i) => if i =? interrupt then set_state Ready t else t
                   | _ => t
                   end) <$> k.(k_tasks)) k.

(** The first half of [schedule_inner]: what becomes of the current task. *)
Definition retire_current (context : TaskRegisters) (current : ProcessControlBlock)
    (rest : list ProcessControlBlock) (k : kernel) : exec kernel :=
  match current.(pcb_state) with
  | Terminated =>
      match current.(pcb_task_type) with
      | Kernel (Some stack_start) =>
          slab ← return_stack stack_start k.(k_slab);
          mret (mkKernel rest slab k.(k_pm) k.(k_fa) k.(k_ram) k.(k_cpu))
      | User info =>
          slab ← return_stack info.(ui_kernel_stack) k.(k_slab);
          fa ← deallocate_user_page_table_recursive k.(k_pm) 4 current.(pcb_cr3) k.(k_fa);
          fa ← fs_deallocate_frame current.(pcb_cr3) fa;
          mret (mkKernel rest slab k.(k_pm) fa k.(k_ram) k.(k_cpu))
      | Kernel None => mret (set_tasks rest k)
      end
  | Waiting _ => mret (set_tasks (rest ++ [set_regs context current]) k)
  | _ => mret (set_tasks (rest ++ [set_regs context (set_state Ready current)]) k)
  end.

(** The second half: the front task becomes the running one. *)
Definition run_front (k : kernel) : exec (TaskRegisters * kernel) :=
  match k.(k_tasks) with
  | [] => Panic
  | next_task :: rest =>
      let next_task := set_state Running next_task in
      let c := match next_task.(pcb_task_type) with
               | User info => set_syscall_stack info.(ui_kernel_stack) (set_kernel_stack info.(ui_kernel_stack) k.(k_cpu))
               | Kernel _ => k.(k_cpu)
               end in
      let c := if c.(cpu_cr3) =? next_task.(pcb_cr3) then c else set_cr3 next_task.(pcb_cr3) c in
      mret (next_task.(pcb_regs),
            mkKernel (next_task :: rest) k.(k_slab) k.(k_pm) k.(k_fa) k.(k_ram) c)
  end.

Definition schedule_inner (context : TaskRegisters) (k : kernel) : exec (TaskRegisters * kernel) :=
  match k.(k_tasks) with
  | [] => Panic
  | current :: rest =>
      k ← retire_current context current rest k;
      run_front k
  end.

End Scheduler.

(** ** The context switch *)

(** The general registers in the order of [TaskRegisters]. *)
Definition general_regs : list reg :=
  [R15; R14; R13; R12; R11; R10; R9; R8; RBP; RDI; RSI; RDX; RCX; RBX; RAX].

(** The instructions of [schedule]; the called function is [schedule_inner]. *)
Definition schedule_code : list instr :=
  [Push RAX; Push RBX; Push RCX; Push RDX; Push RSI; Push RDI; Push RBP; Push R8; Push R9; Push R10;
   Push R11; Push R12; Push R13; Push R14; Push R15;
   Mov RDI RSP; Call;
   Zero RAX; Zero RDX; MovImm RCX 0x80B; Wrmsr;
   Pop R15; Pop R14; Pop R13; Pop R12; Pop R11; Pop R10; Pop R9; Pop R8; Pop RBP; Pop RDI; Pop RSI;
   Pop RDX; Pop RCX; Pop RBX; Pop RAX;
   Iretq].

(** [#[repr(C)]]: the fields of [TaskRegisters] as consecutive words. *)
Definition general_words (t : TaskRegisters) : list Z :=
  [tr_r15 t; tr_r14 t; tr_r13 t; tr_r12 t; tr_r11 t; tr_r10 t; tr_r9 t; tr_r8 t; tr_rbp t; tr_rdi t;
   tr_rsi t; tr_rdx t; tr_rcx t; tr_rbx t; tr_rax t].
Definition interrupt_words (t : TaskRegisters) : list Z :=
  [tr_interrupt_rip t; tr_interrupt_cs t; tr_interrupt_rflags t; tr_interrupt_rsp t; tr_interrupt_ss t].
Definition context_words (t : TaskRegisters) : list Z := general_words t ++ interrupt_words t.

(** At the entry of [schedule] the general registers are those of the task that
    was interrupted, and the processor has pushed the rest. *)
Definition interrupted (t : TaskRegisters) (m : machine) : Prop :=
  m.(m_reg) <$> general_regs = general_words t ∧
  words m.(m_mem) (m.(m_reg) RSP) 5 = interrupt_words t.

(** The registers are exactly those of a context. *)
Definition resumed (t : TaskRegisters) (m : machine) : Prop :=
  m.(m_reg) <$> general_regs = general_words t ∧
  m.(m_reg) RIP = tr_interrupt_rip t ∧ m.(m_reg) CS = tr_interrupt_cs t ∧
  m.(m_reg) RFLAGS = tr_interrupt_rflags t ∧ m.(m_reg) RSP = tr_interrupt_rsp t ∧
  m.(m_reg) SS = tr_interrupt_ss t.

(** A callee that gets the address of a context in [RDI], replaces the context
    [t] there by [t'], and returns with the stack pointer unchanged. *)
Definition switches (callee : machine → machine) (t t' : TaskRegisters) : Prop :=
  ∀ m, m.(m_reg) RDI = m.(m_reg) RSP → words m.(m_mem) (m.(m_reg) RDI) 20 = context_words t →
    (callee m).(m_reg) RSP = m.(m_reg) RSP ∧
    words (callee m).(m_mem) (m.(m_reg) RDI) 20 = context_words t'.

Lemma words_app mem a n n' :
  words mem a (n + n') = words mem a n ++ words mem (a + 8 * Z.of_nat n) n'.
Proof.
  unfold words. rewrite Nat2Z.inj_add, seqZ_app, fmap_app by lia. f_equal.
  rewrite Z.add_0_l, <- (Z.add_0_r (Z.of_nat n)) at 1. rewrite <- fmap_add_seqZ, <- list_fmap_compose.
  apply list_fmap_ext. intros i k _. simpl. f_equal. lia.
Qed.

(** The instructions around the call. *)
Lemma run_call callee m :
  let m' := run_all callee [Mov RDI RSP; Call; Zero RAX; Zero RDX; MovImm RCX 0x80B; Wrmsr] m in
  let m3 := callee (set_reg RDI (m.(m_reg) RSP) m) in
  m'.(m_reg) RSP = m3.(m_reg) RSP ∧ m'.(m_mem) = m3.(m_mem) ∧ m'.(m_msr) = m3.(m_msr) ++ [(0x80B, 0)].
Proof.
  cbn [run_all foldl run_instr]. generalize (callee (set_reg RDI (m_reg m RSP) m)) as m3. intros m3. cbn zeta.
  split_and!; reflexivity.
Qed.

Lemma run_iretq callee t m : words m.(m_mem) (m.(m_reg) RSP) 5 = interrupt_words t →
  m.(m_reg) <$> general_regs = general_words t →
  resumed t (run_all callee [Iretq] m) ∧ (run_all callee [Iretq] m).(m_msr) = m.(m_msr).
Proof.
  intros Hw Hgen. cbn [run_all foldl run_instr]. split; [|done].
  unfold words in Hw. change (seqZ 0 (Z.of_nat 5)) with [0; 1; 2; 3; 4] in Hw. cbn [fmap list_fmap] in Hw.
  unfold interrupt_words in Hw. injection Hw as H0 H1 H2 H3 H4. unfold resumed, set_reg. cbn [m_reg m_mem].
  split_and!.
  - rewrite <- Hgen. apply list_fmap_ext. intros i r Hr. rewrite !fn_lookup_insert_ne; [done|..];
      intros <-; apply list_elem_of_lookup_2 in Hr; revert Hr; by apply (bool_decide_unpack _); vm_compute.
  - rewrite !fn_lookup_insert_ne by done. by rewrite fn_lookup_insert.
  - rewrite !fn_lookup_insert_ne by done. by rewrite fn_lookup_insert.
  - rewrite !fn_lookup_insert_ne by done. by rewrite fn_lookup_insert.
  - by rewrite fn_lookup_insert.
  - rewrite !fn_lookup_insert_ne by done. by rewrite fn_lookup_insert.
Qed.

(** C7: the context switch is exact.  Whatever context [schedule_inner] puts in
    place of the interrupted one, after the last instruction of [schedule] the
    processor has all its registers, and the end of the interrupt has been
    signalled to the local APIC (a write of 0 to the register 0x80B). *)
Theorem context_switch_exact callee t t' m :
  interrupted t m → switches callee t t' →
  resumed t' (run_all callee schedule_code m) ∧
  last (run_all callee schedule_code m).(m_msr) = Some (0x80B, 0).
Proof.
  intros [Hgen Hint] Hsw.
  change schedule_code with ((Push <$> reverse general_regs) ++
    [Mov RDI RSP; Call; Zero RAX; Zero RDX; MovImm RCX 0x80B; Wrmsr] ++ (Pop <$> general_regs) ++ [Iretq]).
  rewrite !run_app.
  destruct (run_pushes callee (reverse general_regs) m) as (Hsp & Hreg & _ & _ & Hw & Hhigh);
    [by apply (bool_decide_unpack _); vm_compute|].
  rewrite <- fmap_reverse, reverse_involutive, Hgen in Hw. change (length (reverse general_regs)) with 15%nat in *.
  revert Hsp Hreg Hw Hhigh. generalize (run_all callee (Push <$> reverse general_regs) m) as m1.
  intros m1 Hsp Hreg Hw Hhigh.
  assert (words m1.(m_mem) (m1.(m_reg) RSP) 20 = context_words t) as Hctx.
  { rewrite (words_app _ _ 15 5), Hw. unfold context_words. f_equal. rewrite <- Hint, Hsp.
    replace (m_reg m RSP - 8 * Z.of_nat 15 + 8 * Z.of_nat 15) with (m_reg m RSP) by lia.
    apply words_ext. intros k Hk. apply Hhigh. lia. }
  destruct (run_call callee m1) as (Hsp4 & Hmem4 & Hmsr4). revert Hsp4 Hmem4 Hmsr4.
  generalize (run_all callee [Mov RDI RSP; Call; Zero RAX; Zero RDX; MovImm RCX 0x80B; Wrmsr] m1) as m4.
  intros m4 Hsp4 Hmem4 Hmsr4.
  destruct (Hsw (set_reg RDI (m1.(m_reg) RSP) m1)) as [Hsp3 Hw3];
    unfold set_reg in *; cbn [m_reg m_mem] in *; rewrite ?fn_lookup_insert, ?fn_lookup_insert_ne in * by done;
    [done..|].
  destruct (run_pops callee general_regs m4) as (Hsp5 & Hmem5 & _ & Hmsr5 & Hw5 & _);
    [by apply (bool_decide_unpack _); vm_compute..|].
  change (length general_regs) with 15%nat in *. revert Hsp5 Hmem5 Hmsr5 Hw5.
  generalize (run_all callee (Pop <$> general_regs) m4) as m5. intros m5 Hsp5 Hmem5 Hmsr5 Hw5.
  rewrite (words_app _ _ 15 5) in Hw3. apply app_inj_1 in Hw3 as [Hg3 Hi3]; [|by rewrite words_length].
  destruct (run_iretq callee t' m5) as [Hres ->].
  - by rewrite Hmem5, Hmem4, Hsp5, Hsp4, Hsp3.
  - by rewrite Hw5, Hmem4, Hsp4, Hsp3.
  - split; [done|]. by rewrite Hmsr5, Hmsr4, last_snoc.
Qed.

Lemma context_switch_exact_witness :
  ∃ callee m, let t := zeroed_regs 11 12 13 14 15 in let t' := zeroed_regs 1 2 3 4 5 in
    resumed t' (run_all callee schedule_code m) ∧
    last (run_all callee schedule_code m).(m_msr) = Some (0x80B, 0) ∧ interrupted t m.
Proof.
  set (t' := zeroed_regs 1 2 3 4 5).
  set (callee := λ m, mkMachine m.(m_reg)
    (λ x, nth (Z.to_nat ((x - m.(m_reg) RDI) / 8)) (context_words t') 0) m.(m_static) m.(m_msr)).
  set (m := mkMachine (λ _, 0) (λ x, 11 + x / 8) (λ _, 0) []).
  exists callee, m. assert (interrupted (zeroed_regs 11 12 13 14 15) m) as Hint by done.
  destruct (context_switch_exact callee (zeroed_regs 11 12 13 14 15) t' m Hint) as [Hr Hl].
  - intros m0 _ _. split; [done|]. unfold callee. cbn [m_reg m_mem]. generalize (m_reg m0 RDI) as a. intros a.
    apply list_eq. intros i. destruct (decide (i < 20)%nat) as [Hi|Hi].
    + rewrite words_lookup by done. replace (a + 8 * Z.of_nat i - a) with (Z.of_nat i * 8) by lia.
      rewrite Z.div_mul, Nat2Z.id by lia. destruct (nth_lookup_or_length (context_words t') i 0) as [->|Hlen];
        [done|simpl in Hlen; lia].
    + rewrite !lookup_ge_None_2; [done|simpl; lia|rewrite words_length; lia].
  - exact (conj Hr (conj Hl Hint)).
Defined.

(** ** Round robin *)

(** A queue of contexts: a switch saves [c] at the back and resumes the front. *)
Fixpoint queue_run (R cs : list TaskRegisters) : list TaskRegisters * list TaskRegisters :=
  match cs with
  | [] => ([], R)
  | c :: cs =>
      let R := tail R ++ [c] in
      let '(outs, R') := queue_run R cs in
      (default c (head R) :: outs, R')
  end.

Lemma queue_run_outs cs : ∀ R, (queue_run R cs).1 = take (length cs) (tail R ++ cs).
Proof.
  induction cs as [|c cs IH]; intros R; [done|]. simpl. specialize (IH (tail R ++ [c])).
  destruct (queue_run (tail R ++ [c]) cs) as [outs R']. simpl in *. rewrite IH.
  by destruct (tail R) as [|r l]; simpl; rewrite <- ?(assoc_L (++)).
Qed.

Section Tasks.
Context `{Addresses} {PM FA : Type} `{PageTables PM, Mapper (PM * Z), FrameSource FA}.
Context (kernel_l4 hddm : Z).
Abbreviation kernel := (system PM FA).

(** The running task is preempted, or yields; or an interrupt handler wakes tasks. *)
Inductive sched_event : Type :=
  | Preempt (context : TaskRegisters)
  | Yield (interrupt : Z) (context : TaskRegisters)
  | Wake (interrupt : Z).

Definition sched_switch (e : sched_event) : option TaskRegisters :=
  match e with Preempt c | Yield _ c => Some c | Wake _ => None end.

Fixpoint run_events (evs : list sched_event) (k : kernel) : exec (list TaskRegisters * kernel) :=
  match evs with
  | [] => mret ([], k)
  | Wake i :: evs => run_events evs (wake_tasks i k)
  | Preempt c :: evs =>
      '(r, k) ← schedule_inner hddm c k;
      '(rs, k) ← run_events evs k;
      mret (r :: rs, k)
  | Yield i c :: evs =>
      k ← kyield_task i k;
      '(r, k) ← schedule_inner hddm c k;
      '(rs, k) ← run_events evs k;
      mret (r :: rs, k)
  end.

(** No task in the list has terminated. *)
Definition alive (k : kernel) : Prop :=
  k.(k_tasks) ≠ [] ∧ Forall (λ t, t.(pcb_state) ≠ Terminated) k.(k_tasks).

Abbreviation contexts k := (pcb_regs <$> k_tasks k).

(** One switch between live tasks. *)
Lemma schedule_alive c k : alive k →
  ∃ r k', schedule_inner hddm c k = Ret (r, k') ∧ alive k' ∧
    contexts k' = tail (contexts k) ++ [c] ∧ head (contexts k') = Some r ∧
    k'.(k_slab) = k.(k_slab) ∧ k'.(k_fa) = k.(k_fa) ∧
    ∃ t ts, k'.(k_tasks) = t :: ts ∧ t.(pcb_state) = Running ∧ k'.(k_cpu).(cpu_cr3) = t.(pcb_cr3).
Proof.
  destruct k as [ts slab pm fa ram cp]. intros [Hne Hall]. cbn [k_tasks] in *.
  destruct ts as [|t rest]; [done|]. apply Forall_cons in Hall as [Ht Hrest].
  assert (∃ t', t'.(pcb_regs) = c ∧ t'.(pcb_state) ≠ Terminated ∧
    retire_current hddm c t rest (mkKernel (t :: rest) slab pm fa ram cp)
      = Ret (mkKernel (rest ++ [t']) slab pm fa ram cp)) as (t' & Hc & Ht' & Hret).
  { unfold retire_current. destruct (pcb_state t) eqn:Hst; [| |done|]; eexists; (split; [|split; [|reflexivity]]);
      try done. simpl. by rewrite Hst. }
  unfold schedule_inner. cbn [k_tasks]. rewrite Hret. cbn [mbind exec_bind]. unfold run_front. cbn [k_tasks].
  destruct (rest ++ [t']) as [|next others] eqn:Hq; [by destruct rest|].
  eexists _, _. split; [reflexivity|].
  assert (contexts (mkKernel (next :: others) slab pm fa ram cp) = (pcb_regs <$> rest) ++ [c]) as Hctx.
  { cbn [k_tasks]. by rewrite <- Hq, fmap_app, <- Hc. }
  cbn [k_tasks k_slab k_fa k_cpu fmap list_fmap tail head] in *. split_and!; try done.
  - assert (Forall (λ t, t.(pcb_state) ≠ Terminated) (next :: others)) as Hn.
    { rewrite <- Hq. apply Forall_app. split; [done|]. by repeat constructor. }
    apply Forall_cons in Hn as [_ Hn]. split; [done|]. by constructor.
  - eexists _, _. split; [done|]. split; [done|]. cbn [pcb_cr3 set_state].
    destruct (Z.eqb_spec (cpu_cr3 match pcb_task_type (set_state Running next) with
      | Kernel _ => cp
      | User info => set_syscall_stack (ui_kernel_stack info) (set_kernel_stack (ui_kernel_stack info) cp)
      end) (pcb_cr3 next)); done.
Qed.

Lemma wake_alive i k : alive k → alive (wake_tasks i k) ∧ contexts (wake_tasks i k) = contexts k.
Proof.
  intros [Hne Hall]. unfold wake_tasks, set_tasks. cbn [k_tasks]. split; [split|].
  - cbn [k_tasks]. by intros Hnil%fmap_nil_inv.
  - cbn [k_tasks]. apply Forall_fmap. eapply Forall_impl; [exact Hall|]. intros t Ht. simpl.
    destruct (pcb_state t) as [| | |[j]]; try done. by destruct (j =? i).
  - rewrite <- list_fmap_compose. apply list_fmap_ext. intros j t _. simpl.
    destruct (pcb_state t) as [| | |[v]]; try done. by destruct (v =? i).
Qed.

Lemma yield_alive i k : alive k → ∃ k', kyield_task i k = Ret k' ∧ alive k' ∧ contexts k' = contexts k.
Proof.
  destruct k as [ts slab pm fa ram cp]. intros [Hne Hall]. unfold kyield_task, set_tasks. cbn [k_tasks] in *.
  destruct ts as [|t rest]; [done|]. eexists. split; [reflexivity|]. apply Forall_cons in Hall as [_ Hall].
  split; [|done]. split; [done|]. by constructor.
Qed.

(** The scheduler is a queue of contexts. *)
Lemma run_events_queue evs k : alive k →
  ∃ outs k', run_events evs k = Ret (outs, k') ∧ alive k' ∧
    queue_run (contexts k) (omap sched_switch evs) = (outs, contexts k').
Proof.
  revert k. induction evs as [|ev evs IH]; intros k Halive; cbn [run_events].
  { by exists [], k. }
  assert (∀ c k, alive k → ∃ outs k',
    (('(r, k) ← schedule_inner hddm c k; '(rs, k) ← run_events evs k; mret (r :: rs, k)) : exec _)
      = Ret (outs, k') ∧ alive k' ∧
    queue_run (contexts k) (c :: omap sched_switch evs) = (outs, contexts k')) as Hswitch.
  { intros c k0 Hk0. destruct (schedule_alive c k0 Hk0) as (r & k1 & -> & Hk1 & Hq & Hhead & _).
    cbn [mbind exec_bind]. destruct (IH k1 Hk1) as (outs & k' & -> & Hk' & Hrun). cbn [mbind exec_bind].
    exists (r :: outs), k'. split; [done|]. split; [done|]. cbn [queue_run].
    rewrite <- Hq, Hrun, Hhead. done. }
  destruct ev as [c|i c|i]; cbn [omap list_omap sched_switch].
  - by apply Hswitch.
  - destruct (yield_alive i k Halive) as (k1 & -> & Hk1 & Hc1). cbn [mbind exec_bind]. rewrite <- Hc1.
    by apply Hswitch.
  - destruct (wake_alive i k Halive) as [Hk1 Hc1]. rewrite <- Hc1. by apply IH.
Qed.


(** ** The scheduler invariant *)

Definition task_stack (t : ProcessControlBlock) : option Z :=
  match t.(pcb_task_type) with
  | Kernel stack_start => stack_start
  | User info => Some info.(ui_kernel_stack)
  end.
Abbreviation stacks ts := (omap task_stack ts).

(** The slots marked in the bitmap are those of the stacks in use. *)
Definition slab_tracks (bm : Z) (tops : list Z) : Prop :=
  NoDup tops ∧ (∀ top, top ∈ tops → ∃ i, 0 ≤ i < 128 ∧ top = slot_top i) ∧
  ∀ i, 0 ≤ i < 128 → Z.testbit bm i = bool_decide (slot_top i ∈ tops).

Lemma slab_tracks_perm bm tops tops' : tops ≡ₚ tops' → slab_tracks bm tops → slab_tracks bm tops'.
Proof.
  intros Hp (Hnd & Htop & Hbits). split_and!; [by rewrite <- Hp|intros t; rewrite <- Hp; apply Htop|].
  intros i Hi. rewrite Hbits by done. apply bool_decide_ext. by rewrite Hp.
Qed.

Lemma get_stack_bits `{!AddressesOk} {PT} `{Mapper PT} self (pt : PT) fa r self' pt' fa' tops :
  get_stack self pt fa = Ret (r, self', pt', fa') → slab_tracks self.(block_bitmap) tops →
  match r with
  | Ok top => slab_tracks self'.(block_bitmap) (top :: tops)
  | Err _ => self' = self
  end.
Proof.
  destruct self as [bm]. unfold get_stack. cbn [block_bitmap]. intros Hg Htr.
  pose proof (trailing_ones_spec 128 bm) as (Ht & Hfree & _). set (i := trailing_ones 128 bm) in *.
  destruct (Z.leb_spec 128 i) as [Hge|Hlt]; [by exec_inv|].
  rewrite add_chk_ok in Hg by (unfold KERNEL_TASKS_START, KSTACK_SIZE; lia). cbn [mbind exec_bind] in Hg.
  replace (KERNEL_TASKS_START + i * KSTACK_SIZE * 0x1000) with (slot_base i) in Hg
    by (unfold slot_base, KSTACK_SIZE; lia).
  rewrite !add_chk_ok in Hg by (unfold slot_base, KERNEL_TASKS_START, KSTACK_SIZE; lia). cbn [mbind exec_bind] in Hg.
  apply bind_Ret_inv in Hg as ([[r1 pt1] fa1] & _ & Hg). destruct r1 as [[]|e]; [|by exec_inv].
  change (KSTACK_SIZE * 0x1000) with 16384 in Hg. rewrite (proj1 (slot_top_index i ltac:(lia))) in Hg.
  rewrite VirtAddr_new_ok in Hg by (right; unfold slot_top, slot_base, KERNEL_TASKS_START; lia).
  cbn [mbind exec_bind] in Hg. injection Hg as <- <- <- <-. cbn [block_bitmap].
  destruct Htr as (Hnd & Htop & Hbits). rewrite Hbits in Hfree by lia. specialize (Hfree ltac:(lia)).
  apply bool_decide_eq_false in Hfree. split_and!; [by constructor| |].
  - intros top [->|Hin]%elem_of_cons; [exists i; split; [lia|done]|by apply Htop].
  - intros j Hj. rewrite testbit_set, Hbits by lia. apply eq_bool_prop_intro.
    rewrite orb_True, !bool_decide_spec, elem_of_cons. split; [naive_solver|].
    intros [Heq%slot_top_inj|Hin]; [by right|by left].
Qed.

Lemma return_stack_bits self top tops tops' : slab_tracks self.(block_bitmap) tops → tops ≡ₚ top :: tops' →
  ∃ self', return_stack top self = Ret self' ∧ slab_tracks self'.(block_bitmap) tops'.
Proof.
  destruct self as [bm]. cbn [block_bitmap]. intros Htr Hp.
  apply (slab_tracks_perm bm _ _ Hp) in Htr as (Hnd & Htop & Hbits).
  destruct (Htop top) as (i & Hi & ->); [by left|]. apply NoDup_cons in Hnd as [Hnew Hnd].
  unfold return_stack. cbn [block_bitmap].
  rewrite sub_chk_ok by (unfold slot_top, slot_base; lia). cbn [mbind exec_bind].
  rewrite (proj2 (slot_top_index i Hi)), land_shifted_bit, negb_involutive, Hbits by lia.
  rewrite bool_decide_eq_true_2 by (by left). rewrite (proj2 (Z.ltb_lt _ _)) by lia.
  simpl rassert. cbn [mbind exec_bind]. eexists. split; [reflexivity|]. cbn [block_bitmap].
  split_and!; [done|intros t Ht; apply Htop; by right|].
  intros j Hj. rewrite testbit_clear, Hbits by lia. apply eq_bool_prop_intro.
  rewrite andb_True, negb_True, !bool_decide_spec, elem_of_cons. split.
  - intros [[Heq%slot_top_inj|Hin] Hne]; done.
  - intros Hin. split; [by right|]. by intros ->.
Qed.

Lemma return_stack_tracks self top self' tops tops' :
  slab_tracks self.(block_bitmap) tops → tops ≡ₚ top :: tops' → return_stack top self = Ret self' →
  slab_tracks self'.(block_bitmap) tops'.
Proof. intros Htr Hp Hr. destruct (return_stack_bits self top tops tops' Htr Hp) as (s & Hs & ?). by exec_eq. Qed.

Definition quiescent (t : ProcessControlBlock) : Prop :=
  t.(pcb_state) = Ready ∨ ∃ w, t.(pcb_state) = Waiting w.

(** The processor is set up for the task: its address space, and for a user
    task its kernel stack for interrupts and system calls. *)
Definition set_up_for (t : ProcessControlBlock) (c : cpu) : Prop :=
  c.(cpu_cr3) = t.(pcb_cr3) ∧
  match t.(pcb_task_type) with
  | User info => c.(cpu_rsp0) = info.(ui_kernel_stack) ∧ c.(cpu_syscall_stack) = info.(ui_kernel_stack)
  | Kernel _ => True
  end.

Definition sched_inv (k : kernel) : Prop :=
  slab_tracks k.(k_slab).(block_bitmap) (stacks k.(k_tasks)) ∧
  match k.(k_tasks) with
  | [] => True
  | t :: ts => Forall quiescent ts ∧ (t.(pcb_state) = Running → set_up_for t k.(k_cpu))
  end.

(** Everything that happens to the task list.  [kinit_multitasking] is called
    once, when no task has run yet. *)
Inductive sched_step : kernel → kernel → Prop :=
  | step_kinit k : Forall quiescent k.(k_tasks) → sched_step k (kinit_multitasking k)
  | step_kcreate k f k' : kcreate_task kernel_l4 f k = Ret k' → sched_step k k'
  | step_ucreate k entry code r k' : ucreate_task kernel_l4 hddm entry code k = Ret (r, k') → sched_step k k'
  | step_grow k addr r k' : try_grow_user_stack hddm addr k = Ret (r, k') → sched_step k k'
  | step_yield k i k' : kyield_task i k = Ret k' → sched_step k k'
  | step_exit k k' : exit_task k = Ret k' → sched_step k k'
  | step_wake k i : sched_step k (wake_tasks i k)
  | step_schedule k c r k' : schedule_inner hddm c k = Ret (r, k') → sched_step k k'.

(** A new task at the back. *)
Lemma sched_inv_push k t slab pm fa ram : sched_inv k → t.(pcb_state) = Ready →
  slab_tracks slab.(block_bitmap) (stacks (k.(k_tasks) ++ [t])) →
  sched_inv (mkKernel (k.(k_tasks) ++ [t]) slab pm fa ram k.(k_cpu)).
Proof.
  intros [_ Hts] Ht Htr. split; [done|]. cbn [k_tasks k_cpu]. destruct (k_tasks k) as [|t0 ts]; simpl.
  - split; [done|]. by rewrite Ht.
  - destruct Hts as [Hq Hrun]. split; [|done]. apply Forall_app. split; [done|]. apply Forall_singleton. by left.
Qed.
Lemma stacks_push ts t top : task_stack t = Some top → stacks (ts ++ [t]) ≡ₚ top :: stacks ts.
Proof. intros Ht. rewrite omap_app. simpl. rewrite Ht. by rewrite Permutation_app_comm. Qed.

(** Changes elsewhere. *)
Lemma sched_inv_frame k pm fa ram : sched_inv k →
  sched_inv (mkKernel k.(k_tasks) k.(k_slab) pm fa ram k.(k_cpu)).
Proof. done. Qed.

Lemma kcreate_inv `{!AddressesOk} f k k' : sched_inv k → kcreate_task kernel_l4 f k = Ret k' → sched_inv k'.
Proof.
  intros Hinv Hk. unfold kcreate_task in Hk. apply bind_Ret_inv in Hk as ([[[r slab] [pm l4]] fa] & Hg & Hk).
  destruct r as [top|]; [|by exec_inv]. injection Hk as <-. pose proof Hinv as [Htr _].
  apply (sched_inv_push k); [done..|]. eapply slab_tracks_perm; [by symmetry; eapply stacks_push|].
  by apply (get_stack_bits _ _ _ _ _ _ _ _ Hg Htr).
Qed.

Lemma ucreate_inv `{!AddressesOk} entry code k r k' :
  sched_inv k → ucreate_task kernel_l4 hddm entry code k = Ret (r, k') → sched_inv k'.
Proof.
  intros Hinv Hu. pose proof Hinv as [Htr _]. unfold ucreate_task in Hu.
  destruct (0x0000800000000000 <=? entry); [by exec_inv|].
  apply bind_Ret_inv in Hu as ([[cr3 pm] fa] & _ & Hu). apply bind_Ret_inv in Hu as (v & _ & Hu).
  apply bind_Ret_inv in Hu as ([[[r1 pm1] fa1] ram] & _ & Hu).
  destruct r1 as [[]|e]; [|injection Hu as <- <-; by apply (sched_inv_frame k)].
  apply bind_Ret_inv in Hu as ([[r2 [pm2 l2]] fa2] & _ & Hu). destruct r2 as [stack|e].
  - apply bind_Ret_inv in Hu as ([[[r3 slab] [pm3 l3]] fa3] & Hg & Hu).
    pose proof (get_stack_bits _ _ _ _ _ _ _ _ Hg Htr) as Hbits. destruct r3 as [top|e].
    + injection Hu as <- <-. apply (sched_inv_push k); [done..|].
      eapply slab_tracks_perm; [by symmetry; eapply stacks_push|]. done.
    + subst slab. apply bind_Ret_inv in Hu as ([[pm4 l4'] fa4] & _ & Hu).
      apply bind_Ret_inv in Hu as (fa5 & _ & Hu). injection Hu as <- <-. by apply (sched_inv_frame k).
  - apply bind_Ret_inv in Hu as (fa3 & _ & Hu). injection Hu as <- <-. by apply (sched_inv_frame k).
Qed.

Lemma grow_front_inv ts ts' : grow_front ts = Ret ts' →
  stacks ts' = stacks ts ∧ tail ts' = tail ts ∧
  ∀ t' rest, ts' = t' :: rest → ∃ t, ts = t :: rest ∧ t.(pcb_state) = t'.(pcb_state) ∧
    ∀ c, set_up_for t c → set_up_for t' c.
Proof.
  intros Hg. destruct ts as [|[[stk|info] regs st cr3] rest]; simpl in Hg; [injection Hg as <-; by split_and!|..].
  - injection Hg as <-. split_and!; [done..|]. intros t' rest' [= <- <-]. eexists. split; [done|]. done.
  - apply bind_Ret_inv in Hg as (size & _ & Hg). injection Hg as <-. split_and!; [done..|].
    intros t' rest' [= <- <-]. eexists. split; [done|]. done.
Qed.

Lemma grow_inv addr k r k' : sched_inv k → try_grow_user_stack hddm addr k = Ret (r, k') → sched_inv k'.
Proof.
  intros Hinv Hg. unfold try_grow_user_stack in Hg.
  destruct (get_current_task_stack_info k) as [[[b t] cr3]|]; [|injection Hg as <- <-; done].
  destruct (addr <? b); [injection Hg as <- <-; done|]. destruct (t <=? addr); [injection Hg as <- <-; done|].
  apply bind_Ret_inv in Hg as (v & _ & Hg). apply bind_Ret_inv in Hg as ([r1 fa1] & _ & Hg).
  destruct r1 as [frame|]; [|injection Hg as <- <-; by apply (sched_inv_frame k)].
  apply bind_Ret_inv in Hg as ([[r2 [pm2 l2]] fa2] & _ & Hg). destruct r2 as [[]|e].
  - apply bind_Ret_inv in Hg as (ts & Hts & Hg). injection Hg as <- <-.
    destruct (grow_front_inv _ _ Hts) as (Hst & Htail & Hhead). destruct Hinv as [Htr Hk].
    split; cbn [k_tasks k_slab k_cpu]; [by rewrite Hst|].
    destruct ts as [|t' rest]; [done|]. destruct (Hhead t' rest eq_refl) as (t0 & Heq & Hs & Hup).
    rewrite Heq in Hk. destruct Hk as [Hq Hrun]. split; [done|]. rewrite <- Hs. auto.
  - apply bind_Ret_inv in Hg as (fa3 & _ & Hg). injection Hg as <- <-. by apply (sched_inv_frame k).
Qed.

Lemma stacks_states (f : ProcessControlBlock → ProcessControlBlock) (ts : list ProcessControlBlock) :
  (∀ t, task_stack (f t) = task_stack t) → stacks (f <$> ts) = stacks ts.
Proof.
  intros Hf. induction ts as [|t ts IH]; [done|]. rewrite fmap_cons.
  change (match task_stack (f t) with Some s => s :: stacks (f <$> ts) | None => stacks (f <$> ts) end
          = match task_stack t with Some s => s :: stacks ts | None => stacks ts end).
  by rewrite Hf, IH.
Qed.

(** What becomes of the current task. *)
Lemma retire_inv c t rest k k1 : sched_inv k → k.(k_tasks) = t :: rest →
  retire_current hddm c t rest k = Ret k1 →
  slab_tracks k1.(k_slab).(block_bitmap) (stacks k1.(k_tasks)) ∧ Forall quiescent k1.(k_tasks).
Proof.
  intros [Htr Hk] Hts Hr. rewrite Hts in Hk. destruct Hk as [Hq _]. rewrite Hts in Htr.
  assert (∀ t', t'.(pcb_task_type) = t.(pcb_task_type) → quiescent t' →
    slab_tracks k.(k_slab).(block_bitmap) (stacks (rest ++ [t'])) ∧ Forall quiescent (rest ++ [t'])) as Hpush.
  { intros t' Hty Hq'. split; [|apply Forall_app; split; [done|by apply Forall_singleton]].
    eapply slab_tracks_perm; [|exact Htr]. rewrite omap_app, (Permutation_app_comm _ (stacks [t'])).
    assert (task_stack t = task_stack t') as Heq by (unfold task_stack; by rewrite Hty).
    cbn [omap list_omap]. rewrite Heq. by destruct (task_stack t'). }
  unfold retire_current in Hr. destruct (pcb_state t) as [| | |w] eqn:Hst.
  - injection Hr as <-. apply Hpush; [done|by left].
  - injection Hr as <-. apply Hpush; [done|by left].
  - simpl in Htr. unfold task_stack in Htr. destruct (pcb_task_type t) as [[top|]|info].
    + apply bind_Ret_inv in Hr as (slab & Hs & Hr). injection Hr as <-. split; [|done].
      by eapply return_stack_tracks; [exact Htr| |exact Hs].
    + injection Hr as <-. done.
    + apply bind_Ret_inv in Hr as (slab & Hs & Hr). apply bind_Ret_inv in Hr as (fa1 & _ & Hr).
      apply bind_Ret_inv in Hr as (fa2 & _ & Hr). injection Hr as <-. split; [|done].
      by eapply return_stack_tracks; [exact Htr| |exact Hs].
  - injection Hr as <-. apply Hpush; [done|]. right. exists w. by rewrite <- Hst.
Qed.

Lemma run_front_inv k r k' :
  slab_tracks k.(k_slab).(block_bitmap) (stacks k.(k_tasks)) → Forall quiescent k.(k_tasks) →
  run_front k = Ret (r, k') → sched_inv k' ∧ ∃ t ts, k'.(k_tasks) = t :: ts ∧ t.(pcb_state) = Running ∧ t.(pcb_regs) = r.
Proof.
  intros Htr Hq Hr. unfold run_front in Hr. destruct (k_tasks k) as [|t ts] eqn:Hts; [done|].
  injection Hr as <- <-. apply Forall_cons in Hq as [_ Hq]. cbn [k_tasks]. split; [|eauto].
  split; cbn [k_tasks k_slab k_cpu]; [done|]. split; [done|]. intros _. unfold set_up_for.
  destruct t as [[stk|info] regs st cr3]; cbn [pcb_task_type pcb_cr3 set_state].
  - by destruct (Z.eqb_spec (cpu_cr3 (k_cpu k)) cr3).
  - by destruct (Z.eqb_spec (cpu_cr3 (set_syscall_stack (ui_kernel_stack info)
      (set_kernel_stack (ui_kernel_stack info) (k_cpu k)))) cr3).
Qed.

Lemma sched_inv_step `{!AddressesOk} k k' : sched_inv k → sched_step k k' → sched_inv k'.
Proof.
  intros Hinv Hstep. destruct Hstep as [k Hq|k f k' Hk|k entry code r k' Hu|k addr r k' Hg|k i k' Hy|k k' He|k i|k c r k' Hs].
  - destruct Hinv as [Htr _]. split; [done|]. simpl. split; [done|]. by split.
  - by eapply kcreate_inv.
  - by eapply ucreate_inv.
  - by eapply grow_inv.
  - unfold kyield_task in Hy. destruct Hinv as [Htr Hts]. destruct (k_tasks k) as [|t ts] eqn:Hk; [done|].
    injection Hy as <-. split; cbn [k_tasks set_tasks k_slab k_cpu]; [done|]. by destruct Hts.
  - unfold exit_task in He. destruct Hinv as [Htr Hts]. destruct (k_tasks k) as [|t ts] eqn:Hk; [done|].
    injection He as <-. split; cbn [k_tasks set_tasks k_slab k_cpu]; [done|]. by destruct Hts.
  - unfold wake_tasks. set (f := λ t : ProcessControlBlock, _). destruct Hinv as [Htr Hts].
    assert (∀ t, task_stack (f t) = task_stack t ∧ (quiescent t → quiescent (f t)) ∧
      (pcb_state (f t) = Running → f t = t)) as Hf.
    { intros t. unfold f. destruct (pcb_state t) as [| | |[j]] eqn:Hs; try done. destruct (j =? i); [|done].
      split_and!; [done|by left|done]. }
    split; cbn [k_tasks set_tasks k_slab k_cpu]; [by rewrite stacks_states by apply Hf|].
    destruct (k_tasks k) as [|t ts]; [done|]. destruct Hts as [Hq Hrun]. simpl. split.
    + apply Forall_fmap. eapply Forall_impl; [exact Hq|]. intros t'. apply Hf.
    + intros Hr. destruct (Hf t) as (_ & _ & Hsame). rewrite (Hsame Hr). apply Hrun. by rewrite <- (Hsame Hr).
  - unfold schedule_inner in Hs. destruct (k_tasks k) as [|t rest] eqn:Hts; [done|].
    apply bind_Ret_inv in Hs as (k1 & Hr & Hs).
    destruct (retire_inv c t rest k k1 Hinv Hts Hr) as [Htr Hq]. by eapply run_front_inv.
Qed.

(** A kernel before its first task. *)
Definition sched_initial (k : kernel) : Prop := k.(k_tasks) = [] ∧ k.(k_slab) = KernelSlabAlloc_new.

(** C9: the scheduler invariant.  From boot on, whatever tasks are created,
    preempted, woken, grown or exited: only the front task can be running, and
    then the processor uses its address space and, for a user task, its own
    kernel stack for interrupts and system calls; every other task is ready or
    waiting; and no two tasks share a kernel stack. *)
Theorem scheduler_invariant `{!AddressesOk} k0 k :
  sched_initial k0 → rtc sched_step k0 k →
  NoDup (stacks k.(k_tasks)) ∧
  match k.(k_tasks) with
  | [] => True
  | t :: ts => Forall quiescent ts ∧ (t.(pcb_state) = Running → set_up_for t k.(k_cpu))
  end.
Proof.
  intros [Hts Hslab] Hsteps. assert (sched_inv k0) as Hinv.
  { split; [|by rewrite Hts]. rewrite Hts, Hslab. split_and!; [constructor|set_solver|].
    intros i Hi. simpl. by rewrite Z.bits_0. }
  assert (sched_inv k) as [(Hnd & _) Hk]; [|done]. clear Hts Hslab.
  induction Hsteps as [|k1 k2 k3 Hstep _ IH]; [done|]. apply IH. by eapply sched_inv_step.
Qed.

(** Waiting does not keep a task from running.  [schedule_inner] makes the
    front task the running one without looking at its state, so a task that
    waits for an interrupt is resumed although the interrupt has not come. *)
Theorem waiting_task_resumed c k t next rest w :
  k.(k_tasks) = t :: next :: rest → t.(pcb_state) = Running → next.(pcb_state) = Waiting w →
  ∃ k', schedule_inner hddm c k = Ret (next.(pcb_regs), k') ∧
    head k'.(k_tasks) = Some (set_state Running next).
Proof.
  intros Hts Ht Hn. unfold schedule_inner, retire_current. rewrite Hts, Ht. cbn [mbind exec_bind].
  unfold mret, exec_ret. cbn [mbind exec_bind]. eexists. split; reflexivity.
Qed.

End Tasks.

(** ** User address spaces *)

(** [OffsetPageTable] works on the table it was made for. *)
Class OffsetTablesOk (PM : Type) `{Mapper (PM * Z)} := {
  map_to_table {FA} (af : FA → exec (option Z * FA)) page frame flags pm l4 fa r pm' l4' fa' :
    map_to af page frame flags (pm, l4) fa = Ret (r, (pm', l4'), fa') → l4' = l4;
}.

Section Spaces.
Context `{AddressesOk} {PM FA : Type} `{PageTables PM, MapperOk (PM * Z), !OffsetTablesOk PM, FrameSourceOk FA}.
Context (hddm : Z) (Hhddm : 2 ^ 64 - 2 ^ 47 ≤ hddm).
(** The direct map covers the frames that are handed out. *)
Context (Hcovers : ∀ fa used p, fs_inv fa used → p ∈ used → p + hddm < 2 ^ 64).
Abbreviation kernel := (system PM FA).

Lemma frame_virt_ok fa used p : fs_inv fa used → p ∈ used → frame_virt hddm p = Ret (p + hddm).
Proof.
  intros Hfs Hp. destruct (fs_inv_frame _ _ _ Hfs Hp) as [_ ?]. specialize (Hcovers _ _ _ Hfs Hp).
  unfold frame_virt. run. apply VirtAddr_new_ok. right. lia.
Qed.

(** One [map_to] with a fresh frame. *)
Lemma map_fresh pm l4 fa used page frame flags : fs_inv fa (frame :: used) →
  ∃ r pm' fa' more, map_to fs_allocate_frame page frame flags (pm, l4) fa = Ret (r, (pm', l4), fa') ∧
    fs_inv fa' (more ++ frame :: used) ∧
    match r with
    | Ok _ => translate (pm, l4) page = None ∧ translate (pm', l4) page = Some (frame, flags) ∧
        ∀ q, q ≠ page → translate (pm', l4) q = translate (pm, l4) q
    | Err _ => ∀ q, translate (pm', l4) q = translate (pm, l4) q
    end.
Proof.
  intros Hfs.
  destruct (map_to_returns fs_allocate_frame (λ fa, ∃ u, fs_inv fa u) page frame flags (pm, l4) fa)
    as (r & [pm' l4'] & fa' & Hmap).
  { intros a [u Hu]. destruct (fs_allocate_ok a u Hu) as (r & a' & Ha & Hr').
    exists r, a'. split; [done|]. destruct r; [eauto|subst; eauto]. }
  { eauto. }
  pose proof (map_to_table _ _ _ _ _ _ _ _ _ _ _ Hmap) as ->.
  destruct (draws_inv fa fa' _ (map_to_draws _ _ _ _ _ _ _ _ _ Hmap) Hfs) as [more Hmore].
  exists r, pm', fa', more. split_and!; [done..|]. destruct r as [[]|e].
  - by apply (map_to_Ok _ _ _ _ _ _ _ _ Hmap).
  - by apply (map_to_Err _ _ _ _ _ _ _ _ _ Hmap).
Qed.

(** C28: growing a user stack.  A fault of the running user task inside its stack
    range maps exactly the page of the fault, with a free frame, and counts it;
    below the range it is a stack overflow, above it an underflow, and both
    leave the kernel as it is.  On any error nothing is mapped and the task is
    unchanged; the frame the allocator hands out for the stack page is not
    outstanding afterwards, so it has been given back (page-table frames the
    mapper has drawn may stay outstanding). *)
Theorem stack_growth k used t ts info addr :
  k.(k_tasks) = t :: ts → t.(pcb_task_type) = User info → 0 ≤ info.(ui_stack_size) < 2 ^ 64 - 1 →
  fs_inv k.(k_fa) used → t.(pcb_cr3) ∈ used →
  ∃ r k', try_grow_user_stack hddm addr k = Ret (r, k') ∧
    match r with
    | Ok _ => info.(ui_stack_end) ≤ addr < info.(ui_stack_start) ∧
        (∃ f more, f ∉ used ∧ fs_inv k'.(k_fa) (more ++ f :: used) ∧
          translate (k'.(k_pm), t.(pcb_cr3)) (containing_address addr)
            = Some (f, [PRESENT; WRITABLE; USER_ACCESSIBLE])) ∧
        (∀ q, q ≠ containing_address addr →
          translate (k'.(k_pm), t.(pcb_cr3)) q = translate (k.(k_pm), t.(pcb_cr3)) q) ∧
        ∃ t', k'.(k_tasks) = t' :: ts ∧ t'.(pcb_regs) = t.(pcb_regs) ∧ t'.(pcb_cr3) = t.(pcb_cr3) ∧
          t'.(pcb_task_type) = User (mkUserInfo info.(ui_stack_start) info.(ui_stack_end)
                                       (info.(ui_stack_size) + 1) info.(ui_kernel_stack))
    | Err e => k'.(k_tasks) = k.(k_tasks) ∧
        (∀ q, translate (k'.(k_pm), t.(pcb_cr3)) q = translate (k.(k_pm), t.(pcb_cr3)) q) ∧
        e = (if addr <? info.(ui_stack_end) then StackOverflow
             else if info.(ui_stack_start) <=? addr then StackUnderflow else Other) ∧
        (e ≠ Other → k' = k) ∧
        ∃ more, fs_inv k'.(k_fa) (more ++ used) ∧
          ∀ f fa1, fs_allocate_frame k.(k_fa) = Ret (Some f, fa1) → f ∉ more ++ used
    end.
Proof.
  intros Hts Hty Hsize Hfs Hcr3.
  assert (∀ f fa1, fs_allocate_frame k.(k_fa) = Ret (Some f, fa1) → f ∉ used) as Hfresh.
  { intros f fa1 Ha. destruct (fs_allocate_ok _ _ Hfs) as (r & fa2 & Ha2 & Hr). rewrite Ha in Ha2.
    injection Ha2 as <- <-. apply fs_inv_NoDup in Hr. by apply NoDup_cons in Hr as [? _]. }
  unfold try_grow_user_stack, get_current_task_stack_info.
  rewrite Hts. cbn [head hd_error]. rewrite Hty.
  destruct (Z.ltb_spec addr info.(ui_stack_end)) as [|Hlo].
  { eexists _, k. split; [reflexivity|]. split_and!; try done. by exists []. }
  destruct (Z.leb_spec info.(ui_stack_start) addr) as [|Hhi].
  { eexists _, k. split; [reflexivity|]. split_and!; try done. by exists []. }
  rewrite (frame_virt_ok _ _ _ Hfs Hcr3). cbn [mbind exec_bind].
  destruct (fs_allocate_ok _ _ Hfs) as (r & fa1 & Ha & Hr). rewrite Ha in Hfresh |- *.
  cbn [mbind exec_bind]. destruct r as [frame|].
  2:{ eexists _, _. split; [reflexivity|]. subst fa1. split_and!; try done. by exists []. }
  destruct (map_fresh k.(k_pm) t.(pcb_cr3) fa1 used (containing_address addr) frame
    [PRESENT; WRITABLE; USER_ACCESSIBLE] Hr) as (r & pm' & fa2 & more & -> & Hmore & Hres). cbn [mbind exec_bind].
  destruct r as [[]|e].
  - destruct t as [ty regs st cr3]. simpl in Hty. subst ty. simpl. run.
    eexists _, _. split; [reflexivity|]. cbn [k_fa k_pm k_tasks].
    destruct Hres as (_ & Hm & Ho). split_and!; try done; [|by eexists].
    exists frame, more. split_and!; [|done..]. by apply (Hfresh frame fa1).
  - destruct (fs_deallocate_ok fa2 _ frame (more ++ used) Hmore) as (fa3 & -> & Hfs3);
      [by rewrite Permutation_middle|]. cbn [mbind exec_bind].
    eexists _, _. split; [reflexivity|]. split_and!; try done. exists more. split; [done|].
    intros f fa4 [= <- <-]. apply fs_inv_NoDup in Hmore. rewrite <- Permutation_middle in Hmore.
    by apply NoDup_cons in Hmore as [? _].
Qed.

(** *** Loading code *)

Abbreviation ucode := [PRESENT; USER_ACCESSIBLE; WRITABLE].

(** Frames do not overlap. *)
Lemma frames_apart fa used p q j j' : fs_inv fa used → p ∈ used → q ∈ used → p ≠ q →
  0 ≤ j < 4096 → 0 ≤ j' < 4096 → p + hddm + j ≠ q + hddm + j'.
Proof.
  intros Hfs Hp Hq Hne Hj Hj'. destruct (fs_inv_frame _ _ _ Hfs Hp) as [[x ->] _].
  destruct (fs_inv_frame _ _ _ Hfs Hq) as [[y ->] _]. lia.
Qed.

(** The bytes of page [i] of the code, from offset [off] on. *)
Definition holds_code (ram : Z → Z) (code : list Z) (off : nat) (frames : list Z) : Prop :=
  ∀ i f j b, frames !! i = Some f → (j < 4096)%nat → code !! (off + 4096 * i + j)%nat = Some b →
    ram (f + hddm + Z.of_nat j) = b.

(** Why loading fails: at its last state there is no frame left, or [map_to] refuses one of the pages. *)
Definition load_failed (l4 : Z) (pages : list Z) (e : UcreateError) (pm' : PM) (fa' : FA) : Prop :=
  match e with
  | NoCodeFrame => fs_allocate_frame fa' = Ret (None, fa')
  | CodeMapFailed e => ∃ page frame pm fa, page ∈ pages ∧
      map_to fs_allocate_frame page frame ucode (pm, l4) fa = Ret (Err e, (pm', l4), fa')
  | _ => False
  end.

Lemma load_code_ok l4 code pages : ∀ off pm fa ram used,
  fs_inv fa used → NoDup pages → (off ≤ length code)%nat →
  ∃ r pm' fa' ram' frames more,
    load_code hddm l4 code pages off pm fa ram = Ret (r, pm', fa', ram') ∧
    fs_inv fa' (more ++ frames ++ used) ∧
    (∀ p j, p ∈ used → 0 ≤ j < 4096 → ram' (p + hddm + j) = ram (p + hddm + j)) ∧
    (∀ q, q ∉ pages → translate (pm', l4) q = translate (pm, l4) q) ∧
    match r with
    | Ok _ => backed (pm', l4) ucode pages frames ∧ holds_code ram' code off frames
    | Err e => load_failed l4 pages e pm' fa'
    end.
Proof.
  induction pages as [|page pages IH]; intros off pm fa ram used Hfs Hnd Hoff; cbn [load_code].
  { exists (Ok ()), pm, fa, ram, [], []. split_and!; try done. constructor. }
  apply NoDup_cons in Hnd as [Hpage Hnd].
  destruct (fs_allocate_ok fa used Hfs) as (r & fa1 & Ha & Hr). rewrite Ha. cbn [mbind exec_bind].
  destruct r as [frame|].
  2:{ subst fa1. exists (Err NoCodeFrame), pm, fa, ram, [], []. by split_and!. }
  destruct (map_fresh pm l4 fa1 used page frame ucode Hr) as (r & pm1 & fa2 & more1 & Hmap & Hfs2 & Hres).
  rewrite Hmap. cbn [mbind exec_bind]. destruct r as [[]|e].
  2:{ exists (Err (CodeMapFailed e)), pm1, fa2, ram, [frame], more1. split_and!; try done.
      exists page, frame, pm, fa1. split; [left|done]. }
  destruct Hres as (_ & Hmapped & Hother).
  rewrite (frame_virt_ok _ _ frame Hr) by left. cbn [mbind exec_bind]. run.
  set (n := Z.to_nat (Z.min 4096 (Z.of_nat (length code) - Z.of_nat off))).
  assert (n = Nat.min 4096 (length code - off)) as Hn by lia.
  set (bytes := take n (drop off code)). assert (length bytes = n) as Hlen
    by (unfold bytes; rewrite length_take, length_drop; lia).
  destruct (IH (off + n)%nat pm1 fa2 (copy_bytes ram (frame + hddm) bytes) (more1 ++ frame :: used))
    as (r & pm' & fa' & ram' & frames & more & -> & Hfs' & Hram & Htr & Hok); [done|done|lia|].
  exists r, pm', fa', ram', (frame :: frames), (more ++ more1). split_and!; try done.
  - eapply fs_inv_perm; [|exact Hfs']. solve_Permutation.
  - intros p j Hp Hj. rewrite Hram by (done || set_solver). apply copy_bytes_out.
    intros Hin. apply (frames_apart fa1 (frame :: used) p frame j (p + j - frame)); [done|by right|by left| |lia..].
    intros ->. apply fs_inv_NoDup, NoDup_cons in Hr as [Hnew _]. done.
  - intros q Hq. rewrite Htr by set_solver. apply Hother. set_solver.
  - destruct r as [[]|e]; [|destruct e; try done].
    2:{ destruct Hok as (q & f & pm2 & fa3 & Hq & Hf). exists q, f, pm2, fa3. by split; [right|]. }
    destruct Hok as [Hb Hholds]. split.
    + constructor; [|done]. rewrite Htr by done. done.
    + intros [|i] f j b Hf Hj Hb'; cbn [lookup list_lookup] in Hf.
      * injection Hf as <-. rewrite (Hram frame); [|apply elem_of_app; right; by left|lia].
        apply copy_bytes_in; [lia|]. rewrite Nat2Z.id.
        unfold bytes. apply lookup_lt_Some in Hb' as Hlt. rewrite lookup_take_lt by lia.
        rewrite lookup_drop. rewrite <- Hb'. f_equal. lia.
      * apply lookup_lt_Some in Hb' as Hlt. assert (n = 4096)%nat as Hn4 by lia.
        apply (Hholds i f j b Hf Hj). rewrite <- Hb'. f_equal. lia.
Qed.

(** The byte a user program sees at an address. *)
Definition user_byte (pm : PM) (l4 : Z) (ram : Z → Z) (a : Z) : option Z :=
  match translate (pm, l4) (containing_address a) with
  | Some (f, _) => Some (ram (f + hddm + a mod 4096))
  | None => None
  end.

(** The pages of [load_code_opt], from the page of the entry point on. *)
Definition code_pages (entry : Z) (code : list Z) : list Z :=
  range_inclusive (4096 * (entry / 4096)) (4096 * ((entry + (Z.of_nat (length code) - 1)) / 4096)).

(** The byte seen at offset [i] from the start of the page of the entry point. *)
Lemma holds_code_byte l4 entry code pm ram frames i b : 0 ≤ entry → entry + Z.of_nat (length code) ≤ 2 ^ 47 →
  backed (pm, l4) ucode (code_pages entry code) frames → holds_code ram code 0 frames →
  code !! i = Some b → user_byte pm l4 ram (4096 * (entry / 4096) + Z.of_nat i) = Some b.
Proof.
  intros He Hend Hback Hholds Hb. apply lookup_lt_Some in Hb as Hi.
  pose proof (Z.div_mod entry 4096) as Hdm. pose proof (Z.mod_pos_bound entry 4096 ltac:(lia)) as Hmb.
  pose proof (Z.div_mod (Z.of_nat i) 4096) as Hdi. pose proof (Z.mod_pos_bound (Z.of_nat i) 4096 ltac:(lia)) as Hmi.
  unfold code_pages in Hback.
  set (d := Z.of_nat i / 4096) in *. set (e := entry / 4096) in *. set (j := Z.of_nat i mod 4096) in *.
  assert (e + d ≤ (entry + (Z.of_nat (length code) - 1)) / 4096) as Hle by (apply Z.div_le_lower_bound; lia).
  assert (0 ≤ d) by (apply Z.div_pos; lia).
  assert (range_inclusive (4096 * e) (4096 * ((entry + (Z.of_nat (length code) - 1)) / 4096)) !! Z.to_nat d
    = Some (4096 * e + 4096 * d)) as Hl.
  { unfold range_inclusive. rewrite step_by_lookup by lia. do 2 f_equal. lia. }
  destruct (Forall2_lookup_l _ _ _ _ _ Hback Hl) as (f & Hf & Ht).
  unfold user_byte. rewrite containing_address_ok by lia.
  replace (4096 * e + Z.of_nat i) with (j + (e + d) * 4096) by lia.
  rewrite Z.div_add, Z.mod_add, Z.div_small, Z.mod_small by lia.
  replace (4096 * (0 + (e + d))) with (4096 * e + 4096 * d) by lia. rewrite Ht. f_equal.
  rewrite <- (Z2Nat.id j) by lia. apply (Hholds (Z.to_nat d) f (Z.to_nat j) b Hf); [lia|].
  rewrite <- Hb. f_equal. lia.
Qed.

(** C29: the code of a user task.  For a page-aligned entry point and a non-empty
    code that ends below the upper half, loading returns.  When it succeeds, byte
    [i] of the code is what the program sees at the entry point plus [i], for the
    whole code; when it fails, there is no frame left, or the mapper refuses one of
    the pages.  Either way no other page of the address space changes, and no
    frame that was in use is written. *)
Theorem code_loaded l4 entry code pm fa ram used :
  fs_inv fa used → 0 ≤ entry → (4096 | entry) → code ≠ [] → entry + Z.of_nat (length code) ≤ 2 ^ 47 →
  ∃ r pm' fa' ram', load_code_opt hddm l4 entry (Some code) pm fa ram = Ret (r, pm', fa', ram') ∧
    (∃ more, fs_inv fa' (more ++ used)) ∧
    (∀ p j, p ∈ used → 0 ≤ j < 4096 → ram' (p + hddm + j) = ram (p + hddm + j)) ∧
    (∀ q, q ∉ code_pages entry code → translate (pm', l4) q = translate (pm, l4) q) ∧
    match r with
    | Ok _ => ∀ (i : nat) b, code !! i = Some b → user_byte pm' l4 ram' (entry + Z.of_nat i) = Some b
    | Err e => load_failed l4 (code_pages entry code) e pm' fa'
    end.
Proof.
  intros Hfs He [x Hx] Hne Hend. unfold load_code_opt.
  assert (0 < length code)%nat as Hlen by (destruct code; [done|simpl; lia]).
  rewrite sub_chk_ok by lia. cbn [mbind exec_bind]. rewrite add_chk_ok by lia. cbn [mbind exec_bind].
  rewrite VirtAddr_new_ok by (left; lia). cbn [mbind exec_bind]. rewrite !containing_address_ok by lia.
  destruct (load_code_ok l4 code (code_pages entry code) 0 pm fa ram used Hfs)
    as (r & pm' & fa' & ram' & frames & more & Hrun & Hfs' & Hram & Htr & Hres); [by apply step_by_NoDup|lia|].
  exists r, pm', fa', ram'. split; [exact Hrun|]. split_and!; [|done..|].
  - exists (more ++ frames). by rewrite <- (assoc_L (++)).
  - destruct r as [[]|e]; [|done]. destruct Hres as [Hback Hholds]. intros i b Hb.
    pose proof (holds_code_byte l4 entry code pm' ram' frames i b He Hend Hback Hholds Hb) as Hbyte.
    by rewrite Hx, Z.div_mul, (Z.mul_comm 4096), <- Hx in Hbyte by lia.
Qed.

(** *** Tearing down a user address space *)

(** Indices of an address in the tables of level 4 and 3. *)
Definition table_index (level a : Z) : Z := Z.land (Z.shiftr a (12 + 9 * (level - 1))) 511.

Lemma visit_absent pm fr descend l l' (fa : FA) : (∀ i, i ∈ l → pte_present pm fr i = false) →
  visit_entries pm fr descend (l ++ l') fa = visit_entries pm fr descend l' fa.
Proof.
  induction l as [|i l IH]; intros Hl; [done|]. simpl. rewrite Hl by left. apply IH. intros j Hj. apply Hl. by right.
Qed.

Lemma dealloc_unfold pm n fr (fa : FA) :
  deallocate_user_page_table_recursive hddm pm (S (S n)) fr fa =
  (_ ← frame_virt hddm fr;
   visit_entries pm fr (deallocate_user_page_table_recursive hddm pm (S n)) (seq 0 256) fa).
Proof. reflexivity. Qed.

(** A table whose first half is empty is left alone. *)
Lemma dealloc_empty pm level fr fa :
  frame_virt hddm fr = Ret (fr + hddm) → (∀ i, (i < 256)%nat → pte_present pm fr i = false) →
  deallocate_user_page_table_recursive hddm pm level fr fa = Ret fa.
Proof.
  intros Hv Hnone. destruct level; cbn [deallocate_user_page_table_recursive]; rewrite Hv; cbn [mbind exec_bind];
    rewrite <- (app_nil_r (seq 0 256)), visit_absent; try done; intros i ?%elem_of_seq; apply Hnone; lia.
Qed.

(** The stack of a user task is not freed when the task exits.  The tables
    of its pages are reached through entry 511 of the level-3 table, and
    [deallocate_user_page_table_recursive] visits only the first 256 entries at
    every level: for a task whose only user mapping is its stack it frees the
    level-3 table and nothing else, so the frames of the stack and of the tables
    below stay allocated for ever. *)
Theorem user_stack_not_freed pm cr3 l3 fa used :
  fs_inv fa (l3 :: used) → cr3 ∈ used →
  (∀ i, (i < 256)%nat → pte_present pm cr3 i = bool_decide (i = 255%nat)) →
  pte_frame pm cr3 255 = Some l3 → (∀ i, (i < 256)%nat → pte_present pm l3 i = false) →
  (∀ a, a ∈ user_stack_pages → table_index 4 a = 255 ∧ table_index 3 a = 511) ∧
  ∃ fa', deallocate_user_page_table_recursive hddm pm 4 cr3 fa = Ret fa' ∧ fs_inv fa' used.
Proof.
  intros Hfs Hcr3 Hl4 Hchild Hl3. split.
  { intros a. unfold user_stack_pages. rewrite !elem_of_cons, elem_of_nil.
    intros [->|[->|[->|[->|[]]]]]; by vm_compute. }
  destruct (fs_deallocate_ok fa _ l3 used Hfs) as (fa' & Hd & Hfs'); [done|].
  exists fa'. split; [|done]. rewrite dealloc_unfold.
  rewrite (frame_virt_ok _ _ cr3 Hfs) by (by right). cbn [mbind exec_bind].
  change (seq 0 256) with (seq 0 255 ++ [255%nat]). rewrite visit_absent.
  2:{ intros i Hi%elem_of_seq. rewrite Hl4 by lia. apply bool_decide_eq_false. lia. }
  cbn [visit_entries]. rewrite Hl4, bool_decide_eq_true_2, Hchild by (done || lia). cbn [unwrap mbind exec_bind].
  rewrite dealloc_empty by (done || apply (frame_virt_ok _ _ l3 Hfs); by left). cbn [mbind exec_bind].
  rewrite Hd. done.
Qed.

End Spaces.

(** ** Runs *)

(** Table memory as two finite maps: the mappings of each address space, and
    the table entries that are present. *)
Section Model.

Abbreviation mtables := (gmap (Z * Z) (Z * PageTableFlags) * gmap (Z * nat) Z)%type.

Definition model_tables : PageTables mtables := {|
  pte_present pm fr i := bool_decide (is_Some (pm.2 !! (fr, i)));
  pte_frame pm fr i := pm.2 !! (fr, i);
  zero_table fr pm := (pm.1, filter (λ x, x.1.1 ≠ fr) pm.2);
  copy_entry dst src i pm :=
    (pm.1, match pm.2 !! (src, i) with Some f => <[(dst, i) := f]> pm.2 | None => delete (dst, i) pm.2 end);
|}.

Definition model_space : Mapper (mtables * Z) := {|
  map_to FA _ page frame flags pt fa :=
    match pt.1.1 !! (pt.2, page) with
    | Some (f, _) => Ret (Err (PageAlreadyMapped f), pt, fa)
    | None => Ret (Ok (), (<[(pt.2, page) := (frame, flags)]> pt.1.1, pt.1.2, pt.2), fa)
    end;
  unmap page pt :=
    match pt.1.1 !! (pt.2, page) with
    | Some (f, _) => (Ok f, (delete (pt.2, page) pt.1.1, pt.1.2, pt.2))
    | None => (Err PageNotMapped, pt)
    end;
  translate pt page := pt.1.1 !! (pt.2, page);
|}.

Lemma model_space_ok : @MapperOk _ model_space.
Proof.
  split; simpl.
  - intros FA af page frame flags [[m e] l4] fa pt' fa' H. simpl in *.
    destruct (m !! (l4, page)) as [[f fl]|] eqn:E; simplify_eq/=.
    split_and!; [done|by simplify_map_eq|]. intros q Hq. by rewrite lookup_insert_ne by congruence.
  - intros FA af page frame flags [[m e] l4] fa e' pt' fa' H. simpl in *.
    by destruct (m !! (l4, page)) as [[f fl]|]; simplify_eq.
  - intros FA af page frame flags [[m e] l4] fa f fl. simpl. intros ->. eauto.
  - intros FA af page frame flags [[m e] l4] fa r pt' fa' H. simpl in *.
    by destruct (m !! (l4, page)) as [[f fl]|]; simplify_eq.
  - intros FA af I page frame flags [[m e] l4] fa _ _. simpl. destruct (m !! (l4, page)) as [[f fl]|]; eauto.
  - intros page [[m e] l4] f pt' H. simpl in *. destruct (m !! (l4, page)) as [[f' fl]|] eqn:E; simplify_eq/=.
    split_and!; [eauto|by simplify_map_eq|]. intros q Hq. by rewrite lookup_delete_ne by congruence.
  - intros page [[m e] l4] e' pt' H. simpl in *. by destruct (m !! (l4, page)) as [[f' fl]|]; simplify_eq.
  - intros page [[m e] l4] f fl. simpl. intros ->. eauto.
Qed.

Lemma model_offset_ok : @OffsetTablesOk mtables model_space.
Proof.
  split. simpl. intros FA af page frame flags [m e] l4 fa r pm' l4' fa' H. simpl in *.
  by destruct (m !! (l4, page)) as [[f fl]|]; simplify_eq.
Qed.

End Model.

Section Runs.
#[local] Existing Instances model_addresses model_addresses_ok model_tables model_space model_space_ok
  model_offset_ok model_source model_source_ok.

Abbreviation mtables := (gmap (Z * Z) (Z * PageTableFlags) * gmap (Z * nat) Z)%type.
Abbreviation mkernel := (system mtables (list Z * list Z)).
Definition DIRECT_MAP : Z := 0xFFFF800000000000.

Definition idle_cpu : cpu := mkCpu 4096 8 16 2 0 0.
Definition boot_kernel : mkernel := mkKernel [] KernelSlabAlloc_new (∅, ∅) (free_frames 40) (λ _, 0) idle_cpu.

(** Two kernel tasks, a user task, and the boot task in front of them. *)
Definition boot_tasks : exec mkernel :=
  k ← kcreate_task 4096 0x1111 boot_kernel;
  k ← kcreate_task 4096 0x2222 k;
  '(r, k) ← ucreate_task 4096 DIRECT_MAP 0x400000 (Some [0x48; 0xc7; 0xc0]) k;
  mret (kinit_multitasking k).

Lemma boot_tasks_run :
  match boot_tasks with
  | Ret k => (λ t, t.(pcb_state)) <$> k.(k_tasks) = [Running; Ready; Ready; Ready]
  | _ => False
  end.
Proof. by vm_compute. Qed.

Lemma booted : ∃ k, rtc (sched_step 4096 DIRECT_MAP) boot_kernel k ∧
  (λ t, t.(pcb_state)) <$> k.(k_tasks) = [Running; Ready; Ready; Ready].
Proof.
  pose proof boot_tasks_run as Hrun. unfold boot_tasks in Hrun.
  destruct (kcreate_task 4096 0x1111 boot_kernel) as [k1| |] eqn:H1; [|done..]. cbn [mbind exec_bind] in Hrun.
  destruct (kcreate_task 4096 0x2222 k1) as [k2| |] eqn:H2; [|done..]. cbn [mbind exec_bind] in Hrun.
  destruct (ucreate_task 4096 DIRECT_MAP 0x400000 _ k2) as [[r k3]| |] eqn:H3; [|done..].
  cbn [mbind exec_bind mret exec_ret] in Hrun. exists (kinit_multitasking k3). split; [|done].
  eapply rtc_l; [by eapply step_kcreate|]. eapply rtc_l; [by eapply step_kcreate|].
  eapply rtc_l; [by eapply step_ucreate|]. apply rtc_once, step_kinit.
  clear -Hrun. apply Forall_forall. intros t Ht. left.
  assert (pcb_state t ∈ (λ t, t.(pcb_state)) <$> k_tasks k3) as Hin by (apply list_elem_of_fmap; by exists t).
  injection Hrun as Hrun. change (list_fmap _ _ _ _) with ((λ t, t.(pcb_state)) <$> k_tasks k3) in Hrun.
  rewrite Hrun in Hin. set_solver.
Qed.

Lemma scheduler_invariant_witness : ∃ k : mkernel,
  (λ t, t.(pcb_state)) <$> k.(k_tasks) = [Running; Ready; Ready; Ready] ∧ NoDup (omap task_stack k.(k_tasks)).
Proof.
  destruct booted as (k & Hsteps & Hs). exists k. split; [exact Hs|].
  apply (scheduler_invariant 4096 DIRECT_MAP boot_kernel k); [done|exact Hsteps].
Defined.

Definition tick (n : Z) : TaskRegisters := zeroed_regs n 8 2 n 16.


Definition sample_task (st : TaskState) : ProcessControlBlock :=
  mkProcessControlBlock (User (mkUserInfo 0x7fffffff0000 0x7ffffdff0000 4 (slot_top 0))) (tick 9) st 8192.
Definition sample_kernel (ts : list ProcessControlBlock) : mkernel :=
  mkKernel ts KernelSlabAlloc_new (∅, ∅) ([12288; 16384], [8192]) (λ _, 0) idle_cpu.

Lemma waiting_task_resumed_witness : ∃ k',
  schedule_inner DIRECT_MAP (tick 1) (sample_kernel [sample_task Running; sample_task (Waiting (Interrupt 33))])
    = Ret (tick 9, k') ∧ head k'.(k_tasks) = Some (set_state Running (sample_task (Waiting (Interrupt 33)))).
Proof.
  exact (waiting_task_resumed DIRECT_MAP (tick 1)
    (sample_kernel [sample_task Running; sample_task (Waiting (Interrupt 33))]) (sample_task Running)
    (sample_task (Waiting (Interrupt 33))) [] (Interrupt 33) eq_refl eq_refl eq_refl).
Defined.

Lemma direct_map_covers (fa : list Z * list Z) used p : fs_inv fa used → p ∈ used → p + DIRECT_MAP < 2 ^ 64.
Proof. intros Hfs Hp. destruct (fs_inv_frame _ _ _ Hfs Hp). unfold DIRECT_MAP. lia. Qed.

Lemma sample_inv : fs_inv ([12288; 16384], [8192]) [8192].
Proof. split; [done|]. split; by apply (bool_decide_unpack _); vm_compute. Qed.

Lemma stack_growth_witness :
  ∃ r k', try_grow_user_stack DIRECT_MAP 0x7fffffe00000 (sample_kernel [sample_task Running]) = Ret (r, k').
Proof.
  destruct (stack_growth DIRECT_MAP ltac:(done) direct_map_covers (sample_kernel [sample_task Running]) [8192]
    (sample_task Running) [] (mkUserInfo 0x7fffffff0000 0x7ffffdff0000 4 (slot_top 0)) 0x7fffffe00000)
    as (r & k' & Hrun & _); [done|done|simpl; lia|exact sample_inv|by left|].
  exists r, k'. exact Hrun.
Defined.

Abbreviation sample_load :=
  (load_code_opt DIRECT_MAP 8192 0x400000 (Some [0x48; 0xc7; 0xc0]) ((∅, ∅) : mtables)
    ([12288; 16384], [8192]) (λ _, 0)).
Lemma sample_load_run : match sample_load with Ret (Ok _, _, _, _) => True | _ => False end.
Proof. vm_compute. exact I. Qed.

Lemma code_loaded_witness : ∃ pm' fa' ram', sample_load = Ret (Ok (), pm', fa', ram') ∧
  user_byte DIRECT_MAP pm' 8192 ram' 0x400002 = Some 0xc0.
Proof.
  pose proof sample_load_run as Hok.
  destruct (code_loaded DIRECT_MAP ltac:(done) direct_map_covers 8192 0x400000 [0x48; 0xc7; 0xc0] (∅, ∅)
    ([12288; 16384], [8192]) (λ _, 0) [8192] sample_inv ltac:(lia) ltac:(by exists 0x400) ltac:(done) ltac:(simpl; lia))
    as (r & pm' & fa' & ram' & Hrun & _ & _ & _ & Hres).
  rewrite Hrun in Hok. destruct r as [[]|e]; [|destruct Hok].
  exists pm', fa', ram'. split; [exact Hrun|]. exact (Hres 2%nat 0xc0 eq_refl).
Defined.

Lemma user_stack_not_freed_witness :
  (∀ a, a ∈ user_stack_pages → table_index 4 a = 255 ∧ table_index 3 a = 511) ∧
  ∃ fa', deallocate_user_page_table_recursive DIRECT_MAP
    ((∅, {[ (8192, 255%nat) := 12288; (12288, 511%nat) := 16384 ]}) : mtables) 4 8192
    ([], [8192; 12288; 16384]) = Ret fa' ∧ fs_inv fa' [8192; 16384].
Proof.
  apply (user_stack_not_freed DIRECT_MAP ltac:(done) direct_map_covers _ 8192 12288).
  - split; [apply perm_swap|]. split; by apply (bool_decide_unpack _); vm_compute.
  - by left.
  - intros i Hi. simpl. destruct (decide (i = 255%nat)) as [->|Hne]; [by vm_compute|].
    rewrite (bool_decide_eq_false_2 (i = 255%nat)) by done. apply bool_decide_eq_false_2.
    rewrite lookup_insert_ne, lookup_singleton_ne by congruence. by intros [? ?].
  - reflexivity.
  - intros i Hi. simpl. apply bool_decide_eq_false_2. rewrite lookup_insert_ne by congruence.
    rewrite lookup_singleton_ne by (intros [= Heq]; lia). by intros [? ?].
Defined.

End Runs.
