(* ===== verification/Syscall.v ===== *)
(** * Syscall: the system call interface

    syscall.rs: the entry code of the [syscall] instruction, as instructions of
    Asm.v around [handle_syscall], the dispatch on the call number, and
    [sys_exit] and [sys_write].  gdt.rs: the segments, and which of them a
    return from a system call selects.  What [sys_write] prints is a state of
    two byte sequences, the serial port and the console. *)

From stdpp Require Import functions.
From S2P Require Import Prelude X86 FrameSource KernelSlab Asm Scheduler.

(** ** The entry code *)

Record SyscallRegs := mkSyscallRegs {
  sr_r15 : Z; sr_r14 : Z; sr_r13 : Z; sr_r12 : Z; sr_rbp : Z; sr_rbx : Z;
  sr_r9 : Z; sr_r8 : Z; sr_r10 : Z; sr_rdx : Z; sr_rsi : Z; sr_rdi : Z;
  sr_rax : Z; sr_rip : Z; sr_rflags : Z; sr_rsp : Z;
}.

(** [#[repr(C)]]: the fields as consecutive words. *)
Definition syscall_words (s : SyscallRegs) : list Z :=
  [sr_r15 s; sr_r14 s; sr_r13 s; sr_r12 s; sr_rbp s; sr_rbx s; sr_r9 s; sr_r8 s; sr_r10 s; sr_rdx s;
   sr_rsi s; sr_rdi s; sr_rax s; sr_rip s; sr_rflags s; sr_rsp s].

Definition syscall_handler : list instr :=
  [StoreStatic USER_RSP RSP;
   LoadStatic RSP KERNEL_SYSCALL_STACK;
   PushStatic USER_RSP;
   Push R11; Push RCX; Push RAX; Push RDI; Push RSI; Push RDX; Push R10; Push R8; Push R9; Push RBX;
   Push RBP; Push R12; Push R13; Push R14; Push R15;
   Mov RDI RSP; Call;
   Pop R15; Pop R14; Pop R13; Pop R12; Pop RBP; Pop RBX; Pop R9; Pop R8; Pop R10; Pop RDX; Pop RSI;
   Pop RDI;
   AddImm RSP 8; Pop RCX; Pop R11; Pop RSP;
   Sysretq].

(** The registers a user program has at the [syscall] instruction: the
    processor has put the return address into [RCX] and the flags into [R11]. *)
Definition called_with (s : SyscallRegs) (m : machine) : Prop :=
  s = mkSyscallRegs (m.(m_reg) R15) (m.(m_reg) R14) (m.(m_reg) R13) (m.(m_reg) R12) (m.(m_reg) RBP)
        (m.(m_reg) RBX) (m.(m_reg) R9) (m.(m_reg) R8) (m.(m_reg) R10) (m.(m_reg) RDX) (m.(m_reg) RSI)
        (m.(m_reg) RDI) (m.(m_reg) RAX) (m.(m_reg) RCX) (m.(m_reg) R11) (m.(m_reg) RSP).

(** A callee that gets the address of [s] in [RDI], leaves it as it is, does not
    write [STAR], and returns [v] with the stack pointer unchanged. *)
Definition answers (callee : machine → machine) (s : SyscallRegs) (v : Z) : Prop :=
  ∀ m, m.(m_reg) RDI = m.(m_reg) RSP → words m.(m_mem) (m.(m_reg) RDI) 16 = syscall_words s →
    (callee m).(m_reg) RSP = m.(m_reg) RSP ∧ (callee m).(m_reg) RAX = v ∧
    STAR (callee m) = STAR m ∧ words (callee m).(m_mem) (m.(m_reg) RDI) 16 = syscall_words s.

(** ** The calls *)

Inductive SyscallNumber : Type := Exit | Write | Read.
Definition SyscallNumber_from_u64 (n : Z) : option SyscallNumber :=
  if n =? 0 then Some Exit
  else if n =? 1 then Some Write
  else if n =? 2 then Some Read
  else None.

Definition u64_MAX : Z := 2 ^ 64 - 1.

(** [x as i32] of a [u64]. *)
Definition as_i32 (x : Z) : Z := let y := x mod 2 ^ 32 in if y <? 2 ^ 31 then y else y - 2 ^ 32.

(** [core::str::from_utf8]: well-formed byte sequences of the Unicode standard. *)
Definition in_range (lo hi b : Z) : bool := (lo <=? b) && (b <=? hi).
Definition is_cont (b : Z) : bool := in_range 0x80 0xBF b.
Fixpoint from_utf8 (l : list Z) : bool :=
  match l with
  | [] => true
  | b0 :: l =>
      if b0 <? 0x80 then from_utf8 l
      else if in_range 0xC2 0xDF b0 then
        match l with b1 :: l => is_cont b1 && from_utf8 l | _ => false end
      else if in_range 0xE0 0xEF b0 then
        match l with
        | b1 :: b2 :: l =>
            in_range (if b0 =? 0xE0 then 0xA0 else 0x80) (if b0 =? 0xED then 0x9F else 0xBF) b1 &&
            is_cont b2 && from_utf8 l
        | _ => false
        end
      else if in_range 0xF0 0xF4 b0 then
        match l with
        | b1 :: b2 :: b3 :: l =>
            in_range (if b0 =? 0xF0 then 0x90 else 0x80) (if b0 =? 0xF4 then 0x8F else 0xBF) b1 &&
            is_cont b2 && is_cont b3 && from_utf8 l
        | _ => false
        end
      else false
  end.

Record output := mkOutput { out_serial : list Z; out_console : list Z }.

(** [core::slice::from_raw_parts(buf, count)] on the memory of the caller. *)
Definition from_raw_parts (mem : Z → Z) (buf count : Z) : list Z := mem <$> seqZ buf count.

Definition sys_write (mem : Z → Z) (fd buf count : Z) (o : output) : Z * output :=
  if negb (fd =? 1) && negb (fd =? 2) then (u64_MAX, o)
  else
    let buf_addr := buf in
    if (0x0000800000000000 <=? buf_addr) ||
       (0x0000800000000000 <=? saturating_add 64 buf_addr count) then (u64_MAX, o)
    else if count =? 0 then (0, o)
    else
      let slice := from_raw_parts mem buf count in
      if from_utf8 slice then
        (count, mkOutput (o.(out_serial) ++ slice)
                  (if fd =? 1 then o.(out_console) ++ slice else o.(out_console)))
      else (u64_MAX, o).

(** A call returns a value to the program, or ends the calling task. *)
Inductive sys_outcome (K : Type) : Type :=
  | SysReturn (v : Z) (o : output)
  | SysExit (k : K).
Arguments SysReturn {K} _ _.
Arguments SysExit {K} _.

Definition sys_exit {PM FA} (exit_code : Z) (k : system PM FA) : exec (sys_outcome (system PM FA)) :=
  k ← exit_task k;
  mret (SysExit k).

Definition handle_syscall {PM FA} (mem : Z → Z) (regs : SyscallRegs) (k : system PM FA) (o : output)
    : exec (sys_outcome (system PM FA)) :=
  match SyscallNumber_from_u64 regs.(sr_rax) with
  | None => mret (SysReturn u64_MAX o)
  | Some Exit => sys_exit (as_i32 regs.(sr_rdi)) k
  | Some Write =>
      let '(v, o) := sys_write mem (as_i32 regs.(sr_rdi)) regs.(sr_rsi) regs.(sr_rdx) o in
      mret (SysReturn v o)
  | Some Read => Panic
  end.

(** ** Segments (gdt.rs) *)

Inductive Descriptor : Type :=
  | kernel_code_segment | kernel_data_segment | user_code_segment | user_data_segment | tss_segment.
#[export] Instance Descriptor_eq_dec : EqDecision Descriptor.
Proof. solve_decision. Defined.

(** [GlobalDescriptorTable::append] in the order of [GDT]; entry 0 is null. *)
Definition GDT : list (option Descriptor) :=
  [None; Some kernel_code_segment; Some kernel_data_segment; Some user_code_segment;
   Some user_data_segment; Some tss_segment].

Abbreviation KERNEL_CODE_SEGMENT_INDEX := (1) (only parsing).
Abbreviation KERNEL_DATA_SEGMENT_INDEX := (2) (only parsing).

(** [SegmentSelector::new(index, rpl)] and the entry a selector selects. *)
Definition SegmentSelector_new (index rpl : Z) : Z := Z.lor (Z.shiftl index 3) rpl.
Definition selected (selector : Z) : option Descriptor := mjoin (GDT !! Z.to_nat (Z.shiftr selector 3)).

(** The machine registers of the [syscall] instruction.  [Star_write] is
    [Star::write] of the x86_64 crate, giving the value it puts into the register. *)
Section Init.
Context (Star_write : Z → Z → Z → Z → option Z).

Record syscall_msrs := mkMsrs { msr_sce : bool; msr_star : Z; msr_lstar : Z; msr_sfmask : Z }.

Definition init_syscall (handler : Z) : exec syscall_msrs :=
  let kernel_cs := SegmentSelector_new KERNEL_CODE_SEGMENT_INDEX 0 in
  let kernel_ss := SegmentSelector_new KERNEL_DATA_SEGMENT_INDEX 0 in
  let user_cs_32 := SegmentSelector_new USER_DATA_SEGMENT_INDEX 3 in
  let user_cs := SegmentSelector_new USER_CODE_SEGMENT_INDEX 3 in
  star ← unwrap (Star_write user_cs_32 user_cs kernel_cs kernel_ss);
  mret (mkMsrs true star handler 0x200).
End Init.

(** ** The entry code keeps the registers of the program *)

Definition saved_regs : list reg := [R15; R14; R13; R12; RBP; RBX; R9; R8; R10; RDX; RSI; RDI; RAX; RCX; R11].
Definition restored_regs : list reg := [R15; R14; R13; R12; RBP; RBX; R9; R8; R10; RDX; RSI; RDI].

(** Switching to the kernel stack. *)
Lemma run_enter callee m :
  let m' := run_all callee [StoreStatic USER_RSP RSP; LoadStatic RSP KERNEL_SYSCALL_STACK; PushStatic USER_RSP] m in
  let K := m.(m_static) KERNEL_SYSCALL_STACK in
  m'.(m_reg) RSP = K - 8 ∧ (∀ r, r ≠ RSP → m'.(m_reg) r = m.(m_reg) r) ∧
  m'.(m_mem) (K - 8) = m.(m_reg) RSP ∧ STAR m' = STAR m.
Proof.
  cbn [run_all foldl run_instr]. unfold push, set_reg, set_mem, set_static. cbn [m_reg m_mem m_static].
  rewrite fn_lookup_insert, !(fn_lookup_insert_ne _ USER_RSP KERNEL_SYSCALL_STACK) by done. cbn zeta.
  rewrite !fn_lookup_insert. split_and!; [done| |done..]. intros r Hr. by rewrite !fn_lookup_insert_ne.
Qed.

(** The call, with the context on the stack. *)
Lemma run_handle callee s v m : answers callee s v → words m.(m_mem) (m.(m_reg) RSP) 16 = syscall_words s →
  let m' := run_all callee [Mov RDI RSP; Call] m in
  m'.(m_reg) RSP = m.(m_reg) RSP ∧ m'.(m_reg) RAX = v ∧ STAR m' = STAR m ∧
  words m'.(m_mem) (m.(m_reg) RSP) 16 = syscall_words s.
Proof.
  intros Hans Hw. cbn [run_all foldl run_instr].
  assert (m_reg (set_reg RDI (m_reg m RSP) m) RDI = m_reg m RSP) as Hrdi by (apply fn_lookup_insert).
  assert (m_reg (set_reg RDI (m_reg m RSP) m) RSP = m_reg m RSP) as Hrsp by (by apply fn_lookup_insert_ne).
  destruct (Hans (set_reg RDI (m.(m_reg) RSP) m)) as (H1 & H2 & H3 & H4); rewrite ?Hrdi, ?Hrsp in *; [done..|].
  cbn zeta. by rewrite H1, H2, H3, H4.
Qed.

(** Back to the program. *)
Lemma run_leave_pops callee m :
  let m' := run_all callee [AddImm RSP 8; Pop RCX; Pop R11; Pop RSP] m in
  let w k := m.(m_mem) (m.(m_reg) RSP + 8 * k) in
  m'.(m_reg) RCX = w 1 ∧ m'.(m_reg) R11 = w 2 ∧ m'.(m_reg) RSP = w 3 ∧ m'.(m_msr) = m.(m_msr) ∧
  m'.(m_reg) RAX = m.(m_reg) RAX ∧ ∀ r, r ∈ restored_regs → m'.(m_reg) r = m.(m_reg) r.
Proof.
  cbn [run_all foldl run_instr]. unfold pop, set_reg. cbn [m_reg m_mem].
  repeat (rewrite fn_lookup_insert || rewrite fn_lookup_insert_ne by done).
  split_and!; try (f_equal; lia); try done.
  intros r Hr. rewrite !fn_lookup_insert_ne; [done|..]; intros <-; revert Hr; by apply (bool_decide_unpack _); vm_compute.
Qed.

Lemma run_leave callee m :
  let m' := run_all callee [AddImm RSP 8; Pop RCX; Pop R11; Pop RSP; Sysretq] m in
  let w k := m.(m_mem) (m.(m_reg) RSP + 8 * k) in
  m'.(m_reg) RIP = w 1 ∧ m'.(m_reg) RCX = w 1 ∧ m'.(m_reg) RFLAGS = sysret_flags (w 2) ∧ m'.(m_reg) R11 = w 2 ∧
  m'.(m_reg) RSP = w 3 ∧ m'.(m_reg) CS = sysret_cs (STAR m) ∧ m'.(m_reg) SS = sysret_ss (STAR m) ∧
  m'.(m_reg) RAX = m.(m_reg) RAX ∧ ∀ r, r ∈ restored_regs → m'.(m_reg) r = m.(m_reg) r.
Proof.
  change [AddImm RSP 8; Pop RCX; Pop R11; Pop RSP; Sysretq]
    with ([AddImm RSP 8; Pop RCX; Pop R11; Pop RSP] ++ [Sysretq]).
  rewrite run_app. destruct (run_leave_pops callee m) as (Hrcx & Hr11 & Hrsp & Hmsr & Hrax & Hres).
  revert Hrcx Hr11 Hrsp Hmsr Hrax Hres. generalize (run_all callee [AddImm RSP 8; Pop RCX; Pop R11; Pop RSP] m) as m4.
  intros m4 Hrcx Hr11 Hrsp Hmsr Hrax Hres. cbn [run_all foldl run_instr]. cbn zeta.
  assert (STAR m4 = STAR m) as -> by (unfold msr_value; by rewrite Hmsr).
  rewrite Hrcx, Hr11, <- Hrax, <- Hrsp. unfold set_reg. cbn [m_reg].
  repeat (rewrite fn_lookup_insert || rewrite fn_lookup_insert_ne by done).
  split_and!; try done. intros r Hr. rewrite <- (Hres r Hr).
  rewrite !fn_lookup_insert_ne; [done|..]; intros <-; revert Hr; by apply (bool_decide_unpack _); vm_compute.
Qed.

(** The part of [syscall_handler] before the pops: the callee has answered, and
    the context is on the stack. *)
Lemma run_syscall_call callee s v m : called_with s m → answers callee s v →
  let m3 := run_all callee (take 20 syscall_handler) m in
  m3.(m_reg) RAX = v ∧ STAR m3 = STAR m ∧ words m3.(m_mem) (m3.(m_reg) RSP) 16 = syscall_words s.
Proof.
  intros Hs Hans.
  change (take 20 syscall_handler) with (
    [StoreStatic USER_RSP RSP; LoadStatic RSP KERNEL_SYSCALL_STACK; PushStatic USER_RSP] ++
    (Push <$> reverse saved_regs) ++ [Mov RDI RSP; Call]).
  rewrite !run_app. destruct (run_enter callee m) as (Hsp1 & Hreg1 & Hmem1 & Hstar1). revert Hsp1 Hreg1 Hmem1 Hstar1.
  generalize (run_all callee [StoreStatic USER_RSP RSP; LoadStatic RSP KERNEL_SYSCALL_STACK; PushStatic USER_RSP] m) as m1.
  generalize (m.(m_static) KERNEL_SYSCALL_STACK) as K. intros K m1 Hsp1 Hreg1 Hmem1 Hstar1.
  destruct (run_pushes callee (reverse saved_regs) m1) as (Hsp2 & _ & _ & Hmsr2 & Hw2 & Hhigh);
    [by apply (bool_decide_unpack _); vm_compute|].
  rewrite <- fmap_reverse, reverse_involutive in Hw2. change (length (reverse saved_regs)) with 15%nat in *.
  revert Hsp2 Hmsr2 Hw2 Hhigh. generalize (run_all callee (Push <$> reverse saved_regs) m1) as m2.
  intros m2 Hsp2 Hmsr2 Hw2 Hhigh.
  assert (words m2.(m_mem) (m2.(m_reg) RSP) 16 = syscall_words s) as Hctx.
  { rewrite (words_app _ _ 15 1), Hw2. unfold words. change (seqZ 0 (Z.of_nat 1)) with [0]. simpl.
    replace (m_reg m2 RSP + 8 * Z.of_nat 15 + 8 * 0) with (K - 8) by lia.
    rewrite Hhigh, Hmem1 by lia. rewrite !Hreg1 by done. by rewrite Hs. }
  destruct (run_handle callee s v m2 Hans Hctx) as (Hsp3 & Hrax & Hstar3 & Hw3). cbn zeta.
  rewrite Hrax, Hstar3, Hsp3, Hw3. split_and!; [done| |done]. rewrite <- Hstar1. unfold msr_value. by rewrite Hmsr2.
Qed.

(** C17: a system call returns to the program with its registers intact.  When
    [handle_syscall] answers [v], the program continues at the address after the
    [syscall] instruction with [v] in [RAX] and every other general register,
    [RCX], [R11] and the stack pointer included, as it was when the handler was
    entered; the flags are those [sysretq] takes from [R11], and the segment
    registers [CS] and [SS] get the selectors that [STAR] has for [sysretq].  The
    handler sees the registers of the program in the fields of [SyscallRegs]. *)
Theorem syscall_preserves_registers callee s v m :
  called_with s m → answers callee s v →
  let m' := run_all callee syscall_handler m in
  m'.(m_reg) RAX = v ∧ m'.(m_reg) RIP = m.(m_reg) RCX ∧ m'.(m_reg) RFLAGS = sysret_flags (m.(m_reg) R11) ∧
  m'.(m_reg) CS = sysret_cs (STAR m) ∧ m'.(m_reg) SS = sysret_ss (STAR m) ∧
  ∀ r, r ∉ [RAX; RIP; RFLAGS; CS; SS] → m'.(m_reg) r = m.(m_reg) r.
Proof.
  intros Hs Hans. change syscall_handler with (take 20 syscall_handler ++ (Pop <$> restored_regs) ++
    [AddImm RSP 8; Pop RCX; Pop R11; Pop RSP; Sysretq]).
  rewrite !run_app. destruct (run_syscall_call callee s v m Hs Hans) as (Hrax & Hstar3 & Hw3). revert Hrax Hstar3 Hw3.
  generalize (run_all callee (take 20 syscall_handler) m) as m3. intros m3 Hrax Hstar3 Hw3.
  destruct (run_pops callee restored_regs m3) as (Hsp4 & Hmem4 & _ & Hmsr4 & Hw4 & Hoth4);
    [by apply (bool_decide_unpack _); vm_compute..|]. change (length restored_regs) with 12%nat in *.
  revert Hsp4 Hmem4 Hmsr4 Hw4 Hoth4. generalize (run_all callee (Pop <$> restored_regs) m3) as m4.
  intros m4 Hsp4 Hmem4 Hmsr4 Hw4 Hoth4.
  destruct (run_leave callee m4) as (Hrip & Hrcx & Hfl & Hr11 & Hrsp & Hcs & Hss & Hrax5 & Hres).
  revert Hrip Hrcx Hfl Hr11 Hrsp Hcs Hss Hrax5 Hres.
  generalize (run_all callee [AddImm RSP 8; Pop RCX; Pop R11; Pop RSP; Sysretq] m4) as m5.
  intros m5 Hrip Hrcx Hfl Hr11 Hrsp Hcs Hss Hrax5 Hres.
  assert (STAR m4 = STAR m) as Hstar by (rewrite <- Hstar3; unfold msr_value; by rewrite Hmsr4).
  rewrite (words_app _ _ 12 4), <- (take_drop 12 (syscall_words s)) in Hw3.
  apply app_inj_1 in Hw3 as [Hlow Hhi]; [|by rewrite words_length].
  rewrite <- Hw4 in Hlow. rewrite <- Hsp4, <- Hmem4 in Hhi. unfold words in Hhi.
  change (seqZ 0 (Z.of_nat 4)) with [0; 1; 2; 3] in Hhi. cbn [fmap list_fmap] in Hhi.
  rewrite Hs in Hhi, Hlow. cbn [syscall_words drop take sr_rax sr_rip sr_rflags sr_rsp sr_r15 sr_r14 sr_r13 sr_r12
    sr_rbp sr_rbx sr_r9 sr_r8 sr_r10 sr_rdx sr_rsi sr_rdi] in Hhi, Hlow. injection Hhi as _ E1 E2 E3.
  cbn zeta. rewrite Hrax5, Hrip, Hfl, Hcs, Hss, Hstar, E1, E2. split_and!; [|done..|].
  - rewrite Hoth4; [done|done|]. by apply (bool_decide_unpack _); vm_compute.
  - intros r Hr. destruct (decide (r ∈ restored_regs)) as [Hin|Hnin].
    + rewrite (Hres r Hin). apply list_elem_of_lookup in Hin as [i Hi].
      apply (f_equal (λ l, l !! i)) in Hlow. rewrite list_lookup_fmap, Hi in Hlow.
      change (_ :: _) with (m_reg m <$> restored_regs) in Hlow. rewrite list_lookup_fmap, Hi in Hlow. by injection Hlow.
    + destruct r; try (by destruct Hr; set_solver-); try (by destruct Hnin; set_solver-); congruence.
Qed.

Lemma syscall_preserves_registers_witness :
  ∃ callee m, let m' := run_all callee syscall_handler m in
    m'.(m_reg) RAX = 7 ∧ m'.(m_reg) RIP = m.(m_reg) RCX ∧ m'.(m_reg) RFLAGS = sysret_flags (m.(m_reg) R11) ∧
    m'.(m_reg) CS = 0x23 ∧ m'.(m_reg) SS = 0x1b ∧
    ∀ r, r ∉ [RAX; RIP; RFLAGS; CS; SS] → m'.(m_reg) r = m.(m_reg) r.
Proof.
  set (callee := set_reg RAX 7).
  set (m := mkMachine (λ r, if decide (r = RSP) then 5000 else 3) (λ _, 0) (λ _, 90000)
              [(0xC0000081, 0x13 * 2 ^ 48 + 8 * 2 ^ 32)]).
  exists callee, m.
  apply (syscall_preserves_registers callee (mkSyscallRegs 3 3 3 3 3 3 3 3 3 3 3 3 3 3 3 5000) 7 m); [done|].
  intros m0 _ Hw. unfold callee, set_reg. cbn [m_reg m_mem].
  rewrite fn_lookup_insert, fn_lookup_insert_ne by done. done.
Defined.

(** ** System calls *)

(** UTF-8 as the Unicode standard defines it: the encodings of scalar values, one
    after the other. *)
Definition scalar_value (c : Z) : Prop := 0 ≤ c < 0xD800 ∨ 0xE000 ≤ c < 0x110000.
Definition utf8_encode (c : Z) : list Z :=
  if c <? 0x80 then [c]
  else if c <? 0x800 then [0xC0 + c / 64; 0x80 + c mod 64]
  else if c <? 0x10000 then [0xE0 + c / 4096; 0x80 + c / 64 mod 64; 0x80 + c mod 64]
  else [0xF0 + c / 262144; 0x80 + c / 4096 mod 64; 0x80 + c / 64 mod 64; 0x80 + c mod 64].
Definition utf8 (l : list Z) : Prop := ∃ cs, Forall scalar_value cs ∧ l = concat (utf8_encode <$> cs).

Lemma in_range_true lo hi b : in_range lo hi b = true ↔ lo ≤ b ≤ hi.
Proof. unfold in_range. rewrite andb_true_iff, !Z.leb_le. lia. Qed.
Lemma in_range_false lo hi b : in_range lo hi b = false ↔ b < lo ∨ hi < b.
Proof. unfold in_range. rewrite andb_false_iff, !Z.leb_gt. lia. Qed.

(** Decides the comparisons of a goal by arithmetic. *)
Ltac byte_cases :=
  repeat match goal with
  | |- context [?a <? ?b] => first [rewrite (proj2 (Z.ltb_lt a b)) by lia | rewrite (proj2 (Z.ltb_ge a b)) by lia]
  | |- context [in_range ?lo ?hi ?b] =>
      first [rewrite (proj2 (in_range_true lo hi b)) by lia | rewrite (proj2 (in_range_false lo hi b)) by lia]
  end.

(** Equality of byte lists with divisions. *)
Ltac byte_lists :=
  repeat match goal with |- _ :: _ = _ :: _ => f_equal end; Z.to_euclidean_division_equations; lia.

Lemma from_utf8_encode c l : scalar_value c → from_utf8 (utf8_encode c ++ l) = from_utf8 l.
Proof.
  intros Hc. unfold scalar_value in Hc. unfold utf8_encode.
  pose proof (Z.mod_pos_bound c 64 ltac:(lia)). pose proof (Z.div_mod c 64 ltac:(lia)).
  pose proof (Z.mod_pos_bound (c / 64) 64 ltac:(lia)). pose proof (Z.div_mod (c / 64) 64 ltac:(lia)) as Hd2.
  pose proof (Z.mod_pos_bound (c / 4096) 64 ltac:(lia)). pose proof (Z.div_mod (c / 4096) 64 ltac:(lia)) as Hd3.
  rewrite Z.div_div in Hd2, Hd3 by lia. change (64 * 64) with 4096 in Hd2. change (4096 * 64) with 262144 in Hd3.
  destruct (Z.ltb_spec c 0x80); [|destruct (Z.ltb_spec c 0x800); [|destruct (Z.ltb_spec c 0x10000)]];
    simpl; unfold is_cont.
  - by byte_cases.
  - by byte_cases.
  - byte_cases.
    destruct (Z.eqb_spec (0xE0 + c / 4096) 0xE0); destruct (Z.eqb_spec (0xE0 + c / 4096) 0xED);
      try lia; by byte_cases.
  - byte_cases.
    destruct (Z.eqb_spec (0xF0 + c / 262144) 0xF0); destruct (Z.eqb_spec (0xF0 + c / 262144) 0xF4);
      try lia; by byte_cases.
Qed.

(** The scalar value of two, three and four bytes. *)
Lemma utf8_encode_2 b0 b1 : 0xC2 ≤ b0 ≤ 0xDF → 0x80 ≤ b1 ≤ 0xBF →
  ∃ c, scalar_value c ∧ utf8_encode c = [b0; b1].
Proof.
  intros H0 H1. exists ((b0 - 0xC0) * 64 + (b1 - 0x80)). unfold scalar_value, utf8_encode. split; [lia|].
  byte_cases. byte_lists.
Qed.
Lemma utf8_encode_3 b0 b1 b2 : 0xE0 ≤ b0 ≤ 0xEF → 0x80 ≤ b2 ≤ 0xBF →
  (if b0 =? 0xE0 then 0xA0 else 0x80) ≤ b1 ≤ (if b0 =? 0xED then 0x9F else 0xBF) →
  ∃ c, scalar_value c ∧ utf8_encode c = [b0; b1; b2].
Proof.
  intros H0 H2 H1. exists ((b0 - 0xE0) * 4096 + (b1 - 0x80) * 64 + (b2 - 0x80)). unfold scalar_value, utf8_encode.
  destruct (Z.eqb_spec b0 0xE0), (Z.eqb_spec b0 0xED); (split; [lia|]); byte_cases; byte_lists.
Qed.
Lemma utf8_encode_4 b0 b1 b2 b3 : 0xF0 ≤ b0 ≤ 0xF4 → 0x80 ≤ b2 ≤ 0xBF → 0x80 ≤ b3 ≤ 0xBF →
  (if b0 =? 0xF0 then 0x90 else 0x80) ≤ b1 ≤ (if b0 =? 0xF4 then 0x8F else 0xBF) →
  ∃ c, scalar_value c ∧ utf8_encode c = [b0; b1; b2; b3].
Proof.
  intros H0 H2 H3 H1. exists ((b0 - 0xF0) * 262144 + (b1 - 0x80) * 4096 + (b2 - 0x80) * 64 + (b3 - 0x80)).
  unfold scalar_value, utf8_encode.
  destruct (Z.eqb_spec b0 0xF0), (Z.eqb_spec b0 0xF4); (split; [lia|]); byte_cases; byte_lists.
Qed.

Lemma utf8_app c l : scalar_value c → utf8 l → utf8 (utf8_encode c ++ l).
Proof. intros Hc (cs & Hcs & ->). exists (c :: cs). split; [by constructor|done]. Qed.

(** [from_utf8] accepts exactly the encodings. *)
Lemma from_utf8_sound n : ∀ l, (length l ≤ n)%nat → Forall (λ b, 0 ≤ b) l → from_utf8 l = true → utf8 l.
Proof.
  induction n as [|n IH]; intros [|b0 l] Hlen Hb; [by exists []|simpl in Hlen; lia|by exists []|].
  simpl in Hlen. apply Forall_cons in Hb as [Hb0 Hb]. cbn [from_utf8].
  destruct (Z.ltb_spec b0 0x80).
  { intros Hl. change (b0 :: l) with ([b0] ++ l).
    replace [b0] with (utf8_encode b0) by (unfold utf8_encode; by byte_cases).
    apply utf8_app; [unfold scalar_value; lia|apply IH; [lia|done..]]. }
  destruct (in_range 0xC2 0xDF b0) eqn:R2; [apply in_range_true in R2|].
  { destruct l as [|b1 l]; [done|]. intros [H1%in_range_true Hl]%andb_true_iff. decompose_Forall.
    destruct (utf8_encode_2 b0 b1) as (c & Hc & He); [done..|].
    change (b0 :: b1 :: l) with ([b0; b1] ++ l). rewrite <- He. apply utf8_app; [done|].
    apply IH; [simpl in Hlen; lia|done..]. }
  destruct (in_range 0xE0 0xEF b0) eqn:R3; [apply in_range_true in R3|].
  { destruct l as [|b1 [|b2 l]]; [done..|].
    intros [[H1%in_range_true H2%in_range_true]%andb_true_iff Hl]%andb_true_iff. decompose_Forall.
    destruct (utf8_encode_3 b0 b1 b2) as (c & Hc & He); [done..|].
    change (b0 :: b1 :: b2 :: l) with ([b0; b1; b2] ++ l). rewrite <- He. apply utf8_app; [done|].
    apply IH; [simpl in Hlen; lia|done..]. }
  destruct (in_range 0xF0 0xF4 b0) eqn:R4; [apply in_range_true in R4|done].
  destruct l as [|b1 [|b2 [|b3 l]]]; [done..|].
  intros [[[H1%in_range_true H2%in_range_true]%andb_true_iff H3%in_range_true]%andb_true_iff Hl]%andb_true_iff.
  decompose_Forall. destruct (utf8_encode_4 b0 b1 b2 b3) as (c & Hc & He); [done..|].
  change (b0 :: b1 :: b2 :: b3 :: l) with ([b0; b1; b2; b3] ++ l). rewrite <- He. apply utf8_app; [done|].
  apply IH; [simpl in Hlen; lia|done..].
Qed.

Lemma from_utf8_spec l : Forall (λ b, 0 ≤ b) l → from_utf8 l = true ↔ utf8 l.
Proof.
  intros Hb. split; [by apply (from_utf8_sound (length l))|]. intros (cs & Hcs & ->). clear Hb.
  induction Hcs as [|c cs Hc _ IH]; [done|]. cbn [fmap list_fmap concat]. by rewrite from_utf8_encode.
Qed.



(** What each system call number does.  0 marks the calling task, the front
    of the task list, as terminated; 1 is [sys_write]; 2 panics, so any user
    program can halt the kernel with it; every other number is answered with
    [u64::MAX] and changes nothing. *)
Theorem syscall_dispatch {PM FA} mem regs (k : system PM FA) o :
  handle_syscall mem regs k o =
    if regs.(sr_rax) =? 0 then
      match k.(k_tasks) with
      | [] => Panic
      | t :: ts => Ret (SysExit (set_tasks (set_state Terminated t :: ts) k))
      end
    else if regs.(sr_rax) =? 1 then
      let r := sys_write mem (as_i32 regs.(sr_rdi)) regs.(sr_rsi) regs.(sr_rdx) o in Ret (SysReturn r.1 r.2)
    else if regs.(sr_rax) =? 2 then Panic
    else Ret (SysReturn u64_MAX o).
Proof.
  unfold handle_syscall, SyscallNumber_from_u64, sys_exit, exit_task.
  destruct (sr_rax regs =? 0); [by destruct (k_tasks k)|]. destruct (sr_rax regs =? 1); [by destruct (sys_write _ _ _ _ _)|].
  by destruct (sr_rax regs =? 2).
Qed.

(** ** Segments after a system call *)

Section Star.
Context (Star_write : Z → Z → Z → Z → option Z).
(** What [Star::write] documents: the first two selectors are the ones [sysret]
    loads, and they must be 8 apart. *)
Context (Hstar : ∀ cs ss kcs kss star, Star_write cs ss kcs kss = Some star →
  sysret_cs star = cs ∧ sysret_ss star = ss).

(** The user code segment that tasks start in is entry 3 of the table; after a
    system call the code segment register selects entry 4, the data segment,
    and the stack segment register selects the code segment. *)
Theorem sysret_selects_data_segment handler msrs :
  init_syscall Star_write handler = Ret msrs →
  selected (SegmentSelector_new USER_CODE_SEGMENT_INDEX 3) = Some user_code_segment ∧
  selected (sysret_cs msrs.(msr_star)) = Some user_data_segment ∧
  selected (sysret_ss msrs.(msr_star)) = Some user_code_segment.
Proof.
  unfold init_syscall. intros Hi. apply bind_Ret_inv in Hi as (star & Hw & Hi). exec_inv.
  destruct (Star_write _ _ _ _) as [star'|] eqn:Hs; [|done]. injection Hw as ->.
  destruct (Hstar _ _ _ _ _ Hs) as [-> ->]. by vm_compute.
Qed.

End Star.
