(* ===== verification/Repr.v ===== *)
(** * Repr: memory layout of [repr(C)] structures

    Drivers share structures with devices: Rust's [repr(C)] places each field
    at the next multiple of its alignment and pads the end to the alignment of
    the structure.  [layout] computes that.  The drivers' structures are lists of
    named fields, taken from the source. *)

From stdpp Require Export strings.
From S2P Require Import Prelude.

Inductive ctype : Type :=
  | Prim (bytes : Z)
  | Array (count : Z) (elem : ctype)
  | Struct (fields : list (string * ctype)).
Abbreviation u8 := (Prim 1).
Abbreviation u16 := (Prim 2).
Abbreviation u32 := (Prim 4).
Abbreviation u64 := (Prim 8).
Abbreviation fields := (list (string * ctype)).

Definition align_up (a n : Z) : Z := (n + a - 1) / a * a.

Fixpoint align_of (t : ctype) : Z :=
  match t with
  | Prim n => n
  | Array _ e => align_of e
  | Struct fs => foldr (λ '(_, t) a, Z.max (align_of t) a) 1 fs
  end.

Fixpoint size_of (t : ctype) : Z :=
  match t with
  | Prim n => n
  | Array n e => n * size_of e
  | Struct fs =>
      align_up (foldr (λ '(_, t) a, Z.max (align_of t) a) 1 fs)
        (foldl (λ off '(_, t), align_up (align_of t) off + size_of t) 0 fs)
  end.

(** The offset of each field. *)
Fixpoint layout_from (off : Z) (fs : fields) : list (string * Z) :=
  match fs with
  | [] => []
  | (name, t) :: fs =>
      let off := align_up (align_of t) off in
      (name, off) :: layout_from (off + size_of t) fs
  end.
Definition layout (fs : fields) : list (string * Z) := layout_from 0 fs.
Definition offset_of (name : string) (fs : fields) : Z :=
  default 0 (snd <$> (snd <$> list_find (λ x, x.1 = name) (layout fs))).

