(* ===== verification/BitFields.v ===== *)
(** * BitFields: flags and fields of device registers

    The drivers read and update parts of a register with masks and shifts.
    [updates] is what a setter owes: the part reads back as what was stored,
    no other bit changes, and the register keeps its width.  The lemmas
    discharge it for the shapes of setters the drivers have. *)

From S2P Require Import Prelude.

(** [(r & mask) != 0], and [r |= mask] or [r &= !mask]. *)
Definition get_flag (mask r : Z) : bool := negb (Z.land r mask =? 0).
Definition set_flag (w mask : Z) (value : bool) (r : Z) : Z :=
  if value then Z.lor r mask else Z.land r (not_ w mask).

(** [(r >> shift) & mask], and [(r & !mask) | bits]. *)
Definition get_field (shift mask r : Z) : Z := Z.land (Z.shiftr r shift) mask.
Definition replace_bits (w mask bits r : Z) : Z := Z.lor (Z.land r (not_ w mask)) bits.

Definition updates {A : Type} (w mask : Z) (get : Z → A) (value : A) (r r' : Z) : Prop :=
  get r' = value ∧ Z.ldiff r' mask = Z.ldiff r mask ∧ 0 ≤ r' < 2 ^ w.

Lemma ldiff_zero a m : Z.land a m = 0 → Z.ldiff a m = a.
Proof.
  intros H0. apply Z.bits_inj'. intros i Hi. rewrite Z.ldiff_spec.
  assert (Z.testbit (Z.land a m) i = false) as H1 by (by rewrite H0, Z.bits_0). rewrite Z.land_spec in H1.
  by destruct (Z.testbit a i), (Z.testbit m i).
Qed.

Lemma ldiff_not w a m : 0 ≤ w → 0 ≤ a < 2 ^ w → 0 ≤ m < 2 ^ w → Z.ldiff a (not_ w m) = Z.land a m.
Proof.
  intros Hw Ha Hm. apply Z.bits_inj'. intros i Hi. rewrite Z.ldiff_spec, Z.land_spec, not_spec by done.
  destruct (Z.ltb_spec i w); [by rewrite andb_true_l, negb_involutive|]. by rewrite (testbit_high w a i).
Qed.

(** What a mask reads after a part was replaced: nothing changes for masks
    apart from it, and the part itself reads as stored. *)
Lemma land_replace_other w m bits r m' : 0 ≤ w → 0 ≤ m < 2 ^ w → 0 ≤ m' < 2 ^ w → Z.land m m' = 0 → Z.ldiff bits m = 0 →
  Z.land (replace_bits w m bits r) m' = Z.land r m'.
Proof.
  intros Hw Hm Hm' H0 Hb. apply Z.bits_inj'. intros i Hi. unfold replace_bits. rewrite !Z.land_spec, Z.lor_spec, Z.land_spec, not_spec by done.
  assert (Z.testbit m i && Z.testbit m' i = false) as H1 by (by rewrite <- Z.land_spec, H0, Z.bits_0).
  assert (Z.testbit bits i && negb (Z.testbit m i) = false) as H2 by (by rewrite <- Z.ldiff_spec, Hb, Z.bits_0).
  destruct (Z.ltb_spec i w); [|by rewrite (testbit_high w m' i), !andb_false_r by lia].
  by destruct (Z.testbit m i), (Z.testbit m' i), (Z.testbit bits i), (Z.testbit r i).
Qed.
Lemma land_replace_same w m bits r : 0 ≤ w → 0 ≤ m < 2 ^ w → Z.ldiff bits m = 0 → Z.land (replace_bits w m bits r) m = bits.
Proof.
  intros Hw Hm Hb. apply Z.bits_inj'. intros i Hi. unfold replace_bits. rewrite Z.land_spec, Z.lor_spec, Z.land_spec, not_spec by done.
  assert (Z.testbit bits i && negb (Z.testbit m i) = false) as H2 by (by rewrite <- Z.ldiff_spec, Hb, Z.bits_0).
  by destruct (i <? w), (Z.testbit m i), (Z.testbit bits i), (Z.testbit r i).
Qed.
Lemma land_inside b m : Z.ldiff b m = 0 → Z.land b m = b.
Proof.
  intros Hb. apply Z.bits_inj'. intros i Hi. rewrite Z.land_spec.
  assert (Z.testbit b i && negb (Z.testbit m i) = false) as H1 by (by rewrite <- Z.ldiff_spec, Hb, Z.bits_0).
  by destruct (Z.testbit b i), (Z.testbit m i).
Qed.
Lemma land_outside b m m' : Z.ldiff b m = 0 → Z.land m m' = 0 → Z.land b m' = 0.
Proof. intros Hb H0. rewrite <- (land_inside b m Hb), <- Z.land_assoc, H0. apply Z.land_0_r. Qed.

Section Part.
Context (w mask : Z) (Hw : 0 ≤ w) (Hmask : 0 ≤ mask < 2 ^ w).

Lemma replace_bits_spec bits r : 0 ≤ r < 2 ^ w → 0 ≤ bits → Z.ldiff bits mask = 0 →
  Z.land (replace_bits w mask bits r) mask = bits ∧
  Z.ldiff (replace_bits w mask bits r) mask = Z.ldiff r mask ∧ 0 ≤ replace_bits w mask bits r < 2 ^ w.
Proof.
  intros Hr Hb Hin. unfold replace_bits. rewrite land_not by done.
  assert (∀ i, Z.testbit bits i && negb (Z.testbit mask i) = false) as Hbit
    by (intros i; by rewrite <- Z.ldiff_spec, Hin, Z.bits_0).
  split_and!.
  - rewrite <- (land_not w) by done. by apply land_replace_same.
  - apply Z.bits_inj'. intros i Hi. rewrite !Z.ldiff_spec, Z.lor_spec, Z.ldiff_spec. specialize (Hbit i).
    by destruct (Z.testbit r i), (Z.testbit mask i), (Z.testbit bits i).
  - apply Z.lor_nonneg. split; [|done]. apply Z.ldiff_nonneg. lia.
  - apply bits_range; [done|apply Z.lor_nonneg; split; [apply Z.ldiff_nonneg; lia|done]|]. intros i Hi.
    rewrite Z.lor_spec, Z.ldiff_spec, (testbit_high w r i) by done. specialize (Hbit i).
    rewrite (testbit_high w mask i) in Hbit by done. by destruct (Z.testbit bits i).
Qed.

Lemma set_flag_replace v r : 0 ≤ r < 2 ^ w → set_flag w mask v r = replace_bits w mask (if v then mask else 0) r.
Proof.
  intros Hr. unfold set_flag, replace_bits. destruct v; [|by rewrite Z.lor_0_r]. rewrite land_not by done.
  apply Z.bits_inj'. intros i Hi. rewrite !Z.lor_spec, Z.ldiff_spec. by destruct (Z.testbit r i), (Z.testbit mask i).
Qed.

Lemma set_flag_updates v r : mask ≠ 0 → 0 ≤ r < 2 ^ w → updates w mask (get_flag mask) v r (set_flag w mask v r).
Proof.
  intros H0 Hr. rewrite set_flag_replace by done.
  destruct (replace_bits_spec (if v then mask else 0) r) as (Hget & Hother & Hrange);
    [done|by destruct v; lia|by destruct v; rewrite ?Z.ldiff_diag, ?Z.ldiff_0_l|].
  split_and!; [|done|apply Hrange..]. unfold get_flag. rewrite Hget.
  destruct v; [by apply negb_true_iff, Z.eqb_neq|done].
Qed.

(** A field of [m] at [shift]. *)
Lemma replace_bits_updates shift m bits v r : mask = Z.shiftl m shift → 0 ≤ shift →
  bits = Z.shiftl v shift → 0 ≤ v → Z.ldiff v m = 0 → 0 ≤ r < 2 ^ w →
  updates w mask (get_field shift m) v r (replace_bits w mask bits r).
Proof using Hw Hmask.
  intros Hm Hs -> Hv Hin Hr. destruct (replace_bits_spec (Z.shiftl v shift) r) as (Hget & Hother & Hrange); [done|..].
  - by apply Z.shiftl_nonneg.
  - rewrite Hm, <- Z.shiftl_ldiff, Hin. apply Z.shiftl_0_l.
  - split_and!; [|done|apply Hrange..]. unfold get_field.
    transitivity (Z.shiftr (Z.land (replace_bits w mask (Z.shiftl v shift) r) mask) shift).
    + rewrite Hm at 3. rewrite Z.shiftr_land, Z.shiftr_shiftl_l, Z.sub_diag by done. by rewrite Z.shiftl_0_r.
    + rewrite Hget, Z.shiftr_shiftl_l, Z.sub_diag by done. by rewrite Z.shiftl_0_r.
Qed.
End Part.

(** Values below a mask of ones are inside it. *)
Lemma ldiff_ones v n : 0 ≤ n → 0 ≤ v < 2 ^ n → Z.ldiff v (Z.ones n) = 0.
Proof.
  intros Hn Hv. rewrite Z.ldiff_ones_r, Z.shiftr_div_pow2, Z.div_small by lia. apply Z.shiftl_0_l.
Qed.
Lemma shiftl_inside v n s : 0 ≤ n → 0 ≤ s → 0 ≤ v < 2 ^ n → Z.ldiff (Z.shiftl v s) (Z.shiftl (Z.ones n) s) = 0.
Proof. intros Hn Hs Hv. by rewrite <- Z.shiftl_ldiff, ldiff_ones, Z.shiftl_0_l. Qed.

Lemma field_updates w mask n shift v r : 0 ≤ w → 0 ≤ mask < 2 ^ w → 0 ≤ shift → 0 ≤ n → mask = Z.shiftl (Z.ones n) shift →
  0 ≤ v < 2 ^ n → 0 ≤ r < 2 ^ w →
  updates w mask (get_field shift (Z.ones n)) v r (replace_bits w mask (Z.shiftl v shift) r).
Proof. intros. apply replace_bits_updates; try done; [lia|by apply ldiff_ones]. Qed.

(** ** Reading registers built by setters *)

(** A field is a masked part, moved down. *)
Lemma get_field_land s k r : 0 ≤ s → get_field s k r = Z.shiftr (Z.land r (Z.shiftl k s)) s.
Proof.
  intros Hs. unfold get_field. rewrite Z.shiftr_land, Z.shiftr_shiftl_l, Z.sub_diag by done. by rewrite Z.shiftl_0_r.
Qed.
Lemma land_set_flag_other w m v r m' : 0 ≤ w → 0 ≤ m < 2 ^ w → 0 ≤ m' < 2 ^ w → Z.land m m' = 0 →
  Z.land (set_flag w m v r) m' = Z.land r m'.
Proof.
  intros Hw Hm Hm' H0. unfold set_flag. destruct v; [by rewrite Z.land_lor_distr_l, H0, Z.lor_0_r|].
  rewrite <- (land_replace_other w m 0 r m') by (done || apply Z.ldiff_0_l). unfold replace_bits. by rewrite Z.lor_0_r.
Qed.
Lemma land_set_flag_same w m v r : 0 ≤ w → 0 ≤ m < 2 ^ w → Z.land (set_flag w m v r) m = if v then m else 0.
Proof.
  intros Hw Hm. unfold set_flag. destruct v.
  - apply Z.bits_inj'. intros i Hi. rewrite Z.land_spec, Z.lor_spec. by destruct (Z.testbit r i), (Z.testbit m i).
  - rewrite <- (land_replace_same w m 0 r) by (done || apply Z.ldiff_0_l). unfold replace_bits. by rewrite Z.lor_0_r.
Qed.
Lemma shiftr_shiftl v s : 0 ≤ s → Z.shiftr (Z.shiftl v s) s = v.
Proof. intros Hs. rewrite Z.shiftr_shiftl_l, Z.sub_diag by done. apply Z.shiftl_0_r. Qed.
