(* ===== verification/PciBase.v ===== *)
(** * PciBase: what the PCI drivers share

    The error type of pci.rs, the base address registers of pci/device.rs, the
    interface to memory-mapped device registers, and the loop that maps device
    memory page by page (map_pages of pci/vmm.rs, map_ecam_region of pci/mcfg.rs).  A device is third-party:
    [Mmio] has the volatile accesses the drivers do, and each theorem names the
    documented behaviour of the registers it needs. *)

From S2P Require Import Prelude X86 FrameSource.

Inductive PciError : Type :=
  | McfgNotFound
  | EcamMappingFailed
  | InvalidDevice
  | MsiXSetupFailed
  | AllocationFailed.

Record MemoryBar := mkMemoryBar {
  mb_address : Z; mb_size : Z; mb_prefetchable : bool; mb_is_64bit : bool;
}.
Record IoBar := mkIoBar { io_address : Z; io_size : Z }.
Inductive BarInfo : Type :=
  | Memory (bar : MemoryBar)
  | Io (bar : IoBar)
  | Unused.

(** ** Volatile accesses *)

(** [read_volatile] and [write_volatile] of [n] bytes at an address. *)
Class Mmio (HW : Type) := {
  mmio_read : Z → Z → HW → Z * HW;
  mmio_write : Z → Z → Z → HW → HW;
}.

(** A range of addresses that behaves like memory: reads have no effect and
    return integers of their width, and a write is seen by exactly the reads of
    the same place (accesses of one size that do not straddle). *)
Class MmioMemory {HW : Type} `{Mmio HW} (n lo hi : Z) := {
  mem_read_pure a hw : lo ≤ a → a + n ≤ hi → snd (mmio_read n a hw) = hw;
  mem_read_range a hw : lo ≤ a → a + n ≤ hi → 0 ≤ fst (mmio_read n a hw) < 2 ^ (8 * n);
  mem_read_same a v hw : lo ≤ a → a + n ≤ hi → 0 ≤ v < 2 ^ (8 * n) →
    fst (mmio_read n a (mmio_write n a v hw)) = v;
  mem_read_other a b v hw : lo ≤ a → a + n ≤ hi → lo ≤ b → b + n ≤ hi →
    a + n ≤ b ∨ b + n ≤ a → fst (mmio_read n b (mmio_write n a v hw)) = fst (mmio_read n b hw);
}.

(** ** Mapping device memory *)

(** The globals [PAGE_TABLE] and [FRAME_ALLOCATOR], unset before memory is
    initialised. *)
Record globals (PT FA : Type) := mkGlobals { PAGE_TABLE : option PT; FRAME_ALLOCATOR : option FA }.
Arguments mkGlobals {PT FA} _ _.
Arguments PAGE_TABLE {PT FA} _.
Arguments FRAME_ALLOCATOR {PT FA} _.

Definition PAGE_SIZE : Z := 4096.

(** [start + i * PAGE_SIZE]. *)
Definition page_address (start i : Z) : exec Z :=
  off ← mul_chk 64 i PAGE_SIZE;
  add_chk 64 start off.

Lemma page_address_ok start i : 0 ≤ i < 2 ^ 52 → start + 4096 * i < 2 ^ 64 →
  page_address start i = Ret (start + 4096 * i).
Proof. intros Hi Hs. unfold page_address, PAGE_SIZE. run. rewrite add_chk_ok by lia. f_equal. lia. Qed.

Section Map_device.
Context `{Addresses} {PT FA : Type} `{Mapper PT, FrameSource FA}.

Fixpoint map_pages_loop (virt phys : Z) (flags : PageTableFlags) (i : Z) (count : nat) (pt : PT) (fa : FA)
    : exec (result unit PciError * PT * FA) :=
  match count with
  | O => mret (Ok (), pt, fa)
  | S count =>
      v ← page_address virt i;
      v ← VirtAddr_new v;
      p ← page_address phys i;
      p ← PhysAddr_new p;
      let virt_page := containing_address v in
      let phys_frame := containing_address p in
      '(r, pt, fa) ← map_to fs_allocate_frame virt_page phys_frame flags pt fa;
      match r with
      | Err _ => mret (Err EcamMappingFailed, pt, fa)
      | Ok _ => map_pages_loop virt phys flags (i + 1) count pt fa
      end
  end.

(** The addresses of pages [i], ... [i + count - 1] are valid. *)
Definition mappable (virt phys i : Z) (count : nat) : Prop :=
  0 ≤ i ∧ i + Z.of_nat count < 2 ^ 52 ∧ (4096 | virt) ∧ 0 ≤ virt ∧ 0 ≤ phys ∧
  ∀ j, i ≤ j < i + Z.of_nat count → canonical (virt + 4096 * j) ∧ phys + 4096 * j < 2 ^ 52.

Context `{!AddressesOk, !MapperOk PT, !FrameSourceOk FA}.

(** The loop returns.  It never touches a page that was mapped; on success page
    [j] of the device is mapped at page [j] of the range. *)
Lemma map_pages_loop_ok virt phys flags count i pt fa used :
  fs_inv fa used → mappable virt phys i count →
  ∃ r pt' fa' more,
    map_pages_loop virt phys flags i count pt fa = Ret (r, pt', fa') ∧ fs_inv fa' (more ++ used) ∧
    (∀ q, translate pt q ≠ None → translate pt' q = translate pt q) ∧
    (∀ q, (∀ j, i ≤ j < i + Z.of_nat count → q ≠ virt + 4096 * j) → translate pt' q = translate pt q) ∧
    match r with
    | Ok _ => ∀ j, i ≤ j < i + Z.of_nat count →
        translate pt' (virt + 4096 * j) = Some (containing_address (phys + 4096 * j), flags)
    | Err e => e = EcamMappingFailed
    end.
Proof.
  revert i pt fa used. induction count as [|count IH]; intros i pt fa used Hinv Hm.
  { exists (Ok ()), pt, fa, []. split_and!; try done. intros j Hj. lia. }
  pose proof Hm as (Hi & Hcount & [x Hx] & Hv & Hp & Hj). destruct (Hj i ltac:(lia)) as [Hcan Hpi].
  assert (virt + 4096 * i < 2 ^ 64) by (destruct Hcan; lia).
  cbn [map_pages_loop]. rewrite (page_address_ok virt) by lia. cbn [mbind exec_bind].
  rewrite VirtAddr_new_ok by done. cbn [mbind exec_bind]. rewrite (page_address_ok phys) by lia. cbn [mbind exec_bind].
  rewrite PhysAddr_new_ok by lia. cbn [mbind exec_bind].
  rewrite (containing_aligned (virt + 4096 * i)) by (lia || (exists (x + i); lia)).
  destruct (map_to_returns fs_allocate_frame (λ fa, ∃ u, fs_inv fa u) (virt + 4096 * i)
    (containing_address (phys + 4096 * i)) flags pt fa) as (r & pt1 & fa1 & Hmap).
  { intros a [u Hu]. destruct (fs_allocate_ok a u Hu) as (r & a' & Ha & Hr').
    exists r, a'. split; [done|]. destruct r; [eauto|subst; eauto]. }
  { eauto. }
  rewrite Hmap. cbn [mbind exec_bind].
  destruct (draws_inv fa fa1 used (map_to_draws _ _ _ _ _ _ _ _ _ Hmap) Hinv) as [more Hmore].
  destruct r as [[]|e].
  - destruct (map_to_Ok _ _ _ _ _ _ _ _ Hmap) as (Hnone & Hmapped & Hother).
    destruct (IH (i + 1) pt1 fa1 (more ++ used)) as (r & pt' & fa' & more' & -> & Hinv' & Hkeep & Hq & Hr).
    { done. } { split_and!; try lia; [by exists x|]. intros j Hj'. apply Hj. lia. }
    exists r, pt', fa', (more' ++ more). split_and!; [done| | | |].
    + by rewrite <- (assoc_L (++)).
    + intros q Hne. assert (q ≠ virt + 4096 * i) by congruence. rewrite Hkeep, Hother; [done..|]. by rewrite Hother.
    + intros q Hne. rewrite Hq; [apply Hother, Hne; lia|]. intros j Hj'. apply Hne. lia.
    + destruct r as [u|e]; [|done]. intros j Hj'. destruct (decide (j = i)) as [->|]; [|apply Hr; lia].
      rewrite Hkeep; [done|]. by rewrite Hmapped.
  - pose proof (map_to_Err _ _ _ _ _ _ _ _ _ Hmap) as Hother.
    exists (Err EcamMappingFailed), pt1, fa1, more. split_and!; [done..| | |done]; intros; apply Hother.
Qed.

End Map_device.

(** ** A model of device memory: one cell per address *)

Section Model.

Definition cell_mmio : Mmio (gmap Z Z) := {|
  mmio_read n a hw := (default 0 (hw !! a) mod 2 ^ (8 * n), hw);
  mmio_write n a v hw := <[a := v]> hw;
|}.
Lemma cell_memory n lo hi : 0 < n → @MmioMemory _ cell_mmio n lo hi.
Proof.
  intros Hn. split; cbn.
  - done.
  - intros a hw _ _. apply Z.mod_pos_bound. lia.
  - intros a v hw _ _ Hv. rewrite lookup_insert_eq. by apply Z.mod_small.
  - intros a b v hw _ _ _ _ Hab. by rewrite lookup_insert_ne by lia.
Qed.

End Model.
