(* ===== verification/PcieVmm.v ===== *)
(** * PcieVmm: the virtual memory of device BARs (pci/vmm.rs)

    [PcieVmm] hands out runs of pages of a 16 GiB region and tracks them in a
    bitmap of 128-bit words.  The section Bitmap relates the words to the set of
    allocated pages, Search shows what [find_free_pages] finds, and Mapping
    follows the BARs that are mapped through any sequence of operations. *)

From S2P Require Import Prelude X86 FrameSource PciBase.

Definition PCIE_VMM_START : Z := 0xFFFFFA0000000000.
Definition PCIE_VMM_SIZE : Z := 16 * 1024 * 1024 * 1024.
Definition PCIE_VMM_PAGES : Z := PCIE_VMM_SIZE / PAGE_SIZE.
Definition BITMAP_WORDS : Z := div_ceil PCIE_VMM_PAGES 128.

Record PcieVmm := mkPcieVmm {
  base_address : Z;
  page_bitmap : list Z;
  next_search_start : Z;
}.
Record MappedBar := mkMappedBar {
  virtual_address : Z;
  physical_address : Z;
  bar_size : Z;
  bar_prefetchable : bool;
}.

Definition PcieVmm_new : PcieVmm := mkPcieVmm PCIE_VMM_START (replicate (Z.to_nat BITMAP_WORDS) 0) 0.

(** [self.page_bitmap[word_index] = value]; the word was read before. *)
Definition set_word (vmm : PcieVmm) (word_index value : Z) : PcieVmm :=
  mkPcieVmm vmm.(base_address) (<[Z.to_nat word_index := value]> vmm.(page_bitmap)) vmm.(next_search_start).
Definition set_search_start (vmm : PcieVmm) (start : Z) : PcieVmm :=
  mkPcieVmm vmm.(base_address) vmm.(page_bitmap) start.

Definition set_page_allocated (page : Z) (vmm : PcieVmm) : exec PcieVmm :=
  if page <? PCIE_VMM_PAGES then
    let word_index := page / 128 in
    let bit_index := page mod 128 in
    _ ← rassert (word_index <? BITMAP_WORDS);
    word ← index vmm.(page_bitmap) (Z.to_nat word_index);
    bit ← shl_chk 128 1 bit_index;
    mret (set_word vmm word_index (Z.lor word bit))
  else mret vmm.

Definition set_page_free (page : Z) (vmm : PcieVmm) : exec PcieVmm :=
  if page <? PCIE_VMM_PAGES then
    let word_index := page / 128 in
    let bit_index := page mod 128 in
    _ ← rassert (word_index <? BITMAP_WORDS);
    word ← index vmm.(page_bitmap) (Z.to_nat word_index);
    bit ← shl_chk 128 1 bit_index;
    mret (set_word vmm word_index (Z.land word (not_ 128 bit)))
  else mret vmm.

Definition is_page_allocated (vmm : PcieVmm) (page : Z) : exec bool :=
  if PCIE_VMM_PAGES <=? page then mret true
  else
    let word_index := page / 128 in
    let bit_index := page mod 128 in
    _ ← rassert (word_index <? BITMAP_WORDS);
    word ← index vmm.(page_bitmap) (Z.to_nat word_index);
    bit ← shl_chk 128 1 bit_index;
    mret (negb (Z.land word bit =? 0)).

Definition is_range_free (vmm : PcieVmm) (start count : Z) : exec bool :=
  r ← range_find (λ i, if PCIE_VMM_PAGES <=? i then mret true else is_page_allocated vmm i)
        start (start + count);
  mret (match r with Some _ => false | None => true end).

Definition find_free_pages (vmm : PcieVmm) (pages_needed : Z) : exec (option Z) :=
  if PCIE_VMM_PAGES <? pages_needed then mret None
  else
    r ← range_find (λ start, is_range_free vmm start pages_needed)
          vmm.(next_search_start) (PCIE_VMM_PAGES - pages_needed + 1);
    match r with
    | Some start => mret (Some start)
    | None =>
        range_find (λ start, is_range_free vmm start pages_needed)
          0 (Z.min vmm.(next_search_start) (PCIE_VMM_PAGES - pages_needed + 1))
    end.

Definition count_allocated_pages (vmm : PcieVmm) : exec Z :=
  count ← range_fold (λ i count,
            word ← index vmm.(page_bitmap) (Z.to_nat i);
            add_chk 64 count (count_ones 128 word)) 0 (BITMAP_WORDS - 1) 0;
  let last_word_index := BITMAP_WORDS - 1 in
  last_word ← index vmm.(page_bitmap) (Z.to_nat last_word_index);
  let total_bits := BITMAP_WORDS * 128 in
  if PCIE_VMM_PAGES <? total_bits then
    let valid_bits_in_last_word := 128 - (total_bits - PCIE_VMM_PAGES) in
    bit ← shl_chk 128 1 valid_bits_in_last_word;
    valid_mask ← sub_chk bit 1;
    add_chk 64 count (count_ones 128 (Z.land last_word valid_mask))
  else add_chk 64 count (count_ones 128 last_word).

Record VmmStats := mkVmmStats {
  total_pages : Z; allocated_pages : Z; free_pages : Z;
  total_size : Z; allocated_size : Z; free_size : Z;
}.
Definition get_stats (vmm : PcieVmm) : exec VmmStats :=
  allocated ← count_allocated_pages vmm;
  free ← sub_chk PCIE_VMM_PAGES allocated;
  allocated_bytes ← mul_chk 64 allocated PAGE_SIZE;
  free_bytes ← mul_chk 64 free PAGE_SIZE;
  mret (mkVmmStats PCIE_VMM_PAGES allocated free PCIE_VMM_SIZE allocated_bytes free_bytes).

Section Operations.
Context `{Addresses} {PT FA : Type} `{Mapper PT, FrameSource FA}.

Definition bar_flags (prefetchable : bool) : PageTableFlags :=
  [PRESENT; WRITABLE; NO_EXECUTE] ++ (if prefetchable then [] else [NO_CACHE]).

Definition map_pages (virt phys page_count : Z) (prefetchable : bool) (g : globals PT FA)
    : exec (result unit PciError * globals PT FA) :=
  match g.(PAGE_TABLE), g.(FRAME_ALLOCATOR) with
  | Some pt, Some fa =>
      '(r, pt, fa) ← map_pages_loop virt phys (bar_flags prefetchable) 0 (Z.to_nat page_count) pt fa;
      mret (r, mkGlobals (Some pt) (Some fa))
  | _, _ => mret (Err EcamMappingFailed, g)
  end.

Fixpoint unmap_pages_loop (virt i : Z) (count : nat) (pt : PT) : exec (result unit PciError * PT) :=
  match count with
  | O => mret (Ok (), pt)
  | S count =>
      v ← page_address virt i;
      v ← VirtAddr_new v;
      let '(r, pt) := unmap (containing_address v) pt in
      match r with
      | Err _ => mret (Err EcamMappingFailed, pt)
      | Ok _ => unmap_pages_loop virt (i + 1) count pt
      end
  end.

Definition unmap_pages (virt page_count : Z) (g : globals PT FA) : exec (result unit PciError * globals PT FA) :=
  match g.(PAGE_TABLE) with
  | Some pt =>
      '(r, pt) ← unmap_pages_loop virt 0 (Z.to_nat page_count) pt;
      mret (r, mkGlobals (Some pt) g.(FRAME_ALLOCATOR))
  | None => mret (Err EcamMappingFailed, g)
  end.

Definition map_memory_bar (phys size : Z) (prefetchable : bool) (vmm : PcieVmm) (g : globals PT FA)
    : exec (result MappedBar PciError * PcieVmm * globals PT FA) :=
  if (size =? 0) || (phys =? 0) then mret (Err InvalidDevice, vmm, g)
  else
    let pages_needed := div_ceil size PAGE_SIZE in
    r ← find_free_pages vmm pages_needed;
    match r with
    | None => mret (Err AllocationFailed, vmm, g)
    | Some start_page =>
        v ← page_address vmm.(base_address) start_page;
        virt ← VirtAddr_new v;
        '(r, g) ← map_pages virt phys pages_needed prefetchable g;
        match r with
        | Err e => mret (Err e, vmm, g)
        | Ok _ =>
            vmm ← range_fold set_page_allocated start_page (start_page + pages_needed) vmm;
            let next := start_page + pages_needed in
            let vmm := set_search_start vmm (if PCIE_VMM_PAGES <=? next then 0 else next) in
            mret (Ok (mkMappedBar virt phys size prefetchable), vmm, g)
        end
    end.

Definition unmap_bar (bar : MappedBar) (vmm : PcieVmm) (g : globals PT FA)
    : exec (result unit PciError * PcieVmm * globals PT FA) :=
  let pages_to_unmap := div_ceil bar.(bar_size) PAGE_SIZE in
  off ← sub_chk bar.(virtual_address) vmm.(base_address);
  let start_page := off / PAGE_SIZE in
  '(r, g) ← unmap_pages bar.(virtual_address) pages_to_unmap g;
  match r with
  | Err e => mret (Err e, vmm, g)
  | Ok _ =>
      vmm ← range_fold (λ i vmm, if i <? PCIE_VMM_PAGES then set_page_free i vmm else mret vmm)
              start_page (start_page + pages_to_unmap) vmm;
      let vmm := if start_page <? vmm.(next_search_start) then set_search_start vmm start_page else vmm in
      mret (Ok (), vmm, g)
  end.

Definition map_bar (bar : MemoryBar) (vmm : PcieVmm) (g : globals PT FA)
    : exec (result MappedBar PciError * PcieVmm * globals PT FA) :=
  map_memory_bar bar.(mb_address) bar.(mb_size) bar.(mb_prefetchable) vmm g.

End Operations.
(** ** The bitmap *)

Section Bitmap.

Definition allocated (vmm : PcieVmm) (page : Z) : bool :=
  match vmm.(page_bitmap) !! Z.to_nat (page / 128) with
  | Some word => Z.testbit word (page mod 128)
  | None => false
  end.

Definition vmm_wf (vmm : PcieVmm) : Prop :=
  vmm.(base_address) = PCIE_VMM_START ∧ Z.of_nat (length vmm.(page_bitmap)) = BITMAP_WORDS ∧
  Forall (λ word, 0 ≤ word < 2 ^ 128) vmm.(page_bitmap) ∧
  0 ≤ vmm.(next_search_start) < PCIE_VMM_PAGES.

Lemma pages_eq : PCIE_VMM_PAGES = 4194304.
Proof. reflexivity. Qed.
Lemma words_eq : BITMAP_WORDS = 32768.
Proof. reflexivity. Qed.

(** The word of a page, and the position of its bit. *)
Lemma page_word vmm page : vmm_wf vmm → 0 ≤ page < PCIE_VMM_PAGES →
  ∃ word, vmm.(page_bitmap) !! Z.to_nat (page / 128) = Some word ∧ 0 ≤ word < 2 ^ 128 ∧
    (page / 128 <? BITMAP_WORDS) = true ∧ 0 ≤ page mod 128 < 128 ∧
    allocated vmm page = Z.testbit word (page mod 128) ∧ shl_chk 128 1 (page mod 128) = Ret (2 ^ (page mod 128)).
Proof.
  rewrite pages_eq. intros (_ & Hlen & Hw & _) Hp. rewrite words_eq in *.
  assert (0 ≤ page mod 128 < 128) as Hm by (apply Z.mod_pos_bound; lia).
  assert (0 ≤ page / 128 < 32768) as Hd by (split; [apply Z.div_pos|apply Z.div_lt_upper_bound]; lia).
  destruct (lookup_lt_is_Some_2 vmm.(page_bitmap) (Z.to_nat (page / 128))) as [word Hword]; [lia|].
  exists word. rewrite Forall_forall in Hw. split_and!; try done; try lia.
  - apply Hw. by eapply list_elem_of_lookup_2.
  - apply Hw. by eapply list_elem_of_lookup_2.
  - unfold allocated. by rewrite Hword.
  - assert (2 ^ (page mod 128) < 2 ^ 128) by (apply Z.pow_lt_mono_r; lia).
    rewrite shl_chk_ok by lia. f_equal. lia.
Qed.

Lemma is_page_allocated_ok vmm page : vmm_wf vmm → 0 ≤ page →
  is_page_allocated vmm page = Ret ((PCIE_VMM_PAGES <=? page) || allocated vmm page).
Proof.
  intros Hwf Hp. unfold is_page_allocated. destruct (Z.leb_spec PCIE_VMM_PAGES page); [done|].
  destruct (page_word vmm page Hwf) as (word & Hword & _ & Hlt & Hm & Ha & Hshl); [lia|].
  rewrite Hlt, (index_ok _ _ _ Hword), Hshl, Ha. cbn [rassert mbind exec_bind].
  by rewrite land_bit by lia.
Qed.

(** Two pages have the same word and bit only if they are the same. *)
Lemma page_place_inj p q : 0 ≤ p → 0 ≤ q → Z.to_nat (p / 128) = Z.to_nat (q / 128) → p mod 128 = q mod 128 → p = q.
Proof.
  intros Hp Hq Hd Hm. assert (0 ≤ p / 128) by (apply Z.div_pos; lia). assert (0 ≤ q / 128) by (apply Z.div_pos; lia).
  rewrite (Z.div_mod p 128), (Z.div_mod q 128) by lia. lia.
Qed.

(** Changing one bit of one word changes the state of one page. *)
Lemma set_word_bit vmm page word word' b :
  vmm_wf vmm → 0 ≤ page < PCIE_VMM_PAGES → vmm.(page_bitmap) !! Z.to_nat (page / 128) = Some word →
  0 ≤ word' < 2 ^ 128 →
  (∀ i, 0 ≤ i < 128 → Z.testbit word' i = if decide (i = page mod 128) then b else Z.testbit word i) →
  let vmm' := set_word vmm (page / 128) word' in
  vmm_wf vmm' ∧ ∀ q, 0 ≤ q → allocated vmm' q = if decide (q = page) then b else allocated vmm q.
Proof.
  intros (Hb & Hlen & Hw & Hn) Hp Hword Hr Hbit. split.
  - unfold vmm_wf, set_word. cbn [base_address page_bitmap next_search_start]. rewrite length_insert.
    split; [exact Hb|]. split; [exact Hlen|]. split; [by apply Forall_insert|exact Hn].
  - intros q Hq. assert (0 ≤ q mod 128 < 128) by (apply Z.mod_pos_bound; lia). unfold allocated. simpl.
    destruct (decide (Z.to_nat (page / 128) = Z.to_nat (q / 128))) as [E|E].
    + rewrite <- E, list_lookup_insert_eq by (by eapply lookup_lt_Some). rewrite Hword, Hbit by done.
      destruct (decide (q = page)) as [->|Hne]; [by rewrite decide_True|]. rewrite decide_False; [done|].
      intros Hm. apply Hne. apply page_place_inj; lia.
    + rewrite list_lookup_insert_ne by done. rewrite decide_False; [done|]. by intros ->.
Qed.

Lemma set_page_allocated_ok vmm page : vmm_wf vmm → 0 ≤ page < PCIE_VMM_PAGES →
  ∃ vmm', set_page_allocated page vmm = Ret vmm' ∧ vmm_wf vmm' ∧
    vmm'.(next_search_start) = vmm.(next_search_start) ∧
    ∀ q, 0 ≤ q → allocated vmm' q = if decide (q = page) then true else allocated vmm q.
Proof.
  intros Hwf Hp. destruct (page_word vmm page Hwf Hp) as (word & Hword & Hr & Hlt & Hm & Ha & Hshl).
  unfold set_page_allocated. rewrite (proj2 (Z.ltb_lt _ _)) by lia.
  rewrite Hlt, (index_ok _ _ _ Hword), Hshl. cbn [rassert mbind exec_bind]. eexists. split; [done|].
  assert (2 ^ (page mod 128) < 2 ^ 128) by (apply Z.pow_lt_mono_r; lia).
  destruct (set_word_bit vmm page word (Z.lor word (2 ^ (page mod 128))) true) as [H1 H2]; try done.
  - apply lor_range; lia.
  - intros i Hi. rewrite Z.lor_spec, Z.pow2_bits_eqb by lia. case_decide as Hc.
    + rewrite Hc, Z.eqb_refl. apply orb_true_r.
    + rewrite (proj2 (Z.eqb_neq _ _)) by lia. apply orb_false_r.
Qed.

Lemma set_page_free_ok vmm page : vmm_wf vmm → 0 ≤ page < PCIE_VMM_PAGES →
  ∃ vmm', set_page_free page vmm = Ret vmm' ∧ vmm_wf vmm' ∧
    vmm'.(next_search_start) = vmm.(next_search_start) ∧
    ∀ q, 0 ≤ q → allocated vmm' q = if decide (q = page) then false else allocated vmm q.
Proof.
  intros Hwf Hp. destruct (page_word vmm page Hwf Hp) as (word & Hword & Hr & Hlt & Hm & Ha & Hshl).
  unfold set_page_free. rewrite (proj2 (Z.ltb_lt _ _)) by lia.
  rewrite Hlt, (index_ok _ _ _ Hword), Hshl. cbn [rassert mbind exec_bind]. eexists. split; [done|].
  assert (2 ^ (page mod 128) < 2 ^ 128) by (apply Z.pow_lt_mono_r; lia).
  destruct (set_word_bit vmm page word (Z.land word (not_ 128 (2 ^ (page mod 128)))) false) as [H1 H2]; try done.
  - apply land_range; [lia|lia|]. apply not_range; lia.
  - intros i Hi. rewrite Z.land_spec, not_spec, Z.pow2_bits_eqb by lia. rewrite (proj2 (Z.ltb_lt i 128)) by lia.
    case_decide as Hc.
    + rewrite Hc, Z.eqb_refl. apply andb_false_r.
    + rewrite (proj2 (Z.eqb_neq _ _)) by lia. apply andb_true_r.
Qed.

(** Marking a run of pages. *)
Definition in_run (start count q : Z) : Prop := start ≤ q < start + count.
#[export] Instance in_run_dec start count q : Decision (in_run start count q).
Proof. unfold in_run. apply _. Defined.

Lemma mark_run (f : Z → PcieVmm → exec PcieVmm) b vmm start count :
  (∀ vmm page, vmm_wf vmm → 0 ≤ page < PCIE_VMM_PAGES →
    ∃ vmm', f page vmm = Ret vmm' ∧ vmm_wf vmm' ∧ vmm'.(next_search_start) = vmm.(next_search_start) ∧
      ∀ q, 0 ≤ q → allocated vmm' q = if decide (q = page) then b else allocated vmm q) →
  vmm_wf vmm → 0 ≤ start → 0 ≤ count → start + count ≤ PCIE_VMM_PAGES →
  ∃ vmm', range_fold f start (start + count) vmm = Ret vmm' ∧ vmm_wf vmm' ∧
    vmm'.(next_search_start) = vmm.(next_search_start) ∧
    ∀ q, 0 ≤ q → allocated vmm' q = if decide (in_run start count q) then b else allocated vmm q.
Proof.
  intros Hf Hwf Hs Hc He.
  destruct (range_fold_ok f (λ i v, vmm_wf v ∧ v.(next_search_start) = vmm.(next_search_start) ∧
    ∀ q, 0 ≤ q → allocated v q = if decide (in_run start (i - start) q) then b else allocated vmm q)
    start (start + count) vmm) as (vmm' & Hrun & Hwf' & Hn & Hq).
  - lia.
  - split_and!; [done..|]. intros q Hq. rewrite decide_False; [done|]. unfold in_run. lia.
  - intros i v Hi (Hv & Hn & Hq). destruct (Hf v i Hv) as (v' & Hv' & Hwf' & Hn' & Hq'); [lia|].
    exists v'. split_and!; [done..|congruence|]. intros q H0. rewrite Hq', Hq by done. unfold in_run.
    repeat case_decide; try done; lia.
  - exists vmm'. split_and!; try done. intros q H0. rewrite Hq by done. by replace (start + count - start) with count by lia.
Qed.

End Bitmap.

(** ** Searching for free pages *)

Section Search.
Context (vmm : PcieVmm) (Hwf : vmm_wf vmm).

(** A run of free pages inside the region. *)
Definition free_run (start count : Z) : Prop :=
  0 ≤ start ∧ start + count ≤ PCIE_VMM_PAGES ∧ ∀ q, in_run start count q → allocated vmm q = false.

Definition range_freeb (start count : Z) : bool :=
  forallb (λ i, (i <? PCIE_VMM_PAGES) && negb (allocated vmm i)) (seqZ start count).

Lemma range_freeb_spec start count : 0 ≤ start → 0 < count →
  range_freeb start count = true ↔ free_run start count.
Proof.
  intros Hs Hc. unfold range_freeb. rewrite forallb_elem. split.
  - intros Hall. split; [done|]. split.
    + specialize (Hall (start + count - 1)). rewrite elem_of_seqZ, andb_true_iff, Z.ltb_lt in Hall. lia.
    + intros q Hq. specialize (Hall q). rewrite elem_of_seqZ, andb_true_iff, negb_true_iff in Hall.
      by apply Hall.
  - intros (_ & He & Hq) i Hi%elem_of_seqZ. rewrite andb_true_iff, negb_true_iff, Z.ltb_lt.
    split; [lia|by apply Hq].
Qed.

Lemma is_range_free_ok start count : 0 ≤ start →
  is_range_free vmm start count = Ret (range_freeb start count).
Proof.
  intros Hs. unfold is_range_free.
  destruct (range_find_ok (λ i, if PCIE_VMM_PAGES <=? i then mret true else is_page_allocated vmm i)
    (λ i, (PCIE_VMM_PAGES <=? i) || allocated vmm i) start (start + count)) as (r & -> & Hr).
  { intros i Hi. rewrite is_page_allocated_ok by (done || lia). by destruct (PCIE_VMM_PAGES <=? i). }
  cbn [mbind exec_bind]. unfold mret, exec_ret. f_equal. symmetry. unfold range_freeb. destruct r as [x|].
  - destruct Hr as (Hx & Hq & _). apply not_true_iff_false. rewrite forallb_elem. intros Hall.
    specialize (Hall x). rewrite elem_of_seqZ, andb_true_iff, negb_true_iff, Z.ltb_lt in Hall.
    destruct (Hall Hx) as [H1 H2]. rewrite H2, (proj2 (Z.leb_gt _ _) H1) in Hq. done.
  - apply forallb_elem. intros i Hi%elem_of_seqZ. specialize (Hr i Hi).
    apply orb_false_iff in Hr as [H1%Z.leb_gt ->]. rewrite (proj2 (Z.ltb_lt _ _) H1). done.
Qed.

(** What the search returns is free, and it finds a run whenever there is one. *)
Lemma find_free_pages_ok n : 0 < n →
  ∃ r, find_free_pages vmm n = Ret r ∧
    match r with
    | Some s => free_run s n
    | None => ∀ s, ¬ free_run s n
    end.
Proof.
  intros Hn. pose proof Hwf as (_ & _ & _ & Hstart). unfold find_free_pages.
  destruct (Z.ltb_spec PCIE_VMM_PAGES n) as [Hbig|Hsmall].
  { exists None. split; [done|]. intros s (H1 & H2 & _). lia. }
  destruct (range_find_ok (λ start, is_range_free vmm start n) (λ s, range_freeb s n)
    vmm.(next_search_start) (PCIE_VMM_PAGES - n + 1)) as (r & -> & Hr).
  { intros i Hi. apply is_range_free_ok. lia. }
  cbn [mbind exec_bind]. destruct r as [s|].
  { exists (Some s). split; [done|]. apply range_freeb_spec; [lia|done|]. apply Hr. }
  destruct (range_find_ok (λ start, is_range_free vmm start n) (λ s, range_freeb s n)
    0 (vmm.(next_search_start) `min` (PCIE_VMM_PAGES - n + 1))) as (r & -> & Hr').
  { intros i Hi. apply is_range_free_ok. lia. }
  exists r. split; [done|]. destruct r as [s|].
  { apply range_freeb_spec; [lia|done|]. apply Hr'. }
  intros s Hfree. pose proof Hfree as (H1 & H2 & _). apply range_freeb_spec in Hfree; [|lia|done].
  destruct (decide (s < vmm.(next_search_start))).
  - rewrite Hr' in Hfree by lia. done.
  - rewrite Hr in Hfree by lia. done.
Qed.

(** [count_allocated_pages] counts the pages whose bit is set. *)
Definition allocated_list : list Z := filter (λ q, allocated vmm q = true) (seqZ 0 PCIE_VMM_PAGES).

Lemma count_word i word :
  0 ≤ i → vmm.(page_bitmap) !! Z.to_nat i = Some word →
  count_ones 128 word = Z.of_nat (length (filter (λ q, allocated vmm q = true) (seqZ (128 * i) 128))).
Proof.
  intros Hi Hword. unfold count_ones. replace (128 * i) with (128 * i + 0) by lia.
  rewrite <- (fmap_add_seqZ (128 * i) 0). f_equal. symmetry. apply length_filter_fmap.
  intros j Hj%elem_of_seqZ. unfold allocated.
  rewrite (Z.mul_comm 128), Z.div_add_l, Z.div_small, Z.add_0_r by lia.
  rewrite (Z.add_comm (i * 128)), Z.mod_add, Z.mod_small by lia. by rewrite Hword.
Qed.

Lemma count_allocated_pages_ok : count_allocated_pages vmm = Ret (Z.of_nat (length allocated_list)).
Proof.
  pose proof Hwf as (_ & Hlen & _). unfold count_allocated_pages.
  set (cnt := λ i, Z.of_nat (length (filter (λ q, allocated vmm q = true) (seqZ 0 (128 * i))))).
  assert (∀ i, 0 ≤ i < BITMAP_WORDS → ∃ word, vmm.(page_bitmap) !! Z.to_nat i = Some word ∧
    add_chk 64 (cnt i) (count_ones 128 word) = Ret (cnt (i + 1))) as Hstep.
  { intros i Hi. destruct (lookup_lt_is_Some_2 vmm.(page_bitmap) (Z.to_nat i)) as [word Hword]; [lia|].
    exists word. split; [done|]. rewrite words_eq in Hi.
    assert (cnt (i + 1) = cnt i + count_ones 128 word) as ->.
    { unfold cnt. rewrite (count_word i word) by (done || lia).
      replace (128 * (i + 1)) with (128 * i + 128) by lia.
      rewrite seqZ_app, filter_app, length_app by lia. rewrite Z.add_0_l. lia. }
    apply add_chk_ok. unfold cnt, count_ones. pose proof (length_filter (λ q, allocated vmm q = true) (seqZ 0 (128 * i))).
    pose proof (length_filter (λ i, Z.testbit word i = true) (seqZ 0 128)). rewrite !length_seqZ in *. lia. }
  destruct (range_fold_ok (λ i count, word ← index vmm.(page_bitmap) (Z.to_nat i);
      add_chk 64 count (count_ones 128 word)) (λ i c, c = cnt i) 0 (BITMAP_WORDS - 1) 0) as (c & -> & ->).
  - rewrite words_eq. lia.
  - done.
  - intros i c Hi ->. destruct (Hstep i) as (word & Hword & Hadd); [lia|]. exists (cnt (i + 1)).
    rewrite (index_ok _ _ _ Hword). done.
  - cbn [mbind exec_bind]. destruct (Hstep (BITMAP_WORDS - 1)) as (word & Hword & Hadd); [rewrite words_eq; lia|].
    rewrite (index_ok _ _ _ Hword). cbn [mbind exec_bind].
    assert ((PCIE_VMM_PAGES <? BITMAP_WORDS * 128) = false) as -> by reflexivity. rewrite Hadd.
    assert (128 * (BITMAP_WORDS - 1 + 1) = PCIE_VMM_PAGES) as He by reflexivity.
    unfold cnt, allocated_list. rewrite He. reflexivity.
Qed.

End Search.

(** ** Mapping BARs *)

Section Mapping.
Context `{AddressesOk} {PT FA : Type} `{MapperOk PT, FrameSourceOk FA}.

(** The pages of the region are canonical addresses at page boundaries. *)
Lemma region_page k : 0 ≤ k < PCIE_VMM_PAGES →
  VirtAddr_new (PCIE_VMM_START + 4096 * k) = Ret (PCIE_VMM_START + 4096 * k) ∧
  containing_address (PCIE_VMM_START + 4096 * k) = PCIE_VMM_START + 4096 * k.
Proof.
  rewrite pages_eq. unfold PCIE_VMM_START. intros Hk. split.
  - apply VirtAddr_new_ok. right. lia.
  - apply containing_aligned; [lia|]. exists (0xFFFFFA0000000 + k). lia.
Qed.

(** The pages of a run of the region have addresses the mapping loop accepts. *)
Lemma run_mappable start phys count :
  0 ≤ start → start + Z.of_nat count ≤ PCIE_VMM_PAGES → 0 ≤ phys →
  (∀ j, 0 ≤ j < Z.of_nat count → phys + 4096 * j < 2 ^ 52) →
  mappable (PCIE_VMM_START + 4096 * start) phys 0 count.
Proof.
  rewrite pages_eq. unfold PCIE_VMM_START. intros Hs He Hp Hphys. split_and!; try lia.
  - exists (0xFFFFFA0000000 + start). lia.
  - intros j Hj. split; [right; lia|]. apply Hphys. lia.
Qed.

(** Unmapping pages that are mapped succeeds and unmaps exactly them. *)
Lemma unmap_pages_loop_ok start count i pt :
  let virt := PCIE_VMM_START + 4096 * start in
  0 ≤ i → 0 ≤ start → start + i + Z.of_nat count ≤ PCIE_VMM_PAGES →
  (∀ j, i ≤ j < i + Z.of_nat count → translate pt (virt + 4096 * j) ≠ None) →
  ∃ pt', unmap_pages_loop virt i count pt = Ret (Ok (), pt') ∧
    (∀ j, i ≤ j < i + Z.of_nat count → translate pt' (virt + 4096 * j) = None) ∧
    (∀ q, (∀ j, i ≤ j < i + Z.of_nat count → q ≠ virt + 4096 * j) → translate pt' q = translate pt q).
Proof.
  intros virt. revert i pt. induction count as [|count IH]; intros i pt Hi Hs He Hm.
  { exists pt. split_and!; try done. intros j Hj. lia. }
  cbn [unmap_pages_loop]. rewrite pages_eq in He.
  assert (page_address virt i = Ret (PCIE_VMM_START + 4096 * (start + i))) as ->.
  { rewrite page_address_ok; [f_equal; unfold virt; lia|lia|]. unfold virt, PCIE_VMM_START. lia. }
  destruct (region_page (start + i)) as [Hv Hc]; [rewrite pages_eq; lia|].
  cbn [mbind exec_bind]. rewrite Hv. cbn [mbind exec_bind]. rewrite Hc.
  replace (PCIE_VMM_START + 4096 * (start + i)) with (virt + 4096 * i) by (unfold virt; lia).
  destruct (translate pt (virt + 4096 * i)) as [[f fl]|] eqn:Ht; [|by destruct (Hm i); [lia|]].
  destruct (unmap_mapped _ _ _ _ Ht) as [pt1 Hu]. rewrite Hu.
  destruct (unmap_Ok _ _ _ _ Hu) as (_ & Hnone & Hother).
  destruct (IH (i + 1) pt1) as (pt' & -> & Hin & Hout); try lia.
  { rewrite pages_eq. lia. } { intros j Hj. rewrite Hother by lia. apply Hm. lia. }
  exists pt'. split_and!; [done| |].
  - intros j Hj. destruct (decide (j = i)) as [->|]; [|apply Hin; lia]. rewrite Hout; [done|]. lia.
  - intros q Hq. rewrite Hout; [apply Hother, Hq; lia|]. intros j Hj. apply Hq. lia.
Qed.

(** The pages of a mapped BAR. *)
Definition bar_pages (b : MappedBar) : Z := div_ceil b.(bar_size) PAGE_SIZE.
Definition bar_start (b : MappedBar) : Z := (b.(virtual_address) - PCIE_VMM_START) / PAGE_SIZE.

(** A BAR lies at a page of the region and each of its pages shows the
    corresponding page of the device, never executable, and uncached unless the
    BAR is prefetchable. *)
Definition bar_mapped (pt : PT) (b : MappedBar) : Prop :=
  0 < b.(bar_size) ∧ b.(virtual_address) = PCIE_VMM_START + 4096 * bar_start b ∧
  0 ≤ bar_start b ∧ bar_start b + bar_pages b ≤ PCIE_VMM_PAGES ∧
  ∀ i, 0 ≤ i < bar_pages b → translate pt (b.(virtual_address) + 4096 * i) =
    Some (containing_address (b.(physical_address) + 4096 * i), bar_flags b.(bar_prefetchable)).

Definition bars_disjoint (b1 b2 : MappedBar) : Prop :=
  bar_start b1 + bar_pages b1 ≤ bar_start b2 ∨ bar_start b2 + bar_pages b2 ≤ bar_start b1.

Lemma bars_disjoint_sym b1 b2 : bars_disjoint b1 b2 → bars_disjoint b2 b1.
Proof. unfold bars_disjoint. tauto. Qed.

Definition vmm_inv (vmm : PcieVmm) (pt : PT) (bars : list MappedBar) : Prop :=
  vmm_wf vmm ∧ Forall (bar_mapped pt) bars ∧ pairwise bars_disjoint bars ∧
  ∀ q, 0 ≤ q → allocated vmm q = true ↔ ∃ b, b ∈ bars ∧ in_run (bar_start b) (bar_pages b) q.

Lemma div_ceil_pos a : 0 < a → 0 < div_ceil a 4096 ∧ 4096 * (div_ceil a 4096 - 1) < a.
Proof.
  intros Ha. unfold div_ceil. pose proof (Z.div_mod (a + 4096 - 1) 4096 ltac:(lia)).
  pose proof (Z.mod_pos_bound (a + 4096 - 1) 4096 ltac:(lia)). lia.
Qed.

Lemma bar_mapped_mono pt pt' b :
  (∀ q, translate pt q ≠ None → translate pt' q = translate pt q) → bar_mapped pt b → bar_mapped pt' b.
Proof.
  intros Hq (Hsz & Hva & Hlo & Hhi & Htr). split; [done|]. split; [done|]. split; [done|]. split; [done|].
  intros i Hi. rewrite Hq by (by rewrite Htr). by apply Htr.
Qed.

(** Adding a BAR on pages that were free. *)
Lemma vmm_inv_add vmm vmm1 pt pt' bars b next :
  vmm_inv vmm pt bars → Forall (bar_mapped pt') bars → bar_mapped pt' b → vmm_wf vmm1 →
  0 ≤ next < PCIE_VMM_PAGES →
  (∀ q, in_run (bar_start b) (bar_pages b) q → allocated vmm q = false) →
  (∀ q, 0 ≤ q → allocated vmm1 q = if decide (in_run (bar_start b) (bar_pages b) q) then true else allocated vmm q) →
  vmm_inv (set_search_start vmm1 next) pt' (b :: bars).
Proof.
  intros (_ & _ & Hdis & Hbits) Hbars Hb (Hw1 & Hw2 & Hw3 & _) Hnext Hfree Ha.
  split; [done|]. split; [by constructor|]. split.
  - constructor; [|done]. intros b' Hb'. unfold bars_disjoint.
    destruct (decide (bar_start b + bar_pages b ≤ bar_start b' ∨ bar_start b' + bar_pages b' ≤ bar_start b))
      as [|Hov]; [done|exfalso]. rewrite Forall_forall in Hbars.
    destruct (Hbars b' Hb') as (Hz' & _ & Hlo' & _). destruct Hb as (Hz & _ & Hlo & _).
    pose proof (div_ceil_pos _ Hz). pose proof (div_ceil_pos _ Hz').
    set (q := Z.max (bar_start b) (bar_start b')). assert (in_run (bar_start b) (bar_pages b) q) as Hq.
    { unfold in_run, bar_pages, PAGE_SIZE, q in *. lia. }
    assert (allocated vmm q = true) as Hal; [|by rewrite Hfree in Hal].
    apply Hbits; [lia|]. exists b'. split; [done|]. unfold in_run, bar_pages, PAGE_SIZE, q in *. lia.
  - intros q Hq. unfold set_search_start, allocated in *. cbn [page_bitmap]. rewrite Ha by done. clear Ha. case_decide as Hin.
    + split; [|done]. intros _. exists b. split; [by left|done].
    + rewrite (Hbits q Hq). split.
      * intros (b' & Hb' & Hr). exists b'. split; [by right|done].
      * intros (b' & [->|Hb']%elem_of_cons & Hr); [done|eauto].
Qed.

(** Mapping returns.  It refuses an empty or unassigned BAR, reports
    [AllocationFailed] only when no run of pages is free, leaves the allocator
    unchanged when the page table refuses, and otherwise adds a BAR. *)
Lemma map_memory_bar_ok phys size prefetchable vmm pt fa used bars :
  vmm_inv vmm pt bars → fs_inv fa used → 0 ≤ size → 0 ≤ phys → phys + size ≤ 2 ^ 52 →
  ∃ r vmm' pt' fa' more,
    map_memory_bar phys size prefetchable vmm (mkGlobals (Some pt) (Some fa)) =
      Ret (r, vmm', mkGlobals (Some pt') (Some fa')) ∧ fs_inv fa' (more ++ used) ∧
    (∀ q, translate pt q ≠ None → translate pt' q = translate pt q) ∧
    match r with
    | Ok b => vmm_inv vmm' pt' (b :: bars) ∧ b.(physical_address) = phys ∧ b.(bar_size) = size ∧
        b.(bar_prefetchable) = prefetchable
    | Err e => vmm' = vmm ∧ vmm_inv vmm pt' bars ∧
        (e = InvalidDevice ↔ size = 0 ∨ phys = 0) ∧
        (e = AllocationFailed → ∀ s, ¬ free_run vmm s (div_ceil size PAGE_SIZE))
    end.
Proof.
  intros Hinv Hfs Hsize Hphys Hend. unfold map_memory_bar.
  destruct (Z.eqb_spec size 0) as [->|Hs0]; [|destruct (Z.eqb_spec phys 0) as [->|Hp0]]; cbn [orb].
  { exists (Err InvalidDevice), vmm, pt, fa, []. split_and!; try done. split; [by left|done]. }
  { exists (Err InvalidDevice), vmm, pt, fa, []. split_and!; try done. split; [by right|done]. }
  destruct (div_ceil_pos size ltac:(lia)) as [Hn Hlast]. unfold PAGE_SIZE. set (n := div_ceil size 4096) in *.
  pose proof Hinv as (Hwf & Hbars & Hdis & Hbits).
  destruct (find_free_pages_ok vmm Hwf n Hn) as (r & -> & Hr). cbn [mbind exec_bind].
  destruct r as [s|].
  2:{ exists (Err AllocationFailed), vmm, pt, fa, []. split_and!; try done. split; [done|lia]. }
  destruct Hr as (Hs & Hse & Hfree). pose proof Hwf as (Hbase & _). rewrite Hbase.
  pose proof pages_eq as Hpages. destruct (region_page s) as [Hv _]; [lia|].
  rewrite page_address_ok by (unfold PCIE_VMM_START; lia). cbn [mbind exec_bind]. rewrite Hv. cbn [mbind exec_bind].
  unfold map_pages. cbn [PAGE_TABLE FRAME_ALLOCATOR].
  destruct (map_pages_loop_ok (PCIE_VMM_START + 4096 * s) phys (bar_flags prefetchable) (Z.to_nat n) 0 pt fa used)
    as (r & pt' & fa' & more & -> & Hfs' & Hkeep & _ & Hr); [done|apply run_mappable; lia|].
  cbn [mbind exec_bind]. assert (Forall (bar_mapped pt') bars) as Hbars'.
  { eapply Forall_impl; [done|]. intros b. by apply bar_mapped_mono. }
  destruct r as [[]|e].
  2:{ exists (Err e), vmm, pt', fa', more. subst e. split_and!; try done. split; [done|lia]. }
  destruct (mark_run set_page_allocated true vmm s n) as (vmm1 & -> & Hwf1 & Hn1 & Ha1); try done; try lia.
  { apply set_page_allocated_ok. }
  cbn [mbind exec_bind]. set (b := mkMappedBar _ _ _ _).
  assert (bar_start b = s) as Hbs.
  { unfold bar_start, b, PAGE_SIZE. cbn [virtual_address].
    replace (PCIE_VMM_START + 4096 * s - PCIE_VMM_START) with (s * 4096) by lia. apply Z.div_mul. lia. }
  assert (bar_pages b = n) as Hbn by done.
  exists (Ok b), (set_search_start vmm1 (if PCIE_VMM_PAGES <=? s + n then 0 else s + n)), pt', fa', more.
  split_and!; try done. apply (vmm_inv_add vmm vmm1 pt pt' bars b); try done; rewrite ?Hbs, ?Hbn; try done.
  - unfold bar_mapped. rewrite Hbs, Hbn. split; [cbn; lia|]. split; [done|]. split; [done|]. split; [done|].
    intros i Hi. apply Hr. lia.
  - destruct (Z.leb_spec PCIE_VMM_PAGES (s + n)); lia.
Qed.

(** Pages of disjoint BARs are different. *)
Lemma disjoint_pages pt b b' i j :
  bar_mapped pt b → bar_mapped pt b' → bars_disjoint b b' →
  0 ≤ i < bar_pages b → 0 ≤ j < bar_pages b' →
  b.(virtual_address) + 4096 * i ≠ b'.(virtual_address) + 4096 * j.
Proof.
  intros (_ & -> & _) (_ & -> & _) [Hd|Hd] Hi Hj; lia.
Qed.

(** Removing a BAR. *)
Lemma vmm_inv_remove vmm vmm1 pt bars b :
  vmm_wf vmm1 → 0 ≤ bar_start b → bar_start b < PCIE_VMM_PAGES →
  Forall (bar_mapped pt) bars → pairwise bars_disjoint bars → (∀ b', b' ∈ bars → bars_disjoint b b') →
  (∀ q, 0 ≤ q → allocated vmm q = true ↔ ∃ b', b' ∈ b :: bars ∧ in_run (bar_start b') (bar_pages b') q) →
  (∀ q, 0 ≤ q → allocated vmm1 q = if decide (in_run (bar_start b) (bar_pages b) q) then false else allocated vmm q) →
  vmm_inv (if bar_start b <? vmm1.(next_search_start) then set_search_start vmm1 (bar_start b) else vmm1) pt bars.
Proof.
  intros (Hw1 & Hw2 & Hw3 & Hw4) Hlo Hhi Hbars Hdis Hbd Hbits Ha.
  assert (∀ q, 0 ≤ q → allocated vmm1 q = true ↔ ∃ b', b' ∈ bars ∧ in_run (bar_start b') (bar_pages b') q) as Hbits1.
  { intros q Hq. rewrite Ha by done. case_decide as Hin.
    - split; [done|]. intros (b' & Hb' & Hin'). destruct (Hbd b' Hb') as [Hd|Hd]; unfold in_run in *; lia.
    - rewrite Hbits by done. split.
      + intros (b' & [->|Hb']%elem_of_cons & Hin'); [done|eauto].
      + intros (b' & Hb' & Hin'). exists b'. split; [by right|done]. }
  destruct (Z.ltb_spec (bar_start b) vmm1.(next_search_start)); (split; [|by split]).
  - split; [done|]. split; [done|]. split; [done|]. by split.
  - done.
Qed.

(** Unmapping a BAR succeeds, unmaps its pages and makes them free again. *)
Lemma unmap_bar_ok b bars bars' vmm pt (fa : option FA) :
  vmm_inv vmm pt bars → bars ≡ₚ b :: bars' →
  ∃ vmm' pt', unmap_bar b vmm (mkGlobals (Some pt) fa) = Ret (Ok (), vmm', mkGlobals (Some pt') fa) ∧
    vmm_inv vmm' pt' bars' ∧
    (∀ i, 0 ≤ i < bar_pages b → translate pt' (b.(virtual_address) + 4096 * i) = None) ∧
    (∀ q, (∀ i, 0 ≤ i < bar_pages b → q ≠ b.(virtual_address) + 4096 * i) → translate pt' q = translate pt q).
Proof.
  intros (Hwf & Hbars & Hdis & Hbits) Hp. rewrite Hp in Hbars.
  apply (pairwise_perm _ _ _ bars_disjoint_sym Hp) in Hdis.
  apply Forall_cons in Hbars as [Hb Hbars]. pose proof Hb as (Hz & Hva & Hlo & Hhi & Htr).
  inversion Hdis as [|? ? Hbd Hdis']; subst. pose proof Hwf as (Hbase & _).
  unfold unmap_bar. rewrite Hbase. rewrite sub_chk_ok by (unfold PCIE_VMM_START in *; lia). cbn [mbind exec_bind].
  change ((virtual_address b - PCIE_VMM_START) / PAGE_SIZE) with (bar_start b).
  change (div_ceil (bar_size b) PAGE_SIZE) with (bar_pages b).
  assert (0 < bar_pages b) as Hpos by (apply div_ceil_pos; done).
  unfold unmap_pages. cbn [PAGE_TABLE FRAME_ALLOCATOR]. rewrite Hva.
  destruct (unmap_pages_loop_ok (bar_start b) (Z.to_nat (bar_pages b)) 0 pt) as (pt' & -> & Hnone & Hother); try lia.
  { intros j Hj. rewrite <- Hva, Htr by lia. done. }
  cbn [mbind exec_bind]. rewrite Z2Nat.id in Hnone, Hother by lia. rewrite Z.add_0_l in Hnone, Hother.
  destruct (mark_run (λ i vmm, if i <? PCIE_VMM_PAGES then set_page_free i vmm else mret vmm) false vmm
    (bar_start b) (bar_pages b)) as (vmm1 & -> & Hwf1 & Hn1 & Ha1); try done; try lia.
  { intros v page Hv Hpage. rewrite (proj2 (Z.ltb_lt _ _)) by lia. by apply set_page_free_ok. }
  cbn [mbind exec_bind]. eexists _, pt'. split; [done|]. split; [|split; done].
  assert (Forall (bar_mapped pt') bars') as Hbars'.
  { rewrite Forall_forall in Hbars |- *. intros b' Hb'. pose proof (Hbars b' Hb') as Hm'.
    pose proof Hm' as (Hz' & Hva' & Hlo' & Hhi' & Htr').
    split; [done|]. split; [done|]. split; [done|]. split; [done|].
    intros j Hj. rewrite Hother; [by apply Htr'|]. intros i Hi. rewrite <- Hva.
    apply not_eq_sym. by apply (disjoint_pages pt); try done; apply Hbd. }
  apply (vmm_inv_remove vmm); try done; [lia|].
  intros q Hq. rewrite Hbits by done. by setoid_rewrite Hp.
Qed.

(** What can happen to the allocator: requests to map a BAR, whether they
    succeed or not, a BAR in use being unmapped, and other kernel activity, which
    maps and unmaps pages elsewhere and uses frames. *)
Abbreviation vmm_state := (PcieVmm * PT * FA * list MappedBar)%type.
Inductive vmm_step : vmm_state → vmm_state → Prop :=
  | vmm_map phys size prefetchable vmm pt fa bars r vmm' pt' fa' :
      0 ≤ size → 0 ≤ phys → phys + size ≤ 2 ^ 52 →
      map_memory_bar phys size prefetchable vmm (mkGlobals (Some pt) (Some fa)) =
        Ret (r, vmm', mkGlobals (Some pt') (Some fa')) →
      vmm_step (vmm, pt, fa, bars) (vmm', pt', fa', match r with Ok b => b :: bars | Err _ => bars end)
  | vmm_unmap b bars' vmm pt fa bars r vmm' pt' :
      bars ≡ₚ b :: bars' →
      unmap_bar b vmm (mkGlobals (Some pt) (Some fa)) = Ret (r, vmm', mkGlobals (Some pt') (Some fa)) →
      vmm_step (vmm, pt, fa, bars) (vmm', pt', fa, bars')
  | vmm_other vmm pt fa bars pt' fa' used' :
      (∀ k, 0 ≤ k < PCIE_VMM_PAGES →
        translate pt' (PCIE_VMM_START + 4096 * k) = translate pt (PCIE_VMM_START + 4096 * k)) →
      fs_inv fa' used' → vmm_step (vmm, pt, fa, bars) (vmm, pt', fa', bars).

Definition vmm_state_inv (s : vmm_state) : Prop :=
  let '(vmm, pt, fa, bars) := s in vmm_inv vmm pt bars ∧ ∃ used, fs_inv fa used.

Lemma vmm_step_inv s s' : vmm_step s s' → vmm_state_inv s → vmm_state_inv s'.
Proof.
  intros [phys size pf vmm pt fa bars r vmm' pt' fa' Hs Hp He Hrun
         |b bars' vmm pt fa bars r vmm' pt' Hb Hrun|vmm pt fa bars pt' fa' used' Hpt Hfa] [Hinv [used Hfs]].
  - destruct (map_memory_bar_ok phys size pf vmm pt fa used bars Hinv Hfs Hs Hp He)
      as (r1 & vmm1 & pt1 & fa1 & more & Hrun1 & Hfs1 & _ & Hr).
    rewrite Hrun1 in Hrun. injection Hrun as <- <- <- <-. split; [|eauto].
    destruct r1; [apply Hr|]. by destruct Hr as (-> & Hv & _).
  - destruct (unmap_bar_ok b bars bars' vmm pt (Some fa) Hinv Hb) as (vmm1 & pt1 & Hrun1 & Hinv1 & _).
    rewrite Hrun1 in Hrun. injection Hrun as <- <- <-. split; [done|eauto].
  - split; [|eauto]. destruct Hinv as (Hwf & Hbars & Hrest). split; [done|]. split; [|done].
    eapply Forall_impl; [done|]. intros b (Hz & Hva & Hlo & Hhi & Htr).
    split; [done|]. split; [done|]. split; [done|]. split; [done|]. intros i Hi. rewrite <- Htr by done. rewrite Hva.
    replace (PCIE_VMM_START + 4096 * bar_start b + 4096 * i) with (PCIE_VMM_START + 4096 * (bar_start b + i)) by lia.
    apply Hpt. lia.
Qed.

Lemma vmm_new_inv pt : vmm_inv PcieVmm_new pt [].
Proof.
  assert (∀ q, allocated PcieVmm_new q = false) as Hnone.
  { intros q. unfold allocated, PcieVmm_new. cbn [page_bitmap].
    destruct (replicate _ 0 !! _) as [w|] eqn:Hw; [|done]. apply lookup_replicate in Hw as [-> _]. apply Z.bits_0. }
  split; [|split; [done|split; [constructor|]]].
  - split; [done|]. unfold PcieVmm_new. cbn [page_bitmap next_search_start]. rewrite length_replicate.
    split; [rewrite words_eq; lia|]. split; [apply Forall_replicate; lia|rewrite pages_eq; lia].
  - intros q Hq. rewrite Hnone. split; [done|]. intros (b & Hb & _). by apply elem_of_nil in Hb.
Qed.

Lemma vmm_reachable pt0 fa0 used0 s :
  fs_inv fa0 used0 → rtc vmm_step (PcieVmm_new, pt0, fa0, []) s → vmm_state_inv s.
Proof.
  intros Hfs Hsteps.
  assert (vmm_state_inv (PcieVmm_new, pt0, fa0, [])) as Hinv by (split; [apply vmm_new_inv|eauto]).
  revert Hinv. clear Hfs. induction Hsteps as [|s1 s2 s3 Hstep _ IH]; intros Hinv; [done|].
  apply IH. by eapply vmm_step_inv.
Qed.

(** C12: device memory is isolated.  Whatever sequence of map and unmap requests
    the drivers have made, and whichever of them failed, the BARs in use lie in
    the region on disjoint pages, and page [i] of each of them shows page [i] of
    its device memory, not executable and uncached unless prefetchable. *)
Theorem bars_isolated pt0 fa0 used0 vmm pt fa bars :
  fs_inv fa0 used0 → rtc vmm_step (PcieVmm_new, pt0, fa0, []) (vmm, pt, fa, bars) →
  (∀ i b, bars !! i = Some b → bar_mapped pt b) ∧
  (∀ i j b b', i ≠ j → bars !! i = Some b → bars !! j = Some b' → bars_disjoint b b').
Proof.
  intros Hfs Hsteps. destruct (vmm_reachable _ _ _ _ Hfs Hsteps) as [(_ & Hbars & Hdis & _) _]. split.
  - intros i b Hi. rewrite Forall_forall in Hbars. by apply Hbars, (list_elem_of_lookup_2 _ i).
  - intros i j b b' Hij Hi Hj. by apply (pairwise_lookup_ne _ bars i j); [apply bars_disjoint_sym|..].
Qed.

(** Every request is answered.  In a reachable state a request to map a BAR
    returns: it is refused as invalid exactly when the BAR is empty or
    unassigned, and for lack of space only when the region has no run of free
    pages that is long enough; no page that was mapped is touched.  A BAR in use
    can always be unmapped, after which none of its pages is mapped. *)
Theorem vmm_requests pt0 fa0 used0 vmm pt fa bars :
  fs_inv fa0 used0 → rtc vmm_step (PcieVmm_new, pt0, fa0, []) (vmm, pt, fa, bars) →
  (∀ phys size prefetchable, 0 ≤ size → 0 ≤ phys → phys + size ≤ 2 ^ 52 →
    ∃ r vmm' pt' fa',
      map_memory_bar phys size prefetchable vmm (mkGlobals (Some pt) (Some fa)) =
        Ret (r, vmm', mkGlobals (Some pt') (Some fa')) ∧
      (∀ q, translate pt q ≠ None → translate pt' q = translate pt q) ∧
      match r with
      | Ok b => b.(physical_address) = phys ∧ b.(bar_size) = size ∧ b.(bar_prefetchable) = prefetchable
      | Err e => vmm' = vmm ∧ (e = InvalidDevice ↔ size = 0 ∨ phys = 0) ∧
          (e = AllocationFailed → ∀ s, ¬ free_run vmm s (div_ceil size PAGE_SIZE))
      end) ∧
  (∀ b, b ∈ bars →
    ∃ vmm' pt', unmap_bar b vmm (mkGlobals (Some pt) (Some fa)) = Ret (Ok (), vmm', mkGlobals (Some pt') (Some fa)) ∧
      ∀ i, 0 ≤ i < bar_pages b → translate pt' (b.(virtual_address) + 4096 * i) = None).
Proof.
  intros Hfs Hsteps. destruct (vmm_reachable _ _ _ _ Hfs Hsteps) as [Hinv [used Hu]]. split.
  - intros phys size pf Hs Hp He.
    destruct (map_memory_bar_ok phys size pf vmm pt fa used bars Hinv Hu Hs Hp He)
      as (r & vmm' & pt' & fa' & more & Hrun & _ & Hkeep & Hr).
    exists r, vmm', pt', fa'. split; [done|]. split; [done|]. destruct r; [apply Hr|]. split; [apply Hr|]. split; apply Hr.
  - intros b [bars' Hb]%elem_of_Permutation.
    destruct (unmap_bar_ok b bars bars' vmm pt (Some fa) Hinv Hb) as (vmm' & pt' & Hrun & _ & Hnone & _). eauto.
Qed.

(** The pages of a list of disjoint BARs. *)
Definition pages_of (bars : list MappedBar) : list Z := concat ((λ b, seqZ (bar_start b) (bar_pages b)) <$> bars).

Lemma elem_of_pages_of q bars : q ∈ pages_of bars ↔ ∃ b, b ∈ bars ∧ in_run (bar_start b) (bar_pages b) q.
Proof.
  unfold pages_of, in_run. induction bars as [|b bars IH]; cbn.
  - split; [by intros ?%elem_of_nil|]. by intros (? & ?%elem_of_nil & _).
  - rewrite elem_of_app, IH, elem_of_seqZ. split.
    + intros [Hq|(b' & Hb' & Hq)]; [exists b; split; [by left|done]|exists b'; split; [by right|done]].
    + intros (b' & [->|Hb']%elem_of_cons & Hq); [by left|right; eauto].
Qed.
Lemma pages_of_NoDup bars : pairwise bars_disjoint bars → NoDup (pages_of bars).
Proof.
  induction 1 as [|b bars Hb _ IH]; [constructor|]. unfold pages_of in *. cbn. apply NoDup_app.
  split; [apply NoDup_seqZ|]. split; [|done]. intros q Hq%elem_of_seqZ Hq'%(elem_of_pages_of q bars).
  destruct Hq' as (b' & Hb' & Hr). destruct (Hb b' Hb') as [Hd|Hd]; unfold in_run in Hr; lia.
Qed.

(** The statistics are exact.  In a reachable state [get_stats] returns, and
    the allocated pages it counts in the bitmap are the pages of the BARs in
    use; the free pages are the rest, and the sizes are the same in bytes. *)
Theorem vmm_stats_exact pt0 fa0 used0 vmm pt fa bars :
  fs_inv fa0 used0 → rtc vmm_step (PcieVmm_new, pt0, fa0, []) (vmm, pt, fa, bars) →
  let n := Z.of_nat (length (pages_of bars)) in
  get_stats vmm = Ret (mkVmmStats PCIE_VMM_PAGES n (PCIE_VMM_PAGES - n) PCIE_VMM_SIZE
                         (n * PAGE_SIZE) ((PCIE_VMM_PAGES - n) * PAGE_SIZE)) ∧
  n = foldr Z.add 0 (bar_pages <$> bars).
Proof.
  intros Hfs Hsteps. destruct (vmm_reachable _ _ _ _ Hfs Hsteps) as [(Hwf & Hbars & Hdis & Hbits) _].
  cbn zeta. assert (allocated_list vmm ≡ₚ pages_of bars) as Hperm.
  { apply NoDup_Permutation; [apply NoDup_filter, NoDup_seqZ|by apply pages_of_NoDup|]. intros q.
    unfold allocated_list. rewrite list_elem_of_filter, elem_of_seqZ, elem_of_pages_of. split.
    - intros [Ha Hq]. apply Hbits; [lia|done].
    - intros (b & Hb & Hr). rewrite Forall_forall in Hbars. destruct (Hbars b Hb) as (_ & _ & Hlo & Hhi & _).
      unfold in_run in Hr. split; [|lia]. apply Hbits; [lia|]. eauto. }
  assert (Z.of_nat (length (pages_of bars)) ≤ 4194304) as Hle.
  { rewrite <- Hperm. unfold allocated_list.
    pose proof (length_filter (λ q, allocated vmm q = true) (seqZ 0 PCIE_VMM_PAGES)) as Hl.
    rewrite length_seqZ, pages_eq in Hl. rewrite pages_eq. lia. }
  split.
  - unfold get_stats. rewrite (count_allocated_pages_ok vmm Hwf), Hperm. cbn [mbind exec_bind].
    rewrite sub_chk_ok by (rewrite pages_eq; lia). cbn [mbind exec_bind].
    rewrite !mul_chk_ok by (unfold PAGE_SIZE; rewrite ?pages_eq; lia). done.
  - clear -Hbars. unfold pages_of. induction Hbars as [|b bars (Hz & _) _ IH]; [done|].
    cbn [fmap list_fmap concat foldr]. rewrite length_app, length_seqZ, Nat2Z.inj_add, IH.
    assert (0 < bar_pages b) by (apply div_ceil_pos; done). cbn. lia.
Qed.

(** The address handed to the driver is the start of a page.  When the BAR does
    not start at a page boundary it is not the address of the BAR: the driver
    sees what precedes the BAR in its page. *)
Theorem bar_offset_lost phys size prefetchable vmm pt fa used bars b vmm' pt' fa' :
  vmm_inv vmm pt bars → fs_inv fa used → 0 ≤ size → 0 ≤ phys → phys + size ≤ 2 ^ 52 → phys mod 4096 ≠ 0 →
  map_memory_bar phys size prefetchable vmm (mkGlobals (Some pt) (Some fa)) =
    Ret (Ok b, vmm', mkGlobals (Some pt') (Some fa')) →
  (4096 | b.(virtual_address)) ∧
  ∃ frame fl, translate pt' b.(virtual_address) = Some (frame, fl) ∧ frame = phys - phys mod 4096 ∧ frame ≠ phys.
Proof.
  intros Hinv Hfs Hs Hp He Hmod Hrun.
  destruct (map_memory_bar_ok phys size prefetchable vmm pt fa used bars Hinv Hfs Hs Hp He)
    as (r & vmm1 & pt1 & fa1 & more & Hrun1 & _ & _ & Hr).
  rewrite Hrun1 in Hrun. injection Hrun as -> -> -> ->. destruct Hr as ((_ & Hbars & _) & Hphys & _).
  apply Forall_cons in Hbars as [(Hz & Hva & Hlo & Hhi & Htr) _]. split.
  - rewrite Hva. unfold PCIE_VMM_START. exists (0xFFFFFA0000000 + bar_start b). lia.
  - specialize (Htr 0). rewrite Z.mul_0_r, !Z.add_0_r, Hphys in Htr.
    eexists _, _. split; [apply Htr; split; [lia|]; apply div_ceil_pos; done|].
    rewrite containing_address_ok by done. pose proof (Z.div_mod phys 4096 ltac:(lia)). lia.
Qed.

End Mapping.

(** ** Examples *)

Section Examples.
#[local] Existing Instances model_addresses model_mapper model_source.
#[local] Existing Instances model_addresses_ok model_mapper_ok model_source_ok.
Abbreviation mstate := (PcieVmm * gmap Z (Z * PageTableFlags) * (list Z * list Z) * list MappedBar)%type.

(** A request to map a BAR that has to succeed. *)
Definition mapped (phys size : Z) (s : mstate) : exec mstate :=
  let '(vmm, pt, fa, bars) := s in
  '(r, vmm, g) ← map_memory_bar phys size false vmm (mkGlobals (Some pt) (Some fa));
  match r, g with
  | Ok b, mkGlobals (Some pt) (Some fa) => mret (vmm, pt, fa, b :: bars)
  | _, _ => Panic
  end.

Lemma mapped_step phys size (s s' : mstate) :
  0 ≤ size → 0 ≤ phys → phys + size ≤ 2 ^ 52 → mapped phys size s = Ret s' →
  vmm_step s s' ∧ ∃ b, s'.2 = b :: s.2.
Proof.
  destruct s as [[[vmm pt] fa] bars]. unfold mapped. intros Hs Hp He Hrun.
  apply bind_Ret_inv in Hrun as ([[r vmm'] [[pt'|] [fa'|]]] & Hmap & Hrun); destruct r as [b|e]; try done.
  injection Hrun as <-. split; [|by exists b]. by apply (vmm_map phys size false vmm pt fa bars (Ok b)).
Qed.

Definition two_bars : exec mstate :=
  s ← mapped 0xFEB00000 0x4000 (PcieVmm_new, ∅, free_frames 4, []);
  mapped 0xFEB10000 0x1000 s.

Lemma two_bars_run : ∃ vmm pt fa b1 b2, two_bars = Ret (vmm, pt, fa, [b2; b1]) ∧
  rtc vmm_step (PcieVmm_new, ∅, free_frames 4, []) (vmm, pt, fa, [b2; b1]).
Proof.
  assert (match two_bars with Ret _ => True | _ => False end) as Hok by (vm_compute; done).
  destruct two_bars as [s| |] eqn:Hrun; try done. clear Hok. pose proof Hrun as Hrun'. unfold two_bars in Hrun'.
  apply bind_Ret_inv in Hrun' as (s1 & H1 & H2).
  apply mapped_step in H1 as [Hs1 [b1 Hb1]]; [|done..]. apply mapped_step in H2 as [Hs2 [b2 Hb2]]; [|done..].
  destruct s as [[[vmm pt] fa] bars]. cbn [snd] in Hb1, Hb2. rewrite Hb2, Hb1 in *.
  exists vmm, pt, fa, b1, b2. split; [done|]. eapply rtc_l; [exact Hs1|]. by apply rtc_once.
Qed.

Lemma bars_isolated_witness : ∃ pt b1 b2, bar_mapped pt b1 ∧ bar_mapped pt b2 ∧ bars_disjoint b1 b2.
Proof.
  destruct two_bars_run as (vmm & pt & fa & b1 & b2 & _ & Hsteps).
  destruct (bars_isolated ∅ (free_frames 4) [] vmm pt fa [b2; b1]) as [Hm Hd];
    [by apply free_frames_inv|done|].
  exists pt, b1, b2. split; [by apply (Hm 1%nat)|]. split; [by apply (Hm 0%nat)|]. by apply (Hd 1%nat 0%nat).
Defined.

Lemma vmm_requests_witness :
  ∃ vmm (pt : gmap Z (Z * PageTableFlags)) (fa : list Z * list Z) b1 b2 vmm' (pt' : gmap Z (Z * PageTableFlags)),
  unmap_bar b1 vmm (mkGlobals (Some pt) (Some fa)) = Ret (Ok (), vmm', mkGlobals (Some pt') (Some fa)) ∧
  translate pt' b1.(virtual_address) = None ∧ bars_disjoint b1 b2.
Proof.
  destruct two_bars_run as (vmm & pt & fa & b1 & b2 & _ & Hsteps).
  assert (fs_inv (free_frames 4) []) as Hfs by (by apply free_frames_inv).
  destruct (vmm_requests ∅ (free_frames 4) [] vmm pt fa [b2; b1] Hfs Hsteps) as [_ Hunmap].
  destruct (Hunmap b1) as (vmm' & pt' & Hrun & Hnone); [by right; left|].
  destruct (vmm_reachable _ _ _ _ Hfs Hsteps) as [(_ & Hbars & Hdis & _) _].
  exists vmm, pt, fa, b1, b2, vmm', pt'. split; [done|]. split.
  - rewrite <- (Hnone 0), Z.add_0_r; [done|]. apply Forall_cons in Hbars as [_ Hbars].
    apply Forall_cons in Hbars as [(Hz & _) _]. split; [done|]. by apply div_ceil_pos.
  - apply bars_disjoint_sym. inversion Hdis as [|? ? Hd _]; subst. apply Hd. by left.
Defined.

Lemma vmm_stats_exact_witness : ∃ vmm n,
  get_stats vmm = Ret (mkVmmStats PCIE_VMM_PAGES n (PCIE_VMM_PAGES - n) PCIE_VMM_SIZE
                         (n * PAGE_SIZE) ((PCIE_VMM_PAGES - n) * PAGE_SIZE)) ∧ 0 < n.
Proof.
  destruct two_bars_run as (vmm & pt & fa & b1 & b2 & _ & Hsteps).
  assert (fs_inv (free_frames 4) []) as Hfs by (by apply free_frames_inv).
  destruct (vmm_stats_exact ∅ (free_frames 4) [] vmm pt fa [b2; b1] Hfs Hsteps) as [Hstats Hn].
  destruct (vmm_reachable _ _ _ _ Hfs Hsteps) as [(_ & Hbars & _) _].
  eexists vmm, _. split; [exact Hstats|]. rewrite Hn. cbn.
  apply Forall_cons in Hbars as [(Hz2 & _) Hbars]. apply Forall_cons in Hbars as [(Hz1 & _) _].
  pose proof (div_ceil_pos _ Hz1). pose proof (div_ceil_pos _ Hz2). unfold bar_pages, PAGE_SIZE. lia.
Defined.

End Examples.
