(* ===== verification/Ecam.v ===== *)
(** * Ecam: PCIe configuration space (pci/mcfg.rs)

    The ECAM regions the firmware reports, their mapping into virtual memory and
    the accesses to configuration registers through them.  The ACPI tables are
    read by the third-party crate acpi: [find_mcfg] stands for finding the MCFG
    table and its entries.  The main results are that every region gets
    addresses of its own, and that an access to a register of a device, in a
    region that starts at bus 0, goes to the physical address the ECAM standard
    gives it. *)

From S2P Require Import Prelude X86 FrameSource PciBase PcieVmm.

Definition ECAM_VIRTUAL_START : Z := 0xFFFFF40000000000.

Record EcamRegion := mkEcamRegion {
  er_base_address : Z;
  er_virtual_address : Z;
  er_segment_group : Z;
  er_start_bus : Z;
  er_end_bus : Z;
}.

(** An entry of the MCFG table, as the acpi crate presents it. *)
Record McfgEntry := mkMcfgEntry {
  mcfg_base_address : Z;
  mcfg_pci_segment_group : Z;
  mcfg_bus_number_start : Z;
  mcfg_bus_number_end : Z;
}.

Inductive ecam_problem : Type := EndBeforeStart | BaseZero | VirtualNotSet | TooManyBuses.

Definition mapping_size (r : EcamRegion) : Z :=
  if r.(er_end_bus) <? r.(er_start_bus) then 0
  else
    let bus_count := saturating_add 64 (saturating_sub r.(er_end_bus) r.(er_start_bus)) 1 in
    if Z.shiftr (2 ^ 64 - 1) 20 <? bus_count then 2 ^ 64 - 1 else Z.shiftl bus_count 20 mod 2 ^ 64.

(** Whether a region serves a bus. *)
Definition has_bus (bus : Z) (r : EcamRegion) : bool := (r.(er_start_bus) <=? bus) && (bus <=? r.(er_end_bus)).

Definition find_region_for_bus (regions : list EcamRegion) (bus : Z) : option EcamRegion :=
  find (has_bus bus) regions.

Definition calculate_total_ecam_size (regions : list EcamRegion) : exec Z :=
  foldl (λ total r, total ← total; add_chk 64 total (mapping_size r)) (Ret 0) regions.

Definition validate_ecam_region (r : EcamRegion) : result unit ecam_problem :=
  if r.(er_end_bus) <? r.(er_start_bus) then Err EndBeforeStart
  else if r.(er_base_address) =? 0 then Err BaseZero
  else if r.(er_virtual_address) =? 0 then Err VirtualNotSet
  else
    let bus_count := saturating_add 64 (saturating_sub r.(er_end_bus) r.(er_start_bus)) 1 in
    if 256 <? bus_count then Err TooManyBuses else Ok ().

Definition debug_ecam_region (r : EcamRegion) : exec unit :=
  match validate_ecam_region r with Ok _ => mret () | Err _ => Panic end.

Section Ecam.
Context `{Addresses}.

Definition get_device_address (r : EcamRegion) (bus device function : Z) : exec Z :=
  _ ← rassert (has_bus bus r);
  _ ← rassert (device <? 32);
  _ ← rassert (function <? 8);
  bus_offset ← sub_chk bus r.(er_start_bus);
  offset ← add_chk 64 (Z.shiftl bus_offset 20) (Z.shiftl device 15);
  offset ← add_chk 64 offset (Z.shiftl function 12);
  a ← add_chk 64 r.(er_virtual_address) offset;
  VirtAddr_new a.

(** The loop over the entries of the table. *)
Fixpoint parse_entries (entries : list McfgEntry) (ecam_regions : list EcamRegion) : exec (list EcamRegion) :=
  match entries with
  | [] => mret ecam_regions
  | entry :: entries =>
      if entry.(mcfg_bus_number_end) <? entry.(mcfg_bus_number_start) then parse_entries entries ecam_regions
      else if entry.(mcfg_base_address) =? 0 then parse_entries entries ecam_regions
      else
        base ← PhysAddr_new entry.(mcfg_base_address);
        virt ← VirtAddr_new 0;
        let ecam_region := mkEcamRegion base virt entry.(mcfg_pci_segment_group)
                             entry.(mcfg_bus_number_start) entry.(mcfg_bus_number_end) in
        parse_entries entries (ecam_regions ++ [ecam_region])
  end.

Definition parse_mcfg_table (find_mcfg : Z → option (list McfgEntry)) (rsdp_addr : Z)
    : exec (result (list EcamRegion) PciError) :=
  match find_mcfg rsdp_addr with
  | None => mret (Err McfgNotFound)
  | Some entries => ecam_regions ← parse_entries entries []; mret (Ok ecam_regions)
  end.

(** Accesses to a register of [n] bytes. *)
Context {HW : Type} `{Mmio HW}.

Definition config_address (n : Z) (r : EcamRegion) (bus device function offset : Z) : exec Z :=
  _ ← rassert (offset mod n =? 0);
  _ ← rassert (offset <? 4096);
  device_base ← get_device_address r bus device function;
  add_chk 64 device_base offset.

Definition read_config_u32 (r : EcamRegion) (bus device function offset : Z) (hw : HW) : exec (Z * HW) :=
  address ← config_address 4 r bus device function offset;
  mret (mmio_read 4 address hw).
Definition write_config_u32 (r : EcamRegion) (bus device function offset value : Z) (hw : HW) : exec HW :=
  address ← config_address 4 r bus device function offset;
  mret (mmio_write 4 address value hw).
Definition read_config_u16 (r : EcamRegion) (bus device function offset : Z) (hw : HW) : exec (Z * HW) :=
  address ← config_address 2 r bus device function offset;
  mret (mmio_read 2 address hw).
Definition write_config_u16 (r : EcamRegion) (bus device function offset value : Z) (hw : HW) : exec HW :=
  address ← config_address 2 r bus device function offset;
  mret (mmio_write 2 address value hw).

(** The 8-bit accesses have no alignment assertion. *)
Definition read_config_u8 (r : EcamRegion) (bus device function offset : Z) (hw : HW) : exec (Z * HW) :=
  address ← config_address 1 r bus device function offset;
  mret (mmio_read 1 address hw).
Definition write_config_u8 (r : EcamRegion) (bus device function offset value : Z) (hw : HW) : exec HW :=
  address ← config_address 1 r bus device function offset;
  mret (mmio_write 1 address value hw).

Fixpoint device_exists_in_regions (regions : list EcamRegion) (bus device function : Z) (hw : HW)
    : exec (bool * HW) :=
  match regions with
  | [] => mret (false, hw)
  | region :: regions =>
      if has_bus bus region then
        '(vendor_id, hw) ← read_config_u16 region bus device function 0x00 hw;
        mret (negb (vendor_id =? 0xFFFF), hw)
      else device_exists_in_regions regions bus device function hw
  end.

(** [map_ecam_region]; [next] is the static [NEXT_ECAM_VIRT].  The region is
    changed in place, also when the mapping fails. *)
Context {PT FA : Type} `{Mapper PT, FrameSource FA}.

Definition ecam_flags : PageTableFlags := [PRESENT; WRITABLE; NO_CACHE; NO_EXECUTE].

Definition map_ecam_region (region : EcamRegion) (next : Z) (g : globals PT FA)
    : exec (result unit PciError * EcamRegion * Z * globals PT FA) :=
  let size := mapping_size region in
  if size =? 0 then mret (Err EcamMappingFailed, region, next, g)
  else
    let pages_needed := div_ceil size 0x1000 in
    if 1024 * 1024 <? pages_needed then mret (Err EcamMappingFailed, region, next, g)
    else
      let virt_base := next in
      bytes ← mul_chk 64 pages_needed 0x1000;
      if saturating_add 64 next bytes <? next then mret (Err EcamMappingFailed, region, next, g)
      else
        next ← add_chk 64 next bytes;
        virt ← VirtAddr_new virt_base;
        let region := mkEcamRegion region.(er_base_address) virt region.(er_segment_group)
                        region.(er_start_bus) region.(er_end_bus) in
        pt ← unwrap g.(PAGE_TABLE);
        fa ← unwrap g.(FRAME_ALLOCATOR);
        '(r, pt, fa) ← map_pages_loop virt_base region.(er_base_address) ecam_flags 0
                         (Z.to_nat pages_needed) pt fa;
        mret (r, region, next, mkGlobals (Some pt) (Some fa)).

(** [for region in &mut self.ecam_regions { map_ecam_region(region)?; }] *)
Fixpoint map_ecam_regions (regions : list EcamRegion) (next : Z) (g : globals PT FA)
    : exec (result unit PciError * list EcamRegion * Z * globals PT FA) :=
  match regions with
  | [] => mret (Ok (), [], next, g)
  | region :: regions =>
      '(r, region, next, g) ← map_ecam_region region next g;
      match r with
      | Err e => mret (Err e, region :: regions, next, g)
      | Ok _ =>
          '(r, regions, next, g) ← map_ecam_regions regions next g;
          mret (r, region :: regions, next, g)
      end
  end.

End Ecam.

(** ** Mapping the regions *)

Section Mapping.
Context `{AddressesOk} {PT FA : Type} `{MapperOk PT, FrameSourceOk FA}.

(** The firmware reports [u8] bus numbers and a region of physical memory. *)
Definition region_valid (r : EcamRegion) : Prop :=
  0 ≤ r.(er_start_bus) ≤ r.(er_end_bus) ∧ r.(er_end_bus) ≤ 255 ∧ 0 ≤ r.(er_base_address) ∧
  r.(er_base_address) + 2 ^ 20 * (r.(er_end_bus) - r.(er_start_bus) + 1) ≤ 2 ^ 52.

Definition region_size (r : EcamRegion) : Z := 2 ^ 20 * (r.(er_end_bus) - r.(er_start_bus) + 1).

(** All pages of the region are mapped, uncached and not executable. *)
Definition region_mapped (pt : PT) (r : EcamRegion) : Prop :=
  region_valid r ∧ (4096 | r.(er_virtual_address)) ∧ ECAM_VIRTUAL_START ≤ r.(er_virtual_address) ∧
  r.(er_virtual_address) + region_size r ≤ PCIE_VMM_START ∧
  ∀ i, 0 ≤ i → 4096 * i < region_size r →
    translate pt (r.(er_virtual_address) + 4096 * i) =
      Some (containing_address (r.(er_base_address) + 4096 * i), ecam_flags).

Definition regions_disjoint (r1 r2 : EcamRegion) : Prop :=
  r1.(er_virtual_address) + region_size r1 ≤ r2.(er_virtual_address) ∨
  r2.(er_virtual_address) + region_size r2 ≤ r1.(er_virtual_address).

Lemma mapping_size_ok r : region_valid r → mapping_size r = region_size r ∧ 2 ^ 20 ≤ region_size r ≤ 2 ^ 28.
Proof.
  intros (Hs & He & _). unfold mapping_size, region_size, saturating_add, saturating_sub.
  rewrite (proj2 (Z.ltb_ge _ _)) by lia. rewrite Z.max_r, Z.min_l by lia.
  change (Z.shiftr (2 ^ 64 - 1) 20) with (2 ^ 44 - 1). rewrite (proj2 (Z.ltb_ge _ _)) by lia.
  rewrite Z.shiftl_mul_pow2, Z.mod_small by lia. lia.
Qed.

Lemma region_mapped_mono pt pt' r :
  (∀ q, translate pt q ≠ None → translate pt' q = translate pt q) → region_mapped pt r → region_mapped pt' r.
Proof.
  intros Hq (Hv & Hal & Hlo & Hhi & Htr). split; [done|]. split; [done|]. split; [done|]. split; [done|].
  intros i Hi Hsz. rewrite Hq by (by rewrite Htr). by apply Htr.
Qed.

Lemma map_ecam_region_ok region next pt fa used :
  region_valid region → fs_inv fa used → (4096 | next) → ECAM_VIRTUAL_START ≤ next →
  next + region_size region ≤ PCIE_VMM_START →
  let region' := mkEcamRegion region.(er_base_address) next region.(er_segment_group)
                   region.(er_start_bus) region.(er_end_bus) in
  ∃ r pt' fa' more,
    map_ecam_region region next (mkGlobals (Some pt) (Some fa)) =
      Ret (r, region', next + region_size region, mkGlobals (Some pt') (Some fa')) ∧
    fs_inv fa' (more ++ used) ∧
    (∀ q, translate pt q ≠ None → translate pt' q = translate pt q) ∧
    match r with Ok _ => region_mapped pt' region' | Err e => e = EcamMappingFailed end.
Proof.
  intros Hv Hfs Hal Hlo Hhi region'. destruct (mapping_size_ok region Hv) as [Hsize Hb].
  pose proof Hv as (_ & _ & Hbase & Hend). fold (region_size region) in Hend.
  unfold map_ecam_region, ECAM_VIRTUAL_START, PCIE_VMM_START in *. rewrite Hsize.
  rewrite (proj2 (Z.eqb_neq _ _)) by lia.
  assert (∃ n, region_size region = 4096 * n ∧ div_ceil (region_size region) 4096 = n) as (n & Hn & Hdiv).
  { exists (2 ^ 8 * (er_end_bus region - er_start_bus region + 1)).
    assert (region_size region = 4096 * (2 ^ 8 * (er_end_bus region - er_start_bus region + 1))) as Heq
      by (unfold region_size; lia). split; [done|]. rewrite Heq. unfold div_ceil.
    symmetry. apply (Z.div_unique _ _ _ 4095); lia. }
  change 0x1000 with 4096. rewrite Hdiv. rewrite (proj2 (Z.ltb_ge _ _)) by lia.
  run. rewrite (proj2 (Z.ltb_ge _ _)) by (unfold saturating_add; lia). run.
  rewrite VirtAddr_new_ok by (right; lia). cbn [mbind exec_bind unwrap PAGE_TABLE FRAME_ALLOCATOR er_base_address].
  destruct (map_pages_loop_ok next region.(er_base_address) ecam_flags (Z.to_nat n) 0 pt fa used)
    as (r & pt' & fa' & more & -> & Hfs' & Hkeep & _ & Hr).
  { done. }
  { split_and!; try lia; [done|]. intros j Hj. split; [right; lia|lia]. }
  cbn [mbind exec_bind]. exists r, pt', fa', more.
  replace (next + n * 4096) with (next + region_size region) by lia. split; [done|]. split; [done|]. split; [done|].
  destruct r as [u|e]; [|done]. split; [done|]. split; [done|].
  split; [done|]. split; [done|]. intros i Hi Hsz. apply Hr. unfold region' in Hsz.
  change (region_size _) with (region_size region) in Hsz. lia.
Qed.

(** The loop over the regions: each gets the addresses after the previous one. *)
Lemma map_ecam_regions_ok regions next pt fa used :
  Forall region_valid regions → fs_inv fa used → (4096 | next) → ECAM_VIRTUAL_START ≤ next →
  next + 2 ^ 28 * Z.of_nat (length regions) ≤ PCIE_VMM_START →
  ∃ r regions' next' pt' fa' more,
    map_ecam_regions regions next (mkGlobals (Some pt) (Some fa)) =
      Ret (r, regions', next', mkGlobals (Some pt') (Some fa')) ∧
    fs_inv fa' (more ++ used) ∧
    (∀ q, translate pt q ≠ None → translate pt' q = translate pt q) ∧
    match r with
    | Ok _ => Forall (region_mapped pt') regions' ∧ pairwise regions_disjoint regions' ∧
        Forall (λ r, next ≤ r.(er_virtual_address)) regions' ∧
        Forall2 (λ r r', r' = mkEcamRegion r.(er_base_address) r'.(er_virtual_address)
          r.(er_segment_group) r.(er_start_bus) r.(er_end_bus)) regions regions'
    | Err e => e = EcamMappingFailed
    end.
Proof.
  intros Hval. revert next pt fa used.
  induction Hval as [|region regions Hv Hval IH]; intros next pt fa used Hfs Hal Hlo Hhi; cbn [map_ecam_regions].
  { exists (Ok ()), [], next, pt, fa, []. split_and!; try done; constructor. }
  rewrite length_cons in Hhi. destruct (mapping_size_ok region Hv) as [_ Hb].
  destruct (map_ecam_region_ok region next pt fa used) as (r & pt1 & fa1 & more & -> & Hfs1 & Hkeep & Hr);
    try done; try lia. cbn [mbind exec_bind].
  destruct r as [u|e].
  2:{ eexists (Err e), _, _, pt1, fa1, more. split; [done|]. split; [done|]. split; done. }
  destruct (IH (next + region_size region) pt1 fa1 (more ++ used))
    as (r & regions' & next' & pt' & fa' & more' & -> & Hfs' & Hkeep' & Hr'); try done; try lia.
  { apply Z.divide_add_r; [done|]. unfold region_size. apply Z.divide_mul_l. by exists 256. }
  cbn [mbind exec_bind]. eexists r, _, next', pt', fa', (more' ++ more). split; [done|].
  split; [by rewrite <- (assoc_L (++))|]. split.
  { intros q Hq. rewrite Hkeep'; rewrite Hkeep; done. }
  destruct r as [u'|e]; [|done]. destruct Hr' as (Hm & Hd & Hge & Hf). split_and!.
  - constructor; [|done]. by eapply region_mapped_mono.
  - constructor; [|done]. intros r' Hr''. left. rewrite Forall_forall in Hge. by apply Hge.
  - constructor; [done|]. eapply Forall_impl; [exact Hge|]. cbn. intros. lia.
  - by constructor.
Qed.

(** Entries of the firmware: [u8] bus numbers and physical addresses. *)
Definition entry_ok (e : McfgEntry) : Prop :=
  0 ≤ e.(mcfg_bus_number_start) ≤ 255 ∧ 0 ≤ e.(mcfg_bus_number_end) ≤ 255 ∧ 0 ≤ e.(mcfg_base_address) ∧
  e.(mcfg_base_address) + 2 ^ 20 * (e.(mcfg_bus_number_end) - e.(mcfg_bus_number_start) + 1) ≤ 2 ^ 52 ∧
  e.(mcfg_base_address) < 2 ^ 52.

(** The region of an entry, if the entry is usable. *)
Definition region_of (e : McfgEntry) : option EcamRegion :=
  if (e.(mcfg_bus_number_end) <? e.(mcfg_bus_number_start)) || (e.(mcfg_base_address) =? 0) then None
  else Some (mkEcamRegion e.(mcfg_base_address) 0 e.(mcfg_pci_segment_group)
               e.(mcfg_bus_number_start) e.(mcfg_bus_number_end)).

Lemma parse_entries_ok entries acc :
  Forall entry_ok entries → parse_entries entries acc = Ret (acc ++ omap region_of entries).
Proof.
  intros He. revert acc. induction He as [|e entries (Hs & Hn & Hb & Hend & Hlt) _ IH]; intros acc.
  { by rewrite app_nil_r. }
  cbn [parse_entries omap list_omap]. unfold region_of at 1.
  destruct (Z.ltb_spec e.(mcfg_bus_number_end) e.(mcfg_bus_number_start)); [by apply IH|].
  destruct (Z.eqb_spec e.(mcfg_base_address) 0) as [|Hne]; [by apply IH|]. cbn [orb].
  rewrite PhysAddr_new_ok by lia. cbn [mbind exec_bind]. rewrite VirtAddr_new_ok by (left; lia). cbn [mbind exec_bind].
  rewrite IH. by rewrite <- (assoc_L (++)).
Qed.

Lemma region_of_valid e r : entry_ok e → region_of e = Some r → region_valid r.
Proof.
  intros (Hs & Hn & Hb & Hend & _). unfold region_of.
  destruct (Z.ltb_spec e.(mcfg_bus_number_end) e.(mcfg_bus_number_start)); [done|].
  destruct (Z.eqb_spec e.(mcfg_base_address) 0); [done|]. intros [= <-]. unfold region_valid. cbn. lia.
Qed.

(** C34: all configuration spaces are mapped.  Parsing the MCFG table keeps
    exactly its usable entries; mapping them returns, touches no page that was
    mapped, and on success gives every region its own range of addresses, below
    the BAR area, with each page showing the right page of the region. *)
Theorem ecam_regions_mapped find_mcfg rsdp entries pt fa used :
  find_mcfg rsdp = Some entries → Forall entry_ok entries → Z.of_nat (length entries) ≤ 24576 → fs_inv fa used →
  parse_mcfg_table find_mcfg rsdp = Ret (Ok (omap region_of entries)) ∧
  ∃ r regions next' pt' fa',
    map_ecam_regions (omap region_of entries) ECAM_VIRTUAL_START (mkGlobals (Some pt) (Some fa)) =
      Ret (r, regions, next', mkGlobals (Some pt') (Some fa')) ∧
    (∀ q, translate pt q ≠ None → translate pt' q = translate pt q) ∧
    match r with
    | Ok _ =>
        Forall (region_mapped pt') regions ∧ pairwise regions_disjoint regions ∧
        (λ r, (r.(er_base_address), r.(er_start_bus), r.(er_end_bus))) <$> regions =
        (λ r, (r.(er_base_address), r.(er_start_bus), r.(er_end_bus))) <$> omap region_of entries
    | Err e => e = EcamMappingFailed
    end.
Proof.
  intros Hfind He Hlen Hfs. split.
  { unfold parse_mcfg_table. by rewrite Hfind, (parse_entries_ok entries [] He). }
  pose proof (length_omap_le region_of entries).
  destruct (map_ecam_regions_ok (omap region_of entries) ECAM_VIRTUAL_START pt fa used)
    as (r & regions & next' & pt' & fa' & more & Hrun & _ & Hkeep & Hr); try done.
  - apply Forall_forall. intros r (e & Hin & Hr)%list_elem_of_omap. rewrite Forall_forall in He.
    by apply (region_of_valid e r); [apply He|].
  - by exists 0xFFFFF40000000.
  - unfold ECAM_VIRTUAL_START, PCIE_VMM_START. lia.
  - exists r, regions, next', pt', fa'. split; [done|]. split; [done|]. destruct r as [u|e]; [|done].
    destruct Hr as (Hm & Hd & _ & Hf). split; [done|]. split; [done|].
    clear -Hf. induction Hf as [|r r' rs rs' Hr _ IH]; [done|]. rewrite !fmap_cons, IH. by rewrite Hr.
Qed.

(** The position of a register in a region, as the code counts it: from the first
    bus of the region. *)
Definition ecam_offset (r : EcamRegion) (bus device function offset : Z) : Z :=
  2 ^ 20 * (bus - r.(er_start_bus)) + 2 ^ 15 * device + 2 ^ 12 * function + offset.

Definition valid_access (r : EcamRegion) (bus device function offset : Z) : bool :=
  has_bus bus r && (device <? 32) && (function <? 8) && (offset <? 4096).

Lemma config_address_ok n pt r bus device function offset :
  region_mapped pt r → 0 < n → (n | offset) → 0 ≤ device → 0 ≤ function → 0 ≤ offset →
  config_address n r bus device function offset =
    if valid_access r bus device function offset
    then Ret (r.(er_virtual_address) + ecam_offset r bus device function offset) else Panic.
Proof.
  intros ((Hs & He & _) & _ & Hlo & Hhi & _) Hn Hdiv Hd Hf Ho. unfold config_address, get_device_address, valid_access.
  rewrite (proj2 (Z.eqb_eq _ _)) by (by apply Z.mod_divide; [lia|]). cbn [rassert mbind exec_bind].
  unfold region_size, ECAM_VIRTUAL_START, PCIE_VMM_START, ecam_offset in *.
  destruct (Z.ltb_spec offset 4096); [|rewrite andb_false_r; done]. cbn [rassert mbind exec_bind].
  destruct (has_bus bus r) eqn:Hbus; [|done]. cbn [rassert mbind exec_bind andb].
  apply andb_true_iff in Hbus as [Hb1%Z.leb_le Hb2%Z.leb_le].
  destruct (Z.ltb_spec device 32); [|done]. cbn [rassert mbind exec_bind andb].
  destruct (Z.ltb_spec function 8); [|done]. cbn [rassert mbind exec_bind andb].
  rewrite !Z.shiftl_mul_pow2 by lia. run. rewrite Z.shiftl_mul_pow2 by lia. run. run. run.
  rewrite VirtAddr_new_ok by (right; lia). cbn [mbind exec_bind]. rewrite add_chk_ok by lia. f_equal. lia.
Qed.

(** Where the accesses through a mapped region go. *)
Lemma config_address_physical n pt r bus device function offset :
  region_mapped pt r → (4096 | r.(er_base_address)) → 0 < n → (n | offset) → 0 ≤ device → 0 ≤ function → 0 ≤ offset →
  valid_access r bus device function offset = true →
  ∃ a frame, config_address n r bus device function offset = Ret a ∧
    translate pt (containing_address a) = Some (frame, ecam_flags) ∧
    frame + a mod 4096 = r.(er_base_address) + ecam_offset r bus device function offset.
Proof.
  intros Hm Hbase Hn Hdiv Hd Hf Ho Hval. rewrite (config_address_ok n pt), Hval by done.
  pose proof Hm as ((Hs & He & Hb0 & _) & [v Hv] & Hlo & Hhi & Htr). destruct Hbase as [b Hb].
  unfold valid_access, has_bus in Hval. rewrite !andb_true_iff, !Z.leb_le, !Z.ltb_lt in Hval.
  set (k := 2 ^ 8 * (bus - er_start_bus r) + 2 ^ 3 * device + function).
  assert (ecam_offset r bus device function offset = 4096 * k + offset) as Hoff by (unfold ecam_offset, k; lia).
  unfold region_size, ECAM_VIRTUAL_START in *. eexists _, _. split; [done|].
  assert (containing_address (er_virtual_address r + ecam_offset r bus device function offset) =
    er_virtual_address r + 4096 * k) as ->.
  { rewrite containing_address_ok, Hoff, Hv by lia.
    replace (v * 4096 + (4096 * k + offset)) with ((v + k) * 4096 + offset) by lia.
    rewrite Z.div_add_l, Z.div_small by lia. lia. }
  split; [apply Htr; lia|]. rewrite containing_address_ok by lia. rewrite Hoff, Hv, Hb.
  replace (v * 4096 + (4096 * k + offset)) with (offset + (v + k) * 4096) by lia.
  rewrite Z.mod_add, Z.mod_small by lia. replace (b * 4096 + 4096 * k) with ((b + k) * 4096) by lia.
  rewrite Z.div_mul by lia. lia.
Qed.

(** C35: configuration accesses go where the standard says.  Take a region whose
    first bus is 0, whose base address is page aligned, and which fits into the
    ECAM address space at the next free address.  Mapping it returns, with
    [EcamMappingFailed] or with the region mapped; in the second case an aligned
    access to register [offset] of function [function] of device [device] on bus
    [bus] reaches the physical address base + bus * 1 MiB + device * 32 KiB +
    function * 4 KiB + offset through a page that [map_ecam_region] has mapped
    without caching, and an access that is not aligned, or outside the buses of
    the region, the 32 devices, the 8 functions or the 4 KiB, panics. *)
Theorem config_access_physical region next pt fa used :
  region_valid region → region.(er_start_bus) = 0 → (4096 | region.(er_base_address)) →
  fs_inv fa used → (4096 | next) → ECAM_VIRTUAL_START ≤ next → next + region_size region ≤ PCIE_VMM_START →
  ∃ res r next' pt' fa',
    map_ecam_region region next (mkGlobals (Some pt) (Some fa)) = Ret (res, r, next', mkGlobals (Some pt') (Some fa')) ∧
    match res with
    | Ok _ => ∀ n bus device function offset, n ∈ [1; 2; 4] → 0 ≤ bus → 0 ≤ device → 0 ≤ function → 0 ≤ offset →
        let good := (n | offset) ∧ bus ≤ region.(er_end_bus) ∧ device < 32 ∧ function < 8 ∧ offset < 4096 in
        (good → ∃ a frame, config_address n r bus device function offset = Ret a ∧
           translate pt' (containing_address a) = Some (frame, [PRESENT; WRITABLE; NO_CACHE; NO_EXECUTE]) ∧
           frame + a mod 4096 =
             region.(er_base_address) + 0x100000 * bus + 0x8000 * device + 0x1000 * function + offset) ∧
        (¬ good → config_address n r bus device function offset = Panic)
    | Err e => e = EcamMappingFailed
    end.
Proof.
  intros Hv Hs Hb Hfs Hal Hlo Hhi.
  destruct (map_ecam_region_ok region next pt fa used Hv Hfs Hal Hlo Hhi)
    as (res & pt' & fa' & more & Hrun & _ & _ & Hres).
  eexists res, _, _, pt', fa'. split; [exact Hrun|]. destruct res as [u|e]; [|done].
  intros n bus device function offset Hn Hbus Hd Hf Ho. cbn zeta.
  assert (0 < n) as Hn0 by (repeat (apply elem_of_cons in Hn as [->|Hn]; [lia|]); by apply elem_of_nil in Hn).
  set (r := mkEcamRegion _ _ _ _ _) in *.
  assert (valid_access r bus device function offset = true ↔
    bus ≤ er_end_bus region ∧ device < 32 ∧ function < 8 ∧ offset < 4096) as Hval.
  { unfold valid_access, has_bus, r. cbn [er_start_bus er_end_bus].
    rewrite !andb_true_iff, !Z.leb_le, !Z.ltb_lt. lia. }
  split.
  - intros (Hdiv & Hgood%Hval). destruct (config_address_physical n pt' r bus device function offset)
      as (a & frame & Ha & Ht & Hp); [done..|]. exists a, frame. split; [done|]. split; [done|]. rewrite Hp.
    unfold ecam_offset, r. cbn [er_start_bus er_base_address]. lia.
  - intros Hbad. destruct (Z.eq_dec (offset mod n) 0) as [Hdiv|Hndiv].
    + apply Z.mod_divide in Hdiv; [|lia]. rewrite (config_address_ok n pt') by done.
      destruct (valid_access r bus device function offset) eqn:Heq; [|done]. destruct Hbad. split; [done|by apply Hval].
    + unfold config_address. by rewrite (proj2 (Z.eqb_neq _ _)).
Qed.

End Mapping.

(** ** Examples *)

Section Examples.
#[local] Existing Instances model_addresses model_mapper model_source.
#[local] Existing Instances model_addresses_ok model_mapper_ok model_source_ok.
Abbreviation mpt := (gmap Z (Z * PageTableFlags)).

(** One bus at 0xB000_0000, after an entry without an address. *)
Definition sample_entries : list McfgEntry := [mkMcfgEntry 0 0 0 255; mkMcfgEntry 0xB0000000 0 2 2].
Definition sample_globals : globals mpt (list Z * list Z) := mkGlobals (Some ∅) (Some (free_frames 4)).

Lemma sample_entries_ok : Forall entry_ok sample_entries.
Proof. unfold sample_entries, entry_ok. repeat constructor; cbn; lia. Qed.

Lemma ecam_regions_mapped_witness : ∃ regions (pt : mpt),
  parse_mcfg_table (λ _, Some sample_entries) 0 = Ret (Ok (omap region_of sample_entries)) ∧
  length regions = 1%nat ∧ Forall (region_mapped pt) regions.
Proof.
  destruct (ecam_regions_mapped (λ _, Some sample_entries) 0 sample_entries (∅ : mpt) (free_frames 4) [])
    as (Hparse & r & regions & next' & pt' & fa' & Hrun & _ & Hr);
    [done|apply sample_entries_ok|cbn; lia|by apply free_frames_inv|].
  assert (match map_ecam_regions (omap region_of sample_entries) ECAM_VIRTUAL_START sample_globals with
          | Ret (Ok _, _, _, _) => True | _ => False end) as Hok by (vm_compute; done).
  unfold sample_globals in Hok. rewrite Hrun in Hok. clear Hrun. destruct r as [u|e]; [|destruct Hok].
  destruct Hr as (Hm & _ & Hf). exists regions, pt'. split; [done|]. split; [|done].
  apply (f_equal length) in Hf. rewrite !length_fmap in Hf. done.
Defined.

Definition sample_region (virt : Z) : EcamRegion := mkEcamRegion 0xB0000000 virt 0 2 2.

Lemma sample_region_mapped : ∃ pt : mpt, region_mapped pt (sample_region ECAM_VIRTUAL_START).
Proof.
  destruct (map_ecam_region_ok (sample_region 0) ECAM_VIRTUAL_START (∅ : mpt) (free_frames 4) [])
    as (r & pt' & fa' & more & Hrun & _ & _ & Hr).
  { unfold region_valid. cbn. lia. } { by apply free_frames_inv. } { by exists 0xFFFFF40000000. }
  { done. } { done. }
  assert (match map_ecam_region (sample_region 0) ECAM_VIRTUAL_START sample_globals with
          | Ret (Ok _, _, _, _) => True | _ => False end) as Hok by (vm_compute; done).
  unfold sample_globals in Hok. rewrite Hrun in Hok. clear Hrun. destruct r as [u|e]; [|destruct Hok].
  by exists pt'.
Qed.

(** Buses 0 to 2 at 0xB000_0000. *)
Definition sample_region_0 : EcamRegion := mkEcamRegion 0xB0000000 0 0 0 2.

Lemma config_access_physical_witness : ∃ r (pt : mpt) a frame,
  config_address 4 r 2 5 1 0x10 = Ret a ∧ translate pt (containing_address a) = Some (frame, ecam_flags) ∧
  frame + a mod 4096 = 0xB0229010.
Proof.
  destruct (config_access_physical sample_region_0 ECAM_VIRTUAL_START (∅ : mpt) (free_frames 4) [])
    as (res & r & next' & pt' & fa' & Hrun & Hres);
    [unfold region_valid; cbn; lia|done|by exists 0xB0000|by apply free_frames_inv|by exists 0xFFFFF40000000|done..|].
  assert (match map_ecam_region sample_region_0 ECAM_VIRTUAL_START sample_globals with
          | Ret (Ok _, _, _, _) => True | _ => False end) as Hok by (vm_compute; done).
  unfold sample_globals in Hok. rewrite Hrun in Hok. clear Hrun. destruct res as [u|e]; [|destruct Hok].
  destruct (Hres 4 2 5 1 0x10) as [Hgood _]; [by right; right; left|lia..|].
  destruct Hgood as (a & frame & Ha & Ht & Hp); [split; [by exists 4|cbn; lia]|].
  exists r, pt', a, frame. split; [exact Ha|]. split; [exact Ht|]. rewrite Hp. done.
Defined.

End Examples.
