(* ===== verification/PciDevice.v ===== *)
(** * PciDevice: probing a PCIe function (pci/device.rs)

    [probe_device] reads the header, the base address registers and the
    capability list of a function.  [Config] states what the standard says of
    configuration registers; the sections after the operations show that sizing
    a BAR finds its size and leaves the device as it was, when following the
    capability list ends, and what it finds. *)

From Stdlib Require Import ListDec.
From stdpp Require Import strings.
From S2P Require Import Prelude X86 FrameSource PciBase PcieVmm Ecam.

Open Scope list_scope.
Open Scope Z_scope.

Abbreviation VENDOR_ID := (0x00) (only parsing).
Abbreviation DEVICE_ID := (0x02) (only parsing).
Abbreviation STATUS := (0x06) (only parsing).
Abbreviation REVISION_ID := (0x08) (only parsing).
Abbreviation PROG_IF := (0x09) (only parsing).
Abbreviation SUBCLASS := (0x0A) (only parsing).
Abbreviation CLASS_CODE := (0x0B) (only parsing).
Abbreviation HEADER_TYPE := (0x0E) (only parsing).
Definition BAR0 : Z := 0x10.
Abbreviation SUBSYSTEM_VENDOR_ID := (0x2C) (only parsing).
Abbreviation SUBSYSTEM_ID := (0x2E) (only parsing).
Abbreviation CAPABILITIES_PTR := (0x34) (only parsing).
Abbreviation INTERRUPT_LINE := (0x3C) (only parsing).
Abbreviation INTERRUPT_PIN := (0x3D) (only parsing).

Inductive HeaderType : Type := Normal | PciToPciBridge | CardBusBridge.
#[export] Instance HeaderType_eq_dec : EqDecision HeaderType.
Proof. solve_decision. Defined.

Record PciDevice := mkPciDevice {
  dev_ecam_region : EcamRegion;
  dev_bus : Z; dev_device : Z; dev_function : Z;
  dev_vendor_id : Z; dev_device_id : Z;
  dev_class_code : Z; dev_subclass : Z; dev_prog_if : Z; dev_revision_id : Z;
  dev_header_type : HeaderType;
  dev_subsystem_vendor_id : Z; dev_subsystem_id : Z;
  dev_bars : list BarInfo;
  dev_capabilities : gmap Z Z;
  dev_interrupt_line : Z; dev_interrupt_pin : Z;
}.

Definition description (self : PciDevice) : string :=
  match self.(dev_class_code), self.(dev_subclass) with
  | 0x00, 0x00 => "Legacy Device"
  | 0x01, 0x00 => "SCSI Bus Controller"
  | 0x01, 0x01 => "IDE Controller"
  | 0x01, 0x02 => "Floppy Disk Controller"
  | 0x01, 0x03 => "IPI Bus Controller"
  | 0x01, 0x04 => "RAID Controller"
  | 0x01, 0x05 => "ATA Controller"
  | 0x01, 0x06 => "SATA Controller"
  | 0x01, 0x07 => "SAS Controller"
  | 0x01, 0x08 => "NVM Controller"
  | 0x02, 0x00 => "Ethernet Controller"
  | 0x02, 0x01 => "Token Ring Controller"
  | 0x02, 0x02 => "FDDI Controller"
  | 0x02, 0x03 => "ATM Controller"
  | 0x02, 0x04 => "ISDN Controller"
  | 0x02, 0x05 => "WorldFip Controller"
  | 0x02, 0x06 => "PICMG 2.14 Multi Computing"
  | 0x02, 0x07 => "Infiniband Controller"
  | 0x02, 0x08 => "Fabric Controller"
  | 0x03, 0x00 => "VGA Compatible Controller"
  | 0x03, 0x01 => "XGA Controller"
  | 0x03, 0x02 => "3D Controller"
  | 0x04, 0x00 => "Multimedia Video Controller"
  | 0x04, 0x01 => "Multimedia Audio Controller"
  | 0x04, 0x02 => "Computer Telephony Device"
  | 0x04, 0x03 => "Audio Device"
  | 0x05, 0x00 => "RAM Controller"
  | 0x05, 0x01 => "Flash Controller"
  | 0x06, 0x00 => "Host Bridge"
  | 0x06, 0x01 => "ISA Bridge"
  | 0x06, 0x02 => "EISA Bridge"
  | 0x06, 0x03 => "MCA Bridge"
  | 0x06, 0x04 => "PCI-to-PCI Bridge"
  | 0x06, 0x05 => "PCMCIA Bridge"
  | 0x06, 0x06 => "NuBus Bridge"
  | 0x06, 0x07 => "CardBus Bridge"
  | 0x06, 0x08 => "RACEway Bridge"
  | 0x06, 0x09 => "PCI-to-PCI Bridge"
  | 0x06, 0x0A => "InfiniBand-to-PCI Host Bridge"
  | 0x0C, 0x00 => "FireWire Controller"
  | 0x0C, 0x01 => "ACCESS Bus Controller"
  | 0x0C, 0x02 => "SSA Controller"
  | 0x0C, 0x03 => "USB Controller"
  | 0x0C, 0x04 => "Fibre Channel Controller"
  | 0x0C, 0x05 => "SMBus Controller"
  | 0x0C, 0x06 => "InfiniBand Controller"
  | 0x0C, 0x07 => "IPMI Interface"
  | 0x0C, 0x08 => "SERCOS Interface"
  | 0x0C, 0x09 => "CANbus Controller"
  | _, _ => "Unknown Device"
  end%string.

Definition find_capability (dev : PciDevice) (cap_id : Z) : option Z := dev.(dev_capabilities) !! cap_id.
Definition supports_msix (dev : PciDevice) : bool := bool_decide (is_Some (dev.(dev_capabilities) !! 0x11)).
Definition supports_msi (dev : PciDevice) : bool := bool_decide (is_Some (dev.(dev_capabilities) !! 0x05)).

(** Every class the description knows is below [0x0D]; the two that have a
    driver are told apart from all others of their class. *)
Lemma description_unknown self : 0x0D ≤ self.(dev_class_code) → description self = "Unknown Device"%string.
Proof.
  unfold description. intros Hc. by repeat (case_match; try lia).
Qed.

Lemma description_drivers self :
  (description self = "NVM Controller"%string ↔ self.(dev_class_code) = 0x01 ∧ self.(dev_subclass) = 0x08) ∧
  (description self = "USB Controller"%string ↔ self.(dev_class_code) = 0x0C ∧ self.(dev_subclass) = 0x03).
Proof.
  unfold description. split; (split; [|by intros [-> ->]]); by repeat case_match.
Qed.

Section Probe.
Context `{Addresses} {HW : Type} `{Mmio HW}.
Context (ecam_region : EcamRegion) (bus device function : Z).

Abbreviation read_u32 := (read_config_u32 ecam_region bus device function).
Abbreviation write_u32 := (write_config_u32 ecam_region bus device function).
Abbreviation read_u16 := (read_config_u16 ecam_region bus device function).
Abbreviation read_u8 := (read_config_u8 ecam_region bus device function).

Definition is_multifunction_device (hw : HW) : exec (bool * HW) :=
  '(header_type, hw) ← read_u8 HEADER_TYPE hw;
  mret (negb (Z.land header_type 0x80 =? 0), hw).

Definition determine_bar_size (bar_offset : Z) (is_64bit : bool) (hw : HW) : exec (Z * HW) :=
  '(original_low, hw) ← read_u32 bar_offset hw;
  '(original_high, hw) ← (if is_64bit then read_u32 (bar_offset + 4) hw else mret (0, hw));
  if is_64bit then
    hw ← write_u32 bar_offset 0xFFFFFFFF hw;
    hw ← write_u32 (bar_offset + 4) 0xFFFFFFFF hw;
    '(size_low, hw) ← read_u32 bar_offset hw;
    '(size_high, hw) ← read_u32 (bar_offset + 4) hw;
    hw ← write_u32 (bar_offset + 4) original_high hw;
    hw ← write_u32 bar_offset original_low hw;
    let size_mask_64 := Z.lor (Z.shiftl size_high 32) (Z.land size_low 0xFFFFFFF0) in
    if size_mask_64 =? 0 then mret (0, hw)
    else size ← add_chk 64 (not_ 64 size_mask_64) 1; mret (size, hw)
  else
    hw ← write_u32 bar_offset 0xFFFFFFFF hw;
    '(size_low, hw) ← read_u32 bar_offset hw;
    hw ← write_u32 bar_offset original_low hw;
    let size_mask_32 := Z.land size_low 0xFFFFFFF0 in
    if size_mask_32 =? 0 then mret (0, hw)
    else size ← add_chk 64 (not_ 32 size_mask_32) 1; mret (size, hw).

Definition determine_io_bar_size (bar_offset : Z) (hw : HW) : exec (Z * HW) :=
  '(original, hw) ← read_u32 bar_offset hw;
  hw ← write_u32 bar_offset 0xFFFFFFFF hw;
  '(size_mask, hw) ← read_u32 bar_offset hw;
  hw ← write_u32 bar_offset original hw;
  let size_mask := Z.land size_mask 0xFFFFFFFC in
  if size_mask =? 0 then mret (0, hw)
  else size ← add_chk 32 (not_ 32 size_mask) 1; mret (size, hw).

(** The address in the memory BAR [i], whose low half is [bar_value]. *)
Definition bar_address (i bar_value : Z) (is_64bit : bool) (hw : HW) : exec (Z * HW) :=
  if is_64bit && (i <? 5) then
    '(high_bar, hw) ← read_u32 (BAR0 + i * 4 + 4) hw;
    mret (Z.lor (Z.shiftl high_bar 32) (Z.land bar_value 0xFFFFFFF0), hw)
  else mret (Z.land bar_value 0xFFFFFFF0, hw).

(** One iteration of the loop of [parse_bars] at [i]: the BAR, the next [i]. *)
Definition parse_bar (i : Z) (hw : HW) : exec (BarInfo * Z * HW) :=
  let bar_offset := BAR0 + i * 4 in
  '(bar_value, hw) ← read_u32 bar_offset hw;
  if bar_value =? 0 then mret (Unused, i + 1, hw)
  else if Z.land bar_value 1 =? 0 then
    let is_64bit := Z.land bar_value 0x6 =? 0x4 in
    let prefetchable := negb (Z.land bar_value 0x8 =? 0) in
    '(address_raw, hw) ← bar_address i bar_value is_64bit hw;
    '(size, hw) ← determine_bar_size bar_offset is_64bit hw;
    address ← PhysAddr_new address_raw;
    mret (Memory (mkMemoryBar address size prefetchable is_64bit), if is_64bit then i + 2 else i + 1, hw)
  else
    let address := Z.land bar_value 0xFFFFFFFC in
    '(size, hw) ← determine_io_bar_size bar_offset hw;
    mret (Io (mkIoBar address size), i + 1, hw).

(** [while i < 6]; [i] grows in every iteration, so 6 iterations are enough. *)
Fixpoint parse_bars_loop (fuel : nat) (i : Z) (bars : list BarInfo) (hw : HW) : exec (list BarInfo * HW) :=
  if i <? 6 then
    match fuel with
    | O => NoFuel
    | S fuel =>
        '(bar, next, hw) ← parse_bar i hw;
        parse_bars_loop fuel next (<[Z.to_nat i := bar]> bars) hw
    end
  else mret (bars, hw).
Definition parse_bars (hw : HW) : exec (list BarInfo * HW) := parse_bars_loop 6 0 (replicate 6 Unused) hw.

(** [while cap_ptr != 0 && cap_ptr != 0xFF]. *)
Fixpoint capabilities_loop (fuel : nat) (cap_ptr : Z) (capabilities : gmap Z Z) (hw : HW)
    : exec (gmap Z Z * HW) :=
  if (cap_ptr =? 0) || (cap_ptr =? 0xFF) then mret (capabilities, hw)
  else
    match fuel with
    | O => NoFuel
    | S fuel =>
        '(cap_id, hw) ← read_u8 cap_ptr hw;
        '(next_ptr, hw) ← read_u8 (cap_ptr + 1) hw;
        capabilities_loop fuel next_ptr (<[cap_id := cap_ptr]> capabilities) hw
    end.

Definition parse_capabilities (fuel : nat) (hw : HW) : exec (gmap Z Z * HW) :=
  '(status, hw) ← read_u16 STATUS hw;
  if Z.land status 0x10 =? 0 then mret (∅, hw)
  else
    '(cap_ptr, hw) ← read_u8 CAPABILITIES_PTR hw;
    capabilities_loop fuel cap_ptr ∅ hw.

(** The list can have at most 254 entries without a cycle. *)
Definition CAPABILITIES_FUEL : nat := Z.to_nat 254.

Definition probe_device (hw : HW) : exec (result (option PciDevice) PciError * HW) :=
  '(vendor_id, hw) ← read_u16 VENDOR_ID hw;
  if vendor_id =? 0xFFFF then mret (Ok None, hw)
  else
    '(device_id, hw) ← read_u16 DEVICE_ID hw;
    '(class_code, hw) ← read_u8 CLASS_CODE hw;
    '(subclass, hw) ← read_u8 SUBCLASS hw;
    '(prog_if, hw) ← read_u8 PROG_IF hw;
    '(revision_id, hw) ← read_u8 REVISION_ID hw;
    '(header_byte, hw) ← read_u8 HEADER_TYPE hw;
    let header_type_raw := Z.land header_byte 0x7F in
    '(subsystem_vendor_id, hw) ← read_u16 SUBSYSTEM_VENDOR_ID hw;
    '(subsystem_id, hw) ← read_u16 SUBSYSTEM_ID hw;
    '(interrupt_line, hw) ← read_u8 INTERRUPT_LINE hw;
    '(interrupt_pin, hw) ← read_u8 INTERRUPT_PIN hw;
    let header_type := if header_type_raw =? 0 then Some Normal
                       else if header_type_raw =? 1 then Some PciToPciBridge
                       else if header_type_raw =? 2 then Some CardBusBridge
                       else None in
    match header_type with
    | None => mret (Err InvalidDevice, hw)
    | Some header_type =>
        '(bars, hw) ← (if bool_decide (header_type = Normal) then parse_bars hw
                       else mret (replicate 6 Unused, hw));
        '(capabilities, hw) ← parse_capabilities CAPABILITIES_FUEL hw;
        mret (Ok (Some (mkPciDevice ecam_region bus device function vendor_id device_id
                class_code subclass prog_if revision_id header_type subsystem_vendor_id subsystem_id
                bars capabilities interrupt_line interrupt_pin)), hw)
    end.

End Probe.

(** ** Configuration registers *)

(** The configuration space of a function at [base], as the standard describes
    it: reading has no effect, and when a base address register (or the
    read-only dword after them) has been written with ones, writing back its old
    value restores the device; base address registers do not affect each other. *)
Definition bar_register (off : Z) : Prop := BAR0 ≤ off ≤ 0x28 ∧ (4 | off).
Class ConfigOk {HW : Type} `{Mmio HW} (base : Z) := {
  cfg_read_pure n off hw : 0 ≤ off → off + n ≤ 4096 → snd (mmio_read n (base + off) hw) = hw;
  cfg_read_range n off hw : 0 < n → 0 ≤ off → off + n ≤ 4096 →
    0 ≤ fst (mmio_read n (base + off) hw) < 2 ^ (8 * n);
  cfg_bar_restore off hw : bar_register off →
    mmio_write 4 (base + off) (fst (mmio_read 4 (base + off) hw))
      (mmio_write 4 (base + off) 0xFFFFFFFF hw) = hw;
  cfg_bar_other off off' v hw : bar_register off → bar_register off' → off ≠ off' →
    fst (mmio_read 4 (base + off') (mmio_write 4 (base + off) v hw)) = fst (mmio_read 4 (base + off') hw);
}.

Section Config.
Context `{AddressesOk} {HW : Type} `{Mmio HW} {PT : Type} `{Mapper PT}.
Context (pt : PT) (r : EcamRegion) (bus device function : Z).

(** An access to a function of a mapped region. *)
Definition function_at (base : Z) : Prop :=
  region_mapped pt r ∧ has_bus bus r = true ∧ 0 ≤ device < 32 ∧ 0 ≤ function < 8 ∧
  base = r.(er_virtual_address) + ecam_offset r bus device function 0.

Context (base : Z) (Hat : function_at base) `{!ConfigOk base}.

Definition cfg (n : Z) (hw : HW) (off : Z) : Z := fst (mmio_read n (base + off) hw).

Lemma config_address_base n off : 0 < n → (n | off) → 0 ≤ off < 4096 →
  config_address n r bus device function off = Ret (base + off).
Proof.
  destruct Hat as (Hm & Hbus & Hd & Hf & ->). intros Hn Hdiv Hoff.
  rewrite (config_address_ok n pt) by (done || lia). unfold valid_access. rewrite Hbus.
  rewrite !(proj2 (Z.ltb_lt _ _)) by lia. cbn [andb]. unfold ecam_offset. f_equal. lia.
Qed.
Lemma cfg_pair n off hw : 0 ≤ off → off + n ≤ 4096 → mmio_read n (base + off) hw = (cfg n hw off, hw).
Proof.
  intros Hlo Hhi. unfold cfg. pose proof (cfg_read_pure n off hw Hlo Hhi).
  by destruct (mmio_read _ _ _); simplify_eq/=.
Qed.
Lemma read_u32_ok off hw : (4 | off) → 0 ≤ off < 4096 →
  read_config_u32 r bus device function off hw = Ret (cfg 4 hw off, hw).
Proof.
  intros Hdiv Hoff. unfold read_config_u32. rewrite config_address_base by (done || lia). cbn [mbind exec_bind].
  destruct Hdiv as [x ->]. by rewrite cfg_pair by lia.
Qed.
Lemma read_u16_ok off hw : (2 | off) → 0 ≤ off < 4096 →
  read_config_u16 r bus device function off hw = Ret (cfg 2 hw off, hw).
Proof.
  intros Hdiv Hoff. unfold read_config_u16. rewrite config_address_base by (done || lia). cbn [mbind exec_bind].
  destruct Hdiv as [x ->]. by rewrite cfg_pair by lia.
Qed.
Lemma read_u8_ok off hw : 0 ≤ off < 4096 → read_config_u8 r bus device function off hw = Ret (cfg 1 hw off, hw).
Proof.
  intros Hoff. unfold read_config_u8. rewrite config_address_base by (apply Z.divide_1_l || lia).
  cbn [mbind exec_bind]. by rewrite cfg_pair by lia.
Qed.
Lemma write_u32_ok off v hw : (4 | off) → 0 ≤ off < 4096 →
  write_config_u32 r bus device function off v hw = Ret (mmio_write 4 (base + off) v hw).
Proof. intros Hdiv Hoff. unfold write_config_u32. by rewrite config_address_base by (done || lia). Qed.

Lemma cfg4_range off hw : 0 ≤ off → off + 4 ≤ 4096 → 0 ≤ cfg 4 hw off < 2 ^ 32.
Proof. intros Hlo Hhi. by apply (cfg_read_range 4 off hw). Qed.
Lemma bar_register_bounds off : bar_register off → (4 | off) ∧ 0 ≤ off < 4096 ∧ off + 4 ≤ 4096.
Proof. unfold bar_register, BAR0. intros [Hoff Hdiv]. split; [done|]. lia. Qed.

(** *** Sizing a BAR *)

(** The registers while a BAR is being sized. *)
Definition ones (off : Z) (hw : HW) : HW := mmio_write 4 (base + off) 0xFFFFFFFF hw.
Definition mask32 (off : Z) (hw : HW) : Z := Z.land (cfg 4 (ones off hw) off) 0xFFFFFFF0.
Definition mask64 (off : Z) (hw : HW) : Z :=
  let hw' := ones (off + 4) (ones off hw) in
  Z.lor (Z.shiftl (cfg 4 hw' (off + 4)) 32) (Z.land (cfg 4 hw' off) 0xFFFFFFF0).

Lemma ones_restore off hw : bar_register off → mmio_write 4 (base + off) (cfg 4 hw off) (ones off hw) = hw.
Proof. apply cfg_bar_restore. Qed.

Lemma mask_low_range v : 0 ≤ v < 2 ^ 32 → 0 ≤ Z.land v 0xFFFFFFF0 < 2 ^ 32.
Proof. intros Hv. by apply land_range. Qed.

Lemma determine_bar_size_32 off hw : bar_register off →
  determine_bar_size r bus device function off false hw =
    Ret (if mask32 off hw =? 0 then 0 else 2 ^ 32 - mask32 off hw, hw).
Proof.
  intros Hoff. destruct (bar_register_bounds off Hoff) as (Hdiv & Hr & Hend).
  unfold determine_bar_size. rewrite read_u32_ok by done. cbn [mbind exec_bind mret exec_ret].
  rewrite write_u32_ok by done. cbn [mbind exec_bind mret exec_ret]. rewrite read_u32_ok by done. cbn [mbind exec_bind mret exec_ret].
  rewrite write_u32_ok by done. cbn [mbind exec_bind mret exec_ret]. fold (ones off hw) (mask32 off hw).
  rewrite ones_restore by done.
  assert (0 ≤ mask32 off hw < 2 ^ 32) as Hm by (apply mask_low_range, cfg4_range; lia).
  destruct (Z.eqb_spec (mask32 off hw) 0) as [|Hne]; [done|]. rewrite not_eq by lia.
  rewrite add_chk_ok by lia. cbn [mbind exec_bind mret exec_ret]. do 2 f_equal. lia.
Qed.

Lemma determine_bar_size_64 off hw : bar_register off → bar_register (off + 4) →
  determine_bar_size r bus device function off true hw =
    Ret (if mask64 off hw =? 0 then 0 else 2 ^ 64 - mask64 off hw, hw).
Proof.
  intros Hoff Hoff4. destruct (bar_register_bounds off Hoff) as (Hdiv & Hr & Hend).
  destruct (bar_register_bounds _ Hoff4) as (Hdiv4 & Hr4 & Hend4).
  unfold determine_bar_size. rewrite read_u32_ok by done. cbn [mbind exec_bind mret exec_ret].
  rewrite read_u32_ok by done. cbn [mbind exec_bind mret exec_ret]. do 2 (rewrite write_u32_ok by done; cbn [mbind exec_bind mret exec_ret]).
  do 2 (rewrite read_u32_ok by done; cbn [mbind exec_bind mret exec_ret]). do 2 (rewrite write_u32_ok by done; cbn [mbind exec_bind mret exec_ret]).
  fold (ones off hw). fold (ones (off + 4) (ones off hw)). fold (mask64 off hw).
  assert (mmio_write 4 (base + off) (cfg 4 hw off)
    (mmio_write 4 (base + (off + 4)) (cfg 4 hw (off + 4)) (ones (off + 4) (ones off hw))) = hw) as ->.
  { assert (cfg 4 hw (off + 4) = cfg 4 (ones off hw) (off + 4)) as ->.
    { symmetry. unfold cfg, ones. apply cfg_bar_other; [done..|lia]. }
    by rewrite !ones_restore. }
  assert (0 ≤ mask64 off hw < 2 ^ 64) as Hm.
  { unfold mask64. pose proof (cfg4_range off (ones (off + 4) (ones off hw)) ltac:(lia) ltac:(lia)) as H1'.
    pose proof (cfg4_range (off + 4) (ones (off + 4) (ones off hw)) ltac:(lia) ltac:(lia)) as H2'.
    pose proof (mask_low_range _ H1'). rewrite lor_shiftl_add by lia. lia. }
  destruct (Z.eqb_spec (mask64 off hw) 0) as [|Hne]; [done|]. rewrite not_eq by lia.
  rewrite add_chk_ok by lia. cbn [mbind exec_bind mret exec_ret]. do 2 f_equal. lia.
Qed.

Lemma determine_io_bar_size_ok off hw : bar_register off →
  ∃ size, determine_io_bar_size r bus device function off hw = Ret (size, hw).
Proof.
  intros Hoff. destruct (bar_register_bounds off Hoff) as (Hdiv & Hr & Hend).
  unfold determine_io_bar_size. rewrite read_u32_ok by done. cbn [mbind exec_bind mret exec_ret].
  rewrite write_u32_ok by done. cbn [mbind exec_bind mret exec_ret]. rewrite read_u32_ok by done. cbn [mbind exec_bind mret exec_ret].
  rewrite write_u32_ok by done. cbn [mbind exec_bind mret exec_ret]. fold (ones off hw).
  rewrite ones_restore by done. assert (0 ≤ cfg 4 (ones off hw) off < 2 ^ 32) as Hc by (apply cfg4_range; lia).
  pose proof (land_range 32 _ 0xFFFFFFFC ltac:(lia) Hc ltac:(lia)) as Hm.
  destruct (Z.eqb_spec (Z.land (cfg 4 (ones off hw) off) 0xFFFFFFFC) 0); [eauto|].
  rewrite not_eq by lia. rewrite add_chk_ok by lia. eauto.
Qed.

(** A BAR that decodes [2 ^ k] bytes keeps the address bits from [k] up; the
    rest read as zero, below them the four type bits. *)
Definition decodes32 (off k : Z) (hw : HW) : Prop :=
  4 ≤ k < 32 ∧ ∃ flags, 0 ≤ flags < 16 ∧ cfg 4 (ones off hw) off = 2 ^ 32 - 2 ^ k + flags.
Definition decodes64 (off k : Z) (hw : HW) : Prop :=
  let hw' := ones (off + 4) (ones off hw) in
  4 ≤ k < 64 ∧ ∃ flags, 0 ≤ flags < 16 ∧ cfg 4 hw' off = (2 ^ 64 - 2 ^ k) mod 2 ^ 32 + flags ∧
    cfg 4 hw' (off + 4) = (2 ^ 64 - 2 ^ k) / 2 ^ 32.

Lemma drop_flags m flags : (16 | m) → 0 ≤ m → 0 ≤ flags < 16 → m + flags < 2 ^ 32 → Z.land (m + flags) 0xFFFFFFF0 = m.
Proof.
  intros [x ->] Hm Hf Hlt. change 0xFFFFFFF0 with (not_ 32 (2 ^ 4 - 1)). rewrite land_not_ones by lia.
  change (2 ^ 4) with 16. rewrite Z.div_add_l, Z.div_small by lia. lia.
Qed.

(** C32: sizing finds the size of a BAR and leaves the device as it was.  For a
    32-bit or 64-bit memory BAR that decodes [2 ^ k] bytes, [determine_bar_size]
    returns [2 ^ k], and every register has its old value afterwards. *)
Theorem bar_size_exact off (is_64bit : bool) k hw :
  bar_register off → bar_register (off + 4) → (if is_64bit then decodes64 off k hw else decodes32 off k hw) →
  determine_bar_size r bus device function off is_64bit hw = Ret (2 ^ k, hw).
Proof.
  intros Hoff Hoff4. destruct is_64bit; intros [Hk (flags & Hf & Hc)].
  - rewrite determine_bar_size_64 by done. destruct Hc as [Hlow Hhigh].
    assert (2 ^ 4 ≤ 2 ^ k) by (apply Z.pow_le_mono_r; lia). assert (2 ^ k < 2 ^ 64) by (apply Z.pow_lt_mono_r; lia).
    assert (mask64 off hw = 2 ^ 64 - 2 ^ k) as ->; [|rewrite (proj2 (Z.eqb_neq _ _)) by lia; do 2 f_equal; lia].
    unfold mask64. rewrite Hlow, Hhigh. pose proof (Z.mod_pos_bound (2 ^ 64 - 2 ^ k) (2 ^ 32) ltac:(lia)) as Hb.
    assert (16 | (2 ^ 64 - 2 ^ k) mod 2 ^ 32) as [x Hx].
    { apply Z.mod_divide; [done|]. rewrite <- (Znumtheory.Zmod_div_mod 16 (2 ^ 32)) by (lia || by exists (2 ^ 28)).
      replace (2 ^ 64 - 2 ^ k) with ((2 ^ 60 - 2 ^ (k - 4)) * 16); [by apply Z.mod_mul|].
      replace (2 ^ k) with (2 ^ (k - 4) * 2 ^ 4) by (rewrite <- Z.pow_add_r by lia; f_equal; lia). lia. }
    rewrite drop_flags by (lia || by exists x). rewrite lor_shiftl_add by lia.
    pose proof (Z.div_mod (2 ^ 64 - 2 ^ k) (2 ^ 32) ltac:(lia)). lia.
  - rewrite determine_bar_size_32 by done.
    assert (2 ^ 4 ≤ 2 ^ k) by (apply Z.pow_le_mono_r; lia). assert (2 ^ k < 2 ^ 32) by (apply Z.pow_lt_mono_r; lia).
    assert (mask32 off hw = 2 ^ 32 - 2 ^ k) as ->; [|rewrite (proj2 (Z.eqb_neq _ _)) by lia; do 2 f_equal; lia].
    unfold mask32. rewrite Hc. assert (2 ^ k = 2 ^ (k - 4) * 16) as Hpow.
    { change 16 with (2 ^ 4). rewrite <- Z.pow_add_r by lia. f_equal. lia. }
    apply drop_flags; [exists (2 ^ 28 - 2 ^ (k - 4)); lia|lia..].
Qed.

(** *** Parsing the BARs *)

(** The addresses of 64-bit BARs are physical addresses. *)
Definition bars_ok (hw : HW) : Prop := ∀ i, 0 ≤ i < 5 →
  Z.land (cfg 4 hw (BAR0 + i * 4)) 0x6 = 0x4 → cfg 4 hw (BAR0 + i * 4 + 4) < 2 ^ 20.

Lemma bar_register_index i : 0 ≤ i < 6 → bar_register (BAR0 + i * 4) ∧ bar_register (BAR0 + i * 4 + 4).
Proof. intros Hi. unfold bar_register, BAR0. split; (split; [lia|]); [exists (4 + i)|exists (5 + i)]; lia. Qed.

Lemma bar_address_ok i hw : 0 ≤ i < 6 → bars_ok hw →
  let v := cfg 4 hw (BAR0 + i * 4) in
  ∃ a, bar_address r bus device function i v (Z.land v 0x6 =? 0x4) hw = Ret (a, hw) ∧ 0 ≤ a < 2 ^ 52.
Proof.
  intros Hi Hok v. destruct (bar_register_index i Hi) as [Hreg Hreg4].
  destruct (bar_register_bounds _ Hreg) as (_ & Hr & Hend). destruct (bar_register_bounds _ Hreg4) as (Hdiv4 & Hr4 & Hend4).
  pose proof (mask_low_range v (cfg4_range _ hw ltac:(apply Hr) Hend)) as Hlow. unfold bar_address.
  destruct (Z.eqb_spec (Z.land v 0x6) 0x4) as [H64|]; [|eexists; split; [done|lia]].
  destruct (Z.ltb_spec i 5); [|eexists; split; [done|lia]]. cbn [andb].
  rewrite read_u32_ok by done. cbn [mbind exec_bind mret exec_ret]. eexists. split; [done|].
  rewrite lor_shiftl_add by lia. pose proof (Hok i ltac:(lia) H64).
  pose proof (cfg4_range _ hw ltac:(apply Hr4) Hend4). lia.
Qed.

Lemma parse_bar_ok i hw : 0 ≤ i < 6 → bars_ok hw →
  ∃ bar next, parse_bar r bus device function i hw = Ret (bar, next, hw) ∧ i < next.
Proof.
  intros Hi Hok. destruct (bar_register_index i Hi) as [Hreg Hreg4].
  destruct (bar_register_bounds _ Hreg) as (Hdiv & Hr & Hend). destruct (bar_register_bounds _ Hreg4) as (Hdiv4 & Hr4 & Hend4).
  pose proof (cfg4_range _ hw ltac:(apply Hr) Hend) as Hv.
  unfold parse_bar. rewrite read_u32_ok by done. cbn [mbind exec_bind mret exec_ret].
  destruct (_ =? 0); [eexists _, _; split; [done|lia]|].
  destruct (Z.land (cfg 4 hw (BAR0 + i * 4)) 1 =? 0).
  2:{ destruct (determine_io_bar_size_ok (BAR0 + i * 4) hw Hreg) as [size ->]. cbn [mbind exec_bind].
      eexists _, _. split; [done|lia]. }
  destruct (bar_address_ok i hw Hi Hok) as (a & -> & Ha).
  cbn [mbind exec_bind]. assert (∃ size, determine_bar_size r bus device function (BAR0 + i * 4)
    (Z.land (cfg 4 hw (BAR0 + i * 4)) 0x6 =? 0x4) hw = Ret (size, hw)) as [size ->].
  { destruct (_ =? 0x4); [rewrite determine_bar_size_64 by done|rewrite determine_bar_size_32 by done]; eauto. }
  cbn [mbind exec_bind]. rewrite PhysAddr_new_ok by done. cbn [mbind exec_bind]. eexists _, _. split; [done|].
  destruct (_ =? 0x4); lia.
Qed.

Lemma parse_bars_loop_ok fuel i bars hw : 0 ≤ i → 6 - i ≤ Z.of_nat fuel → bars_ok hw → length bars = 6%nat →
  ∃ bars', parse_bars_loop r bus device function fuel i bars hw = Ret (bars', hw) ∧ length bars' = 6%nat.
Proof.
  revert i bars. induction fuel as [|fuel IH]; intros i bars Hi Hf Hok Hlen; cbn [parse_bars_loop].
  { rewrite (proj2 (Z.ltb_ge _ _)) by lia. eauto. }
  destruct (Z.ltb_spec i 6); [|eauto]. destruct (parse_bar_ok i hw) as (bar & next & -> & Hnext); [lia|done|].
  cbn [mbind exec_bind]. apply IH; [lia|lia|done|by rewrite length_insert].
Qed.

(** *** Following the capability list *)

(** The pointers the list goes through, from [p] on, if it ends in time. *)
Definition list_end (p : Z) : bool := (p =? 0) || (p =? 0xFF).
Fixpoint cap_chain (hw : HW) (fuel : nat) (p : Z) : option (list Z) :=
  if list_end p then Some []
  else match fuel with
       | O => None
       | S fuel => (λ l, p :: l) <$> cap_chain hw fuel (cfg 1 hw (p + 1))
       end.
Definition insert_caps (hw : HW) (l : list Z) (caps : gmap Z Z) : gmap Z Z :=
  foldl (λ caps q, <[cfg 1 hw q := q]> caps) caps l.

Lemma cfg1_range off hw : 0 ≤ off < 4096 → 0 ≤ cfg 1 hw off < 256.
Proof. intros Hoff. apply (cfg_read_range 1 off hw); lia. Qed.

Lemma capabilities_loop_ok hw fuel p caps : 0 ≤ p < 256 →
  capabilities_loop r bus device function fuel p caps hw =
    match cap_chain hw fuel p with Some l => Ret (insert_caps hw l caps, hw) | None => NoFuel end.
Proof.
  revert p caps. induction fuel as [|fuel IH]; intros p caps Hp; cbn [capabilities_loop cap_chain];
    fold (list_end p); (destruct (list_end p) eqn:Hend; [done|]); [done|].
  rewrite !read_u8_ok by lia. cbn [mbind exec_bind]. rewrite read_u8_ok by lia. cbn [mbind exec_bind].
  rewrite IH by (apply cfg1_range; lia). by destruct (cap_chain hw fuel (cfg 1 hw (p + 1))).
Qed.

(** A later capability of the same id replaces an earlier one. *)
Lemma insert_caps_lookup hw l id :
  insert_caps hw l ∅ !! id = last (filter (λ q, cfg 1 hw q = id) l).
Proof.
  induction l as [|q l IH] using rev_ind; [done|].
  unfold insert_caps in *. rewrite foldl_app, filter_app. cbn [foldl].
  destruct (decide (cfg 1 hw q = id)) as [<-|Hne].
  - rewrite lookup_insert_eq, filter_cons_True, filter_nil by done. by rewrite last_snoc.
  - rewrite lookup_insert_ne, filter_cons_False, filter_nil, app_nil_r by done. done.
Qed.

(** The pointers as a sequence. *)
Fixpoint ptr (hw : HW) (p : Z) (n : nat) : Z :=
  match n with O => p | S n => cfg 1 hw (ptr hw p n + 1) end.
Lemma ptr_shift hw p n : ptr hw (cfg 1 hw (p + 1)) n = ptr hw p (S n).
Proof. induction n as [|n IH]; [done|]. cbn [ptr] in *. by rewrite IH. Qed.
Lemma ptr_range hw p n : 0 ≤ p < 256 → 0 ≤ ptr hw p n < 256.
Proof. intros Hp. induction n as [|n IH]; [done|]. cbn [ptr]. apply cfg1_range. lia. Qed.

(** The list has not ended after [fuel] steps when none of its pointers so far
    is an end. *)
Lemma cap_chain_None hw fuel p :
  cap_chain hw fuel p = None ↔ ∀ n, (n ≤ fuel)%nat → list_end (ptr hw p n) = false.
Proof.
  revert p. induction fuel as [|fuel IH]; intros p; cbn [cap_chain]; destruct (list_end p) eqn:Hend.
  - split; [done|]. intros Hn. specialize (Hn 0%nat ltac:(lia)). cbn [ptr] in Hn. congruence.
  - split; [|done]. intros _ n Hn. by replace n with 0%nat by lia.
  - split; [done|]. intros Hn. specialize (Hn 0%nat ltac:(lia)). cbn [ptr] in Hn. congruence.
  - rewrite fmap_None, IH. split.
    + intros Hn [|n] Hle; [done|]. rewrite <- ptr_shift. apply Hn. lia.
    + intros Hn n Hle. rewrite ptr_shift. apply Hn. lia.
Qed.

Lemma cap_chain_Some hw fuel p l : cap_chain hw fuel p = Some l →
  ∃ n, (n ≤ fuel)%nat ∧ l = ptr hw p <$> seq 0 n ∧ list_end (ptr hw p n) = true ∧
    ∀ k, (k < n)%nat → list_end (ptr hw p k) = false.
Proof.
  revert p l. induction fuel as [|fuel IH]; intros p l; cbn [cap_chain]; (destruct (list_end p) eqn:Hend;
    [intros [= <-]; exists 0%nat; split_and!; [lia|done|done|lia]|]); [done|].
  intros (l' & Hl' & ->)%fmap_Some. destruct (IH _ _ Hl') as (n & Hn & -> & He & Hk).
  exists (S n). split_and!; [lia| |by rewrite <- ptr_shift|].
  - cbn [seq fmap list_fmap]. f_equal. rewrite <- fmap_S_seq, <- list_fmap_compose. apply list_fmap_ext.
    intros i k _. apply ptr_shift.
  - intros [|k] Hlt; [done|]. rewrite <- ptr_shift. apply Hk. lia.
Qed.

(** A list that does not end within 254 steps repeats a pointer. *)
Lemma ptr_repeats hw p : 0 ≤ p < 256 → cap_chain hw CAPABILITIES_FUEL p = None →
  ∃ i j, (i < j)%nat ∧ Z.of_nat j ≤ 254 ∧ ptr hw p i = ptr hw p j.
Proof.
  intros Hp Hnone. rewrite cap_chain_None in Hnone. unfold CAPABILITIES_FUEL in Hnone.
  set (N := S (Z.to_nat 254)). set (l := ptr hw p <$> seq 0 N).
  assert (¬ List.NoDup l) as Hdup.
  { intros Hnd. apply (NoDup_incl_length (l' := seqZ 1 254)) in Hnd.
    - unfold l, N in Hnd. rewrite length_fmap, length_seq, length_seqZ in Hnd. lia.
    - intros q Hq. apply list_elem_of_In in Hq. apply list_elem_of_In, elem_of_seqZ.
      apply list_elem_of_fmap in Hq as (n & -> & Hn%elem_of_seq). pose proof (Hnone n ltac:(unfold N in Hn; lia)) as He.
      apply orb_false_iff in He as [H0'%Z.eqb_neq Hff%Z.eqb_neq]. pose proof (ptr_range hw p n Hp). lia. }
  apply not_NoDup in Hdup as (q & l1 & l2 & l3 & Hl); [|intros x y; unfold Decidable.decidable; lia].
  assert (l !! length l1 = Some q) as Hi by (rewrite Hl; by rewrite lookup_app_r, Nat.sub_diag by lia).
  assert (l !! (length l1 + S (length l2))%nat = Some q) as Hj.
  { rewrite Hl, lookup_app_r by lia. replace (_ - length l1)%nat with (S (length l2)) by lia.
    change ((q :: l2 ++ q :: l3) !! S (length l2)) with ((l2 ++ q :: l3) !! length l2).
    by rewrite lookup_app_r, Nat.sub_diag by lia. }
  unfold l in Hi, Hj. apply list_lookup_fmap_Some in Hi as (i & -> & Hi). apply lookup_seq in Hi as [-> Hi].
  apply list_lookup_fmap_Some in Hj as (j & Hqj & Hj). apply lookup_seq in Hj as [-> Hj].
  exists (length l1), (length l1 + S (length l2))%nat. split; [lia|]. split; [unfold N in Hj; lia|done].
Qed.

(** It then goes on forever. *)
Lemma ptr_forever hw p : 0 ≤ p < 256 → cap_chain hw CAPABILITIES_FUEL p = None →
  ∀ n, list_end (ptr hw p n) = false.
Proof.
  intros Hp Hnone. destruct (ptr_repeats hw p Hp Hnone) as (i & j & Hij & Hj & Heq).
  rewrite cap_chain_None in Hnone.
  assert (∀ k, ptr hw p (i + k) = ptr hw p (j + k)) as Hper.
  { intros k. induction k as [|k IH]; [by rewrite !Nat.add_0_r|]. rewrite !Nat.add_succ_r. cbn [ptr]. by rewrite IH. }
  intros n. induction n as [n IH] using lt_wf_ind. destruct (decide (Z.of_nat n ≤ 254)) as [Hle|Hgt].
  { apply Hnone. unfold CAPABILITIES_FUEL. lia. }
  replace n with (j + (n - j))%nat by lia. rewrite <- Hper. apply IH. lia.
Qed.

(** C33: capability discovery.  A function without a capability list has an empty
    map.  Otherwise, let [ptr n] be the [n]-th pointer of the list.  Either the
    list ends, after at most 254 capabilities, and the map has, for every
    capability id, the offset of the last capability of the list with that id,
    and nothing for an id that the list does not have.  Or the list is cyclic:
    two of its first 255 pointers are equal, none is ever an end, and
    [parse_capabilities] does not return. *)
Theorem capabilities_discovered hw :
  let ptr := ptr hw (cfg 1 hw CAPABILITIES_PTR) in
  if Z.land (cfg 2 hw STATUS) 0x10 =? 0 then
    parse_capabilities r bus device function CAPABILITIES_FUEL hw = Ret (∅, hw)
  else
    (∃ n caps, Z.of_nat n ≤ 254 ∧ list_end (ptr n) = true ∧ (∀ k, (k < n)%nat → list_end (ptr k) = false) ∧
      parse_capabilities r bus device function CAPABILITIES_FUEL hw = Ret (caps, hw) ∧
      ∀ id, caps !! id = last (filter (λ q, cfg 1 hw q = id) (ptr <$> seq 0 n))) ∨
    (∃ i j, (i < j)%nat ∧ Z.of_nat j ≤ 254 ∧ ptr i = ptr j) ∧ (∀ n, list_end (ptr n) = false) ∧
      ∀ fuel, parse_capabilities r bus device function fuel hw = NoFuel.
Proof.
  assert (0 ≤ cfg 1 hw CAPABILITIES_PTR < 256) as Hp by (by apply cfg1_range).
  assert (∀ fuel, parse_capabilities r bus device function fuel hw =
    if Z.land (cfg 2 hw STATUS) 0x10 =? 0 then Ret (∅, hw) else
    capabilities_loop r bus device function fuel (cfg 1 hw CAPABILITIES_PTR) ∅ hw) as Hparse.
  { intros fuel. unfold parse_capabilities. rewrite read_u16_ok by (done || by exists 3). cbn [mbind exec_bind].
    destruct (_ =? 0); [done|]. rewrite read_u8_ok by done. done. }
  destruct (Z.land (cfg 2 hw STATUS) 0x10 =? 0); [done|]. cbn zeta.
  destruct (cap_chain hw CAPABILITIES_FUEL (cfg 1 hw CAPABILITIES_PTR)) as [l|] eqn:Hchain; [left|right].
  - destruct (cap_chain_Some _ _ _ _ Hchain) as (n & Hn & -> & Hend & Hk). eexists n, _.
    split; [unfold CAPABILITIES_FUEL in Hn; lia|]. split; [done|]. split; [done|].
    rewrite Hparse, capabilities_loop_ok, Hchain by done. split; [done|]. apply insert_caps_lookup.
  - split; [by apply ptr_repeats|]. split; [by apply ptr_forever|]. intros fuel.
    rewrite Hparse, capabilities_loop_ok by done.
    assert (cap_chain hw fuel (cfg 1 hw CAPABILITIES_PTR) = None) as ->; [|done].
    apply cap_chain_None. intros n _. by apply ptr_forever.
Qed.

(** *** Probing *)

Definition present (hw : HW) : bool := negb (cfg 2 hw VENDOR_ID =? 0xFFFF).
Definition multifunction (hw : HW) : bool := negb (Z.land (cfg 1 hw HEADER_TYPE) 0x80 =? 0).

(** A function whose header is of a known type, whose 64-bit BARs hold physical
    addresses and whose capability list ends. *)
Definition function_ok (hw : HW) : Prop :=
  Z.land (cfg 1 hw HEADER_TYPE) 0x7F ≤ 2 ∧ bars_ok hw ∧
  (Z.land (cfg 2 hw STATUS) 0x10 ≠ 0 →
   is_Some (cap_chain hw CAPABILITIES_FUEL (cfg 1 hw CAPABILITIES_PTR))).

(** What the record of a device says. *)
Definition describes (hw : HW) (d : PciDevice) : Prop :=
  d.(dev_ecam_region) = r ∧ d.(dev_bus) = bus ∧ d.(dev_device) = device ∧ d.(dev_function) = function ∧
  d.(dev_vendor_id) = cfg 2 hw VENDOR_ID ∧ d.(dev_device_id) = cfg 2 hw DEVICE_ID ∧
  d.(dev_class_code) = cfg 1 hw CLASS_CODE ∧ length d.(dev_bars) = 6%nat.

Lemma is_multifunction_ok hw : is_multifunction_device r bus device function hw = Ret (multifunction hw, hw).
Proof. unfold is_multifunction_device. rewrite read_u8_ok by done. done. Qed.

Lemma parse_capabilities_ok hw :
  (Z.land (cfg 2 hw STATUS) 0x10 ≠ 0 → is_Some (cap_chain hw CAPABILITIES_FUEL (cfg 1 hw CAPABILITIES_PTR))) →
  ∃ caps, parse_capabilities r bus device function CAPABILITIES_FUEL hw = Ret (caps, hw).
Proof.
  intros Hc. unfold parse_capabilities. rewrite read_u16_ok by (done || by exists 3). cbn [mbind exec_bind].
  destruct (Z.eqb_spec (Z.land (cfg 2 hw STATUS) 0x10) 0) as [|Hne]; [eauto|].
  rewrite read_u8_ok by done. cbn [mbind exec_bind]. rewrite capabilities_loop_ok by (by apply cfg1_range).
  destruct (Hc Hne) as [l ->]. eauto.
Qed.

(** The reads of the header after the vendor. *)
Ltac read_header :=
  rewrite read_u16_ok by (done || by exists 1); cbn [mbind exec_bind];
  do 5 (rewrite read_u8_ok by done; cbn [mbind exec_bind]);
  rewrite read_u16_ok by (done || by exists 22); cbn [mbind exec_bind];
  rewrite read_u16_ok by (done || by exists 23); cbn [mbind exec_bind];
  do 2 (rewrite read_u8_ok by done; cbn [mbind exec_bind]).

Lemma probe_device_ok hw : (present hw = true → function_ok hw) →
  ∃ o, probe_device r bus device function hw = Ret (Ok o, hw) ∧
    match o with
    | None => present hw = false
    | Some d => present hw = true ∧ describes hw d
    end.
Proof.
  intros Hok. unfold probe_device, present in *. rewrite read_u16_ok by (done || by exists 0). cbn [mbind exec_bind].
  destruct (cfg 2 hw VENDOR_ID =? 0xFFFF); [by exists None|]. destruct (Hok eq_refl) as (Hht & Hbars & Hcaps).
  read_header.
  destruct (parse_bars_loop_ok 6 0 (replicate 6 Unused) hw) as (bars & Hparse & Hlen); [done|done|done|done|].
  destruct (parse_capabilities_ok hw Hcaps) as [caps Hpc].
  assert (0 ≤ Z.land (cfg 1 hw HEADER_TYPE) 0x7F) as Hpos by (apply Z.land_nonneg; right; lia).
  set (ht := Z.land (cfg 1 hw HEADER_TYPE) 0x7F) in *.
  destruct (Z.eqb_spec ht 0); [|destruct (Z.eqb_spec ht 1); [|destruct (Z.eqb_spec ht 2); [|lia]]];
    (rewrite bool_decide_eq_true_2 by done; unfold parse_bars; rewrite Hparse) || rewrite bool_decide_eq_false_2 by done;
    cbn [mbind exec_bind mret exec_ret]; rewrite Hpc; cbn [mbind exec_bind];
    eexists (Some _); split; try done.
Qed.

(** A header type the code does not know is an error. *)
Lemma probe_bad_header hw : present hw = true → 2 < Z.land (cfg 1 hw HEADER_TYPE) 0x7F →
  probe_device r bus device function hw = Ret (Err InvalidDevice, hw).
Proof.
  intros Hp Hht. unfold probe_device, present in *. rewrite read_u16_ok by (done || by exists 0). cbn [mbind exec_bind].
  apply negb_true_iff in Hp. rewrite Hp.
  read_header.
  by rewrite !(proj2 (Z.eqb_neq _ _)) by lia.
Qed.

End Config.

(** ** A model of configuration registers *)

(** Dwords by address; a bit of a dword can be written when it is in the mask
    of its address, and where there is no device all reads give ones. *)
Section Model.
Context (writable : Z → Z) (Hwritable : ∀ a, 0 ≤ writable a < 2 ^ 32).

Definition model_config : Mmio (gmap Z Z) := {|
  mmio_read n a hw :=
    (Z.shiftr (default 0xFFFFFFFF (hw !! (a - a mod 4))) (8 * (a mod 4)) mod 2 ^ (8 * n), hw);
  mmio_write n a v hw :=
    match hw !! a with
    | Some old => <[a := Z.lor (Z.land v (writable a)) (Z.ldiff old (writable a))]> hw
    | None => hw
    end;
|}.

Lemma model_config_ok base : (4 | base) → @ConfigOk _ model_config base.
Proof.
  intros [b ->]. split; cbn.
  - done.
  - intros n off hw Hn Ho He. apply Z.mod_pos_bound. lia.
  - intros off hw [_ [x ->]]. replace (b * 4 + x * 4) with ((b + x) * 4) by lia. rewrite Z.mod_mul, Z.sub_0_r, Z.mul_0_r by lia.
    destruct (hw !! ((b + x) * 4)) as [old|] eqn:Ha; [|by rewrite Ha]. rewrite lookup_insert_eq, insert_insert_eq.
    rewrite <- (insert_id hw ((b + x) * 4) old) at 2 by done. f_equal. cbn [default].
    change (Z.pos (Pos.pow 2 32)) with (2 ^ 32). rewrite Z.shiftr_0_r. apply Z.bits_inj'. intros i Hi.
    rewrite Z.lor_spec, Z.land_spec, Z.ldiff_spec, Z.lor_spec, Z.land_spec, Z.ldiff_spec.
    destruct (Z.testbit (writable ((b + x) * 4)) i) eqn:Hw.
    + rewrite !andb_false_r, !andb_true_r, orb_false_r. apply Z.mod_pow2_bits_low.
      destruct (decide (i < 32)); [done|]. rewrite (testbit_high 32) in Hw by (done || lia). done.
    + by rewrite !andb_false_r, !andb_true_r.
  - intros off off' v hw [_ [x ->]] [_ [y ->]] Hne. f_equal. f_equal. f_equal.
    replace (b * 4 + y * 4) with ((b + y) * 4) by lia. rewrite Z.mod_mul, Z.sub_0_r by lia.
    destruct (hw !! (b * 4 + x * 4)); [|done]. rewrite lookup_insert_ne by lia. done.
Qed.

End Model.

(** ** Examples *)

Section Examples.
#[local] Existing Instances model_addresses model_mapper.
#[local] Existing Instances model_addresses_ok model_mapper_ok.

(** Device 3 on bus 2 has a 16 KiB BAR, a 64-bit BAR of 8 GiB, and an MSI and an
    MSI-X capability; device 4 has a capability list that never ends. *)
Definition sample_base (device : Z) : Z := ECAM_VIRTUAL_START + ecam_offset (sample_region ECAM_VIRTUAL_START) 2 device 0 0.
Definition sample_writable (a : Z) : Z :=
  if a =? sample_base 3 + 0x10 then 0xFFFFC000
  else if a =? sample_base 3 + 0x18 then 0
  else if a =? sample_base 3 + 0x1C then 0xFFFFFFFE
  else 0.
Definition sample_hw : gmap Z Z := list_to_map (
  ((λ '(off, v), (sample_base 3 + off, v)) <$>
    [(0x00, 0x10001B36); (0x04, 0x00100006); (0x08, 0x01080200); (0x0C, 0); (0x10, 0xFEB00000); (0x14, 0);
     (0x18, 0x0000000C); (0x1C, 0x00000002); (0x20, 0); (0x24, 0); (0x28, 0); (0x2C, 0x11001AF4);
     (0x34, 0x40); (0x3C, 0); (0x40, 0x00005005); (0x50, 0x00000011)]) ++
  ((λ '(off, v), (sample_base 4 + off, v)) <$>
    [(0x00, 0x10001B36); (0x04, 0x00100006); (0x34, 0x40); (0x40, 0x00004005)])).

#[local] Instance sample_config : Mmio (gmap Z Z) := model_config sample_writable.
#[local] Instance sample_config_ok device : ConfigOk (sample_base device).
Proof.
  apply model_config_ok.
  - intros a. unfold sample_writable. repeat case_match; lia.
  - unfold sample_base, ecam_offset, ECAM_VIRTUAL_START. cbn.
    exists (0x3FFFFD0000000000 + 2 ^ 13 * device). lia.
Qed.

Lemma sample_function_at pt device : region_mapped pt (sample_region ECAM_VIRTUAL_START) → 0 ≤ device < 32 →
  function_at pt (sample_region ECAM_VIRTUAL_START) 2 device 0 (sample_base device).
Proof. intros Hm Hd. split; [done|]. split; [done|]. split; [done|]. split; [lia|done]. Qed.

Lemma bar_size_exact_witness : ∃ r,
  determine_bar_size r 2 3 0 0x10 false sample_hw = Ret (2 ^ 14, sample_hw) ∧
  determine_bar_size r 2 3 0 0x18 true sample_hw = Ret (2 ^ 33, sample_hw).
Proof.
  destruct sample_region_mapped as [pt Hm]. exists (sample_region ECAM_VIRTUAL_START). split.
  - apply (bar_size_exact pt _ _ _ _ (sample_base 3) (sample_function_at pt 3 Hm ltac:(lia)) 0x10 false 14).
    + split; [done|by exists 4].
    + split; [done|by exists 5].
    + split; [lia|]. exists 0. by split; [|vm_compute].
  - apply (bar_size_exact pt _ _ _ _ (sample_base 3) (sample_function_at pt 3 Hm ltac:(lia)) 0x18 true 33).
    + split; [done|by exists 6].
    + split; [done|by exists 7].
    + split; [lia|]. exists 0xC. by split_and!; [..|vm_compute|vm_compute].
Defined.

Lemma capabilities_discovered_witness : ∃ r caps,
  parse_capabilities r 2 3 0 CAPABILITIES_FUEL sample_hw = Ret (caps, sample_hw) ∧
  caps !! 0x11 = Some 0x50 ∧ ∀ fuel, parse_capabilities r 2 4 0 fuel sample_hw = NoFuel.
Proof.
  destruct sample_region_mapped as [pt Hm].
  pose proof (capabilities_discovered pt _ _ _ _ (sample_base 3) (sample_function_at pt 3 Hm ltac:(lia)) sample_hw) as H3.
  pose proof (capabilities_discovered pt _ _ _ _ (sample_base 4) (sample_function_at pt 4 Hm ltac:(lia)) sample_hw) as H4.
  assert (Z.land (cfg (sample_base 3) 2 sample_hw STATUS) 0x10 =? 0 = false) as E3 by (vm_compute; done).
  assert (Z.land (cfg (sample_base 4) 2 sample_hw STATUS) 0x10 =? 0 = false) as E4 by (vm_compute; done).
  rewrite E3 in H3. rewrite E4 in H4. cbn zeta in H3, H4.
  destruct H3 as [(n & caps & _ & Hend & Hbefore & Hrun & Hcaps)|(_ & Hnever & _)];
    [|specialize (Hnever 2%nat); vm_compute in Hnever; discriminate Hnever].
  destruct H4 as [(n4 & caps4 & _ & Hend4 & _ & Hrun4 & _)|(_ & _ & Hloop)]; [exfalso|].
  - assert (match parse_capabilities (sample_region ECAM_VIRTUAL_START) 2 4 0 CAPABILITIES_FUEL sample_hw with
      Ret _ => false | _ => true end = true) as Hno by (vm_compute; done). rewrite Hrun4 in Hno. discriminate Hno.
  - eexists _, caps. split; [exact Hrun|]. split; [|exact Hloop]. rewrite Hcaps.
    destruct n as [|[|[|n]]]; [vm_compute in Hend; discriminate Hend..| |].
    + vm_compute. done.
    + specialize (Hbefore 2%nat ltac:(lia)). vm_compute in Hbefore. discriminate Hbefore.
Defined.

End Examples.
