(* ===== verification/Msix.v ===== *)
(** * Msix: message signalled interrupts (pci/msi.rs, MsiXTableEntry of pci/config.rs)

    The MSI-X structures of a device: finding and mapping them, programming the
    vector table, masking, and reading the pending bits.  The table and the
    pending bit array are device memory ([MmioMemory] of PciBase.v). *)

From S2P Require Import Prelude X86 FrameSource PciBase PcieVmm Ecam PciDevice.

(** ** Table entries *)

Record MsiXTableEntry := mkMsiXTableEntry {
  message_address_low : Z; message_address_high : Z; message_data : Z; vector_control : Z;
}.
Definition VECTOR_MASKED : Z := Z.shiftl 1 0.

Definition MsiXTableEntry_new : MsiXTableEntry := mkMsiXTableEntry 0 0 0 VECTOR_MASKED.
Definition set_address (address : Z) (e : MsiXTableEntry) : MsiXTableEntry :=
  mkMsiXTableEntry (address mod 2 ^ 32) (Z.shiftr address 32 mod 2 ^ 32) e.(message_data) e.(vector_control).
Definition set_data (data : Z) (e : MsiXTableEntry) : MsiXTableEntry :=
  mkMsiXTableEntry e.(message_address_low) e.(message_address_high) data e.(vector_control).
Definition mask (e : MsiXTableEntry) : MsiXTableEntry :=
  mkMsiXTableEntry e.(message_address_low) e.(message_address_high) e.(message_data)
    (Z.lor e.(vector_control) VECTOR_MASKED).
Definition unmask (e : MsiXTableEntry) : MsiXTableEntry :=
  mkMsiXTableEntry e.(message_address_low) e.(message_address_high) e.(message_data)
    (Z.land e.(vector_control) (not_ 32 VECTOR_MASKED)).
Definition is_masked (e : MsiXTableEntry) : bool := negb (Z.land e.(vector_control) VECTOR_MASKED =? 0).

(** [#[repr(C, packed)]]: an entry as the 16 bytes in memory, and back. *)
Definition entry_bits (e : MsiXTableEntry) : Z :=
  e.(message_address_low) + 2 ^ 32 * e.(message_address_high) + 2 ^ 64 * e.(message_data) +
  2 ^ 96 * e.(vector_control).
Definition entry_of (bits : Z) : MsiXTableEntry :=
  mkMsiXTableEntry (bits mod 2 ^ 32) (bits / 2 ^ 32 mod 2 ^ 32) (bits / 2 ^ 64 mod 2 ^ 32)
    (bits / 2 ^ 96 mod 2 ^ 32).

(** ** MSI-X of a device *)

Definition MSI_X : Z := 0x11.
Definition MESSAGE_CONTROL : Z := 0x02.
Definition TABLE_OFFSET_BIR : Z := 0x04.
Definition PBA_OFFSET_BIR : Z := 0x08.
Definition TABLE_SIZE_MASK : Z := 0x7FF.
Definition MSI_X_ENABLE : Z := Z.shiftl 1 15.

Record MsiXVector := mkMsiXVector { v_index : Z; v_vector : Z; v_enabled : bool }.

Record MsiXInfo := mkMsiXInfo {
  mi_device : PciDevice;
  mi_cap_offset : Z;
  mi_table_size : Z;
  mi_table_bar : Z; mi_table_offset : Z;
  mi_pba_bar : Z; mi_pba_offset : Z;
  mi_table_virtual_addr : option Z;
  mi_pba_virtual_addr : option Z;
  mi_vectors : list MsiXVector;
  mi_mapped_bars : list MappedBar;
}.
Definition set_mapped_bars (bars : list MappedBar) (m : MsiXInfo) : MsiXInfo :=
  mkMsiXInfo m.(mi_device) m.(mi_cap_offset) m.(mi_table_size) m.(mi_table_bar) m.(mi_table_offset)
    m.(mi_pba_bar) m.(mi_pba_offset) m.(mi_table_virtual_addr) m.(mi_pba_virtual_addr) m.(mi_vectors) bars.
Definition set_addresses (table pba : option Z) (m : MsiXInfo) : MsiXInfo :=
  mkMsiXInfo m.(mi_device) m.(mi_cap_offset) m.(mi_table_size) m.(mi_table_bar) m.(mi_table_offset)
    m.(mi_pba_bar) m.(mi_pba_offset) table pba m.(mi_vectors) m.(mi_mapped_bars).
Definition set_vectors (vectors : list MsiXVector) (m : MsiXInfo) : MsiXInfo :=
  mkMsiXInfo m.(mi_device) m.(mi_cap_offset) m.(mi_table_size) m.(mi_table_bar) m.(mi_table_offset)
    m.(mi_pba_bar) m.(mi_pba_offset) m.(mi_table_virtual_addr) m.(mi_pba_virtual_addr) vectors m.(mi_mapped_bars).
Definition set_enabled (b : bool) (v : MsiXVector) : MsiXVector := mkMsiXVector v.(v_index) v.(v_vector) b.

Definition calculate_msi_address (cpu_id : Z) : Z := Z.lor 0xFEE00000 (Z.shiftl cpu_id 12).
Definition calculate_msi_data (vector : Z) : Z := vector.

(** [find_existing_mapping] of pci/vmm.rs tracks nothing. *)
Definition find_existing_mapping (physical_address : Z) : result (option MappedBar) PciError := Ok None.

(** The memory BAR with an index, or the reason why there is none. *)
Definition memory_bar (m : MsiXInfo) (bar_index : Z) : option MemoryBar :=
  match m.(mi_device).(dev_bars) !! Z.to_nat bar_index with
  | Some (Memory bar) => Some bar
  | _ => None
  end.

Definition find_bar_virtual_address (m : MsiXInfo) (bar_index : Z) : result Z PciError :=
  match memory_bar m bar_index with
  | None => Err InvalidDevice
  | Some bar =>
      match find (λ mapped, mapped.(physical_address) =? bar.(mb_address)) m.(mi_mapped_bars) with
      | Some mapped => Ok mapped.(virtual_address)
      | None => Err MsiXSetupFailed
      end
  end.

(** The address of one of the two structures: [offset] into BAR [bar_index]. *)
Definition structure_address (m : MsiXInfo) (bar_index offset : Z) : exec (result Z PciError) :=
  match memory_bar m bar_index with
  | None => mret (Err MsiXSetupFailed)
  | Some bar =>
      if bar.(mb_address) =? 0 then mret (Err MsiXSetupFailed)
      else
        match find_bar_virtual_address m bar_index with
        | Err e => mret (Err e)
        | Ok virtual_base => a ← add_chk 64 virtual_base offset; mret (Ok a)
        end
  end.

Section Msix.
Context `{Addresses} {HW : Type} `{Mmio HW} {PT FA : Type} `{Mapper PT, FrameSource FA}.

Definition MsiXInfo_from_device (dev : PciDevice) (cap_offset : Z) (hw : HW) : exec (MsiXInfo * HW) :=
  off ← add_chk 16 cap_offset MESSAGE_CONTROL;
  '(control, hw) ← read_config_u16 dev.(dev_ecam_region) dev.(dev_bus) dev.(dev_device) dev.(dev_function) off hw;
  off ← add_chk 16 cap_offset TABLE_OFFSET_BIR;
  '(table_offset_bir, hw) ←
    read_config_u32 dev.(dev_ecam_region) dev.(dev_bus) dev.(dev_device) dev.(dev_function) off hw;
  off ← add_chk 16 cap_offset PBA_OFFSET_BIR;
  '(pba_offset_bir, hw) ←
    read_config_u32 dev.(dev_ecam_region) dev.(dev_bus) dev.(dev_device) dev.(dev_function) off hw;
  table_size ← add_chk 16 (Z.land control TABLE_SIZE_MASK) 1;
  mret (mkMsiXInfo dev cap_offset table_size
          (Z.land table_offset_bir 0x7) (Z.land table_offset_bir (not_ 32 0x7))
          (Z.land pba_offset_bir 0x7) (Z.land pba_offset_bir (not_ 32 0x7)) None None [] [], hw).

(** [for bar in self.device.bars.iter()]; returns the mapped BARs. *)
Fixpoint map_device_bars (bars : list BarInfo) (mapped_bars : list MappedBar) (vmm : PcieVmm) (g : globals PT FA)
    : exec (result (list MappedBar) PciError * PcieVmm * globals PT FA) :=
  match bars with
  | [] => mret (Ok mapped_bars, vmm, g)
  | Memory bar :: bars =>
      if bar.(mb_address) =? 0 then map_device_bars bars mapped_bars vmm g
      else if existsb (λ mapped, mapped.(physical_address) =? bar.(mb_address)) mapped_bars
      then map_device_bars bars mapped_bars vmm g
      else
        '(r, vmm, g) ← map_bar bar vmm g;
        match r with
        | Ok mapped => map_device_bars bars (mapped_bars ++ [mapped]) vmm g
        | Err e =>
            match find_existing_mapping bar.(mb_address) with
            | Err e' => mret (Err e', vmm, g)
            | Ok (Some existing_mapping) => map_device_bars bars (mapped_bars ++ [existing_mapping]) vmm g
            | Ok None => mret (Err e, vmm, g)
            end
        end
  | _ :: bars => map_device_bars bars mapped_bars vmm g
  end.

Definition map_structures (m : MsiXInfo) (vmm : PcieVmm) (g : globals PT FA)
    : exec (result MsiXInfo PciError * PcieVmm * globals PT FA) :=
  '(r, vmm, g) ← map_device_bars m.(mi_device).(dev_bars) m.(mi_mapped_bars) vmm g;
  match r with
  | Err e => mret (Err e, vmm, g)
  | Ok mapped_bars =>
      let m := set_mapped_bars mapped_bars m in
      table ← structure_address m m.(mi_table_bar) m.(mi_table_offset);
      match table with
      | Err e => mret (Err e, vmm, g)
      | Ok table =>
          pba ← structure_address m m.(mi_pba_bar) m.(mi_pba_offset);
          match pba with
          | Err e => mret (Err e, vmm, g)
          | Ok pba => mret (Ok (set_addresses (Some table) (Some pba) m), vmm, g)
          end
      end
  end.

Definition zero_pba (m : MsiXInfo) (hw : HW) : exec HW :=
  match m.(mi_pba_virtual_addr) with
  | Some pba_addr =>
      let pba_bytes := div_ceil m.(mi_table_size) 8 in
      range_fold (λ i hw, mret (mmio_write 1 (pba_addr + i) 0 hw)) 0 pba_bytes hw
  | None => mret hw
  end.

(** The place of an entry, and reading and writing an entry. *)
Definition entry_address (table_addr index : Z) : exec Z :=
  off ← mul_chk 64 index 16;
  add_chk 64 table_addr off.
Definition update_entry (f : MsiXTableEntry → MsiXTableEntry) (entry_addr : Z) (hw : HW) : HW :=
  let '(bits, hw) := mmio_read 16 entry_addr hw in
  mmio_write 16 entry_addr (entry_bits (f (entry_of bits))) hw.

(** [for i in 0..num_vectors]: the vectors, none enabled. *)
Definition new_vectors (num_vectors base_vector : Z) : exec (list MsiXVector) :=
  range_fold (λ i vectors,
    vector ← add_chk 8 base_vector (i mod 2 ^ 8);
    mret (vectors ++ [mkMsiXVector i vector false])) 0 num_vectors [].

Fixpoint write_entries (table_addr : Z) (vectors : list MsiXVector) (hw : HW) : exec HW :=
  match vectors with
  | [] => mret hw
  | vector :: vectors =>
      entry_addr ← entry_address table_addr vector.(v_index);
      let entry := mask (set_data (calculate_msi_data vector.(v_vector))
                     (set_address (calculate_msi_address 0) MsiXTableEntry_new)) in
      write_entries table_addr vectors (mmio_write 16 entry_addr (entry_bits entry) hw)
  end.

Definition allocate_vectors (num_vectors base_vector : Z) (m : MsiXInfo) (hw : HW)
    : exec (result MsiXInfo PciError * HW) :=
  if m.(mi_table_size) <? num_vectors then mret (Err MsiXSetupFailed, hw)
  else
    vectors ← new_vectors num_vectors base_vector;
    match m.(mi_table_virtual_addr) with
    | None => mret (Err MsiXSetupFailed, hw)
    | Some table_addr =>
        hw ← write_entries table_addr vectors hw;
        mret (Ok (set_vectors vectors m), hw)
    end.

(** Read, change and write back the message control register. *)
Definition update_control (f : Z → Z) (m : MsiXInfo) (hw : HW) : exec HW :=
  let dev := m.(mi_device) in
  off ← add_chk 16 m.(mi_cap_offset) MESSAGE_CONTROL;
  '(control, hw) ← read_config_u16 dev.(dev_ecam_region) dev.(dev_bus) dev.(dev_device) dev.(dev_function) off hw;
  write_config_u16 dev.(dev_ecam_region) dev.(dev_bus) dev.(dev_device) dev.(dev_function) off (f control) hw.

Definition MsiXInfo_enable (m : MsiXInfo) (hw : HW) : exec HW :=
  update_control (λ control, Z.lor control MSI_X_ENABLE) m hw.
Definition MsiXInfo_disable (m : MsiXInfo) (hw : HW) : exec HW :=
  update_control (λ control, Z.land control (not_ 16 MSI_X_ENABLE)) m hw.

(** [self.vectors.iter_mut().find(|v| v.index == index)] with the flag set. *)
Fixpoint update_vector (index : Z) (b : bool) (vectors : list MsiXVector) : option (list MsiXVector) :=
  match vectors with
  | [] => None
  | v :: vectors =>
      if v.(v_index) =? index then Some (set_enabled b v :: vectors)
      else (λ vectors, v :: vectors) <$> update_vector index b vectors
  end.

(** [enable_vector] and [disable_vector] differ in the flag and the entry. *)
Definition switch_vector (b : bool) (index : Z) (m : MsiXInfo) (hw : HW)
    : exec (result unit PciError * MsiXInfo * HW) :=
  match update_vector index b m.(mi_vectors) with
  | None => mret (Err InvalidDevice, m, hw)
  | Some vectors =>
      let m := set_vectors vectors m in
      match m.(mi_table_virtual_addr) with
      | None => mret (Ok (), m, hw)
      | Some table_addr =>
          entry_addr ← entry_address table_addr index;
          mret (Ok (), m, update_entry (if b then unmask else mask) entry_addr hw)
      end
  end.
Definition enable_vector := switch_vector true.
Definition disable_vector := switch_vector false.

(** The loop of [mask_all_vectors] and [unmask_all_vectors]. *)
Fixpoint switch_all (b : bool) (table_addr : Z) (vectors : list MsiXVector) (hw : HW)
    : exec (list MsiXVector * HW) :=
  match vectors with
  | [] => mret ([], hw)
  | vector :: vectors =>
      entry_addr ← entry_address table_addr vector.(v_index);
      '(vectors, hw) ← switch_all b table_addr vectors (update_entry (if b then unmask else mask) entry_addr hw);
      mret (set_enabled b vector :: vectors, hw)
  end.
Definition switch_all_vectors (b : bool) (m : MsiXInfo) (hw : HW) : exec (result unit PciError * MsiXInfo * HW) :=
  match m.(mi_table_virtual_addr) with
  | None => mret (Err MsiXSetupFailed, m, hw)
  | Some table_addr =>
      '(vectors, hw) ← switch_all b table_addr m.(mi_vectors) hw;
      mret (Ok (), set_vectors vectors m, hw)
  end.
Definition mask_all_vectors := switch_all_vectors false.
Definition unmask_all_vectors := switch_all_vectors true.

(** The 64-bit word of the pending bit array. *)
Definition read_qword (pba_addr qword_index : Z) (hw : HW) : exec (Z * HW) :=
  off ← mul_chk 64 qword_index 8;
  qword_addr ← add_chk 64 pba_addr off;
  mret (mmio_read 8 qword_addr hw).
Definition bit_set (bits bit_index : Z) : exec bool :=
  bit ← shl_chk 64 1 bit_index;
  mret (negb (Z.land bits bit =? 0)).

(** [for bit_index in 0..64], left at the end of the table. *)
Fixpoint pending_in_qword (num_vectors qword_index bits : Z) (bit_indices : list Z) (pending : list Z)
    : exec (list Z) :=
  match bit_indices with
  | [] => mret pending
  | bit_index :: bit_indices =>
      first ← mul_chk 16 qword_index 64;
      vector_index ← add_chk 16 first bit_index;
      if num_vectors <=? vector_index then mret pending
      else
        b ← bit_set bits bit_index;
        match b with
        | true => pending_in_qword num_vectors qword_index bits bit_indices (pending ++ [vector_index])
        | false => pending_in_qword num_vectors qword_index bits bit_indices pending
        end
  end.

(** One iteration over the words of the array, for the list and for the count. *)
Definition pending_step (num_vectors pba_addr qword_index : Z) (s : list Z * HW) : exec (list Z * HW) :=
  let '(pending, hw) := s in
  '(bits, hw) ← read_qword pba_addr qword_index hw;
  pending ← pending_in_qword num_vectors qword_index bits (seqZ 0 64) pending;
  mret (pending, hw).
Definition count_step (num_vectors pba_addr qword_index : Z) (s : Z * HW) : exec (Z * HW) :=
  let '(count, hw) := s in
  '(bits, hw) ← read_qword pba_addr qword_index hw;
  first ← mul_chk 16 qword_index 64;
  rest ← sub_chk num_vectors first;
  let vectors_in_this_qword := Z.min 64 rest in
  mask ← (if vectors_in_this_qword =? 64 then mret (2 ^ 64 - 1)
          else bit ← shl_chk 64 1 vectors_in_this_qword; sub_chk bit 1);
  count ← add_chk 16 count (count_ones 64 (Z.land bits mask));
  mret (count, hw).

Definition read_pending_vectors (m : MsiXInfo) (hw : HW) : exec (result (list Z) PciError * HW) :=
  match m.(mi_pba_virtual_addr) with
  | None => mret (Err MsiXSetupFailed, hw)
  | Some pba_addr =>
      let num_vectors := m.(mi_table_size) in
      let num_qwords := div_ceil num_vectors 64 in
      '(pending_vectors, hw) ← range_fold (pending_step num_vectors pba_addr) 0 num_qwords ([], hw);
      mret (Ok pending_vectors, hw)
  end.

Definition is_vector_pending (m : MsiXInfo) (i : Z) (hw : HW) : exec (result bool PciError * HW) :=
  if m.(mi_table_size) <=? i then mret (Err InvalidDevice, hw)
  else
    match m.(mi_pba_virtual_addr) with
    | None => mret (Err MsiXSetupFailed, hw)
    | Some pba_addr =>
        '(bits, hw) ← read_qword pba_addr (i / 64) hw;
        b ← bit_set bits (i mod 64);
        mret (Ok b, hw)
    end.

Definition get_pending_count (m : MsiXInfo) (hw : HW) : exec (result Z PciError * HW) :=
  match m.(mi_pba_virtual_addr) with
  | None => mret (Err MsiXSetupFailed, hw)
  | Some pba_addr =>
      let num_vectors := m.(mi_table_size) in
      let num_qwords := div_ceil num_vectors 64 in
      '(count, hw) ← range_fold (count_step num_vectors pba_addr) 0 num_qwords (0, hw);
      mret (Ok count, hw)
  end.

Definition has_pending_interrupts (m : MsiXInfo) (hw : HW) : exec (result bool PciError * HW) :=
  '(r, hw) ← get_pending_count m hw;
  match r with
  | Err e => mret (Err e, hw)
  | Ok count => mret (Ok (0 <? count), hw)
  end.

Definition setup_msix (dev : PciDevice) (num_vectors base_vector : Z) (vmm : PcieVmm) (g : globals PT FA) (hw : HW)
    : exec (result MsiXInfo PciError * PcieVmm * globals PT FA * HW) :=
  match find_capability dev MSI_X with
  | None => mret (Err MsiXSetupFailed, vmm, g, hw)
  | Some cap =>
      '(m, hw) ← MsiXInfo_from_device dev cap hw;
      '(r, vmm, g) ← map_structures m vmm g;
      match r with
      | Err e => mret (Err e, vmm, g, hw)
      | Ok m =>
          hw ← zero_pba m hw;
          '(r, hw) ← allocate_vectors num_vectors base_vector m hw;
          match r with
          | Err e => mret (Err e, vmm, g, hw)
          | Ok m =>
              hw ← MsiXInfo_enable m hw;
              mret (Ok m, vmm, g, hw)
          end
      end
  end.

End Msix.

(** ** Pending interrupts *)

Section Pending.
Context {HW : Type} `{Mmio HW} (m : MsiXInfo) (n pba : Z).
Context (Hn : m.(mi_table_size) = n) (Hrange : 1 ≤ n ≤ 2048).
Context (Hpba : m.(mi_pba_virtual_addr) = Some pba) (Hend : pba + 8 * div_ceil n 64 ≤ 2 ^ 64).
Context `{!MmioMemory 8 pba (pba + 8 * div_ceil n 64)}.

Definition qword (hw : HW) (q : Z) : Z := fst (mmio_read 8 (pba + 8 * q) hw).
Definition pendingb (hw : HW) (i : Z) : bool := Z.testbit (qword hw (i / 64)) (i mod 64).

Lemma div_ceil_64 k : 64 * (div_ceil k 64 - 1) < k ≤ 64 * div_ceil k 64.
Proof.
  unfold div_ceil. pose proof (Z.div_mod (k + 64 - 1) 64 ltac:(lia)).
  pose proof (Z.mod_pos_bound (k + 64 - 1) 64 ltac:(lia)). lia.
Qed.

Lemma read_qword_ok hw q : 0 ≤ q < div_ceil n 64 → read_qword pba q hw = Ret (qword hw q, hw).
Proof.
  intros Hq. pose proof (div_ceil_64 n). unfold read_qword. run. run.
  unfold mret, exec_ret, qword. replace (q * 8) with (8 * q) by lia.
  pose proof (mem_read_pure (n := 8) (lo := pba) (hi := pba + 8 * div_ceil n 64) (pba + 8 * q) hw ltac:(lia) ltac:(lia)).
  by destruct (mmio_read _ _ _); simplify_eq/=.
Qed.
Lemma bit_set_ok bits i : 0 ≤ i < 64 → bit_set bits i = Ret (Z.testbit bits i).
Proof.
  intros Hi. unfold bit_set. assert (2 ^ i < 2 ^ 64) by (apply Z.pow_lt_mono_r; lia).
  rewrite shl_chk_ok by lia. cbn [mbind exec_bind]. rewrite Z.mul_1_l, land_bit by lia. done.
Qed.

Lemma qword_position q b : 0 ≤ b < 64 → (64 * q + b) / 64 = q ∧ (64 * q + b) mod 64 = b.
Proof.
  intros Hb. replace (64 * q + b) with (b + q * 64) by lia. rewrite Z.div_add, Z.mod_add by lia.
  rewrite Z.div_small, Z.mod_small by lia. lia.
Qed.

Lemma is_vector_pending_ok hw i : 0 ≤ i < n → is_vector_pending m i hw = Ret (Ok (pendingb hw i), hw).
Proof.
  intros Hi. unfold is_vector_pending. rewrite Hn, Hpba, (proj2 (Z.leb_gt _ _)) by lia.
  pose proof (Z.div_mod i 64 ltac:(lia)). pose proof (Z.mod_pos_bound i 64 ltac:(lia)). pose proof (div_ceil_64 n).
  rewrite read_qword_ok by lia. cbn [mbind exec_bind]. by rewrite bit_set_ok by lia.
Qed.

(** The vectors of a range that are pending. *)
Definition pending_range (hw : HW) (a k : Z) : list Z := filter (λ i, pendingb hw i = true) (seqZ a k).

Lemma pending_range_app hw a k l : 0 ≤ k → 0 ≤ l →
  pending_range hw a (k + l) = pending_range hw a k ++ pending_range hw (a + k) l.
Proof. intros Hk Hl. unfold pending_range. by rewrite seqZ_app, filter_app by lia. Qed.

Lemma pending_in_qword_ok hw q k b pending :
  0 ≤ q < div_ceil n 64 → 0 ≤ b → 0 ≤ k → b + k = 64 →
  pending_in_qword n q (qword hw q) (seqZ b k) pending =
    Ret (pending ++ pending_range hw (64 * q + b) (Z.min k (n - 64 * q - b))).
Proof.
  intros Hq Hb Hk. pose proof (div_ceil_64 n). revert b pending Hb. pattern k. apply natlike_ind; [| |done]; clear k Hk.
  { intros b pending Hb Hk. change (seqZ b 0) with (@nil Z). cbn [pending_in_qword]. unfold pending_range, seqZ.
    replace (Z.to_nat (0 `min` (n - 64 * q - b))) with 0%nat by lia. by rewrite app_nil_r. }
  intros k Hk0 IH b pending Hb Hk. rewrite seqZ_cons, Z.pred_succ by lia.
  cbn [pending_in_qword]. run. run. replace (q * 64 + b) with (64 * q + b) by lia.
  destruct (Z.leb_spec n (64 * q + b)).
  { unfold pending_range, seqZ. replace (Z.to_nat (Z.succ k `min` (n - 64 * q - b))) with 0%nat by lia.
    by rewrite app_nil_r. }
  rewrite bit_set_ok by lia. cbn [mbind exec_bind].
  assert (pending_range hw (64 * q + b) (Z.succ k `min` (n - 64 * q - b)) =
    (if Z.testbit (qword hw q) b then [64 * q + b] else []) ++
    pending_range hw (64 * q + Z.succ b) (k `min` (n - 64 * q - Z.succ b))) as ->.
  { replace (Z.succ k `min` (n - 64 * q - b)) with (1 + k `min` (n - 64 * q - Z.succ b)) by lia.
    rewrite pending_range_app by lia. f_equal; [|f_equal; lia]. unfold pending_range.
    rewrite seqZ_cons by lia. change (seqZ (Z.succ (64 * q + b)) (Z.pred 1)) with (@nil Z).
    destruct (qword_position q b) as [Hd Hm]; [lia|].
    assert (pendingb hw (64 * q + b) = Z.testbit (qword hw q) b) as Hp by (unfold pendingb; by rewrite Hd, Hm).
    destruct (Z.testbit (qword hw q) b); [by rewrite filter_cons_True|]. rewrite filter_cons_False; [done|]. by rewrite Hp. }
  destruct (Z.testbit (qword hw q) b); rewrite IH by lia; [|done]. by rewrite <- (assoc_L (++)).
Qed.

Lemma read_pending_vectors_ok hw : read_pending_vectors m hw = Ret (Ok (pending_range hw 0 n), hw).
Proof.
  unfold read_pending_vectors. rewrite Hpba, Hn. pose proof (div_ceil_64 n).
  destruct (range_fold_ok (pending_step n pba)
    (λ q s, s = (pending_range hw 0 (Z.min (64 * q) n), hw)) 0 (div_ceil n 64) ([], hw)) as (s & -> & ->); [lia| | |].
  - by rewrite Z.mul_0_r, Z.min_l by lia.
  - intros q s Hq ->. unfold pending_step. rewrite read_qword_ok by lia. cbv beta iota delta [mbind exec_bind].
    rewrite (pending_in_qword_ok hw q 64 0) by lia. cbv beta iota delta [mbind exec_bind]. eexists. split; [reflexivity|]. f_equal.
    rewrite Z.add_0_r, Z.sub_0_r.
    replace ((64 * (q + 1)) `min` n) with (64 * q + 64 `min` (n - 64 * q)) by lia.
    rewrite pending_range_app by lia. rewrite Z.min_l by lia. done.
  - cbv beta iota delta [mbind exec_bind]. by rewrite Z.min_r by lia.
Qed.

(** The bits a mask keeps. *)
Lemma count_masked bits k : 0 ≤ k ≤ 64 →
  count_ones 64 (Z.land bits (2 ^ k - 1)) = Z.of_nat (length (filter (λ i, Z.testbit bits i = true) (seqZ 0 k))).
Proof.
  intros Hk. unfold count_ones. f_equal. replace 64 with (k + (64 - k)) by lia. rewrite seqZ_app, filter_app, length_app by lia.
  assert (∀ i, 0 ≤ i → Z.testbit (Z.land bits (2 ^ k - 1)) i = Z.testbit bits i && (i <? k)) as Hbit.
  { intros i Hi. rewrite Z.land_spec. f_equal. replace (2 ^ k - 1) with (Z.ones k) by (rewrite Z.ones_equiv; lia).
    by rewrite Z.testbit_ones_nonneg by lia. }
  assert (filter (λ i, Z.testbit (Z.land bits (2 ^ k - 1)) i = true) (seqZ (0 + k) (64 - k)) = []) as ->.
  { apply elem_of_nil_inv. intros i [Hi Hr%elem_of_seqZ]%list_elem_of_filter.
    rewrite Hbit, (proj2 (Z.ltb_ge _ _)), andb_false_r in Hi by lia. done. }
  rewrite Nat.add_0_r. rewrite <- (list_fmap_id (seqZ 0 k)) at 1. apply length_filter_fmap.
  intros i Hi%elem_of_seqZ. unfold id. rewrite Hbit, (proj2 (Z.ltb_lt _ _)), andb_true_r by lia. done.
Qed.

Lemma count_qword hw q : 0 ≤ q < div_ceil n 64 →
  Z.of_nat (length (filter (λ i, Z.testbit (qword hw q) i = true) (seqZ 0 (Z.min 64 (n - 64 * q))))) =
  Z.of_nat (length (pending_range hw (64 * q) (Z.min 64 (n - 64 * q)))).
Proof.
  intros Hq. f_equal. unfold pending_range. symmetry.
  rewrite <- (Z.add_0_r (64 * q)) at 1. rewrite <- (fmap_add_seqZ (64 * q) 0). apply length_filter_fmap.
  intros i Hi%elem_of_seqZ. destruct (qword_position q i) as [Hd Hm]; [lia|]. unfold pendingb. by rewrite Hd, Hm.
Qed.

(** The mask [get_pending_count] uses for a word with [k] vectors. *)
Lemma qword_mask k : 1 ≤ k ≤ 64 →
  (if k =? 64 then mret (2 ^ 64 - 1) else bit ← shl_chk 64 1 k; sub_chk bit 1) = Ret (2 ^ k - 1).
Proof.
  intros Hk. destruct (Z.eqb_spec k 64) as [->|]; [done|]. assert (2 ^ k < 2 ^ 64) by (apply Z.pow_lt_mono_r; lia).
  rewrite shl_chk_ok by lia. cbn [mbind exec_bind]. rewrite Z.mul_1_l. apply sub_chk_ok. lia.
Qed.

Lemma get_pending_count_ok hw :
  get_pending_count m hw = Ret (Ok (Z.of_nat (length (pending_range hw 0 n))), hw).
Proof.
  unfold get_pending_count. rewrite Hpba, Hn. pose proof (div_ceil_64 n).
  destruct (range_fold_ok (count_step n pba)
    (λ q s, s = (Z.of_nat (length (pending_range hw 0 (Z.min (64 * q) n))), hw)) 0 (div_ceil n 64) (0, hw))
    as (s & -> & ->); [lia| | |].
  - by rewrite Z.mul_0_r, Z.min_l by lia.
  - intros q s Hq ->. unfold count_step. rewrite read_qword_ok by lia. cbn [mbind exec_bind]. run. run.
    replace (q * 64) with (64 * q) by lia. cbv zeta. rewrite qword_mask by lia. cbn [mbind exec_bind].
    rewrite count_masked, count_qword by lia.
    assert (Z.of_nat (length (pending_range hw 0 ((64 * q) `min` n))) +
      Z.of_nat (length (pending_range hw (64 * q) (64 `min` (n - 64 * q)))) =
      Z.of_nat (length (pending_range hw 0 ((64 * (q + 1)) `min` n)))) as Hsum.
    { replace ((64 * (q + 1)) `min` n) with (64 * q + 64 `min` (n - 64 * q)) by lia.
      rewrite pending_range_app, length_app by lia. rewrite Z.min_l by lia. rewrite Z.add_0_l. lia. }
    pose proof (length_filter (λ i, pendingb hw i = true) (seqZ 0 ((64 * (q + 1)) `min` n))) as Hlen.
    rewrite length_seqZ in Hlen. fold (pending_range hw 0 ((64 * (q + 1)) `min` n)) in Hlen.
    rewrite add_chk_ok by lia. cbn [mbind exec_bind]. rewrite Hsum. eauto.
  - cbn [mbind exec_bind]. by rewrite Z.min_r by lia.
Qed.

(** C36: the ways to ask for pending interrupts agree.  [read_pending_vectors]
    returns, in increasing order, exactly the vectors that [is_vector_pending]
    reports; [get_pending_count] is their number and [has_pending_interrupts]
    says whether there is one; none of them changes the device. *)
Theorem pending_agree hw :
  ∃ l, read_pending_vectors m hw = Ret (Ok l, hw) ∧
    (∀ i, 0 ≤ i < n → ∃ b, is_vector_pending m i hw = Ret (Ok b, hw) ∧ (b = true ↔ i ∈ l)) ∧
    l `sublist_of` seqZ 0 n ∧
    get_pending_count m hw = Ret (Ok (Z.of_nat (length l)), hw) ∧
    has_pending_interrupts m hw = Ret (Ok (0 <? Z.of_nat (length l)), hw).
Proof.
  exists (pending_range hw 0 n). split; [apply read_pending_vectors_ok|]. split.
  { intros i Hi. exists (pendingb hw i). split; [by apply is_vector_pending_ok|].
    unfold pending_range. rewrite list_elem_of_filter, elem_of_seqZ. split; [|naive_solver]. intros Hp. split; [done|lia]. }
  split; [apply sublist_filter|]. split; [apply get_pending_count_ok|].
  unfold has_pending_interrupts. by rewrite get_pending_count_ok.
Qed.

End Pending.

(** ** The vector table *)

(** An entry whose fields are 32-bit integers survives the way to memory and back. *)
Definition entry_wf (e : MsiXTableEntry) : Prop :=
  0 ≤ e.(message_address_low) < 2 ^ 32 ∧ 0 ≤ e.(message_address_high) < 2 ^ 32 ∧
  0 ≤ e.(message_data) < 2 ^ 32 ∧ 0 ≤ e.(vector_control) < 2 ^ 32.

Lemma entry_bits_range e : entry_wf e → 0 ≤ entry_bits e < 2 ^ (8 * 16).
Proof. unfold entry_wf, entry_bits. change (2 ^ (8 * 16)) with (2 ^ 128). lia. Qed.
Lemma entry_bits_of e : entry_wf e → entry_of (entry_bits e) = e.
Proof.
  destruct e as [a b c d]. unfold entry_wf, entry_bits, entry_of. cbn [message_address_low message_address_high message_data vector_control].
  intros (Ha & Hb & Hc & Hd). f_equal.
  - replace (a + 2 ^ 32 * b + 2 ^ 64 * c + 2 ^ 96 * d) with (a + (b + 2 ^ 32 * c + 2 ^ 64 * d) * 2 ^ 32) by lia.
    rewrite Z.mod_add by lia. by apply Z.mod_small.
  - replace (a + 2 ^ 32 * b + 2 ^ 64 * c + 2 ^ 96 * d) with (a + (b + (c + 2 ^ 32 * d) * 2 ^ 32) * 2 ^ 32) by lia.
    rewrite Z.div_add, Z.div_small, Z.add_0_l, Z.mod_add by lia. by apply Z.mod_small.
  - replace (a + 2 ^ 32 * b + 2 ^ 64 * c + 2 ^ 96 * d) with ((a + 2 ^ 32 * b) + (c + d * 2 ^ 32) * 2 ^ 64) by lia.
    rewrite Z.div_add, Z.div_small, Z.add_0_l, Z.mod_add by lia. by apply Z.mod_small.
  - replace (a + 2 ^ 32 * b + 2 ^ 64 * c + 2 ^ 96 * d) with ((a + 2 ^ 32 * b + 2 ^ 64 * c) + d * 2 ^ 96) by lia.
    rewrite Z.div_add, Z.div_small, Z.add_0_l by lia. by apply Z.mod_small.
Qed.

Section Table.
Context {HW : Type} `{Mmio HW} (table n : Z) (Hn : 1 ≤ n ≤ 2048) (Hend : table + 16 * n ≤ 2 ^ 64).
Context `{!MmioMemory 16 table (table + 16 * n)}.

Definition entry (hw : HW) (i : Z) : MsiXTableEntry := entry_of (fst (mmio_read 16 (table + 16 * i) hw)).

(** The entry of a vector: its message goes to core 0, and it is masked unless
    the vector is enabled. *)
Definition entry_for (v : MsiXVector) : MsiXTableEntry :=
  mkMsiXTableEntry 0xFEE00000 0 v.(v_vector) (if v.(v_enabled) then 0 else 1).

Definition in_sync (vectors : list MsiXVector) (hw : HW) : Prop :=
  Forall (λ v, 0 ≤ v.(v_index) < n ∧ 0 ≤ v.(v_vector) < 256 ∧ entry hw v.(v_index) = entry_for v) vectors ∧
  NoDup (v_index <$> vectors).

Lemma entry_for_wf v : 0 ≤ v.(v_vector) < 256 → entry_wf (entry_for v).
Proof. intros Hv. unfold entry_wf, entry_for. cbn. destruct (v_enabled v); lia. Qed.

Lemma entry_address_ok i : 0 ≤ i < n → entry_address table i = Ret (table + 16 * i).
Proof. intros Hi. unfold entry_address. run. rewrite add_chk_ok by lia. f_equal. lia. Qed.

(** Writing an entry changes that entry only. *)
Lemma entry_write hw i j e : 0 ≤ i < n → 0 ≤ j < n → entry_wf e →
  entry (mmio_write 16 (table + 16 * i) (entry_bits e) hw) j = if decide (j = i) then e else entry hw j.
Proof.
  intros Hi Hj He. unfold entry. case_decide as Hji.
  - subst j. rewrite (mem_read_same (lo := table) (hi := table + 16 * n)) by (lia || by apply entry_bits_range). by apply entry_bits_of.
  - by rewrite (mem_read_other (lo := table) (hi := table + 16 * n)) by lia.
Qed.
Lemma update_entry_ok f hw i : 0 ≤ i < n →
  update_entry f (table + 16 * i) hw = mmio_write 16 (table + 16 * i) (entry_bits (f (entry hw i))) hw.
Proof.
  intros Hi. unfold update_entry, entry.
  pose proof (mem_read_pure (n := 16) (lo := table) (hi := table + 16 * n) (table + 16 * i) hw ltac:(lia) ltac:(lia)).
  by destruct (mmio_read _ _ _); simplify_eq/=.
Qed.

(** Masking and unmasking keep the message. *)
Lemma switch_entry (b : bool) v : (if b then unmask else mask) (entry_for v) = entry_for (set_enabled b v).
Proof. by destruct v as [i w []], b. Qed.
Lemma switch_entry_ok (b : bool) v hw j :
  0 ≤ v.(v_index) < n → 0 ≤ v.(v_vector) < 256 → entry hw v.(v_index) = entry_for v → 0 ≤ j < n →
  entry (update_entry (if b then unmask else mask) (table + 16 * v.(v_index)) hw) j =
    if decide (j = v.(v_index)) then entry_for (set_enabled b v) else entry hw j.
Proof.
  intros Hi Hv He Hj. rewrite update_entry_ok, He, switch_entry by done. apply entry_write; [done..|].
  by apply entry_for_wf.
Qed.

(** *** Allocation *)

Definition fresh_vectors (base num : Z) : list MsiXVector := (λ i, mkMsiXVector i (base + i) false) <$> seqZ 0 num.

Lemma new_vectors_ok num base : 0 ≤ num → 0 ≤ base → base + num ≤ 256 →
  new_vectors num base = Ret (fresh_vectors base num).
Proof.
  intros Hnum Hb Hsum. unfold new_vectors.
  edestruct (range_fold_ok (λ i vectors, vector ← add_chk 8 base (i mod 2 ^ 8);
    mret (vectors ++ [mkMsiXVector i vector false])) (λ i vs, vs = fresh_vectors base i) 0 num)
    as (vs & -> & ->); [done|done| |done].
  intros i vs Hi ->. rewrite Z.mod_small by lia. run. eexists. split; [done|]. unfold fresh_vectors.
  rewrite (seqZ_app 0 i 1), fmap_app by lia. by rewrite Z.add_0_l.
Qed.

Lemma fresh_entry i w : mask (set_data (calculate_msi_data w) (set_address (calculate_msi_address 0) MsiXTableEntry_new)) =
  entry_for (mkMsiXVector i w false).
Proof. reflexivity. Qed.

Lemma write_entries_ok vectors hw :
  Forall (λ v, 0 ≤ v.(v_index) < n ∧ 0 ≤ v.(v_vector) < 256 ∧ v.(v_enabled) = false) vectors →
  NoDup (v_index <$> vectors) →
  ∃ hw', write_entries table vectors hw = Ret hw' ∧ in_sync vectors hw' ∧
    ∀ j, 0 ≤ j < n → j ∉ v_index <$> vectors → entry hw' j = entry hw j.
Proof.
  intros Hv. revert hw. induction Hv as [|v vectors (Hi & Hw & He) Hv IH]; intros hw Hnd; cbn [write_entries].
  { exists hw. split; [done|]. split; [split; constructor|done]. }
  rewrite fmap_cons in Hnd. apply NoDup_cons in Hnd as [Hnin Hnd]. rewrite entry_address_ok by done. cbn [mbind exec_bind].
  rewrite (fresh_entry v.(v_index)). set (e := entry_for _).
  assert (entry_wf e) as Hwf by (by apply entry_for_wf).
  destruct (IH (mmio_write 16 (table + 16 * v_index v) (entry_bits e) hw)) as (hw' & -> & [Hs _] & Hother); [done|].
  exists hw'. split; [done|]. split.
  - split; [|by rewrite fmap_cons; constructor]. constructor; [|done]. split; [done|]. split; [done|].
    rewrite Hother by done. rewrite entry_write, decide_True by done. unfold e. destruct v; simpl in *. by subst.
  - intros j Hj Hout. rewrite fmap_cons in Hout. rewrite Hother by set_solver. rewrite entry_write by done.
    by rewrite decide_False by set_solver.
Qed.

(** *** Switching vectors *)

(** The record of a vector and its entry change together. *)
Lemma update_vector_sync (b : bool) i vectors hw : in_sync vectors hw →
  match update_vector i b vectors with
  | None => i ∉ v_index <$> vectors
  | Some vectors' =>
      0 ≤ i < n ∧ in_sync vectors' (update_entry (if b then unmask else mask) (table + 16 * i) hw) ∧
      v_index <$> vectors' = v_index <$> vectors ∧ v_vector <$> vectors' = v_vector <$> vectors ∧
      i ∈ v_index <$> vectors
  end.
Proof.
  intros [Hs Hnd]. revert Hnd. induction Hs as [|v vectors (Hi & Hw & He) Hs IH]; intros Hnd; cbn [update_vector].
  { apply not_elem_of_nil. }
  rewrite fmap_cons in Hnd. apply NoDup_cons in Hnd as [Hnin Hnd]. specialize (IH Hnd).
  destruct (Z.eqb_spec v.(v_index) i) as [Hvi|Hne].
  - subst i. split; [done|]. split.
    + split; [|by constructor].
      constructor; [cbn; split; [done|]; split; [done|]; by rewrite switch_entry_ok, decide_True|].
      rewrite Forall_forall in Hs |- *. intros v' Hv'. destruct (Hs v' Hv') as (Hi' & Hw' & He'). split; [done|]. split; [done|].
      rewrite switch_entry_ok, decide_False by (done || intros Heq; apply Hnin; rewrite <- Heq; by apply list_elem_of_fmap_2).
      done.
    + split; [done|]. split; [done|]. by left.
  - destruct (update_vector i b vectors) as [vectors'|]; cbn [fmap option_fmap option_map].
    + destruct IH as (Hr & [Hs' Hnd'] & Hidx & Hvec & Hin). split; [done|]. split.
      * split; [|rewrite fmap_cons, Hidx; by constructor]. constructor; [|done]. split; [done|]. split; [done|].
        rewrite update_entry_ok by done. unfold entry at 1.
        rewrite (mem_read_other (lo := table) (hi := table + 16 * n)) by lia. done.
      * rewrite !fmap_cons, Hidx, Hvec. split; [done|]. split; [done|]. by right.
    + rewrite fmap_cons. set_solver.
Qed.

(** Switching all vectors switches their entries and no other. *)
Lemma switch_all_sync (b : bool) vectors hw : in_sync vectors hw →
  ∃ hw', switch_all b table vectors hw = Ret (set_enabled b <$> vectors, hw') ∧
    in_sync (set_enabled b <$> vectors) hw' ∧
    ∀ j, 0 ≤ j < n → j ∉ v_index <$> vectors → entry hw' j = entry hw j.
Proof.
  intros [Hs Hnd]. revert hw Hs Hnd. induction vectors as [|v vectors IH]; intros hw Hs Hnd; cbn [switch_all].
  { exists hw. split; [done|]. split; [split; constructor|done]. }
  rewrite fmap_cons in Hnd. apply NoDup_cons in Hnd as [Hnin Hnd]. apply Forall_cons in Hs as [(Hi & Hw & He) Hs].
  rewrite entry_address_ok by done. cbn [mbind exec_bind].
  set (hw1 := update_entry (if b then unmask else mask) (table + 16 * v_index v) hw).
  assert (∀ j, 0 ≤ j < n → entry hw1 j = if decide (j = v_index v) then entry_for (set_enabled b v) else entry hw j) as Hsw
    by (intros; by apply switch_entry_ok).
  destruct (IH hw1) as (hw' & -> & [Hs' Hnd'] & Hother).
  { rewrite Forall_forall in Hs |- *. intros v' Hv'. destruct (Hs v' Hv') as (Hi' & Hw' & He'). split; [done|]. split; [done|].
    rewrite Hsw, decide_False; [done| |done]. intros Heq. apply Hnin. rewrite <- Heq. by apply list_elem_of_fmap_2. }
  { done. }
  exists hw'. split; [done|]. split.
  - split; [|rewrite !fmap_cons, <- list_fmap_compose in *; by constructor].
    constructor; [|done]. cbn. split; [done|]. split; [done|]. by rewrite Hother, Hsw, decide_True.
  - intros j Hj Hout. rewrite fmap_cons in Hout. apply not_elem_of_cons in Hout as [Hne Hout].
    by rewrite Hother, Hsw, decide_False.
Qed.

(** *** Operation *)

Inductive msix_step : MsiXInfo * HW → MsiXInfo * HW → Prop :=
  | msix_enable i r m hw m' hw' : enable_vector i m hw = Ret (r, m', hw') → msix_step (m, hw) (m', hw')
  | msix_disable i r m hw m' hw' : disable_vector i m hw = Ret (r, m', hw') → msix_step (m, hw) (m', hw')
  | msix_mask_all r m hw m' hw' : mask_all_vectors m hw = Ret (r, m', hw') → msix_step (m, hw) (m', hw')
  | msix_unmask_all r m hw m' hw' : unmask_all_vectors m hw = Ret (r, m', hw') → msix_step (m, hw) (m', hw').

(** The state after allocating [num] vectors from [base] on. *)
Definition msix_inv (base num : Z) (hw0 : HW) (s : MsiXInfo * HW) : Prop :=
  let '(m, hw) := s in
  m.(mi_table_virtual_addr) = Some table ∧ in_sync m.(mi_vectors) hw ∧
  v_index <$> m.(mi_vectors) = seqZ 0 num ∧ v_vector <$> m.(mi_vectors) = seqZ base num ∧
  ∀ j, num ≤ j < n → entry hw j = entry hw0 j.

Lemma switch_vector_inv (b : bool) base num hw0 i m hw : 0 ≤ num ≤ n → msix_inv base num hw0 (m, hw) →
  ∃ m' hw', switch_vector b i m hw =
    Ret (if bool_decide (0 ≤ i < num) then Ok () else Err InvalidDevice, m', hw') ∧ msix_inv base num hw0 (m', hw').
Proof.
  intros Hnum (Ht & Hs & Hidx & Hvec & Hrest). unfold switch_vector.
  pose proof (update_vector_sync b i _ hw Hs) as Hu. destruct (update_vector i b m.(mi_vectors)) as [vectors'|].
  - destruct Hu as (Hi & Hs' & Hidx' & Hvec' & Hin). cbn [mi_table_virtual_addr set_vectors]. rewrite Ht, entry_address_ok by done.
    cbn [mbind exec_bind].
    rewrite Hidx, elem_of_seqZ in Hin.
    rewrite bool_decide_eq_true_2 by lia. eexists _, _. split; [done|]. split; [done|]. split; [done|].
    split; [cbn; congruence|]. split; [cbn; congruence|]. intros j Hj. rewrite <- Hrest by done.
    rewrite update_entry_ok by done. unfold entry at 1. rewrite (mem_read_other (lo := table) (hi := table + 16 * n)) by lia. done.
  - rewrite Hidx, elem_of_seqZ in Hu. rewrite bool_decide_eq_false_2 by lia. eexists _, _. split; [done|]. done.
Qed.

Lemma switch_all_inv (b : bool) base num hw0 m hw : 0 ≤ num ≤ n → msix_inv base num hw0 (m, hw) →
  ∃ m' hw', switch_all_vectors b m hw = Ret (Ok (), m', hw') ∧ msix_inv base num hw0 (m', hw').
Proof.
  intros Hnum (Ht & Hs & Hidx & Hvec & Hrest). unfold switch_all_vectors. rewrite Ht.
  destruct (switch_all_sync b _ hw Hs) as (hw' & -> & Hs' & Hother). cbn [mbind exec_bind].
  eexists _, _. split; [done|]. split; [done|]. split; [done|]. cbn [mi_vectors set_vectors].
  rewrite <- !list_fmap_compose. split; [done|]. split; [done|]. intros j Hj. rewrite Hother, Hrest; [done|done|lia|].
  rewrite Hidx, elem_of_seqZ. lia.
Qed.

Lemma msix_inv_reachable base num hw0 s s' : 0 ≤ num ≤ n →
  rtc msix_step s s' → msix_inv base num hw0 s → msix_inv base num hw0 s'.
Proof.
  intros Hnum. induction 1 as [s|s1 s2 s3 Hstep _ IH]; [done|]. intros Hinv. apply IH. clear IH.
  destruct Hstep as [i r m hw m' hw' Hrun|i r m hw m' hw' Hrun|r m hw m' hw' Hrun|r m hw m' hw' Hrun].
  - destruct (switch_vector_inv true base num hw0 i m hw Hnum Hinv) as (? & ? & Hrun' & ?). unfold enable_vector in Hrun. congruence.
  - destruct (switch_vector_inv false base num hw0 i m hw Hnum Hinv) as (? & ? & Hrun' & ?). unfold disable_vector in Hrun. congruence.
  - destruct (switch_all_inv false base num hw0 m hw Hnum Hinv) as (? & ? & Hrun' & ?). unfold mask_all_vectors in Hrun. congruence.
  - destruct (switch_all_inv true base num hw0 m hw Hnum Hinv) as (? & ? & Hrun' & ?). unfold unmask_all_vectors in Hrun. congruence.
Qed.

Lemma allocate_vectors_inv base num m hw :
  m.(mi_table_size) = n → m.(mi_table_virtual_addr) = Some table → 0 ≤ num ≤ n → 0 ≤ base → base + num ≤ 256 →
  ∃ m' hw', allocate_vectors num base m hw = Ret (Ok m', hw') ∧ msix_inv base num hw (m', hw').
Proof.
  intros Hsz Ht Hnum Hb Hsum. unfold allocate_vectors. rewrite Hsz, (proj2 (Z.ltb_ge _ _)), new_vectors_ok by lia.
  cbn [mbind exec_bind]. rewrite Ht.
  assert (v_index <$> fresh_vectors base num = seqZ 0 num) as Hidx.
  { unfold fresh_vectors. rewrite <- list_fmap_compose. apply list_fmap_id. }
  destruct (write_entries_ok (fresh_vectors base num) hw) as (hw' & -> & Hs & Hother).
  { apply Forall_forall. intros v (i & -> & Hi%elem_of_seqZ)%list_elem_of_fmap. cbn. split_and!; lia || done. }
  { rewrite Hidx. apply NoDup_seqZ. }
  cbn [mbind exec_bind]. eexists _, _. split; [done|]. split; [done|]. split; [done|]. split; [done|]. split.
  - cbn [mi_vectors set_vectors]. unfold fresh_vectors. rewrite <- list_fmap_compose.
    replace (seqZ base num) with (seqZ (base + 0) num) by (f_equal; lia). by rewrite <- (fmap_add_seqZ base 0).
  - intros j Hj. apply Hother; [lia|]. rewrite Hidx, elem_of_seqZ. lia.
Qed.

(** C22: the vector table follows the kernel's records.  Allocating [num] vectors
    from [base] on succeeds whenever they fit; from then on, after any sequence
    of enabling, disabling and (un)masking all, entry [i] of the table in the
    device sends interrupt [base + i] to core 0 and is unmasked exactly when the
    kernel has the vector enabled, entries that were not allocated are as they
    were, and enabling a vector fails exactly when it is not allocated. *)
Theorem msix_in_sync base num m0 hw0 :
  m0.(mi_table_size) = n → m0.(mi_table_virtual_addr) = Some table → 0 ≤ num ≤ n → 0 ≤ base → base + num ≤ 256 →
  ∃ m1 hw1, allocate_vectors num base m0 hw0 = Ret (Ok m1, hw1) ∧
  ∀ m hw, rtc msix_step (m1, hw1) (m, hw) →
    (∀ v, v ∈ m.(mi_vectors) → entry hw v.(v_index) =
      mkMsiXTableEntry 0xFEE00000 0 (base + v.(v_index)) (if v.(v_enabled) then 0 else 1)) ∧
    v_index <$> m.(mi_vectors) = seqZ 0 num ∧
    (∀ j, num ≤ j < n → entry hw j = entry hw0 j) ∧
    (∀ i, ∃ m' hw', enable_vector i m hw =
      Ret (if bool_decide (0 ≤ i < num) then Ok () else Err InvalidDevice, m', hw')).
Proof.
  intros Hsz Ht Hnum Hb Hsum. destruct (allocate_vectors_inv base num m0 hw0) as (m1 & hw1 & Hrun & Hinv); try done.
  exists m1, hw1. split; [done|]. intros m hw Hsteps.
  pose proof (msix_inv_reachable base num hw0 _ _ Hnum Hsteps Hinv) as Hinv'. pose proof Hinv' as (_ & [Hs _] & Hidx & Hvec & Hrest).
  split_and!; [|done|done|].
  - intros v [k Hk]%list_elem_of_lookup. rewrite Forall_lookup in Hs. destruct (Hs k v Hk) as (_ & _ & ->).
    unfold entry_for. f_equal. apply (f_equal (λ l, l !! k)) in Hidx, Hvec. rewrite list_lookup_fmap, Hk in Hidx, Hvec.
    cbn in Hidx, Hvec. symmetry in Hidx, Hvec. apply lookup_seqZ in Hidx as [-> _], Hvec as [-> _]. lia.
  - intros i. destruct (switch_vector_inv true base num hw0 i m hw Hnum Hinv') as (m' & hw' & Hrun' & _). eauto.
Qed.

End Table.

(** ** Examples *)

Section Examples.
#[local] Existing Instance cell_mmio.

Definition sample_msix (table pba : Z) : MsiXInfo :=
  mkMsiXInfo (mkPciDevice (sample_region 0) 2 3 0 0x1B36 0x10 1 8 2 0 Normal 0 0 [] ∅ 0 0)
    0x40 66 0 0 0 0x800 (Some table) (Some pba) [] [].

(** A device with 66 vectors of which 1 and 65 are pending; bits past the table
    are ignored. *)
Lemma pending_agree_witness : ∃ l,
  read_pending_vectors (sample_msix 0x1000 0x1800) (<[0x1800 := 2]> (<[0x1808 := 0xFE]> ∅)) =
    Ret (Ok l, <[0x1800 := 2]> (<[0x1808 := 0xFE]> ∅)) ∧ l = [1; 65] ∧
  get_pending_count (sample_msix 0x1000 0x1800) (<[0x1800 := 2]> (<[0x1808 := 0xFE]> ∅)) =
    Ret (Ok 2, <[0x1800 := 2]> (<[0x1808 := 0xFE]> ∅)).
Proof.
  set (hw := <[0x1800 := 2]> (<[0x1808 := 0xFE]> ∅) : gmap Z Z).
  assert (MmioMemory 8 0x1800 (0x1800 + 8 * div_ceil 66 64)) as Hmem by (by apply cell_memory).
  destruct (pending_agree (sample_msix 0x1000 0x1800) 66 0x1800 eq_refl ltac:(lia) eq_refl ltac:(done) hw)
    as (l & Hread & _ & _ & Hcount & _).
  assert (read_pending_vectors (sample_msix 0x1000 0x1800) hw = Ret (Ok [1; 65], hw)) as Hrun by (by vm_compute).
  rewrite Hrun in Hread. injection Hread as <-. exists [1; 65]. split; [done|]. split; [done|exact Hcount].
Defined.

Lemma msix_in_sync_witness : ∃ m (hw : gmap Z Z),
  allocate_vectors 2 0x30 (sample_msix 0x1000 0x1800) ∅ = Ret (Ok m, hw) ∧
  ∃ m' hw', enable_vector 1 m hw = Ret (Ok (), m', hw') ∧
    ∀ v, v ∈ m'.(mi_vectors) → entry 0x1000 hw' v.(v_index) =
      mkMsiXTableEntry 0xFEE00000 0 (0x30 + v.(v_index)) (if v.(v_enabled) then 0 else 1).
Proof.
  assert (MmioMemory 16 0x1000 (0x1000 + 16 * 66)) as Hmem by (by apply cell_memory).
  destruct (msix_in_sync 0x1000 66 ltac:(lia) ltac:(lia) 0x30 2 (sample_msix 0x1000 0x1800) ∅)
    as (m & hw & Hrun & Hall); [done|done|lia|lia|lia|]. exists m, hw. split; [done|].
  destruct (Hall m hw) as (_ & _ & _ & Hen); [done|]. destruct (Hen 1) as (m' & hw' & Hrun'). exists m', hw'. split; [done|].
  destruct (Hall m' hw') as (Hent & _); [by eapply rtc_once, msix_enable|done].
Defined.

End Examples.
