(* ===== verification/Pci.v ===== *)
(** * Pci: device enumeration and the PCIe manager (pci.rs)

    [PciManager] finds the ECAM regions, maps them and probes every function of
    every bus.  The theorem says which functions the enumeration finds. *)

From S2P Require Import Prelude X86 FrameSource PciBase PcieVmm Ecam PciDevice Msix.

Record PciManager := mkPciManager {
  pm_devices : list PciDevice;
  pm_ecam_regions : list EcamRegion;
  pm_msix_devices : list MsiXInfo;
}.
Definition PciManager_new : PciManager := mkPciManager [] [] [].

Definition find_device (m : PciManager) (vendor_id device_id : Z) : option PciDevice :=
  find (λ dev, (dev.(dev_vendor_id) =? vendor_id) && (dev.(dev_device_id) =? device_id)) m.(pm_devices).
Definition get_devices_by_class (m : PciManager) (class_code : Z) : list PciDevice :=
  filter (λ dev, dev.(dev_class_code) = class_code) m.(pm_devices).
Definition find_msix_device (m : PciManager) (bus device function : Z) : option MsiXInfo :=
  find (λ msix, (msix.(mi_device).(dev_bus) =? bus) && (msix.(mi_device).(dev_device) =? device) &&
                (msix.(mi_device).(dev_function) =? function)) m.(pm_msix_devices).

(** The numbers of assigned and unassigned BARs that are logged. *)
Definition count_bar (counts : Z * Z) (bar : BarInfo) : exec (Z * Z) :=
  let '(assigned_count, unassigned_count) := counts in
  match bar with
  | Memory b =>
      if b.(mb_address) =? 0 then n ← add_chk 31 unassigned_count 1; mret (assigned_count, n)
      else if b.(mb_size) =? 0 then mret counts
      else n ← add_chk 31 assigned_count 1; mret (n, unassigned_count)
  | Io b =>
      if b.(io_address) =? 0 then n ← add_chk 31 unassigned_count 1; mret (assigned_count, n)
      else n ← add_chk 31 assigned_count 1; mret (n, unassigned_count)
  | Unused => mret counts
  end.
Fixpoint count_bars (bars : list BarInfo) (counts : Z * Z) : exec (Z * Z) :=
  match bars with
  | [] => mret counts
  | bar :: bars => counts ← count_bar counts bar; count_bars bars counts
  end.
Definition check_bar_assignment (devices : list PciDevice) (vmm : PcieVmm) : exec (Z * Z * VmmStats) :=
  counts ← count_bars (concat (dev_bars <$> devices)) (0, 0);
  stats ← get_stats vmm;
  mret (counts, stats).

Section Enumeration.
Context `{Addresses} {HW : Type} `{Mmio HW}.

(** [for function in 0..8]. *)
Fixpoint enumerate_functions (r : EcamRegion) (bus device : Z) (functions : list Z) (devices : list PciDevice) (hw : HW)
    : exec (result (list PciDevice) PciError * HW) :=
  match functions with
  | [] => mret (Ok devices, hw)
  | function :: functions =>
      '(probed, hw) ← probe_device r bus device function hw;
      match probed with
      | Err e => mret (Err e, hw)
      | Ok None => enumerate_functions r bus device functions devices hw
      | Ok (Some pci_device) =>
          let devices := devices ++ [pci_device] in
          if function =? 0 then
            '(multi, hw) ← is_multifunction_device r bus device 0 hw;
            match multi with
            | false => mret (Ok devices, hw)
            | true => enumerate_functions r bus device functions devices hw
            end
          else enumerate_functions r bus device functions devices hw
      end
  end.

(** [for device in 0..32]. *)
Fixpoint enumerate_bus_loop (r : EcamRegion) (bus : Z) (numbers : list Z) (devices : list PciDevice) (hw : HW)
    : exec (result (list PciDevice) PciError * HW) :=
  match numbers with
  | [] => mret (Ok devices, hw)
  | device :: numbers =>
      '(res, hw) ← enumerate_functions r bus device (seqZ 0 8) devices hw;
      match res with
      | Err e => mret (Err e, hw)
      | Ok devices => enumerate_bus_loop r bus numbers devices hw
      end
  end.
Definition enumerate_bus (r : EcamRegion) (bus : Z) (devices : list PciDevice) (hw : HW)
    : exec (result (list PciDevice) PciError * HW) :=
  enumerate_bus_loop r bus (seqZ 0 32) devices hw.

(** [for bus in start_bus..=end_bus]. *)
Fixpoint enumerate_buses (r : EcamRegion) (buses : list Z) (devices : list PciDevice) (hw : HW)
    : exec (result (list PciDevice) PciError * HW) :=
  match buses with
  | [] => mret (Ok devices, hw)
  | bus :: buses =>
      '(res, hw) ← enumerate_bus r bus devices hw;
      match res with
      | Err e => mret (Err e, hw)
      | Ok devices => enumerate_buses r buses devices hw
      end
  end.
Definition region_buses (r : EcamRegion) : list Z := seqZ r.(er_start_bus) (r.(er_end_bus) - r.(er_start_bus) + 1).
Fixpoint enumerate_devices (regions : list EcamRegion) (devices : list PciDevice) (hw : HW)
    : exec (result (list PciDevice) PciError * HW) :=
  match regions with
  | [] => mret (Ok devices, hw)
  | r :: regions =>
      '(res, hw) ← enumerate_buses r (region_buses r) devices hw;
      match res with
      | Err e => mret (Err e, hw)
      | Ok devices => enumerate_devices regions devices hw
      end
  end.

Context {PT FA : Type} `{Mapper PT, FrameSource FA}.

(** [PciManager::init] on a new manager; [next] is the static of
    [map_ecam_region]. *)
Definition PciManager_init (find_mcfg : Z → option (list McfgEntry)) (rsdp_addr : Z)
    (vmm : PcieVmm) (next : Z) (g : globals PT FA) (hw : HW)
    : exec (result PciManager PciError * Z * globals PT FA * HW) :=
  parsed ← parse_mcfg_table find_mcfg rsdp_addr;
  match parsed with
  | Err e => mret (Err e, next, g, hw)
  | Ok regions =>
      _ ← calculate_total_ecam_size regions;
      '(mapped, regions, next, g) ← map_ecam_regions regions next g;
      match mapped with
      | Err e => mret (Err e, next, g, hw)
      | Ok _ =>
          '(found, hw) ← enumerate_devices regions [] hw;
          match found with
          | Err e => mret (Err e, next, g, hw)
          | Ok devices =>
              _ ← check_bar_assignment devices vmm;
              mret (Ok (mkPciManager devices regions []), next, g, hw)
          end
      end
  end.

(** [manager] is the global [PCI_MANAGER]. *)
Definition init_pci (find_mcfg : Z → option (list McfgEntry)) (rsdp_addr : Z)
    (manager : option PciManager) (vmm : PcieVmm) (next : Z) (g : globals PT FA) (hw : HW)
    : exec (result unit PciError * option PciManager * Z * globals PT FA * HW) :=
  '(r, next, g, hw) ← PciManager_init find_mcfg rsdp_addr vmm next g hw;
  match r with
  | Err e => mret (Err e, manager, next, g, hw)
  | Ok m => mret (Ok (), Some m, next, g, hw)
  end.

End Enumeration.

(** ** What is found *)

Section Found.
Context `{AddressesOk} {HW : Type} `{Mmio HW} {PT : Type} `{Mapper PT}.
Context (pt : PT) (hw : HW).

Definition fn_base (r : EcamRegion) (bus device function : Z) : Z :=
  r.(er_virtual_address) + ecam_offset r bus device function 0.
Definition is_present (r : EcamRegion) (bus device function : Z) : bool := present (fn_base r bus device function) hw.

(** The functions of a device: only function 0 when it is there and says that it
    is alone, and otherwise all that are there. *)
Definition functions_of (r : EcamRegion) (bus device : Z) : list Z :=
  if is_present r bus device 0 && negb (multifunction (fn_base r bus device 0) hw) then [0]
  else filter (λ f, is_present r bus device f = true) (seqZ 0 8).

Abbreviation location := (EcamRegion * Z * Z * Z)%type.
Definition bus_locations (r : EcamRegion) (bus : Z) (numbers : list Z) : list location :=
  concat ((λ device, (λ f, (r, bus, device, f)) <$> functions_of r bus device) <$> numbers).
Definition region_locations (r : EcamRegion) (buses : list Z) : list location :=
  concat ((λ bus, bus_locations r bus (seqZ 0 32)) <$> buses).
Definition all_locations (regions : list EcamRegion) : list location :=
  concat ((λ r, region_locations r (region_buses r)) <$> regions).

Definition record_of (l : location) (d : PciDevice) : Prop :=
  let '(r, bus, device, function) := l in describes r bus device function (fn_base r bus device function) hw d.

(** The configuration space behaves as the standard says, and every function
    that is there is one the code can handle. *)
Definition bus_ok (r : EcamRegion) (bus : Z) : Prop :=
  region_mapped pt r ∧ has_bus bus r = true ∧
  ∀ device function, 0 ≤ device < 32 → 0 ≤ function < 8 →
    ConfigOk (fn_base r bus device function) ∧
    (is_present r bus device function = true → function_ok (fn_base r bus device function) hw).

Lemma bus_function_at r bus device function : bus_ok r bus → 0 ≤ device < 32 → 0 ≤ function < 8 →
  function_at pt r bus device function (fn_base r bus device function).
Proof. intros (Hm & Hb & _) Hd Hf. by repeat (split; [done|]). Qed.

Lemma probe_found r bus device function : bus_ok r bus → 0 ≤ device < 32 → 0 ≤ function < 8 →
  ∃ o, probe_device r bus device function hw = Ret (Ok o, hw) ∧
    match o with
    | None => is_present r bus device function = false
    | Some d => is_present r bus device function = true ∧ record_of (r, bus, device, function) d
    end.
Proof.
  intros Hok Hd Hf. pose proof Hok as (_ & _ & Hall). destruct (Hall device function Hd Hf) as [Hcfg Hfn].
  by apply (probe_device_ok pt r bus device function (fn_base r bus device function)); [apply bus_function_at|..].
Qed.

(** Functions other than 0. *)
Lemma enumerate_rest r bus device functions devices : bus_ok r bus → 0 ≤ device < 32 →
  Forall (λ f, 0 < f < 8) functions →
  ∃ found, enumerate_functions r bus device functions devices hw = Ret (Ok (devices ++ found), hw) ∧
    Forall2 record_of ((λ f, (r, bus, device, f)) <$> filter (λ f, is_present r bus device f = true) functions) found.
Proof.
  intros Hok Hd Hf. revert devices. induction Hf as [|f functions Hf _ IH]; intros devices; cbn [enumerate_functions].
  { exists []. by rewrite app_nil_r. }
  destruct (probe_found r bus device f) as (o & -> & Ho); [done|done|lia|]. cbn [mbind exec_bind]. destruct o as [d|].
  - destruct Ho as [Hp Hd']. rewrite (proj2 (Z.eqb_neq _ _)), filter_cons_True by (done || lia).
    destruct (IH (devices ++ [d])) as (found & -> & Hfound). exists (d :: found). rewrite <- (assoc_L (++)).
    split; [done|]. by constructor.
  - rewrite filter_cons_False by (by rewrite Ho). apply IH.
Qed.

Lemma enumerate_functions_ok r bus device devices : bus_ok r bus → 0 ≤ device < 32 →
  ∃ found, enumerate_functions r bus device (seqZ 0 8) devices hw = Ret (Ok (devices ++ found), hw) ∧
    Forall2 record_of ((λ f, (r, bus, device, f)) <$> functions_of r bus device) found.
Proof.
  intros Hok Hd. change (seqZ 0 8) with (0 :: seqZ 1 7). cbn [enumerate_functions].
  assert (Forall (λ f, 0 < f < 8) (seqZ 1 7)) as Hrest.
  { apply Forall_forall. intros f Hf%elem_of_seqZ. lia. }
  unfold functions_of. change (seqZ 0 8) with (0 :: seqZ 1 7).
  destruct (probe_found r bus device 0) as (o & -> & Ho); [done|done|lia|]. cbn [mbind exec_bind]. destruct o as [d|].
  - destruct Ho as [Hp Hd']. rewrite Hp, Z.eqb_refl. pose proof Hok as (_ & _ & Hall).
    destruct (Hall device 0 Hd ltac:(lia)) as [Hcfg _].
    rewrite (is_multifunction_ok pt r bus device 0 (fn_base r bus device 0)) by (done || by apply bus_function_at).
    cbn [mbind exec_bind andb]. destruct (multifunction _ hw); cbn [negb].
    + destruct (enumerate_rest r bus device (seqZ 1 7) (devices ++ [d])) as (found & -> & Hfound); [done..|].
      exists (d :: found). rewrite <- (assoc_L (++)), filter_cons_True by done. split; [done|]. constructor; [exact Hd'|done].
    + exists [d]. split; [done|]. constructor; [exact Hd'|constructor].
  - rewrite Ho, filter_cons_False by (by rewrite Ho). by apply enumerate_rest.
Qed.

Lemma enumerate_bus_ok r bus numbers devices : bus_ok r bus → Forall (λ d, 0 ≤ d < 32) numbers →
  ∃ found, enumerate_bus_loop r bus numbers devices hw = Ret (Ok (devices ++ found), hw) ∧
    Forall2 record_of (bus_locations r bus numbers) found.
Proof.
  intros Hok Hn. revert devices. induction Hn as [|device numbers Hd _ IH]; intros devices; cbn [enumerate_bus_loop].
  { exists []. by rewrite app_nil_r. }
  destruct (enumerate_functions_ok r bus device devices) as (f1 & -> & Hf1); [done..|]. cbn [mbind exec_bind].
  destruct (IH (devices ++ f1)) as (f2 & -> & Hf2). exists (f1 ++ f2). rewrite <- (assoc_L (++)). split; [done|].
  by apply Forall2_app.
Qed.

Lemma enumerate_buses_ok r buses devices : Forall (bus_ok r) buses →
  ∃ found, enumerate_buses r buses devices hw = Ret (Ok (devices ++ found), hw) ∧
    Forall2 record_of (region_locations r buses) found.
Proof.
  intros Hn. revert devices. induction Hn as [|bus buses Hb _ IH]; intros devices; cbn [enumerate_buses].
  { exists []. by rewrite app_nil_r. }
  destruct (enumerate_bus_ok r bus (seqZ 0 32) devices) as (f1 & Hrun & Hf1); [done| |].
  { apply Forall_forall. intros d Hd%elem_of_seqZ. lia. }
  unfold enumerate_bus. rewrite Hrun. cbn [mbind exec_bind].
  destruct (IH (devices ++ f1)) as (f2 & -> & Hf2). exists (f1 ++ f2). rewrite <- (assoc_L (++)). split; [done|].
  by apply Forall2_app.
Qed.

Lemma enumerate_devices_ok regions devices : Forall (λ r, Forall (bus_ok r) (region_buses r)) regions →
  ∃ found, enumerate_devices regions devices hw = Ret (Ok (devices ++ found), hw) ∧
    Forall2 record_of (all_locations regions) found.
Proof.
  intros Hn. revert devices. induction Hn as [|r regions Hr _ IH]; intros devices; cbn [enumerate_devices].
  { exists []. by rewrite app_nil_r. }
  destruct (enumerate_buses_ok r (region_buses r) devices Hr) as (f1 & -> & Hf1). cbn [mbind exec_bind].
  destruct (IH (devices ++ f1)) as (f2 & -> & Hf2). exists (f1 ++ f2). rewrite <- (assoc_L (++)). split; [done|].
  by apply Forall2_app.
Qed.

(** C15: enumeration finds the devices that are there.  On well-behaved hardware
    the enumeration of all buses returns one record for each function that is
    present, in the order of region, bus, device and function, where only
    function 0 counts for a device that says it has no other; each record has
    the location and the identification of its function, and the hardware is
    left as it was. *)
Theorem enumeration_complete regions :
  Forall (λ r, Forall (bus_ok r) (region_buses r)) regions →
  ∃ devices, enumerate_devices regions [] hw = Ret (Ok devices, hw) ∧
    Forall2 record_of (all_locations regions) devices.
Proof. apply (enumerate_devices_ok regions []). Qed.

(** One function with a header type the code does not know makes the
    enumeration fail, whatever else there is. *)
Theorem unknown_header_aborts r bus regions :
  region_buses r = [bus] →
  region_mapped pt r → has_bus bus r = true → ConfigOk (fn_base r bus 0 0) →
  is_present r bus 0 0 = true → 2 < Z.land (cfg (fn_base r bus 0 0) 1 hw HEADER_TYPE) 0x7F →
  enumerate_devices (r :: regions) [] hw = Ret (Err InvalidDevice, hw).
Proof.
  intros Hbuses Hm Hb Hcfg Hp Hht. cbn [enumerate_devices]. rewrite Hbuses. cbn [enumerate_buses].
  unfold enumerate_bus. change (seqZ 0 32) with (0 :: seqZ 1 31). cbn [enumerate_bus_loop].
  change (seqZ 0 8) with (0 :: seqZ 1 7). cbn [enumerate_functions].
  assert (function_at pt r bus 0 0 (fn_base r bus 0 0)) as Hat by (split; [done|]; split; [done|]; split; [lia|]; split; [lia|done]).
  by rewrite (probe_bad_header pt r bus 0 0 (fn_base r bus 0 0)).
Qed.

End Found.

(** ** Examples *)

Section Examples.
#[local] Existing Instances model_addresses model_mapper.
#[local] Existing Instances model_addresses_ok model_mapper_ok.

(** The sample bus of PciDevice.v without its cyclic device: device 3 is found. *)
Definition quiet_hw : gmap Z Z := filter (λ '(a, _), a < sample_base 4) sample_hw.

#[local] Instance quiet_config : Mmio (gmap Z Z) := model_config sample_writable.

Lemma quiet_bus_ok pt : region_mapped pt (sample_region ECAM_VIRTUAL_START) →
  bus_ok pt quiet_hw (sample_region ECAM_VIRTUAL_START) 2.
Proof.
  intros Hm. split; [done|]. split; [done|]. intros device function Hd Hf. split.
  - apply model_config_ok.
    + intros a. unfold sample_writable. repeat case_match; lia.
    + unfold fn_base, ecam_offset, ECAM_VIRTUAL_START. cbn.
      exists (0x3FFFFD0000000000 + 2 ^ 13 * device + 2 ^ 10 * function). lia.
  - intros Hp. assert (Forall (λ d, Forall (λ f,
      is_present quiet_hw (sample_region ECAM_VIRTUAL_START) 2 d f = true → d = 3 ∧ f = 0) (seqZ 0 8)) (seqZ 0 32)) as Hall.
    { apply (bool_decide_unpack _). vm_compute. done. }
    rewrite Forall_forall in Hall. specialize (Hall device). rewrite elem_of_seqZ, Forall_forall in Hall.
    destruct (Hall ltac:(lia) function ltac:(apply elem_of_seqZ; lia) Hp) as [-> ->].
    split; [vm_compute; done|]. split.
    + assert (Forall (λ i, Z.land (cfg (sample_base 3) 4 quiet_hw (BAR0 + i * 4)) 0x6 = 0x4 →
        cfg (sample_base 3) 4 quiet_hw (BAR0 + i * 4 + 4) < 2 ^ 20) (seqZ 0 5)) as Hbars.
      { apply (bool_decide_unpack _). vm_compute. done. }
      rewrite Forall_forall in Hbars. intros i Hi. apply Hbars, elem_of_seqZ. lia.
    + intros _. exists [0x40; 0x50]. vm_compute. done.
Qed.

Lemma enumeration_complete_witness : ∃ r d,
  enumerate_devices [r] [] quiet_hw = Ret (Ok [d], quiet_hw) ∧
  d.(dev_bus) = 2 ∧ d.(dev_device) = 3 ∧ d.(dev_function) = 0 ∧ d.(dev_vendor_id) = 0x1B36.
Proof.
  destruct sample_region_mapped as [pt Hm]. exists (sample_region ECAM_VIRTUAL_START).
  destruct (enumeration_complete pt quiet_hw [sample_region ECAM_VIRTUAL_START]) as (devices & Hrun & Hfound).
  { constructor; [|constructor]. change (region_buses _) with [2]. constructor; [|constructor]. by apply quiet_bus_ok. }
  assert (all_locations quiet_hw [sample_region ECAM_VIRTUAL_START] = [(sample_region ECAM_VIRTUAL_START, 2, 3, 0)]) as Hloc
    by (vm_compute; done).
  rewrite Hloc in Hfound. destruct (Forall2_cons_inv_l _ _ _ _ Hfound) as (d & rest & Hd & Hrest & ->).
  apply Forall2_nil_inv_l in Hrest as ->. exists d. split; [done|]. destruct Hd as (_ & -> & -> & -> & -> & _).
  split_and!; [done..|]. vm_compute. done.
Defined.

End Examples.
