(* ===== verification/Keyboard.v ===== *)
(** * Keyboard: decoding and buffering of key events

    The pure part of ps2/keyboard.rs: the scan codes with their discriminants,
    the translation to characters, the modifier state, and [KeyboardDriver]
    with its bounded buffer of events.  The ports and the initialisation are in
    Ps2.v.  Characters are ASCII (those of the source are); a [VecDeque] is a
    list, front first. *)

From Stdlib Require Import Ascii.
From stdpp Require Import finite.
From S2P Require Import Prelude.

Definition KEYBOARD_BUFFER_SIZE : nat := 256.

(** ** Scan codes *)

Module ScanCode.
Inductive scan_code : Type :=
  | A | B | C | D | E | F | G | H | I | J | K | L | M | N | O | P | Q | R | S | T | U | V | W | X | Y
  | Z | Key1 | Key2 | Key3 | Key4 | Key5 | Key6 | Key7 | Key8 | Key9 | Key0 | F1 | F2 | F3 | F4 | F5
  | F6 | F7 | F8 | F9 | F10 | F11 | F12 | Escape | Backspace | Tab | Enter | Space | LeftShift
  | RightShift | LeftCtrl | LeftAlt | CapsLock | Minus | Equals | LeftBracket | RightBracket
  | Semicolon | Quote | Grave | Backslash | Comma | Period | Slash | UpArrow | DownArrow | LeftArrow
  | RightArrow | Delete | Home | End_ | PageUp | PageDown | Insert.
End ScanCode.
Abbreviation ScanCode := ScanCode.scan_code.

#[export] Instance ScanCode_eq_dec : EqDecision ScanCode.
Proof. solve_decision. Defined.

(** The discriminants of the [repr(u8)] enum. *)
Definition discriminant (c : ScanCode) : Z :=
  match c with
  | ScanCode.A => 0x1E | ScanCode.B => 0x30 | ScanCode.C => 0x2E | ScanCode.D => 0x20
  | ScanCode.E => 0x12 | ScanCode.F => 0x21 | ScanCode.G => 0x22 | ScanCode.H => 0x23
  | ScanCode.I => 0x17 | ScanCode.J => 0x24 | ScanCode.K => 0x25 | ScanCode.L => 0x26
  | ScanCode.M => 0x32 | ScanCode.N => 0x31 | ScanCode.O => 0x18 | ScanCode.P => 0x19
  | ScanCode.Q => 0x10 | ScanCode.R => 0x13 | ScanCode.S => 0x1F | ScanCode.T => 0x14
  | ScanCode.U => 0x16 | ScanCode.V => 0x2F | ScanCode.W => 0x11 | ScanCode.X => 0x2D
  | ScanCode.Y => 0x15 | ScanCode.Z => 0x2C | ScanCode.Key1 => 0x02 | ScanCode.Key2 => 0x03
  | ScanCode.Key3 => 0x04 | ScanCode.Key4 => 0x05 | ScanCode.Key5 => 0x06 | ScanCode.Key6 => 0x07
  | ScanCode.Key7 => 0x08 | ScanCode.Key8 => 0x09 | ScanCode.Key9 => 0x0A | ScanCode.Key0 => 0x0B
  | ScanCode.F1 => 0x3B | ScanCode.F2 => 0x3C | ScanCode.F3 => 0x3D | ScanCode.F4 => 0x3E
  | ScanCode.F5 => 0x3F | ScanCode.F6 => 0x40 | ScanCode.F7 => 0x41 | ScanCode.F8 => 0x42
  | ScanCode.F9 => 0x43 | ScanCode.F10 => 0x44 | ScanCode.F11 => 0x57 | ScanCode.F12 => 0x58
  | ScanCode.Escape => 0x01 | ScanCode.Backspace => 0x0E | ScanCode.Tab => 0x0F
  | ScanCode.Enter => 0x1C | ScanCode.Space => 0x39 | ScanCode.LeftShift => 0x2A
  | ScanCode.RightShift => 0x36 | ScanCode.LeftCtrl => 0x1D | ScanCode.LeftAlt => 0x38
  | ScanCode.CapsLock => 0x3A | ScanCode.Minus => 0x0C | ScanCode.Equals => 0x0D
  | ScanCode.LeftBracket => 0x1A | ScanCode.RightBracket => 0x1B | ScanCode.Semicolon => 0x27
  | ScanCode.Quote => 0x28 | ScanCode.Grave => 0x29 | ScanCode.Backslash => 0x2B
  | ScanCode.Comma => 0x33 | ScanCode.Period => 0x34 | ScanCode.Slash => 0x35
  | ScanCode.UpArrow => 0x48 | ScanCode.DownArrow => 0x50 | ScanCode.LeftArrow => 0x4B
  | ScanCode.RightArrow => 0x4D | ScanCode.Delete => 0x53 | ScanCode.Home => 0x47
  | ScanCode.End_ => 0x4F | ScanCode.PageUp => 0x49 | ScanCode.PageDown => 0x51
  | ScanCode.Insert => 0x52
  end.

Definition ScanCode_is_character (c : ScanCode) : bool :=
  match c with
  | ScanCode.A | ScanCode.B | ScanCode.C | ScanCode.D | ScanCode.E | ScanCode.F | ScanCode.G
  | ScanCode.H | ScanCode.I | ScanCode.J | ScanCode.K | ScanCode.L | ScanCode.M | ScanCode.N
  | ScanCode.O | ScanCode.P | ScanCode.Q | ScanCode.R | ScanCode.S | ScanCode.T | ScanCode.U
  | ScanCode.V | ScanCode.W | ScanCode.X | ScanCode.Y | ScanCode.Z | ScanCode.Key1 | ScanCode.Key2
  | ScanCode.Key3 | ScanCode.Key4 | ScanCode.Key5 | ScanCode.Key6 | ScanCode.Key7 | ScanCode.Key8
  | ScanCode.Key9 | ScanCode.Key0 | ScanCode.Minus | ScanCode.Equals | ScanCode.LeftBracket
  | ScanCode.RightBracket | ScanCode.Semicolon | ScanCode.Quote | ScanCode.Grave | ScanCode.Backslash
  | ScanCode.Comma | ScanCode.Period | ScanCode.Slash | ScanCode.Space => true
  | _ => false
  end.

Definition ScanCode_to_char (c : ScanCode) (shift_pressed caps_lock : bool) : option ascii :=
  match c with
  | ScanCode.A => Some (if xorb shift_pressed caps_lock then "A"%char else "a"%char)
  | ScanCode.B => Some (if xorb shift_pressed caps_lock then "B"%char else "b"%char)
  | ScanCode.C => Some (if xorb shift_pressed caps_lock then "C"%char else "c"%char)
  | ScanCode.D => Some (if xorb shift_pressed caps_lock then "D"%char else "d"%char)
  | ScanCode.E => Some (if xorb shift_pressed caps_lock then "E"%char else "e"%char)
  | ScanCode.F => Some (if xorb shift_pressed caps_lock then "F"%char else "f"%char)
  | ScanCode.G => Some (if xorb shift_pressed caps_lock then "G"%char else "g"%char)
  | ScanCode.H => Some (if xorb shift_pressed caps_lock then "H"%char else "h"%char)
  | ScanCode.I => Some (if xorb shift_pressed caps_lock then "I"%char else "i"%char)
  | ScanCode.J => Some (if xorb shift_pressed caps_lock then "J"%char else "j"%char)
  | ScanCode.K => Some (if xorb shift_pressed caps_lock then "K"%char else "k"%char)
  | ScanCode.L => Some (if xorb shift_pressed caps_lock then "L"%char else "l"%char)
  | ScanCode.M => Some (if xorb shift_pressed caps_lock then "M"%char else "m"%char)
  | ScanCode.N => Some (if xorb shift_pressed caps_lock then "N"%char else "n"%char)
  | ScanCode.O => Some (if xorb shift_pressed caps_lock then "O"%char else "o"%char)
  | ScanCode.P => Some (if xorb shift_pressed caps_lock then "P"%char else "p"%char)
  | ScanCode.Q => Some (if xorb shift_pressed caps_lock then "Q"%char else "q"%char)
  | ScanCode.R => Some (if xorb shift_pressed caps_lock then "R"%char else "r"%char)
  | ScanCode.S => Some (if xorb shift_pressed caps_lock then "S"%char else "s"%char)
  | ScanCode.T => Some (if xorb shift_pressed caps_lock then "T"%char else "t"%char)
  | ScanCode.U => Some (if xorb shift_pressed caps_lock then "U"%char else "u"%char)
  | ScanCode.V => Some (if xorb shift_pressed caps_lock then "V"%char else "v"%char)
  | ScanCode.W => Some (if xorb shift_pressed caps_lock then "W"%char else "w"%char)
  | ScanCode.X => Some (if xorb shift_pressed caps_lock then "X"%char else "x"%char)
  | ScanCode.Y => Some (if xorb shift_pressed caps_lock then "Y"%char else "y"%char)
  | ScanCode.Z => Some (if xorb shift_pressed caps_lock then "Z"%char else "z"%char)
  | ScanCode.Key1 => Some (if shift_pressed then "!"%char else "1"%char)
  | ScanCode.Key2 => Some (if shift_pressed then "@"%char else "2"%char)
  | ScanCode.Key3 => Some (if shift_pressed then "#"%char else "3"%char)
  | ScanCode.Key4 => Some (if shift_pressed then "$"%char else "4"%char)
  | ScanCode.Key5 => Some (if shift_pressed then "%"%char else "5"%char)
  | ScanCode.Key6 => Some (if shift_pressed then "^"%char else "6"%char)
  | ScanCode.Key7 => Some (if shift_pressed then "&"%char else "7"%char)
  | ScanCode.Key8 => Some (if shift_pressed then "*"%char else "8"%char)
  | ScanCode.Key9 => Some (if shift_pressed then "("%char else "9"%char)
  | ScanCode.Key0 => Some (if shift_pressed then ")"%char else "0"%char)
  | ScanCode.Minus => Some (if shift_pressed then "_"%char else "-"%char)
  | ScanCode.Equals => Some (if shift_pressed then "+"%char else "="%char)
  | ScanCode.LeftBracket => Some (if shift_pressed then "{"%char else "["%char)
  | ScanCode.RightBracket => Some (if shift_pressed then "}"%char else "]"%char)
  | ScanCode.Semicolon => Some (if shift_pressed then ":"%char else ";"%char)
  | ScanCode.Quote => Some (if shift_pressed then "034"%char else "'"%char)
  | ScanCode.Grave => Some (if shift_pressed then "~"%char else "`"%char)
  | ScanCode.Backslash => Some (if shift_pressed then "|"%char else "\"%char)
  | ScanCode.Comma => Some (if shift_pressed then "<"%char else ","%char)
  | ScanCode.Period => Some (if shift_pressed then ">"%char else "."%char)
  | ScanCode.Slash => Some (if shift_pressed then "?"%char else "/"%char)
  | ScanCode.Space => Some " "%char
  | ScanCode.Enter => Some "010"%char
  | ScanCode.Backspace => Some "008"%char
  | _ => None
  end.

(** ** Events and modifiers *)

Inductive KeyEvent : Type :=
  | KeyDown (c : ScanCode)
  | KeyUp (c : ScanCode)
  | Unknown (b : Z).
#[export] Instance KeyEvent_eq_dec : EqDecision KeyEvent.
Proof. solve_decision. Defined.

Record KeyboardState := mkKeyboardState {
  left_shift : bool; right_shift : bool; left_ctrl : bool; left_alt : bool; caps_lock : bool;
}.
(** [KeyboardState::default]. *)
Definition KeyboardState_default : KeyboardState := mkKeyboardState false false false false false.

Definition KeyboardState_shift_pressed (s : KeyboardState) : bool := s.(left_shift) || s.(right_shift).

Definition set_left_shift (b : bool) (s : KeyboardState) : KeyboardState :=
  mkKeyboardState b s.(right_shift) s.(left_ctrl) s.(left_alt) s.(caps_lock).
Definition set_right_shift (b : bool) (s : KeyboardState) : KeyboardState :=
  mkKeyboardState s.(left_shift) b s.(left_ctrl) s.(left_alt) s.(caps_lock).
Definition set_left_ctrl (b : bool) (s : KeyboardState) : KeyboardState :=
  mkKeyboardState s.(left_shift) s.(right_shift) b s.(left_alt) s.(caps_lock).
Definition set_left_alt (b : bool) (s : KeyboardState) : KeyboardState :=
  mkKeyboardState s.(left_shift) s.(right_shift) s.(left_ctrl) b s.(caps_lock).
Definition set_caps_lock (b : bool) (s : KeyboardState) : KeyboardState :=
  mkKeyboardState s.(left_shift) s.(right_shift) s.(left_ctrl) s.(left_alt) b.

Definition KeyboardState_update (event : KeyEvent) (s : KeyboardState) : KeyboardState :=
  match event with
  | KeyDown scancode =>
      match scancode with
      | ScanCode.LeftShift => set_left_shift true s
      | ScanCode.RightShift => set_right_shift true s
      | ScanCode.LeftCtrl => set_left_ctrl true s
      | ScanCode.LeftAlt => set_left_alt true s
      | ScanCode.CapsLock => set_caps_lock (negb s.(caps_lock)) s
      | _ => s
      end
  | KeyUp scancode =>
      match scancode with
      | ScanCode.LeftShift => set_left_shift false s
      | ScanCode.RightShift => set_right_shift false s
      | ScanCode.LeftCtrl => set_left_ctrl false s
      | ScanCode.LeftAlt => set_left_alt false s
      | _ => s
      end
  | _ => s
  end.

(** ** The driver *)

Record KeyboardDriver := mkKeyboardDriver {
  input_buffer : list KeyEvent;
  state : KeyboardState;
  extended_scancode : bool;
}.

Definition KeyboardDriver_new : KeyboardDriver := mkKeyboardDriver [] KeyboardState_default false.

(** The receiver is not used. *)
Definition KeyboardDriver_scancode_to_enum (scancode : Z) (extended : bool) : option ScanCode :=
  if extended then
    match scancode with
    | 0x48 => Some ScanCode.UpArrow | 0x50 => Some ScanCode.DownArrow | 0x4B => Some ScanCode.LeftArrow
    | 0x4D => Some ScanCode.RightArrow | 0x53 => Some ScanCode.Delete | 0x47 => Some ScanCode.Home
    | 0x4F => Some ScanCode.End_ | 0x49 => Some ScanCode.PageUp | 0x51 => Some ScanCode.PageDown
    | 0x52 => Some ScanCode.Insert
    | _ => None
    end
  else
    match scancode with
    | 0x1E => Some ScanCode.A | 0x30 => Some ScanCode.B | 0x2E => Some ScanCode.C
    | 0x20 => Some ScanCode.D | 0x12 => Some ScanCode.E | 0x21 => Some ScanCode.F
    | 0x22 => Some ScanCode.G | 0x23 => Some ScanCode.H | 0x17 => Some ScanCode.I
    | 0x24 => Some ScanCode.J | 0x25 => Some ScanCode.K | 0x26 => Some ScanCode.L
    | 0x32 => Some ScanCode.M | 0x31 => Some ScanCode.N | 0x18 => Some ScanCode.O
    | 0x19 => Some ScanCode.P | 0x10 => Some ScanCode.Q | 0x13 => Some ScanCode.R
    | 0x1F => Some ScanCode.S | 0x14 => Some ScanCode.T | 0x16 => Some ScanCode.U
    | 0x2F => Some ScanCode.V | 0x11 => Some ScanCode.W | 0x2D => Some ScanCode.X
    | 0x15 => Some ScanCode.Y | 0x2C => Some ScanCode.Z | 0x02 => Some ScanCode.Key1
    | 0x03 => Some ScanCode.Key2 | 0x04 => Some ScanCode.Key3 | 0x05 => Some ScanCode.Key4
    | 0x06 => Some ScanCode.Key5 | 0x07 => Some ScanCode.Key6 | 0x08 => Some ScanCode.Key7
    | 0x09 => Some ScanCode.Key8 | 0x0A => Some ScanCode.Key9 | 0x0B => Some ScanCode.Key0
    | 0x3B => Some ScanCode.F1 | 0x3C => Some ScanCode.F2 | 0x3D => Some ScanCode.F3
    | 0x3E => Some ScanCode.F4 | 0x3F => Some ScanCode.F5 | 0x40 => Some ScanCode.F6
    | 0x41 => Some ScanCode.F7 | 0x42 => Some ScanCode.F8 | 0x43 => Some ScanCode.F9
    | 0x44 => Some ScanCode.F10 | 0x57 => Some ScanCode.F11 | 0x58 => Some ScanCode.F12
    | 0x01 => Some ScanCode.Escape | 0x0E => Some ScanCode.Backspace | 0x0F => Some ScanCode.Tab
    | 0x1C => Some ScanCode.Enter | 0x39 => Some ScanCode.Space | 0x2A => Some ScanCode.LeftShift
    | 0x36 => Some ScanCode.RightShift | 0x1D => Some ScanCode.LeftCtrl | 0x38 => Some ScanCode.LeftAlt
    | 0x3A => Some ScanCode.CapsLock | 0x0C => Some ScanCode.Minus | 0x0D => Some ScanCode.Equals
    | 0x1A => Some ScanCode.LeftBracket | 0x1B => Some ScanCode.RightBracket
    | 0x27 => Some ScanCode.Semicolon | 0x28 => Some ScanCode.Quote | 0x29 => Some ScanCode.Grave
    | 0x2B => Some ScanCode.Backslash | 0x33 => Some ScanCode.Comma | 0x34 => Some ScanCode.Period
    | 0x35 => Some ScanCode.Slash
    | _ => None
    end.

Definition KeyboardDriver_process_scancode (scancode : Z) (k : KeyboardDriver) : KeyboardDriver :=
  if scancode =? 0xE0 then mkKeyboardDriver k.(input_buffer) k.(state) true
  else
    let is_release := negb (Z.land scancode 0x80 =? 0) in
    let base_scancode := Z.land scancode 0x7F in
    match KeyboardDriver_scancode_to_enum base_scancode k.(extended_scancode) with
    | None =>
        let event := Unknown scancode in
        let buffer :=
          if bool_decide (length k.(input_buffer) < KEYBOARD_BUFFER_SIZE)%nat
          then k.(input_buffer) ++ [event] else k.(input_buffer) in
        mkKeyboardDriver buffer k.(state) false
    | Some scan_code =>
        let event := if is_release then KeyUp scan_code else KeyDown scan_code in
        let state := KeyboardState_update event k.(state) in
        let buffer :=
          if bool_decide (length k.(input_buffer) < KEYBOARD_BUFFER_SIZE)%nat
          then k.(input_buffer) ++ [event] else k.(input_buffer) in
        mkKeyboardDriver buffer state false
    end.

(** [pop_front]. *)
Definition KeyboardDriver_read_key (k : KeyboardDriver) : option KeyEvent * KeyboardDriver :=
  match k.(input_buffer) with
  | [] => (None, k)
  | e :: l => (Some e, mkKeyboardDriver l k.(state) k.(extended_scancode))
  end.
Definition KeyboardDriver_get_state (k : KeyboardDriver) : KeyboardState := k.(state).
Definition KeyboardDriver_has_key (k : KeyboardDriver) : bool :=
  negb (match k.(input_buffer) with [] => true | _ => false end).

(** ** The interface for the rest of the kernel

    [keyboard] is the global [KEYBOARD], unset before the initialisation. *)

Definition read_key (keyboard : option KeyboardDriver) : option KeyEvent * option KeyboardDriver :=
  match keyboard with
  | Some k => let '(r, k) := KeyboardDriver_read_key k in (r, Some k)
  | None => (None, keyboard)
  end.
Definition has_key (keyboard : option KeyboardDriver) : bool :=
  match keyboard with Some k => KeyboardDriver_has_key k | None => false end.
Definition get_keyboard_state (keyboard : option KeyboardDriver) : option KeyboardState :=
  KeyboardDriver_get_state <$> keyboard.
Definition key_event_to_char (keyboard : option KeyboardDriver) (event : KeyEvent) : option ascii :=
  match event with
  | KeyDown scancode =>
      match get_keyboard_state keyboard with
      | Some s => ScanCode_to_char scancode (KeyboardState_shift_pressed s) s.(caps_lock)
      | None => ScanCode_to_char scancode false false
      end
  | _ => None
  end.
Definition is_character_key (event : KeyEvent) : bool :=
  match event with KeyDown scancode => ScanCode_is_character scancode | _ => false end.

(** ** Correctness *)

(** Keys that scan code set 1 sends with the prefix byte [0xE0]. *)
Definition extended (c : ScanCode) : bool :=
  match c with
  | ScanCode.UpArrow | ScanCode.DownArrow | ScanCode.LeftArrow | ScanCode.RightArrow | ScanCode.Delete
  | ScanCode.Home | ScanCode.End_ | ScanCode.PageUp | ScanCode.PageDown | ScanCode.Insert => true
  | _ => false
  end.
Definition key_bytes (c : ScanCode) (release : Z) : list Z :=
  (if extended c then [0xE0] else []) ++ [discriminant c + release].
Definition key_of (event : KeyEvent) : bool := match event with Unknown _ => false | _ => true end.
(** The bytes a keyboard sends for an event. *)
Definition scan_bytes (event : KeyEvent) : list Z :=
  match event with
  | KeyDown c => key_bytes c 0
  | KeyUp c => key_bytes c 0x80
  | Unknown b => [b]
  end.
Definition process_all (bytes : list Z) (k : KeyboardDriver) : KeyboardDriver :=
  foldl (λ k b, KeyboardDriver_process_scancode b k) k bytes.

Lemma scancode_to_enum_discriminant c : KeyboardDriver_scancode_to_enum (discriminant c) (extended c) = Some c.
Proof. by destruct c. Qed.
Lemma discriminant_low c : Z.land (discriminant c) 0x80 = 0 ∧ Z.land (discriminant c) 0x7F = discriminant c ∧
  Z.land (discriminant c + 0x80) 0x80 ≠ 0 ∧ Z.land (discriminant c + 0x80) 0x7F = discriminant c ∧
  discriminant c ≠ 0xE0 ∧ discriminant c + 0x80 ≠ 0xE0.
Proof. by destruct c. Qed.

(** Appending to the bounded buffer. *)
Definition push_event (e : KeyEvent) (l : list KeyEvent) : list KeyEvent :=
  if bool_decide (length l < KEYBOARD_BUFFER_SIZE)%nat then l ++ [e] else l.

(** The bytes of one key event add exactly that event. *)
Lemma process_event e k : key_of e = true → k.(extended_scancode) = false →
  process_all (scan_bytes e) k =
  mkKeyboardDriver (push_event e k.(input_buffer)) (KeyboardState_update e k.(state)) false.
Proof.
  intros He Hk. destruct k as [l s x]. simpl in Hk. subst x.
  assert (∀ c r, (r = 0 ∨ r = 0x80) →
    process_all (key_bytes c r) (mkKeyboardDriver l s false) =
    let e := if r =? 0 then KeyDown c else KeyUp c in
    mkKeyboardDriver (push_event e l) (KeyboardState_update e s) false) as Hkey.
  2: { destruct e as [c|c|b]; [by apply (Hkey c 0); left|by apply (Hkey c 0x80); right|done]. }
  intros c r Hr. destruct (discriminant_low c) as (Hd1 & Hd2 & Hd3 & Hd4 & Hd5 & Hd6).
  assert (∀ x, x = extended c →
    KeyboardDriver_process_scancode (discriminant c + r) (mkKeyboardDriver l s x) =
    let e := if r =? 0 then KeyDown c else KeyUp c in
    mkKeyboardDriver (push_event e l) (KeyboardState_update e s) false) as Hone.
  { intros x ->. unfold KeyboardDriver_process_scancode. cbn [extended_scancode input_buffer state].
    destruct Hr as [-> | ->]; rewrite ?Z.add_0_r; rewrite (proj2 (Z.eqb_neq _ 0xE0)) by done.
    - by rewrite Hd1, Hd2, scancode_to_enum_discriminant.
    - rewrite Hd4, scancode_to_enum_discriminant. by rewrite (proj2 (Z.eqb_neq _ 0)) by done. }
  unfold key_bytes, process_all. destruct (extended c) eqn:Hext; cbn [app foldl]; [|by apply Hone].
  change (KeyboardDriver_process_scancode 0xE0 (mkKeyboardDriver l s false)) with (mkKeyboardDriver l s true).
  by apply Hone.
Qed.

(** What the user of the keyboard does: press and release keys, and what the
    kernel does: read the buffer. *)
Inductive key_action : Type :=
  | Typed (e : KeyEvent)
  | Read.
Definition key_step (a : key_action) (st : list KeyEvent * KeyboardDriver) : list KeyEvent * KeyboardDriver :=
  let '(out, k) := st in
  match a with
  | Typed e => (out, process_all (scan_bytes e) k)
  | Read => match KeyboardDriver_read_key k with (Some e, k) => (out ++ [e], k) | (None, k) => (out, k) end
  end.
Definition typed (l : list key_action) : list KeyEvent :=
  omap (λ a, match a with Typed e => Some e | Read => None end) l.

(** The number of unread events never exceeds the capacity of the buffer,
    [n] being unread now. *)
Fixpoint fits (n : nat) (l : list key_action) : Prop :=
  match l with
  | [] => True
  | Typed _ :: l => (n < KEYBOARD_BUFFER_SIZE)%nat ∧ fits (S n) l
  | Read :: l => fits (pred n) l
  end.

(** The events read and buffered are a subsequence of the events typed. *)
Definition keyboard_good (es : list KeyEvent) (st : list KeyEvent * KeyboardDriver) : Prop :=
  let '(out, k) := st in
  k.(extended_scancode) = false ∧ (length k.(input_buffer) ≤ KEYBOARD_BUFFER_SIZE)%nat ∧
  k.(state) = foldl (λ s e, KeyboardState_update e s) KeyboardState_default es ∧
  out ++ k.(input_buffer) `sublist_of` es.

Lemma keyboard_good_typed es e st : keyboard_good es st → key_of e = true →
  keyboard_good (es ++ [e]) (key_step (Typed e) st).
Proof.
  destruct st as [out k]. intros (Hx & Hlen & Hst & Hsub) He. simpl. rewrite process_event by done.
  unfold keyboard_good. cbn [extended_scancode input_buffer state]. split_and!; [done|..].
  - unfold push_event. case_bool_decide; [rewrite length_app; simpl; lia|done].
  - by rewrite foldl_snoc, Hst.
  - unfold push_event. case_bool_decide; [|by apply sublist_inserts_r].
    rewrite (assoc_L (++)). by apply sublist_app.
Qed.
Lemma keyboard_good_read es st : keyboard_good es st → keyboard_good es (key_step Read st).
Proof.
  destruct st as [out k]. intros (Hx & Hlen & Hst & Hsub). simpl. unfold KeyboardDriver_read_key.
  destruct k as [[|e l] s x]; [done|]. cbn [input_buffer state extended_scancode] in *. unfold keyboard_good.
  cbn [extended_scancode input_buffer state]. rewrite <- (assoc_L (++)). cbn [app].
  split_and!; try done. simpl in Hlen. lia.
Qed.

Definition run_keys (l : list key_action) (st : list KeyEvent * KeyboardDriver) : list KeyEvent * KeyboardDriver :=
  foldl (λ st a, key_step a st) st l.

Lemma run_keys_good l es st : Forall (λ e, key_of e = true) (typed l) → keyboard_good es st →
  keyboard_good (es ++ typed l) (run_keys l st).
Proof.
  revert es st. induction l as [|[e|] l IH]; intros es st Hkeys Hst; simpl in *.
  - by rewrite app_nil_r.
  - apply Forall_cons in Hkeys as [He Hkeys]. change (e :: typed l) with ([e] ++ typed l). rewrite (assoc_L (++)).
    apply IH; [done|]. by apply keyboard_good_typed.
  - apply IH; [done|]. by apply keyboard_good_read.
Qed.
Lemma run_keys_lossless l es out k : Forall (λ e, key_of e = true) (typed l) → k.(extended_scancode) = false →
  out ++ k.(input_buffer) = es → fits (length k.(input_buffer)) l →
  let '(out', k') := run_keys l (out, k) in out' ++ k'.(input_buffer) = es ++ typed l.
Proof.
  revert es out k. induction l as [|[e|] l IH]; intros es out k Hkeys Hx Hes Hfits; simpl in *.
  - by rewrite app_nil_r.
  - apply Forall_cons in Hkeys as [He Hkeys]. destruct Hfits as [Hroom Hfits]. rewrite process_event by done.
    unfold push_event. rewrite bool_decide_true by done.
    change (e :: typed l) with ([e] ++ typed l). rewrite (assoc_L (++)). apply IH; simpl; try done.
    + by rewrite (assoc_L (++)), Hes.
    + rewrite length_app. simpl. by rewrite Nat.add_1_r.
  - destruct k as [[|e q] s x]; simpl in *; [by apply IH|]. apply IH; try done.
    simpl. rewrite <- Hes. by rewrite <- (assoc_L (++)).
Qed.

(** C26: the keyboard path from the bytes on the wire to [read_key].  Take any
    interleaving of keys pressed or released, each sending the bytes scan code
    set 1 gives it (the discriminant of the enum, bit 7 for a release, the
    prefix [0xE0] for the extended keys), with reads of the buffer.  The events
    read and still buffered are in the order typed, and none is made up; none is
    lost as long as no more than 256 are unread; the buffer never exceeds its
    capacity; and the modifier state reflects every event typed, dropped ones
    included. *)
Theorem typed_keys_read_back (l : list key_action) (Hkeys : Forall (λ e, key_of e = true) (typed l)) :
  let '(out, k) := run_keys l ([], KeyboardDriver_new) in
  (length k.(input_buffer) ≤ KEYBOARD_BUFFER_SIZE)%nat ∧
  k.(state) = foldl (λ s e, KeyboardState_update e s) KeyboardState_default (typed l) ∧
  out ++ k.(input_buffer) `sublist_of` typed l ∧
  (fits 0 l → out ++ k.(input_buffer) = typed l).
Proof.
  pose proof (run_keys_good l [] ([], KeyboardDriver_new) Hkeys ltac:(split_and!; try done; simpl; lia)) as Hgood.
  pose proof (run_keys_lossless l [] [] KeyboardDriver_new Hkeys eq_refl eq_refl) as Hall.
  destruct (run_keys l ([], KeyboardDriver_new)) as [out k]. destruct Hgood as (_ & Hlen & Hst & Hsub). done.
Qed.

Lemma typed_keys_read_back_witness :
  let l := [Typed (KeyDown ScanCode.LeftShift); Typed (KeyDown ScanCode.A); Read; Typed (KeyDown ScanCode.UpArrow);
            Typed (KeyUp ScanCode.UpArrow); Typed (KeyUp ScanCode.LeftShift); Read] in
  let '(out, k) := run_keys l ([], KeyboardDriver_new) in
  fits 0 l ∧ out ++ k.(input_buffer) = typed l ∧ out = [KeyDown ScanCode.LeftShift; KeyDown ScanCode.A].
Proof.
  intros l.
  pose proof (typed_keys_read_back l ltac:(repeat constructor)) as Hl.
  assert (fits 0 l) as Hfits by (simpl; unfold KEYBOARD_BUFFER_SIZE; lia).
  destruct (run_keys l ([], KeyboardDriver_new)) as [out k] eqn:Hrun.
  destruct Hl as (_ & _ & _ & Hl). split_and!; [exact Hfits|exact (Hl Hfits)|].
  vm_compute in Hrun. by inversion Hrun.
Defined.

(** All scan codes, for checks by enumeration. *)
Definition all_codes : list ScanCode :=
  [ScanCode.A; ScanCode.B; ScanCode.C; ScanCode.D; ScanCode.E; ScanCode.F; ScanCode.G; ScanCode.H;
   ScanCode.I; ScanCode.J; ScanCode.K; ScanCode.L; ScanCode.M; ScanCode.N; ScanCode.O; ScanCode.P;
   ScanCode.Q; ScanCode.R; ScanCode.S; ScanCode.T; ScanCode.U; ScanCode.V; ScanCode.W; ScanCode.X;
   ScanCode.Y; ScanCode.Z; ScanCode.Key1; ScanCode.Key2; ScanCode.Key3; ScanCode.Key4; ScanCode.Key5;
   ScanCode.Key6; ScanCode.Key7; ScanCode.Key8; ScanCode.Key9; ScanCode.Key0; ScanCode.F1; ScanCode.F2;
   ScanCode.F3; ScanCode.F4; ScanCode.F5; ScanCode.F6; ScanCode.F7; ScanCode.F8; ScanCode.F9;
   ScanCode.F10; ScanCode.F11; ScanCode.F12; ScanCode.Escape; ScanCode.Backspace; ScanCode.Tab;
   ScanCode.Enter; ScanCode.Space; ScanCode.LeftShift; ScanCode.RightShift; ScanCode.LeftCtrl;
   ScanCode.LeftAlt; ScanCode.CapsLock; ScanCode.Minus; ScanCode.Equals; ScanCode.LeftBracket;
   ScanCode.RightBracket; ScanCode.Semicolon; ScanCode.Quote; ScanCode.Grave; ScanCode.Backslash;
   ScanCode.Comma; ScanCode.Period; ScanCode.Slash; ScanCode.UpArrow; ScanCode.DownArrow;
   ScanCode.LeftArrow; ScanCode.RightArrow; ScanCode.Delete; ScanCode.Home; ScanCode.End_;
   ScanCode.PageUp; ScanCode.PageDown; ScanCode.Insert].
Lemma elem_of_all_codes c : c ∈ all_codes.
Proof. apply (bool_decide_unpack _). destruct c; vm_compute; exact I. Qed.

Definition printable (ch : ascii) : bool := (32 <=? nat_of_ascii ch)%nat && (nat_of_ascii ch <? 127)%nat.
Definition printable_char (s caps : bool) (c : ScanCode) : bool :=
  match ScanCode_to_char c s caps with Some ch => printable ch | None => false end.
Definition same_char (s caps : bool) (c c' : ScanCode) : bool :=
  match ScanCode_to_char c s caps, ScanCode_to_char c' s caps with
  | Some ch, Some ch' => Ascii.eqb ch ch'
  | _, _ => false
  end.

(** [is_character] and [to_char] agree: a key is a character key exactly when
    it has a printable character, whatever the modifiers; the only keys with a
    character that is not printable are [Enter] and [Backspace]; and two keys
    never give the same character. *)
Theorem characters_agree (s caps : bool) :
  (∀ c, ScanCode_is_character c = true ↔ ∃ ch, ScanCode_to_char c s caps = Some ch ∧ printable ch = true) ∧
  (∀ c ch, ScanCode_to_char c s caps = Some ch → ScanCode_is_character c = false →
    c = ScanCode.Enter ∨ c = ScanCode.Backspace) ∧
  (∀ c c' ch, ScanCode_to_char c s caps = Some ch → ScanCode_to_char c' s caps = Some ch → c = c').
Proof.
  split_and!.
  - intros c. assert (ScanCode_is_character c = printable_char s caps c) as -> by (by destruct c, s, caps).
    unfold printable_char. destruct (ScanCode_to_char c s caps); naive_solver.
  - intros c ch Hch Hc. destruct c; simpl in *; auto; done.
  - intros c c' ch Hc Hc'.
    assert (forallb (λ c, forallb (λ c', implb (same_char s caps c c') (bool_decide (c = c'))) all_codes) all_codes = true)
      as Hinj by (by destruct s, caps; vm_compute).
    rewrite forallb_elem in Hinj. specialize (Hinj c (elem_of_all_codes c)).
    rewrite forallb_elem in Hinj. specialize (Hinj c' (elem_of_all_codes c')).
    unfold same_char in Hinj. rewrite Hc, Hc', Ascii.eqb_refl in Hinj. by apply bool_decide_eq_true in Hinj.
Qed.

(** The character of an event depends on the modifiers when it is read: a capital
    typed with a shift released before the event is read is read as lower case. *)
Lemma shift_at_read_time :
  let k := process_all (concat (scan_bytes <$> [KeyDown ScanCode.LeftShift; KeyDown ScanCode.A;
             KeyUp ScanCode.A; KeyUp ScanCode.LeftShift])) KeyboardDriver_new in
  let '(e1, k) := read_key (Some k) in
  let '(e2, k) := read_key k in
  e1 = Some (KeyDown ScanCode.LeftShift) ∧ e2 = Some (KeyDown ScanCode.A) ∧
  key_event_to_char k (KeyDown ScanCode.A) = Some "a"%char.
Proof. by vm_compute. Qed.
