(* ===== verification/Ps2.v ===== *)
(** * Ps2: the PS/2 controller and the keyboard's initialisation

    [Ps2Controller] and [init] of ps2.rs, and [init] and [handle_interrupt] of
    ps2/keyboard.rs, over a pair of I/O ports.  The waits of the code have no
    timeout: each is a loop with fuel, and the theorems say how much is enough
    for the hardware at hand.  The hardware is third-party: [Ps2Device] has the
    documented protocol of the 8042 controller and of a keyboard behind it. *)

From stdpp Require Import strings.
From S2P Require Import Prelude Keyboard.

(** [Port<u8>::read] and [write]. *)
Class Ports (HW : Type) := {
  inb : Z → HW → Z * HW;
  outb : Z → Z → HW → HW;
}.

Definition PS2_DATA_PORT : Z := 0x60.
Definition PS2_COMMAND_PORT : Z := 0x64.

Module status_bits.
Definition OUTPUT_BUFFER_FULL : Z := 0x01.
Definition INPUT_BUFFER_FULL : Z := 0x02.
End status_bits.
Module commands.
Abbreviation READ_CONFIG := (0x20) (only parsing).
Abbreviation WRITE_CONFIG := (0x60) (only parsing).
Abbreviation DISABLE_SECOND_PORT := (0xA7) (only parsing).
Abbreviation TEST_CONTROLLER := (0xAA) (only parsing).
Abbreviation TEST_FIRST_PORT := (0xAB) (only parsing).
Abbreviation DISABLE_FIRST_PORT := (0xAD) (only parsing).
Abbreviation ENABLE_FIRST_PORT := (0xAE) (only parsing).
End commands.
Module keyboard_commands.
Abbreviation SCANCODE_SET := (0xF0) (only parsing).
Abbreviation ENABLE_SCANNING := (0xF4) (only parsing).
Abbreviation RESET := (0xFF) (only parsing).
End keyboard_commands.
Module responses.
Abbreviation ACK := (0xFA) (only parsing).
Abbreviation SELF_TEST_PASSED := (0xAA) (only parsing).
End responses.
Module config_bits.
Definition FIRST_PORT_INTERRUPT : Z := 0x01.
Abbreviation SECOND_PORT_INTERRUPT := (0x02) (only parsing).
Abbreviation FIRST_PORT_TRANSLATION := (0x40) (only parsing).
End config_bits.

Section Controller.
Context {HW : Type} `{Ports HW}.

(** ** The controller

    The two ports are constants, so a [Ps2Controller] has no state of its own. *)

Definition Ps2Controller_read_status (hw : HW) : Z * HW := inb PS2_COMMAND_PORT hw.
Definition Ps2Controller_output_buffer_full (hw : HW) : bool * HW :=
  let '(s, hw) := Ps2Controller_read_status hw in
  (negb (Z.land s status_bits.OUTPUT_BUFFER_FULL =? 0), hw).
Definition Ps2Controller_input_buffer_full (hw : HW) : bool * HW :=
  let '(s, hw) := Ps2Controller_read_status hw in
  (negb (Z.land s status_bits.INPUT_BUFFER_FULL =? 0), hw).
Fixpoint Ps2Controller_wait_input_buffer_empty (fuel : nat) (hw : HW) : exec HW :=
  match fuel with
  | O => NoFuel
  | S fuel =>
      match Ps2Controller_input_buffer_full hw with
      | (true, hw) => Ps2Controller_wait_input_buffer_empty fuel hw
      | (false, hw) => mret hw
      end
  end.
Fixpoint Ps2Controller_wait_output_buffer_full (fuel : nat) (hw : HW) : exec HW :=
  match fuel with
  | O => NoFuel
  | S fuel =>
      match Ps2Controller_output_buffer_full hw with
      | (false, hw) => Ps2Controller_wait_output_buffer_full fuel hw
      | (true, hw) => mret hw
      end
  end.
Definition Ps2Controller_read_data (fuel : nat) (hw : HW) : exec (Z * HW) :=
  hw ← Ps2Controller_wait_output_buffer_full fuel hw;
  mret (inb PS2_DATA_PORT hw).
Definition Ps2Controller_write_data (fuel : nat) (data : Z) (hw : HW) : exec HW :=
  hw ← Ps2Controller_wait_input_buffer_empty fuel hw;
  mret (outb PS2_DATA_PORT data hw).
Definition Ps2Controller_send_command (fuel : nat) (command : Z) (hw : HW) : exec HW :=
  hw ← Ps2Controller_wait_input_buffer_empty fuel hw;
  mret (outb PS2_COMMAND_PORT command hw).
Definition Ps2Controller_send_command_with_response (fuel : nat) (command : Z) (hw : HW) : exec (Z * HW) :=
  hw ← Ps2Controller_send_command fuel command hw;
  Ps2Controller_read_data fuel hw.

(** ** The keyboard's initialisation and interrupt handler *)

(** [init] of ps2/keyboard.rs: a failed step returns at once.  [keyboard] is the
    global [KEYBOARD]. *)
Definition keyboard_init (fuel : nat) (keyboard : option KeyboardDriver) (hw : HW)
    : exec (result unit string * option KeyboardDriver * HW) :=
  hw ← Ps2Controller_write_data fuel keyboard_commands.RESET hw;
  '(response, hw) ← Ps2Controller_read_data fuel hw;
  if negb (response =? responses.ACK) then mret (Err "Keyboard reset failed"%string, keyboard, hw) else
  '(self_test, hw) ← Ps2Controller_read_data fuel hw;
  if negb (self_test =? responses.SELF_TEST_PASSED) then
    mret (Err "Keyboard self-test failed"%string, keyboard, hw) else
  hw ← Ps2Controller_write_data fuel keyboard_commands.SCANCODE_SET hw;
  '(ack, hw) ← Ps2Controller_read_data fuel hw;
  if negb (ack =? responses.ACK) then mret (Err "Scancode set command failed"%string, keyboard, hw) else
  hw ← Ps2Controller_write_data fuel 0x01 hw;
  '(ack2, hw) ← Ps2Controller_read_data fuel hw;
  if negb (ack2 =? responses.ACK) then mret (Err "Scancode set selection failed"%string, keyboard, hw) else
  hw ← Ps2Controller_write_data fuel keyboard_commands.ENABLE_SCANNING hw;
  '(ack3, hw) ← Ps2Controller_read_data fuel hw;
  if negb (ack3 =? responses.ACK) then mret (Err "Enable scanning failed"%string, keyboard, hw) else
  mret (Ok (), Some KeyboardDriver_new, hw).

(** [handle_interrupt]: while the controller has a byte, process it. *)
Fixpoint handle_interrupt (fuel : nat) (keyboard : option KeyboardDriver) (hw : HW)
    : exec (option KeyboardDriver * HW) :=
  match fuel with
  | O => NoFuel
  | S fuel =>
      let '(s, hw) := inb 0x64 hw in
      if Z.land s 0x01 =? 0 then mret (keyboard, hw)
      else
        let '(scancode, hw) := inb 0x60 hw in
        handle_interrupt fuel (KeyboardDriver_process_scancode scancode <$> keyboard) hw
  end.

(** ** The initialisation of the subsystem *)

(** [while controller.output_buffer_full() { let _ = controller.read_data(); }]. *)
Fixpoint flush_output (fuel fuel' : nat) (hw : HW) : exec HW :=
  match fuel' with
  | O => NoFuel
  | S fuel' =>
      match Ps2Controller_output_buffer_full hw with
      | (true, hw) => '(_, hw) ← Ps2Controller_read_data fuel hw; flush_output fuel fuel' hw
      | (false, hw) => mret hw
      end
  end.

(** [init] of ps2.rs.  The last read of the configuration byte is only logged. *)
Definition ps2_init (fuel : nat) (keyboard : option KeyboardDriver) (hw : HW)
    : exec (result unit string * option KeyboardDriver * HW) :=
  hw ← Ps2Controller_send_command fuel commands.DISABLE_FIRST_PORT hw;
  hw ← Ps2Controller_send_command fuel commands.DISABLE_SECOND_PORT hw;
  hw ← flush_output fuel fuel hw;
  '(config, hw) ← Ps2Controller_send_command_with_response fuel commands.READ_CONFIG hw;
  let new_config := Z.land config (not_ 8 (Z.lor (Z.lor config_bits.FIRST_PORT_INTERRUPT
    config_bits.SECOND_PORT_INTERRUPT) config_bits.FIRST_PORT_TRANSLATION)) in
  hw ← Ps2Controller_send_command fuel commands.WRITE_CONFIG hw;
  hw ← Ps2Controller_write_data fuel new_config hw;
  '(test_result, hw) ← Ps2Controller_send_command_with_response fuel commands.TEST_CONTROLLER hw;
  if negb (test_result =? 0x55) then mret (Err "PS/2 controller self-test failed"%string, keyboard, hw) else
  '(port_test, hw) ← Ps2Controller_send_command_with_response fuel commands.TEST_FIRST_PORT hw;
  if negb (port_test =? 0x00) then mret (Err "PS/2 keyboard port test failed"%string, keyboard, hw) else
  hw ← Ps2Controller_send_command fuel commands.ENABLE_FIRST_PORT hw;
  '(r, keyboard, hw) ← keyboard_init fuel keyboard hw;
  match r with
  | Err e => mret (Err e, keyboard, hw)
  | Ok _ =>
      '(config, hw) ← Ps2Controller_send_command_with_response fuel commands.READ_CONFIG hw;
      let new_config := Z.lor config config_bits.FIRST_PORT_INTERRUPT in
      hw ← Ps2Controller_send_command fuel commands.WRITE_CONFIG hw;
      hw ← Ps2Controller_write_data fuel new_config hw;
      '(_, hw) ← Ps2Controller_send_command_with_response fuel commands.READ_CONFIG hw;
      mret (Ok (), keyboard, hw)
  end.
End Controller.

(** ** The hardware's protocol *)

(** What the controller holds: the bytes it will deliver, the configuration
    byte, and whether the next data byte is a new configuration. *)
Record ps2_view := mkView { v_bytes : list Z; v_config : Z; v_config_next : bool }.

(** The outcomes of the self-tests, and what the controller's self-test does to
    the configuration byte (some controllers reset it). *)
Record ps2_tests := mkTests {
  controller_test : Z; port_test : Z; keyboard_test : Z; after_test : Z → Z;
}.

Definition documented_commands : list Z :=
  [commands.READ_CONFIG; commands.WRITE_CONFIG; commands.DISABLE_SECOND_PORT; commands.TEST_CONTROLLER;
   commands.TEST_FIRST_PORT; commands.DISABLE_FIRST_PORT; commands.ENABLE_FIRST_PORT].
Definition command_effect (t : ps2_tests) (c : Z) (v : ps2_view) : ps2_view :=
  if c =? commands.READ_CONFIG then mkView (v.(v_bytes) ++ [v.(v_config)]) v.(v_config) false
  else if c =? commands.WRITE_CONFIG then mkView v.(v_bytes) v.(v_config) true
  else if c =? commands.TEST_CONTROLLER then
    mkView (v.(v_bytes) ++ [t.(controller_test)]) (t.(after_test) v.(v_config)) false
  else if c =? commands.TEST_FIRST_PORT then mkView (v.(v_bytes) ++ [t.(port_test)]) v.(v_config) false
  else mkView v.(v_bytes) v.(v_config) false.

(** A data byte is the new configuration or goes to the keyboard, which
    acknowledges it, and sends the result of its self-test after a reset. *)
Definition keyboard_bytes : list Z :=
  [keyboard_commands.RESET; keyboard_commands.SCANCODE_SET; 0x01; keyboard_commands.ENABLE_SCANNING].
Definition data_effect (t : ps2_tests) (d : Z) (v : ps2_view) : ps2_view :=
  if v.(v_config_next) then mkView v.(v_bytes) d false
  else if d =? keyboard_commands.RESET then
    mkView (v.(v_bytes) ++ [responses.ACK; t.(keyboard_test)]) v.(v_config) false
  else mkView (v.(v_bytes) ++ [responses.ACK]) v.(v_config) false.

(** A controller that is busy for at most [D] reads of the status register
    after a command, and takes at most [D] such reads to present a byte. *)
Class Ps2Device {HW : Type} `{Ports HW} (t : ps2_tests) (D : nat) := {
  view : HW → ps2_view;
  in_wait : HW → nat;
  out_wait : HW → nat;
  ps2_status hw :
    let '(s, hw') := inb 0x64 hw in
    Z.testbit s 0 = bool_decide (out_wait hw = 0%nat ∧ (view hw).(v_bytes) ≠ []) ∧
    Z.testbit s 1 = bool_decide (in_wait hw ≠ 0%nat) ∧
    view hw' = view hw ∧ in_wait hw' = pred (in_wait hw) ∧ out_wait hw' = pred (out_wait hw);
  ps2_data_read hw b q : (view hw).(v_bytes) = b :: q → out_wait hw = 0%nat →
    let '(x, hw') := inb 0x60 hw in
    x = b ∧ view hw' = mkView q (view hw).(v_config) (view hw).(v_config_next) ∧
    in_wait hw' = in_wait hw ∧ (out_wait hw' ≤ D)%nat;
  ps2_command c hw : c ∈ documented_commands → in_wait hw = 0%nat →
    view (outb 0x64 c hw) = command_effect t c (view hw) ∧ (in_wait (outb 0x64 c hw) ≤ D)%nat;
  ps2_data_write d hw : d ∈ keyboard_bytes ∨ (view hw).(v_config_next) = true → in_wait hw = 0%nat →
    view (outb 0x60 d hw) = data_effect t d (view hw) ∧ (in_wait (outb 0x60 d hw) ≤ D)%nat;
  ps2_write_delay p d hw : (out_wait hw ≤ D)%nat → (out_wait (outb p d hw) ≤ D)%nat;
  ps2_write_ready p d hw : out_wait hw = 0%nat → (view hw).(v_bytes) ≠ [] → out_wait (outb p d hw) = 0%nat;
}.

Section Device.
Context {HW : Type} `{Ports HW} (t : ps2_tests) (D : nat) `{!Ps2Device (HW := HW) t D}.

(** Between operations. *)
Definition settled (hw : HW) (v : ps2_view) : Prop :=
  view hw = v ∧ (in_wait hw ≤ D)%nat ∧ (out_wait hw ≤ D)%nat.

Lemma status_output (hw : HW) :
  let '(b, hw') := Ps2Controller_output_buffer_full hw in
  b = bool_decide (out_wait hw = 0%nat ∧ (view hw).(v_bytes) ≠ []) ∧
  view hw' = view hw ∧ in_wait hw' = pred (in_wait hw) ∧ out_wait hw' = pred (out_wait hw).
Proof.
  unfold Ps2Controller_output_buffer_full, Ps2Controller_read_status, PS2_COMMAND_PORT.
  pose proof (ps2_status hw) as Hs. destruct (inb 0x64 hw) as [s hw'].
  destruct Hs as (H0 & _ & Hv & Hi & Ho). change status_bits.OUTPUT_BUFFER_FULL with (2 ^ 0).
  by rewrite land_bit, H0.
Qed.
Lemma status_input (hw : HW) :
  let '(b, hw') := Ps2Controller_input_buffer_full hw in
  b = bool_decide (in_wait hw ≠ 0%nat) ∧
  view hw' = view hw ∧ in_wait hw' = pred (in_wait hw) ∧ out_wait hw' = pred (out_wait hw).
Proof.
  unfold Ps2Controller_input_buffer_full, Ps2Controller_read_status, PS2_COMMAND_PORT.
  pose proof (ps2_status hw) as Hs. destruct (inb 0x64 hw) as [s hw'].
  destruct Hs as (_ & H1 & Hv & Hi & Ho). change status_bits.INPUT_BUFFER_FULL with (2 ^ 1).
  by rewrite land_bit, H1.
Qed.

Lemma wait_input_ok fuel hw : (in_wait hw < fuel)%nat →
  ∃ hw', Ps2Controller_wait_input_buffer_empty fuel hw = Ret hw' ∧ view hw' = view hw ∧ in_wait hw' = 0%nat ∧
    (out_wait hw' ≤ out_wait hw)%nat.
Proof.
  revert hw. induction fuel as [|fuel IH]; intros hw Hf; [lia|]. cbn [Ps2Controller_wait_input_buffer_empty].
  pose proof (status_input hw) as Hs. destruct (Ps2Controller_input_buffer_full hw) as [b hw1].
  destruct Hs as (-> & Hv & Hi & Ho). case_bool_decide as Hz.
  - destruct (IH hw1 ltac:(lia)) as (hw2 & -> & Hv2 & Hi2 & Ho2). exists hw2. split_and!; [done|congruence|done|lia].
  - exists hw1. split_and!; [done|done|lia|lia].
Qed.
Lemma wait_output_ok fuel hw : (out_wait hw < fuel)%nat → (view hw).(v_bytes) ≠ [] →
  ∃ hw', Ps2Controller_wait_output_buffer_full fuel hw = Ret hw' ∧ view hw' = view hw ∧ out_wait hw' = 0%nat ∧
    (in_wait hw' ≤ in_wait hw)%nat.
Proof.
  revert hw. induction fuel as [|fuel IH]; intros hw Hf Hb; [lia|]. cbn [Ps2Controller_wait_output_buffer_full].
  pose proof (status_output hw) as Hs. destruct (Ps2Controller_output_buffer_full hw) as [b hw1].
  destruct Hs as (-> & Hv & Hi & Ho). case_bool_decide as Hz.
  - exists hw1. split_and!; [done|done|lia|lia].
  - destruct (IH hw1) as (hw2 & -> & Hv2 & Ho2 & Hi2); [destruct (decide (out_wait hw = 0%nat)); [tauto|lia]|by rewrite Hv|].
    exists hw2. split_and!; [done|congruence|done|lia].
Qed.

Context (fuel : nat) (Hfuel : (S D < fuel)%nat).

Lemma read_data_ok hw b q c n : settled hw (mkView (b :: q) c n) →
  ∃ hw', Ps2Controller_read_data fuel hw = Ret (b, hw') ∧ settled hw' (mkView q c n).
Proof.
  intros (Hv & Hi & Ho). unfold Ps2Controller_read_data.
  destruct (wait_output_ok fuel hw) as (hw1 & -> & Hv1 & Ho1 & Hi1); [lia|by rewrite Hv|]. cbn [mbind exec_bind].
  pose proof (ps2_data_read hw1 b q) as Hr. rewrite Hv1, Hv in Hr. specialize (Hr eq_refl Ho1).
  unfold PS2_DATA_PORT. destruct (inb 0x60 hw1) as [x hw2]. destruct Hr as (-> & Hv2 & Hi2 & Ho2).
  exists hw2. split; [done|]. split_and!; [done|lia|lia].
Qed.
Lemma write_data_ok d hw v : settled hw v → d ∈ keyboard_bytes ∨ v.(v_config_next) = true →
  ∃ hw', Ps2Controller_write_data fuel d hw = Ret hw' ∧ settled hw' (data_effect t d v).
Proof.
  intros (Hv & Hi & Ho) Hd. unfold Ps2Controller_write_data, PS2_DATA_PORT.
  destruct (wait_input_ok fuel hw) as (hw1 & -> & Hv1 & Hi1 & Ho1); [lia|]. cbn [mbind exec_bind].
  destruct (ps2_data_write d hw1) as (Hv2 & Hi2); [by rewrite Hv1, Hv|done|].
  eexists. split; [done|]. split_and!; [by rewrite Hv2, Hv1, Hv|done|apply ps2_write_delay; lia].
Qed.
Lemma send_command_ok c hw v : settled hw v → c ∈ documented_commands →
  ∃ hw', Ps2Controller_send_command fuel c hw = Ret hw' ∧ settled hw' (command_effect t c v) ∧
    (v.(v_bytes) ≠ [] → out_wait hw = 0%nat → out_wait hw' = 0%nat).
Proof.
  intros (Hv & Hi & Ho) Hc. unfold Ps2Controller_send_command, PS2_COMMAND_PORT.
  destruct (wait_input_ok fuel hw) as (hw1 & -> & Hv1 & Hi1 & Ho1); [lia|]. cbn [mbind exec_bind].
  destruct (ps2_command c hw1 Hc Hi1) as (Hv2 & Hi2).
  eexists. split; [done|]. split; [split_and!; [by rewrite Hv2, Hv1, Hv|done|apply ps2_write_delay; lia]|].
  intros Hb H0. apply ps2_write_ready; [lia|by rewrite Hv1, Hv].
Qed.
Lemma command_response_ok c hw cf n r cf' : settled hw (mkView [] cf n) → c ∈ documented_commands →
  command_effect t c (mkView [] cf n) = mkView [r] cf' false →
  ∃ hw', Ps2Controller_send_command_with_response fuel c hw = Ret (r, hw') ∧ settled hw' (mkView [] cf' false).
Proof.
  intros Hs Hc He. unfold Ps2Controller_send_command_with_response.
  destruct (send_command_ok c hw _ Hs Hc) as (hw1 & -> & Hs1 & _). cbn [mbind exec_bind]. rewrite He in Hs1.
  by apply (read_data_ok hw1).
Qed.

(** At most one byte is left over from before, and it is there to be read. *)
Lemma flush_ok hw l c n : settled hw (mkView l c n) → l = [] ∨ (∃ b, l = [b]) ∧ out_wait hw = 0%nat →
  ∃ hw', flush_output fuel fuel hw = Ret hw' ∧ settled hw' (mkView [] c n).
Proof using Hfuel.
  assert (∀ hw, settled hw (mkView [] c n) → ∀ f, ∃ hw', flush_output fuel (S f) hw = Ret hw' ∧ settled hw' (mkView [] c n)) as Hnil.
  { intros hw0 (Hv & Hi & Ho) f. cbn [flush_output].
    pose proof (status_output hw0) as Hs. destruct (Ps2Controller_output_buffer_full hw0) as [b hw1].
    destruct Hs as (-> & Hv1 & Hi1 & Ho1). rewrite Hv. rewrite bool_decide_false by (simpl; naive_solver).
    exists hw1. split; [done|]. split_and!; [congruence|lia|lia]. }
  intros Hs Hl. assert (∃ f, fuel = S (S f)) as [f Hf] by (exists (fuel - 2)%nat; lia).
  assert (flush_output fuel fuel hw = flush_output fuel (S (S f)) hw) as -> by (by rewrite <- Hf).
  destruct Hl as [->|[[b ->] Ho]]; [by apply Hnil|]. remember (S f) as f1. cbn [flush_output]. destruct Hs as (Hv & Hi & _).
  pose proof (status_output hw) as Hs. destruct (Ps2Controller_output_buffer_full hw) as [x hw1].
  destruct Hs as (-> & Hv1 & Hi1 & Ho1). rewrite Hv, bool_decide_true by done.
  destruct (read_data_ok hw1 b [] c n) as (hw2 & Hr & Hs2); [split_and!; [congruence|lia|lia]|].
  rewrite Hr. cbn [mbind exec_bind]. subst f1. by apply Hnil.
Qed.

Lemma keyboard_init_ok kb hw c : settled hw (mkView [] c false) →
  ∃ r kb' hw', keyboard_init fuel kb hw = Ret (r, kb', hw') ∧
  match r with
  | Ok _ => t.(keyboard_test) = responses.SELF_TEST_PASSED ∧ kb' = Some KeyboardDriver_new ∧ settled hw' (mkView [] c false)
  | Err _ => t.(keyboard_test) ≠ responses.SELF_TEST_PASSED ∧ kb' = kb
  end.
Proof using Hfuel.
  intros Hs. unfold keyboard_init.
  destruct (write_data_ok keyboard_commands.RESET hw _ Hs) as (hw1 & -> & Hs1); [left; set_solver|].
  cbn [mbind exec_bind]. unfold data_effect in Hs1. simpl in Hs1.
  destruct (read_data_ok hw1 _ _ _ _ Hs1) as (hw2 & -> & Hs2). cbn [mbind exec_bind]. simpl.
  destruct (read_data_ok hw2 _ _ _ _ Hs2) as (hw3 & -> & Hs3). cbn [mbind exec_bind].
  destruct (Z.eqb_spec t.(keyboard_test) responses.SELF_TEST_PASSED) as [Ht|Ht]; cbn [negb]; [|by do 3 eexists].
  destruct (write_data_ok keyboard_commands.SCANCODE_SET hw3 _ Hs3) as (hw4 & -> & Hs4); [left; set_solver|].
  cbn [mbind exec_bind]. unfold data_effect in Hs4. simpl in Hs4.
  destruct (read_data_ok hw4 _ _ _ _ Hs4) as (hw5 & -> & Hs5). cbn [mbind exec_bind]. simpl.
  destruct (write_data_ok 0x01 hw5 _ Hs5) as (hw6 & -> & Hs6); [left; set_solver|].
  cbn [mbind exec_bind]. unfold data_effect in Hs6. simpl in Hs6.
  destruct (read_data_ok hw6 _ _ _ _ Hs6) as (hw7 & -> & Hs7). cbn [mbind exec_bind]. simpl.
  destruct (write_data_ok keyboard_commands.ENABLE_SCANNING hw7 _ Hs7) as (hw8 & -> & Hs8); [left; set_solver|].
  cbn [mbind exec_bind]. unfold data_effect in Hs8. simpl in Hs8.
  destruct (read_data_ok hw8 _ _ _ _ Hs8) as (hw9 & -> & Hs9). cbn [mbind exec_bind]. simpl.
  by do 3 eexists.
Qed.

(** Replacing the configuration byte. *)
Lemma write_config_ok d hw c n : settled hw (mkView [] c n) →
  ∃ hw' hw'', Ps2Controller_send_command fuel commands.WRITE_CONFIG hw = Ret hw' ∧
    Ps2Controller_write_data fuel d hw' = Ret hw'' ∧ settled hw'' (mkView [] d false).
Proof using Hfuel.
  intros Hs. destruct (send_command_ok commands.WRITE_CONFIG hw _ Hs) as (hw1 & -> & Hs1 & _); [set_solver|].
  destruct (write_data_ok d hw1 _ Hs1) as (hw2 & Hw & Hs2); [by right|]. by exists hw1, hw2.
Qed.

Definition ports_config (c : Z) : Z := Z.land c (not_ 8 0x43).

(** C24: the initialisation of the PS/2 subsystem returns whenever the controller
    follows the protocol, however long (up to [D] polls) it takes to answer.  It
    succeeds exactly when the three self-tests pass; the keyboard then has a
    fresh driver, no byte is left in the controller, and the configuration
    written has interrupts of the first port on and, unless the controller's
    self-test changed it, translation and interrupts of the second port off.
    Otherwise it reports an error and leaves the global keyboard as it was. *)
Theorem ps2_init_outcomes (kb : option KeyboardDriver) (hw : HW) (l : list Z) (c : Z) (n : bool)
    (Hhw : settled hw (mkView l c n)) (Hl : l = [] ∨ (∃ b, l = [b]) ∧ out_wait hw = 0%nat) :
  ∃ r kb' hw', ps2_init fuel kb hw = Ret (r, kb', hw') ∧
  match r with
  | Ok _ => t.(controller_test) = 0x55 ∧ t.(port_test) = 0 ∧ t.(keyboard_test) = 0xAA ∧
      kb' = Some KeyboardDriver_new ∧ settled hw' (mkView [] (Z.lor (t.(after_test) (ports_config c)) 0x01) false)
  | Err _ => (t.(controller_test) ≠ 0x55 ∨ t.(port_test) ≠ 0 ∨ t.(keyboard_test) ≠ 0xAA) ∧ kb' = kb
  end.
Proof using Hfuel.
  unfold ps2_init.
  destruct (send_command_ok commands.DISABLE_FIRST_PORT hw _ Hhw) as (hw1 & -> & Hs1 & Hr1); [set_solver|].
  cbn [mbind exec_bind]. unfold command_effect in Hs1. simpl in Hs1.
  destruct (send_command_ok commands.DISABLE_SECOND_PORT hw1 _ Hs1) as (hw2 & -> & Hs2 & Hr2); [set_solver|].
  cbn [mbind exec_bind]. unfold command_effect in Hs2. simpl in Hs2.
  destruct (flush_ok hw2 l c false Hs2) as (hw3 & -> & Hs3).
  { destruct Hl as [->|[[b ->] Ho]]; [by left|]. right. split; [by exists b|]. by apply Hr2, Hr1. }
  cbn [mbind exec_bind].
  destruct (command_response_ok commands.READ_CONFIG hw3 c false c c Hs3) as (hw4 & -> & Hs4); [set_solver|done|].
  cbn [mbind exec_bind]. change (Z.lor (Z.lor _ _) _) with 0x43. fold (ports_config c).
  destruct (write_config_ok (ports_config c) hw4 c false Hs4) as (hw5 & hw6 & -> & Hw & Hs6).
  cbn [mbind exec_bind]. rewrite Hw. cbn [mbind exec_bind].
  destruct (command_response_ok commands.TEST_CONTROLLER hw6 _ _ t.(controller_test) (t.(after_test) (ports_config c)) Hs6) as (hw7 & -> & Hs7); [set_solver|done|].
  cbn [mbind exec_bind]. destruct (Z.eqb_spec t.(controller_test) 0x55) as [Ht1|Ht1]; cbn [negb]; [|do 3 eexists; split; [done|]; split; [tauto|done]].
  destruct (command_response_ok commands.TEST_FIRST_PORT hw7 _ _ t.(port_test) (t.(after_test) (ports_config c)) Hs7) as (hw8 & -> & Hs8); [set_solver|done|].
  cbn [mbind exec_bind]. destruct (Z.eqb_spec t.(port_test) 0) as [Ht2|Ht2]; cbn [negb]; [|do 3 eexists; split; [done|]; split; [tauto|done]].
  destruct (send_command_ok commands.ENABLE_FIRST_PORT hw8 _ Hs8) as (hw9 & -> & Hs9 & _); [set_solver|].
  cbn [mbind exec_bind]. destruct (keyboard_init_ok kb hw9 _ Hs9) as (r & kb' & hw10 & -> & Hk).
  cbn [mbind exec_bind]. destruct r as [u|e]; [|destruct Hk as [Hk ->]; do 3 eexists; split; [done|]; split; [tauto|done]]. destruct Hk as (Ht3 & -> & Hs10).
  destruct (command_response_ok commands.READ_CONFIG hw10 _ _ (t.(after_test) (ports_config c)) (t.(after_test) (ports_config c)) Hs10) as (hw11 & -> & Hs11); [set_solver|done|].
  cbn [mbind exec_bind v_config].
  destruct (write_config_ok (Z.lor (t.(after_test) (ports_config c)) 1) hw11 _ _ Hs11) as (hw12 & hw13 & -> & Hw2 & Hs13).
  cbn [mbind exec_bind]. change config_bits.FIRST_PORT_INTERRUPT with 1. rewrite Hw2. cbn [mbind exec_bind].
  destruct (command_response_ok commands.READ_CONFIG hw13 _ _ (Z.lor (t.(after_test) (ports_config c)) 1) (Z.lor (t.(after_test) (ports_config c)) 1) Hs13) as (hw14 & -> & Hs14); [set_solver|done|].
  cbn [mbind exec_bind]. by do 3 eexists.
Qed.
End Device.

(** ** The interrupt handler *)

Section Interrupt.
Context {HW : Type} `{Ports HW} (t : ps2_tests) (D : nat) `{!Ps2Device (HW := HW) t D}.

Lemma handle_interrupt_ok fuel kb hw l c n : (length l < fuel)%nat → view hw = mkView l c n →
  ∃ k hw' hw'',
    handle_interrupt fuel kb hw = Ret (process_all (take k l) <$> kb, hw'') ∧ hw'' = snd (inb 0x64 hw') ∧
    view hw' = mkView (drop k l) c n ∧ (drop k l = [] ∨ out_wait hw' ≠ 0%nat).
Proof.
  revert kb hw l. induction fuel as [|fuel IH]; intros kb hw l Hf Hv; [lia|]. cbn [handle_interrupt].
  pose proof (ps2_status hw) as Hs. destruct (inb 0x64 hw) as [s hw1] eqn:Hin.
  destruct Hs as (H0 & _ & Hv1 & _ & Ho1). pose proof (land_bit s 0 ltac:(lia)) as Hbit. rewrite H0 in Hbit.
  change (2 ^ 0) with 1 in Hbit. destruct (Z.land s 1 =? 0) eqn:Hb; cbn [negb] in Hbit.
  - exists 0%nat, hw, hw1. rewrite Hin. split_and!; [by destruct kb|done|done|].
    symmetry in Hbit. apply bool_decide_eq_false in Hbit. rewrite Hv in Hbit. simpl in Hbit.
    destruct (decide (l = [])) as [->|]; [by left|]. right. naive_solver.
  - symmetry in Hbit. apply bool_decide_eq_true in Hbit as [Ho Hne]. rewrite Hv in Hne. destruct l as [|b q]; [done|].
    pose proof (ps2_data_read hw1 b q) as Hr. rewrite Hv1, Hv in Hr. specialize (Hr eq_refl ltac:(lia)).
    destruct (inb 0x60 hw1) as [x hw2]. destruct Hr as (-> & Hv2 & _).
    destruct (IH (KeyboardDriver_process_scancode b <$> kb) hw2 q ltac:(simpl in Hf; lia) Hv2) as (k & hw3 & hw4 & -> & Hrest).
    exists (S k), hw3, hw4. split; [|done]. by destruct kb.
Qed.

(** C25: the keyboard interrupt handler terminates, having processed in order the
    bytes the controller presents, and leaves the others in the controller: no
    byte is lost or processed twice.  It stops only at the end or at a byte the
    controller does not present yet. *)
Theorem interrupt_drains_controller (fuel : nat) (kb : option KeyboardDriver) (hw : HW)
    (Hf : (length (view hw).(v_bytes) < fuel)%nat) :
  ∃ done rest hw' hw'',
    (view hw).(v_bytes) = done ++ rest ∧
    handle_interrupt fuel kb hw = Ret (process_all done <$> kb, hw'') ∧ hw'' = snd (inb 0x64 hw') ∧
    (view hw'').(v_bytes) = rest ∧ (rest = [] ∨ out_wait hw' ≠ 0%nat).
Proof.
  destruct (view hw) as [l c n] eqn:Hv. destruct (handle_interrupt_ok fuel kb hw l c n Hf Hv)
    as (k & hw' & hw'' & Hrun & Hlast & Hv' & Hrest).
  exists (take k l), (drop k l), hw', hw''. split_and!; try done; [by rewrite take_drop|].
  pose proof (ps2_status hw') as Hs. rewrite Hlast.
  destruct (inb 0x64 hw') as [s hw2]. destruct Hs as (_ & _ & Hv2 & _). cbn [snd]. by rewrite Hv2, Hv'.
Qed.
End Interrupt.

(** ** A controller that follows the protocol

    One that needs one poll before it accepts the next byte and before it
    presents a byte. *)

Record chip := mkChip { c_view : ps2_view; c_in : nat; c_out : nat }.

Definition chip_in (p : Z) (k : chip) : Z * chip :=
  if p =? 0x64 then
    ((if bool_decide (k.(c_out) = 0%nat ∧ k.(c_view).(v_bytes) ≠ []) then 1 else 0) +
       (if bool_decide (k.(c_in) ≠ 0%nat) then 2 else 0),
     mkChip k.(c_view) (pred k.(c_in)) (pred k.(c_out)))
  else
    match k.(c_view).(v_bytes) with
    | [] => (0, k)
    | b :: q => (b, mkChip (mkView q k.(c_view).(v_config) k.(c_view).(v_config_next)) k.(c_in) 1)
    end.
Definition chip_out (t : ps2_tests) (p d : Z) (k : chip) : chip :=
  let wait := if bool_decide (k.(c_view).(v_bytes) = []) then 1%nat else k.(c_out) in
  if p =? 0x64 then mkChip (command_effect t d k.(c_view)) 1 wait
  else mkChip (data_effect t d k.(c_view)) 1 wait.

Section Chip.
Context (t : ps2_tests).
#[local] Instance chip_ports : Ports chip := { inb := chip_in; outb := chip_out t }.

#[local] Instance chip_device : Ps2Device (HW := chip) t 1.
Proof.
  refine {| view := c_view; in_wait := c_in; out_wait := c_out |}.
  - intros hw. simpl. unfold chip_in. simpl. split_and!; try done;
      destruct (bool_decide (c_out hw = 0%nat ∧ _)), (bool_decide (c_in hw ≠ 0%nat)); done.
  - intros hw b q Hb Ho. simpl. unfold chip_in. simpl. rewrite Hb. by split_and!.
  - intros c hw _ _. by split.
  - intros d hw _ _. by split.
  - intros p d hw Ho. simpl. unfold chip_out. destruct (p =? 0x64); simpl; case_bool_decide; lia.
  - intros p d hw Ho Hb. simpl. unfold chip_out. destruct (p =? 0x64); simpl; by rewrite bool_decide_false.
Defined.
End Chip.

Definition good_tests : ps2_tests := mkTests 0x55 0 0xAA id.
(** A byte is left over in the output buffer, and all configuration bits are on. *)
Definition booting_chip : chip := mkChip (mkView [0x1C] 0x67 false) 0 0.

Lemma ps2_init_outcomes_witness :
  ∃ hw', @ps2_init chip (chip_ports good_tests) 3 None booting_chip = Ret (Ok (), Some KeyboardDriver_new, hw') ∧
    c_view hw' = mkView [] 0x25 false.
Proof.
  destruct (@ps2_init_outcomes chip (chip_ports good_tests) good_tests 1 (chip_device good_tests) 3 ltac:(lia) None
    booting_chip [0x1C] 0x67 false) as (r & kb & hw' & Hrun & Hr).
  { split_and!; simpl; [done|lia|lia]. }
  { right. split; [by exists 0x1C|done]. }
  destruct r as [[]|e]; [|destruct Hr as ([Ht|[Ht|Ht]] & _); by destruct Ht].
  destruct Hr as (_ & _ & _ & -> & (Hv & _)). exists hw'. split; [exact Hrun|exact Hv].
Defined.

Definition typing_chip : chip := mkChip (mkView [0x2A; 0x1E] 0x25 false) 0 0.

Lemma interrupt_drains_controller_witness :
  ∃ l rest hw', [0x2A; 0x1E] = l ++ rest ∧
    @handle_interrupt chip (chip_ports good_tests) 3 (Some KeyboardDriver_new) typing_chip =
      Ret (Some (process_all l KeyboardDriver_new), hw').
Proof.
  destruct (@interrupt_drains_controller chip (chip_ports good_tests) good_tests 1 (chip_device good_tests) 3
    (Some KeyboardDriver_new) typing_chip ltac:(simpl; lia)) as (l & rest & hw1 & hw2 & Hl & Hrun & _).
  exists l, rest, hw2. split; [exact Hl|exact Hrun].
Defined.

(** With no controller the ports read as ones, and the initialisation, whose
    waits have no timeout, never returns. *)
Section Absent.
#[local] Instance floating_ports : Ports unit := { inb _ hw := (0xFF, hw); outb _ _ hw := hw }.

Lemma ps2_init_without_controller fuel kb : ps2_init fuel kb () = NoFuel.
Proof.
  unfold ps2_init, Ps2Controller_send_command. assert (Ps2Controller_wait_input_buffer_empty fuel () = NoFuel) as ->;
    [|done]. by induction fuel.
Qed.
End Absent.
