(* ===== verification/Dma.v ===== *)
(** * Dma: buffers that devices read and write

    pci/dma.rs: runs of contiguous pages from the frame allocator, by
    themselves ([get_zeroed_dma], returned when the [DynamicDmaBuffer] is
    dropped) and in a pool of 24 pages ([DmaManager]).  [PageRuns] is what the
    code uses of the frame allocator; FrameForest.v's forest is an instance.
    Memory is a function from the addresses of the direct map to bytes. *)

From S2P Require Import Prelude X86 FrameForest.

(** ** What DMA uses of the frame allocator *)

(** [allocate_contiguous_pages], [deallocate_contiguous_frames] and the field
    [hddm_offset]; [pr_inv fa used]: [used] are the runs handed out, as pairs of
    a virtual address and a number of pages. *)
Class PageRuns (FA : Type) := {
  pr_allocate : Z → FA → exec (option Z * FA);
  pr_deallocate_frames : Z → Z → FA → exec FA;
  pr_hddm_offset : FA → Z;
  pr_inv : FA → list (Z * Z) → Prop;
}.

Class PageRunsOk (FA : Type) `{PageRuns FA} (hddm : Z) := {
  pr_inv_perm fa used used' : used ≡ₚ used' → pr_inv fa used → pr_inv fa used';
  pr_inv_apart fa used : pr_inv fa used → pairwise pages_apart used;
  pr_inv_offset fa used : pr_inv fa used → pr_hddm_offset fa = hddm ∧ 2 ^ 64 - 2 ^ 47 ≤ hddm;
  pr_inv_run fa used v n : pr_inv fa used → (v, n) ∈ used → 0 < n →
    (4096 | v) ∧ (4096 | v - hddm) ∧ hddm ≤ v ∧ v + 4096 * n < 2 ^ 64;
  pr_allocate_ok fa used k : pr_inv fa used → (k < 52)%nat →
    ∃ r fa', pr_allocate (2 ^ Z.of_nat k) fa = Ret (r, fa') ∧
      match r with Some v => pr_inv fa' ((v, 2 ^ Z.of_nat k) :: used) | None => fa' = fa end;
  pr_allocate_bad fa n : is_power_of_two n = false → pr_allocate n fa = Panic;
  pr_deallocate_ok fa used v n used' : pr_inv fa used → used ≡ₚ (v, n) :: used' → 0 < n →
    ∃ fa', pr_deallocate_frames (v - hddm) n fa = Ret fa' ∧ pr_inv fa' used';
}.

Section Forest_runs.
Context `{AddressesOk} (L : nat) (hddm : Z) (Q : slot → Prop) (HQ : ∀ sl u, Q sl → Q (with_used sl u)).

Definition forest_runs : PageRuns forest := {|
  pr_allocate := Forest_allocate_contiguous_pages;
  pr_deallocate_frames := Forest_deallocate_contiguous_frames;
  pr_hddm_offset f := f.2.(ff_hddm_offset);
  pr_inv f used := forest_inv L hddm Q (f, used);
|}.

Lemma forest_runs_ok : @PageRunsOk forest forest_runs hddm.
Proof.
  split; cbn [pr_allocate pr_deallocate_frames pr_hddm_offset pr_inv forest_runs].
  - intros f used used'. apply forest_inv_perm.
  - intros f used. apply forest_inv_apart.
  - intros f used (Hd & [Hlo _] & _). done.
  - intros f used v n Hinv Hin Hn. pose proof Hinv as (_ & (Hlo & Hal) & _).
    destruct (forest_inv_where L hddm Q f used (v, n) Hinv Hin) as (sl & Hsh & _ & H1 & H2 & H3 & H4). simpl in *.
    destruct Hsh as (_ & _ & ? & _ & _ & ?). split_and!; [done|by apply Z.divide_sub_r|lia|lia].
  - intros [m self] used k Hinv Hk. destruct (forest_alloc_ok L hddm Q HQ m self used k Hinv Hk) as (r & f' & Hrun & _ & Hr).
    exists r, f'. split; [done|]. destruct r; [done|by destruct Hr].
  - intros [m self] n Hn. unfold Forest_allocate_contiguous_pages. by rewrite Hn.
  - intros [m self] used v n used' Hinv Hp Hn.
    destruct (forest_inv_phys L hddm Q _ used v n Hinv) as (Hv & Hphys & _); [rewrite Hp; by left|lia|].
    pose proof Hinv as (Hd & (Hlo & _) & _). cbn [fst snd] in Hd.
    destruct (forest_dealloc_ok L hddm Q HQ m self used v n used' Hinv Hp) as (f' & Hrun & Hinv').
    exists f'. split; [|done]. unfold Forest_deallocate_contiguous_frames. cbn [snd]. rewrite Hd.
    assert (is_power_of_two n = true) as ->.
    { unfold Forest_deallocate_contiguous_pages in Hrun. by destruct (is_power_of_two n). }
    cbn [rassert mbind exec_bind]. run. replace (v - hddm + hddm) with v by lia.
    rewrite VirtAddr_new_ok by (right; lia). done.
Qed.
End Forest_runs.

(** ** Buffers *)

Inductive DmaError : Type := mkDmaError.

Record DmaBuffer := mkDmaBuffer { phys_addr : Z; virt_addr : Z; size : Z }.
#[export] Instance DmaBuffer_eq_dec : EqDecision DmaBuffer.
Proof. solve_decision. Defined.

Record DmaPool := mkDmaPool { buffers : list DmaBuffer; free_buffers : list nat; buffer_size : Z }.
Record DmaManager := mkDmaManager { pools_4kb : DmaPool }.

(** A [DynamicDmaBuffer] and a [PooledDmaBuffer] hold a buffer, which their
    destructors return. *)
Record DynamicDmaBuffer := mkDynamic { dyn_buffer : DmaBuffer }.
Record PooledDmaBuffer := mkPooled { pooled_buffer : DmaBuffer }.

(** The memory and the global [FRAME_ALLOCATOR]. *)
Record dma_world (FA : Type) := mkWorld { ram : Z → Z; frame_allocator : option FA }.
Arguments mkWorld {FA} _ _.
Arguments ram {FA} _.
Arguments frame_allocator {FA} _.

Section Dma.
Context `{Addresses} {FA : Type} `{PageRuns FA}.

(** [size_of::<()>()]. *)
Definition SIZE_OF_UNIT : Z := 0.

(** [virt.as_mut_ptr::<()>()] is a pointer to [()], so [write_bytes] gets
    elements of size 0. *)
Definition get_zeroed_dma_internal (frames : Z) (w : dma_world FA) : exec (result DmaBuffer DmaError * dma_world FA) :=
  match w.(frame_allocator) with
  | None => mret (Err mkDmaError, w)
  | Some fa =>
      '(r, fa) ← pr_allocate frames fa;
      match r with
      | None => mret (Err mkDmaError, mkWorld w.(ram) (Some fa))
      | Some virt =>
          count ← mul_chk 64 frames 4096;
          let ram := write_bytes SIZE_OF_UNIT virt 0 count w.(ram) in
          phys ← sub_chk virt (pr_hddm_offset fa);
          phys ← PhysAddr_new phys;
          mret (Ok (mkDmaBuffer phys virt frames), mkWorld ram (Some fa))
      end
  end.

Definition get_zeroed_dma (frames : Z) (w : dma_world FA) : exec (result DynamicDmaBuffer DmaError * dma_world FA) :=
  '(r, w) ← get_zeroed_dma_internal frames w;
  match r with
  | Err e => mret (Err e, w)
  | Ok buffer => mret (Ok (mkDynamic buffer), w)
  end.

Definition free_zeroed_dma (buffer : DmaBuffer) (w : dma_world FA) : exec (result unit DmaError * dma_world FA) :=
  match w.(frame_allocator) with
  | None => mret (Err mkDmaError, w)
  | Some fa =>
      fa ← pr_deallocate_frames buffer.(phys_addr) buffer.(size) fa;
      mret (Ok (), mkWorld w.(ram) (Some fa))
  end.

(** [Drop for DynamicDmaBuffer]: the result is ignored. *)
Definition DynamicDmaBuffer_drop (b : DynamicDmaBuffer) (w : dma_world FA) : exec (dma_world FA) :=
  '(_, w) ← free_zeroed_dma b.(dyn_buffer) w;
  mret w.

(** The loop of [DmaPool::new]; a failure drops the vector, whose elements have
    no destructor. *)
Fixpoint pool_buffers (buffer_size_frames : Z) (count : nat) (w : dma_world FA)
    : exec (result (list DmaBuffer) DmaError * dma_world FA) :=
  match count with
  | O => mret (Ok [], w)
  | S count =>
      '(r, w) ← get_zeroed_dma_internal buffer_size_frames w;
      match r with
      | Err e => mret (Err e, w)
      | Ok buffer =>
          '(r, w) ← pool_buffers buffer_size_frames count w;
          match r with
          | Err e => mret (Err e, w)
          | Ok buffers => mret (Ok (buffer :: buffers), w)
          end
      end
  end.
Definition DmaPool_new (buffer_size_frames : Z) (num_buffers : nat) (w : dma_world FA)
    : exec (result DmaPool DmaError * dma_world FA) :=
  '(r, w) ← pool_buffers buffer_size_frames num_buffers w;
  match r with
  | Err e => mret (Err e, w)
  | Ok buffers => mret (Ok (mkDmaPool buffers (seq 0 num_buffers) buffer_size_frames), w)
  end.
Definition DmaManager_new (w : dma_world FA) : exec (result DmaManager DmaError * dma_world FA) :=
  '(r, w) ← DmaPool_new 1 24 w;
  match r with
  | Err e => mret (Err e, w)
  | Ok pool => mret (Ok (mkDmaManager pool), w)
  end.
End Dma.

(** [Vec::pop] takes the last element. *)
Definition vec_pop {A} (l : list A) : option (A * list A) :=
  match reverse l with [] => None | x :: l => Some (x, reverse l) end.

Definition DmaPool_allocate_buffer (p : DmaPool) : exec (option DmaBuffer * DmaPool) :=
  match vec_pop p.(free_buffers) with
  | None => mret (None, p)
  | Some (i, free) =>
      b ← index p.(buffers) i;
      mret (Some b, mkDmaPool p.(buffers) free p.(buffer_size))
  end.

(** [iter().position(..)]. *)
Definition position (virt : Z) (l : list DmaBuffer) : option nat :=
  fst <$> list_find (λ b, b.(virt_addr) = virt) l.
Definition DmaPool_free_buffer (b : DmaBuffer) (p : DmaPool) : DmaPool :=
  match position b.(virt_addr) p.(buffers) with
  | Some i => mkDmaPool p.(buffers) (p.(free_buffers) ++ [i]) p.(buffer_size)
  | None => p
  end.

Definition get_pool_4kb (m : DmaManager) : exec (option DmaBuffer * DmaManager) :=
  '(r, p) ← DmaPool_allocate_buffer m.(pools_4kb);
  mret (r, mkDmaManager p).
Definition free_buffer_4kb (b : DmaBuffer) (m : DmaManager) : DmaManager :=
  mkDmaManager (DmaPool_free_buffer b m.(pools_4kb)).

(** [Drop for PooledDmaBuffer], on the global [DMA_MANAGER]. *)
Definition PooledDmaBuffer_drop (b : PooledDmaBuffer) (m : DmaManager) : DmaManager :=
  free_buffer_4kb b.(pooled_buffer) m.

(** ** Correctness *)

Section Buffers.
Context `{AddressesOk} {FA : Type} `{PageRuns FA} (hddm : Z) `{!PageRunsOk FA hddm}.

(** A buffer stands for the run of pages at its virtual address. *)
Definition run_of (b : DmaBuffer) : Z * Z := (b.(virt_addr), b.(size)).

Lemma get_zeroed_dma_internal_ok mem fa used k : pr_inv fa used → (k < 52)%nat →
  ∃ r fa' mem', get_zeroed_dma_internal (2 ^ Z.of_nat k) (mkWorld mem (Some fa)) = Ret (r, mkWorld mem' (Some fa')) ∧
    (∀ a, mem' a = mem a) ∧
    match r with
    | Ok b => pr_inv fa' (run_of b :: used) ∧ b.(virt_addr) = b.(phys_addr) + hddm ∧
        (4096 | b.(phys_addr)) ∧ b.(size) = 2 ^ Z.of_nat k
    | Err _ => fa' = fa ∧ pr_allocate (2 ^ Z.of_nat k) fa = Ret (None, fa)
    end.
Proof.
  intros Hinv Hk. destruct (pr_allocate_ok fa used k Hinv Hk) as (r & fa' & Ha & Hr).
  unfold get_zeroed_dma_internal. cbn [frame_allocator ram]. rewrite Ha. cbn [mbind exec_bind].
  destruct r as [v|]; [|by subst fa'; exists (Err mkDmaError), fa, mem].
  assert (2 ^ Z.of_nat k < 2 ^ 52) by (apply Z.pow_lt_mono_r; lia).
  destruct (pr_inv_offset _ _ Hr) as [Hoff Hlo]. rewrite Hoff.
  destruct (pr_inv_run _ _ v (2 ^ Z.of_nat k) Hr) as (Hal & Hal' & Hv & Hend); [by left|lia|].
  run. run. rewrite PhysAddr_new_ok by lia. cbn [mbind exec_bind].
  eexists (Ok _), _, _. split; [done|]. split.
  - intros a. unfold write_bytes, SIZE_OF_UNIT. cbn [ram]. rewrite Z.mul_0_r, Z.add_0_r.
    destruct (Z.leb_spec v a), (Z.ltb_spec a v); simpl; done || lia.
  - split_and!; simpl; [done|lia|done|done].
Qed.

(** C39: a request for 2^k pages, k < 52, made with [get_zeroed_dma] returns and
    writes no memory (the pages are not zeroed).  When it succeeds the buffer is
    a fresh run of that many pages: page aligned, physically contiguous (its
    addresses for the processor and for devices differ by the offset of the
    direct map), and apart from every run in use; dropping the buffer returns
    exactly that run, so that just the runs in use before are in use again.  When
    it fails the page allocator has no such run, and its state is unchanged. *)
Theorem dma_buffer_roundtrip (mem : Z → Z) (fa : FA) (used : list (Z * Z)) (k : nat)
    (Hinv : pr_inv fa used) (Hk : (k < 52)%nat) :
  ∃ r fa' mem', get_zeroed_dma (2 ^ Z.of_nat k) (mkWorld mem (Some fa)) = Ret (r, mkWorld mem' (Some fa')) ∧
    (∀ a, mem' a = mem a) ∧
    match r with
    | Ok d =>
        let b := d.(dyn_buffer) in
        b.(size) = 2 ^ Z.of_nat k ∧ b.(virt_addr) = b.(phys_addr) + hddm ∧ (4096 | b.(phys_addr)) ∧
        (∀ x, x ∈ used → pages_apart (run_of b) x) ∧
        ∃ fa'', DynamicDmaBuffer_drop d (mkWorld mem' (Some fa')) = Ret (mkWorld mem' (Some fa'')) ∧ pr_inv fa'' used
    | Err _ => fa' = fa ∧ pr_allocate (2 ^ Z.of_nat k) fa = Ret (None, fa)
    end.
Proof.
  destruct (get_zeroed_dma_internal_ok mem fa used k Hinv Hk) as (r & fa' & mem' & Hrun & Hmem & Hr).
  unfold get_zeroed_dma. rewrite Hrun. cbn [mbind exec_bind]. destruct r as [b|e]; [|by exists (Err e), fa', mem'].
  destruct Hr as (Hinv' & Hv & Hal & Hs). exists (Ok (mkDynamic b)), fa', mem'. split; [done|]. split; [done|]. cbn [dyn_buffer].
  split_and!; [done..| |].
  - intros x Hx. pose proof (pr_inv_apart _ _ Hinv') as Hap. inversion Hap as [|? ? Hy _]; subst. by apply Hy.
  - destruct (pr_deallocate_ok fa' _ b.(virt_addr) b.(size) used Hinv') as (fa'' & Hd & Hinv''); [done|lia|].
    exists fa''. split; [|done]. unfold DynamicDmaBuffer_drop, free_zeroed_dma. cbn [frame_allocator dyn_buffer ram].
    replace b.(phys_addr) with (b.(virt_addr) - hddm) by lia. by rewrite Hd.
Qed.

(** Despite its name [get_zeroed_dma] writes nothing: the buffer holds what the
    memory held before. *)
Lemma dma_buffer_not_zeroed mem fa used k r w' :
  pr_inv fa used → (k < 52)%nat → get_zeroed_dma (2 ^ Z.of_nat k) (mkWorld mem (Some fa)) = Ret (r, w') →
  ∀ a, w'.(ram) a = mem a.
Proof.
  intros Hinv Hk Hrun a. destruct (get_zeroed_dma_internal_ok mem fa used k Hinv Hk) as (r' & fa' & mem' & Hi & Hmem & _).
  unfold get_zeroed_dma in Hrun. rewrite Hi in Hrun. cbn [mbind exec_bind] in Hrun.
  destruct r'; exec_inv; apply Hmem.
Qed.

Lemma pool_buffers_ok count mem fa used : pr_inv fa used →
  ∃ r fa' mem', pool_buffers 1 count (mkWorld mem (Some fa)) = Ret (r, mkWorld mem' (Some fa')) ∧
    match r with
    | Ok bs => pr_inv fa' ((run_of <$> bs) ++ used) ∧ length bs = count ∧ Forall (λ b, b.(size) = 1) bs
    | Err _ => ∃ lost, pr_inv fa' (lost ++ used)
    end.
Proof.
  revert mem fa used. induction count as [|count IH]; intros mem fa used Hinv; [by exists (Ok []), fa, mem|].
  cbn [pool_buffers]. destruct (get_zeroed_dma_internal_ok mem fa used 0 Hinv ltac:(lia)) as (r & fa1 & mem1 & Hrun & _ & Hr).
  change (2 ^ Z.of_nat 0) with 1 in *. rewrite Hrun. cbn [mbind exec_bind].
  destruct r as [b|e]; [|destruct Hr as [-> _]; exists (Err e), fa, mem1; split; [done|by exists []]]. destruct Hr as (Hinv1 & _ & _ & Hs).
  destruct (IH mem1 fa1 (run_of b :: used) Hinv1) as (r & fa2 & mem2 & -> & Hr). cbn [mbind exec_bind].
  destruct r as [bs|e].
  - destruct Hr as (Hinv2 & Hlen & Hsz). exists (Ok (b :: bs)), fa2, mem2. split; [done|]. split_and!; [|simpl; lia|by constructor].
    eapply pr_inv_perm; [|exact Hinv2]. rewrite fmap_cons. simpl. by rewrite Permutation_middle.
  - destruct Hr as [lost Hlost]. exists (Err e), fa2, mem2. split; [done|]. exists (lost ++ [run_of b]).
    by rewrite <- (assoc_L (++)).
Qed.
End Buffers.

(** *** The pool *)

Lemma pages_apart_sym x y : pages_apart x y → pages_apart y x.
Proof. unfold pages_apart. naive_solver. Qed.
(** Runs at two places of a list of runs that do not overlap. *)
Lemma runs_apart bs used i j b x : pairwise pages_apart ((run_of <$> bs) ++ used) → i ≠ j →
  bs !! i = Some b → ((run_of <$> bs) ++ used) !! j = Some x → pages_apart (run_of b) x.
Proof.
  intros Hap Hij Hi Hj.
  apply (pairwise_lookup_ne pages_apart ((run_of <$> bs) ++ used) i j (run_of b) x pages_apart_sym Hap Hij); [|done].
  apply lookup_app_l_Some. by rewrite list_lookup_fmap, Hi.
Qed.
Lemma run_lookup bs used j b : bs !! j = Some b → ((run_of <$> bs) ++ used) !! j = Some (run_of b).
Proof. intros Hj. apply lookup_app_l_Some. by rewrite list_lookup_fmap, Hj. Qed.

(** What the drivers do with a pool: take a buffer, return one they hold. *)
Inductive pool_step : DmaPool * list DmaBuffer → DmaPool * list DmaBuffer → Prop :=
  | pool_take p p' b held :
      DmaPool_allocate_buffer p = Ret (Some b, p') → pool_step (p, held) (p', b :: held)
  | pool_give p b held held' :
      held ≡ₚ b :: held' → pool_step (p, held) (DmaPool_free_buffer b p, held').

Definition pool_inv (bs : list DmaBuffer) (c : DmaPool * list DmaBuffer) : Prop :=
  c.1.(buffers) = bs ∧ NoDup (virt_addr <$> bs) ∧
  ∃ idx, Forall2 (λ b i, bs !! i = Some b) c.2 idx ∧ c.1.(free_buffers) ++ idx ≡ₚ seq 0 (length bs).

Lemma vec_pop_spec {A} (l : list A) :
  match vec_pop l with None => l = [] | Some (x, l') => l = l' ++ [x] end.
Proof.
  unfold vec_pop. destruct (reverse l) as [|x l'] eqn:Hl.
  - by apply (f_equal reverse) in Hl; rewrite reverse_involutive in Hl.
  - apply (f_equal reverse) in Hl. rewrite reverse_involutive, reverse_cons in Hl. done.
Qed.
Lemma position_lookup bs i b : NoDup (virt_addr <$> bs) → bs !! i = Some b → position b.(virt_addr) bs = Some i.
Proof.
  intros Hnd Hi. unfold position. destruct (list_find _ bs) as [[j b']|] eqn:Hf.
  - apply list_find_Some in Hf as (Hj & Hv & _). simpl. f_equal.
    eapply NoDup_lookup; [exact Hnd|rewrite list_lookup_fmap, Hj; simpl; by rewrite Hv|by rewrite list_lookup_fmap, Hi].
  - apply list_find_None in Hf. rewrite Forall_lookup in Hf. by destruct (Hf i b Hi).
Qed.

Lemma pool_allocate_ok bs p held : pool_inv bs (p, held) →
  ∃ r p', DmaPool_allocate_buffer p = Ret (r, p') ∧
    match r with
    | Some b => pool_inv bs (p', b :: held) ∧ b ∉ held ∧ (length held < length bs)%nat
    | None => p' = p ∧ length held = length bs
    end.
Proof.
  intros (Hbs & Hnd & idx & Hidx & Hperm). cbn [fst snd] in *. unfold DmaPool_allocate_buffer.
  pose proof (vec_pop_spec p.(free_buffers)) as Hpop. pose proof (Forall2_length _ _ _ Hidx) as Hlen.
  apply Permutation_length in Hperm as Hn. rewrite length_app, length_seq in Hn.
  destruct (vec_pop _) as [[i free]|].
  2: { rewrite Hpop in Hn. exists None, p. split; [done|]. split; [done|]. simpl in Hn. lia. }
  rewrite Hpop in Hperm, Hn. rewrite length_app in Hn. simpl in Hn.
  assert (i ∈ seq 0 (length bs)) as Hi by (rewrite <- Hperm; set_solver). apply elem_of_seq in Hi.
  destruct (lookup_lt_is_Some_2 bs i ltac:(lia)) as [b Hb]. rewrite Hbs. rewrite (index_ok _ _ _ Hb).
  cbn [mbind exec_bind]. exists (Some b). eexists. split; [done|]. split_and!; [|..|lia].
  - split_and!; [done..|]. exists (i :: idx). split; [by constructor|]. cbn [fst snd free_buffers].
    by rewrite <- Hperm, <- (assoc_L (++)).
  - intros Hin. apply list_elem_of_lookup in Hin as [j Hj].
    destruct (Forall2_lookup_l _ _ _ _ _ Hidx Hj) as (i' & Hi' & Hb').
    assert (i' = i) as ->.
    { eapply NoDup_lookup; [exact Hnd|by rewrite list_lookup_fmap, Hb'|by rewrite list_lookup_fmap, Hb]. }
    assert (NoDup ((free ++ [i]) ++ idx)) as Hnd' by (rewrite Hperm; apply NoDup_seq).
    apply NoDup_app in Hnd' as (_ & Hd & _). eapply Hd; [by apply elem_of_app; right; left|by eapply list_elem_of_lookup_2].
Qed.

Lemma pool_inv_step bs c c' : pool_inv bs c → pool_step c c' → pool_inv bs c'.
Proof.
  intros Hinv Hstep. destruct Hstep as [p p' b held Ha|p b held held' Hp].
  - destruct (pool_allocate_ok bs p held Hinv) as (r & p'' & Ha' & Hr). exec_eq. by destruct Hr.
  - destruct Hinv as (Hbs & Hnd & idx & Hidx & Hperm). cbn [fst snd] in *.
    destruct (Permutation_Forall2 Hp Hidx) as (idx' & Hpi & Hidx').
    apply Forall2_cons_inv_l in Hidx' as (i & idx0 & Hib & Hidx0 & ->).
    unfold DmaPool_free_buffer. rewrite Hbs, (position_lookup bs i b) by done.
    split_and!; [done..|]. exists idx0. split; [done|]. cbn [fst free_buffers].
    by rewrite <- (assoc_L (++)), <- Hperm, Hpi.
Qed.

Section Manager.
Context `{AddressesOk} {FA : Type} `{PageRuns FA} (hddm : Z) `{!PageRunsOk FA hddm}.

Lemma manager_pool_inv mem fa used m w' : pr_inv fa used →
  DmaManager_new (mkWorld mem (Some fa)) = Ret (Ok m, w') →
  let bs := m.(pools_4kb).(buffers) in
  length bs = 24%nat ∧ Forall (λ b, b.(size) = 1) bs ∧ pairwise pages_apart ((run_of <$> bs) ++ used) ∧
  pool_inv bs (m.(pools_4kb), []).
Proof.
  intros Hinv Hrun. unfold DmaManager_new, DmaPool_new in Hrun.
  destruct (pool_buffers_ok hddm 24 mem fa used Hinv) as (r & fa' & mem' & Hp & Hr).
  rewrite Hp in Hrun. cbn [mbind exec_bind] in Hrun. destruct r as [bs|e]; [|by exec_inv]. exec_inv.
  destruct Hr as (Hinv' & Hlen & Hsz). apply pr_inv_apart in Hinv'. split_and!; [done..|].
  split_and!; [done| |].
  - apply NoDup_alt. cbn [buffers pools_4kb]. intros i j v Hi Hj. destruct (decide (i = j)) as [|Hij]; [done|]. exfalso.
    apply list_lookup_fmap_Some in Hi as (x & -> & Hi). apply list_lookup_fmap_Some in Hj as (y & Hv & Hj).
    pose proof (runs_apart bs used i j x (run_of y) Hinv' Hij Hi (run_lookup bs used j y Hj)) as Hxy.
    rewrite Forall_lookup in Hsz. unfold pages_apart, run_of in Hxy. simpl in Hxy.
    rewrite (Hsz i x Hi), (Hsz j y Hj) in Hxy. lia.
  - exists []. split; [constructor|]. cbn [fst free_buffers pools_4kb buffers]. by rewrite app_nil_r, Hlen.
Qed.

(** C13: the pool of DMA pages.  Whatever buffers the drivers take and return
    (each returned once), a buffer is never held twice, so two buffers in use
    never overlap, nor do they overlap what the frame allocator had handed out
    before; a request is answered, and refused exactly when all 24 are in use. *)
Theorem dma_pool_exclusive (mem : Z → Z) (fa : FA) (used : list (Z * Z)) (m : DmaManager) (w' : dma_world FA)
    (p : DmaPool) (held : list DmaBuffer) (Hinv : pr_inv fa used)
    (Hnew : DmaManager_new (mkWorld mem (Some fa)) = Ret (Ok m, w'))
    (Hsteps : rtc pool_step (m.(pools_4kb), []) (p, held)) :
  NoDup held ∧ (∀ b b', b ∈ held → b' ∈ held → b ≠ b' → pages_apart (run_of b) (run_of b')) ∧
  (∀ b x, b ∈ held → x ∈ used → pages_apart (run_of b) x) ∧
  ∃ r p', DmaPool_allocate_buffer p = Ret (r, p') ∧ (r = None ↔ length held = 24%nat) ∧
    ∀ b, r = Some b → b ∉ held.
Proof.
  destruct (manager_pool_inv mem fa used m w' Hinv Hnew) as (Hlen & Hsz & Hap & Hpool).
  assert (pool_inv m.(pools_4kb).(buffers) (p, held)) as Hp.
  { revert Hpool. generalize m.(pools_4kb).(buffers). intros bs Hpool. remember (p, held) as c eqn:Hc. clear Hc.
    induction Hsteps; eauto using pool_inv_step. }
  clear Hpool Hsteps. set (bs := m.(pools_4kb).(buffers)) in *. pose proof Hp as (_ & Hnd & idx & Hidx & Hperm). cbn [snd] in *.
  assert (∀ b, b ∈ held → ∃ i, bs !! i = Some b ∧ i ∈ idx) as Hin.
  { intros b [j Hj]%list_elem_of_lookup. destruct (Forall2_lookup_l _ _ _ _ _ Hidx Hj) as (i & Hi & Hb).
    exists i. split; [done|]. by eapply list_elem_of_lookup_2. }
  split_and!.
  - assert (NoDup idx) as Hni.
    { assert (NoDup (free_buffers (p, held).1 ++ idx)) as Hx by (rewrite Hperm; apply NoDup_seq). by apply NoDup_app in Hx as (_ & _ & ?). }
    apply NoDup_alt. intros i j b Hi Hj. destruct (Forall2_lookup_l _ _ _ _ _ Hidx Hi) as (x & Hx & Hbx).
    destruct (Forall2_lookup_l _ _ _ _ _ Hidx Hj) as (y & Hy & Hby).
    assert (x = y) as <- by (eapply NoDup_lookup; [exact Hnd|by rewrite list_lookup_fmap, Hbx|by rewrite list_lookup_fmap, Hby]).
    by eapply NoDup_lookup.
  - intros b b' (i & Hi & _)%Hin (j & Hj & _)%Hin Hne.
    eapply (runs_apart bs used i j); [done|congruence|done|by apply run_lookup].
  - intros b x (i & Hi & _)%Hin [j Hj]%list_elem_of_lookup. pose proof (lookup_lt_Some _ _ _ Hi) as Hlt.
    eapply (runs_apart bs used i (length bs + j)); [done|lia|done|].
    rewrite lookup_app_r; rewrite length_fmap; [|lia]. by replace (length bs + j - length bs)%nat with j by lia.
  - destruct (pool_allocate_ok bs p held Hp) as (r & p' & Ha & Hr). exists r, p'. split; [done|].
    destruct r as [b|]; [|destruct Hr; split; [|done]; split; intros; congruence].
    destruct Hr as (_ & Hb & Hlt). split; [split; [done|lia]|]. by intros ? [= <-].
Qed.
End Manager.

(** Returning a buffer twice makes the pool hand it out twice. *)
Lemma dma_double_free bs i b p : p.(buffers) = bs → NoDup (virt_addr <$> bs) → bs !! i = Some b →
  ∃ p1 p2, DmaPool_allocate_buffer (DmaPool_free_buffer b (DmaPool_free_buffer b p)) = Ret (Some b, p1) ∧
    DmaPool_allocate_buffer p1 = Ret (Some b, p2).
Proof.
  intros Hbs Hnd Hi. assert (∀ q, q.(buffers) = bs → DmaPool_free_buffer b q = mkDmaPool bs (q.(free_buffers) ++ [i]) q.(buffer_size)) as Hfree.
  { intros q Hq. unfold DmaPool_free_buffer. by rewrite Hq, (position_lookup bs i b). }
  assert (∀ l n, DmaPool_allocate_buffer (mkDmaPool bs (l ++ [i]) n) = Ret (Some b, mkDmaPool bs l n)) as Halloc.
  { intros l n. unfold DmaPool_allocate_buffer, vec_pop. cbn [free_buffers buffers buffer_size].
    rewrite reverse_app. simpl. by rewrite reverse_involutive, (index_ok _ _ _ Hi). }
  rewrite (Hfree p Hbs), Hfree by done. eexists _, _. split; apply Halloc.
Qed.

(** ** A source of page runs

    Runs are cut off a range one after the other and not reused. *)

Section Bump.
Context (base limit : Z).

Definition bump : Type := Z * list (Z * Z).
Definition bump_allocate (n : Z) (b : bump) : exec (option Z * bump) :=
  if is_power_of_two n then
    if b.1 + 4096 * n <=? limit then Ret (Some b.1, (b.1 + 4096 * n, (b.1, n) :: b.2)) else Ret (None, b)
  else Panic.
Definition bump_inv (b : bump) (used : list (Z * Z)) : Prop :=
  base ≤ b.1 ∧ (4096 | b.1) ∧ pairwise pages_apart b.2 ∧
  (∀ x, x ∈ b.2 → base ≤ x.1 ∧ (4096 | x.1) ∧ 0 < x.2 ∧ x.1 + 4096 * x.2 ≤ b.1 ∧ x.1 + 4096 * x.2 ≤ limit) ∧
  ∃ gone, used ++ gone ≡ₚ b.2.
#[local] Instance bump_runs : PageRuns bump := {|
  pr_allocate := bump_allocate;
  pr_deallocate_frames _ _ b := Ret b;
  pr_hddm_offset _ := HHDM;
  pr_inv := bump_inv;
|}.

Lemma bump_ok : HHDM ≤ base → (4096 | base) → limit < 2 ^ 64 → @PageRunsOk bump bump_runs HHDM.
Proof.
  intros Hb Hbal Hl. split; cbn [pr_allocate pr_deallocate_frames pr_hddm_offset pr_inv bump_runs].
  - intros fa used used' Hp (? & ? & ? & ? & gone & Hg). split_and!; [done..|]. exists gone. by rewrite <- Hp.
  - intros fa used (_ & _ & Hap & _ & gone & Hg). symmetry in Hg. apply (pairwise_perm _ _ _ pages_apart_sym Hg) in Hap.
    clear -Hap. induction used as [|x used IH]; [constructor|]. inversion Hap as [|? ? Hx Hrest]; subst.
    constructor; [|by apply IH]. intros y Hy. apply Hx. set_solver.
  - intros. by vm_compute.
  - intros fa used v n (_ & _ & _ & Hin & gone & Hg) Hv Hn. destruct (Hin (v, n)) as (? & ? & ? & ? & ?); [rewrite <- Hg; set_solver|].
    simpl in *. split_and!; [done| |lia|lia]. apply Z.divide_sub_r; [done|]. by exists 0xFFFF800000000.
  - intros [nx l] used k (Hlo & Hal & Hap & Hin & gone & Hg) Hk. unfold bump_allocate. cbn [fst snd] in *.
    rewrite is_power_of_two_pow. pose proof (Z.pow_pos_nonneg 2 (Z.of_nat k) ltac:(lia) ltac:(lia)).
    destruct (Z.leb_spec (nx + 4096 * 2 ^ Z.of_nat k) limit); [|by eexists None, _].
    eexists (Some _), _. split; [done|]. split_and!; cbn [fst snd].
    + lia.
    + apply Z.divide_add_r; [done|]. by exists (2 ^ Z.of_nat k); lia.
    + constructor; [|done]. intros y Hy. destruct (Hin y Hy) as (_ & _ & _ & ? & _). right. simpl. lia.
    + intros x [->|Hx]%elem_of_cons; [simpl; split_and!; (done || lia)|]. destruct (Hin x Hx) as (? & ? & ? & ? & ?).
      split_and!; (done || lia).
    + exists gone. cbn. by constructor.
  - intros fa n Hn. unfold bump_allocate. by rewrite Hn.
  - intros fa used v n used' (? & ? & ? & ? & gone & Hg) Hp _. exists fa. split; [done|]. split_and!; [done..|].
    exists ((v, n) :: gone). rewrite <- Hg, Hp. simpl. by rewrite Permutation_middle.
Qed.
Lemma bump_fresh : (4096 | base) → bump_inv (base, []) [].
Proof. intros Hb. split_and!; [simpl; lia|done|constructor|by intros x ?%elem_of_nil|by exists []]. Qed.
End Bump.

(** One MiB of memory at the start of the direct map. *)
Definition mib : Z := HHDM + 0x100000.

Definition blank_world : dma_world bump := mkWorld (λ _, 0xAA) (Some (HHDM, [])).
Lemma mib_ok : @PageRunsOk bump (bump_runs HHDM mib) HHDM.
Proof. apply bump_ok; [lia|by exists 0xFFFF800000000|by vm_compute]. Qed.
Lemma mib_fresh : bump_inv HHDM mib (HHDM, []) [].
Proof. apply bump_fresh. by exists 0xFFFF800000000. Qed.

Lemma dma_run : match @get_zeroed_dma model_addresses _ (bump_runs HHDM mib) 4 blank_world with
  | Ret (Ok d, _) => d.(dyn_buffer) = mkDmaBuffer 0 HHDM 4
  | _ => False
  end.
Proof. by vm_compute. Qed.
Lemma dma_buffer_roundtrip_witness :
  ∃ d w', @get_zeroed_dma model_addresses _ (bump_runs HHDM mib) 4 blank_world = Ret (Ok d, w') ∧
    d.(dyn_buffer) = mkDmaBuffer 0 HHDM 4.
Proof.
  destruct (@dma_buffer_roundtrip _ model_addresses_ok _ (bump_runs HHDM mib) HHDM mib_ok (λ _, 0xAA) (HHDM, []) [] 2
    mib_fresh ltac:(lia)) as (r & fa' & mem' & Hrun & _ & Hr).
  pose proof dma_run as Hd.
  assert (@get_zeroed_dma model_addresses _ (bump_runs HHDM mib) 4 blank_world = Ret (r, mkWorld mem' (Some fa'))) as Hr4
    by exact Hrun.
  rewrite Hr4 in Hd. destruct r as [d|e]; [|destruct Hd]. exists d. eexists. split; [exact Hr4|exact Hd].
Defined.

Lemma manager_run : match @DmaManager_new model_addresses _ (bump_runs HHDM mib) blank_world with
  | Ret (Ok m, _) => length m.(pools_4kb).(buffers) = 24%nat ∧
      match DmaPool_allocate_buffer m.(pools_4kb) with
      | Ret (Some b, _) => b = mkDmaBuffer 0x17000 (HHDM + 0x17000) 1
      | _ => False
      end
  | _ => False
  end.
Proof. by vm_compute. Qed.
Lemma dma_pool_exclusive_witness : ∃ m w' p, ∃ b : DmaBuffer,
  @DmaManager_new model_addresses _ (bump_runs HHDM mib) blank_world = Ret (Ok m, w') ∧
  DmaPool_allocate_buffer m.(pools_4kb) = Ret (Some b, p) ∧
  ∃ r p', DmaPool_allocate_buffer p = Ret (r, p') ∧ (r = None ↔ length [b] = 24%nat).
Proof.
  pose proof manager_run as Hrun.
  destruct (@DmaManager_new model_addresses _ (bump_runs HHDM mib) blank_world) as [[[m|e] w']| |] eqn:Hm;
    [|destruct Hrun..].
  destruct Hrun as [_ Hrun]. destruct (DmaPool_allocate_buffer m.(pools_4kb)) as [[[b|] p]| |] eqn:Hb; [|destruct Hrun..].
  exists m, w', p, b. split; [reflexivity|]. split; [exact Hb|].
  destruct (@dma_pool_exclusive _ model_addresses_ok _ (bump_runs HHDM mib) HHDM mib_ok (λ _, 0xAA) (HHDM, []) [] m w' p [b]
    mib_fresh Hm (rtc_once _ _ (pool_take _ _ _ _ Hb))) as (_ & _ & _ & r & p' & Hp & Hr & _).
  exists r, p'. split; [exact Hp|exact Hr].
Defined.
