(* ===== verification/Driver.v ===== *)
(** * Driver: the state a PCI device driver works on

    A driver of pci/nvme and pci/usb runs in a world of memory, page tables and
    allocators, the device memory allocator, the DMA manager and the registers
    of the device.  The operations here are the calls into pci/dma.rs, run on
    the part of the world they concern. *)

From S2P Require Import Prelude X86 FrameSource PciBase PcieVmm Dma.

(** The world of a driver; [DMA_MANAGER] is created at its first use. *)
Record driver_world (PT FA HW : Type) := mkNw {
  nw_ram : Z → Z;
  nw_globals : globals PT FA;
  nw_vmm : PcieVmm;
  nw_dma : option DmaManager;
  nw_hw : HW;
}.
Arguments mkNw {PT FA HW} _ _ _ _ _.
Arguments nw_ram {PT FA HW} _.
Arguments nw_globals {PT FA HW} _.
Arguments nw_vmm {PT FA HW} _.
Arguments nw_dma {PT FA HW} _.
Arguments nw_hw {PT FA HW} _.

(** [bars.iter().find_map(..)]: the first memory BAR of a device. *)
Definition first_memory_bar (bars : list BarInfo) : option MemoryBar :=
  head (omap (λ bar, match bar with Memory memory_bar => Some memory_bar | _ => None end) bars).

Section Driver.
Context `{Addresses} {PT FA HW : Type} `{PageRuns FA}.
Abbreviation world := (driver_world PT FA HW).

Definition with_hw (hw : HW) (w : world) : world := mkNw w.(nw_ram) w.(nw_globals) w.(nw_vmm) w.(nw_dma) hw.
Definition with_ram (ram : Z → Z) (w : world) : world := mkNw ram w.(nw_globals) w.(nw_vmm) w.(nw_dma) w.(nw_hw).
Definition with_pci (vmm : PcieVmm) (g : globals PT FA) (w : world) : world :=
  mkNw w.(nw_ram) g vmm w.(nw_dma) w.(nw_hw).

(** The part of the world that pci/dma.rs works on. *)
Definition dma_part (w : world) : dma_world FA := mkWorld w.(nw_ram) w.(nw_globals).(FRAME_ALLOCATOR).
Definition with_dma_part (d : dma_world FA) (w : world) : world :=
  mkNw d.(ram) (mkGlobals w.(nw_globals).(PAGE_TABLE) d.(frame_allocator)) w.(nw_vmm) w.(nw_dma) w.(nw_hw).
Definition get_dma (frames : Z) (w : world) : exec (result DynamicDmaBuffer DmaError * world) :=
  '(r, d) ← get_zeroed_dma frames (dma_part w);
  mret (r, with_dma_part d w).
Definition drop_dma (b : DynamicDmaBuffer) (w : world) : exec world :=
  d ← DynamicDmaBuffer_drop b (dma_part w);
  mret (with_dma_part d w).
(** [DMA_MANAGER.lock().get_pool_4kb()]: the first use creates the manager. *)
Definition get_pool (w : world) : exec (option DmaBuffer * world) :=
  '(m, w) ←
    match w.(nw_dma) with
    | Some m => mret (m, w)
    | None =>
        '(r, d) ← DmaManager_new (dma_part w);
        match r with
        | Ok m => mret (m, with_dma_part d w)
        | Err _ => Panic
        end
    end;
  '(b, m) ← get_pool_4kb m;
  mret (b, mkNw w.(nw_ram) w.(nw_globals) w.(nw_vmm) (Some m) w.(nw_hw)).

End Driver.
