(* ===== verification/NvmeCommands.v ===== *)
(** * NvmeCommands: what the NVMe driver and the controller exchange

    pci/nvme/commands.rs and pci/nvme/registers.rs: submission and completion
    queue entries with their bit fields, the identify structures, and the
    memory-mapped registers.  A command is a record; [command_bytes] is its
    [repr(C)] image, which the driver writes to the submission queue.  A
    reference to a mapped structure is its address. *)

From S2P Require Import Prelude Repr PciBase.

Open Scope string_scope.
Open Scope list_scope.
Open Scope Z_scope.

(** ** Structures *)

Definition NvmeCommand_fields : fields :=
  [("cdw0", u32); ("nsid", u32); ("cdw2", u32); ("cdw3", u32); ("mptr", u64); ("prp1", u64);
   ("prp2", u64); ("cdw10", u32); ("cdw11", u32); ("cdw12", u32); ("cdw13", u32); ("cdw14", u32);
   ("cdw15", u32)].
Definition NvmeCompletion_fields : fields :=
  [("dw0", u32); ("dw1", u32); ("sq_head", u16); ("sq_id", u16); ("cid", u16); ("status", u16)].
Definition LbaFormat_fields : fields :=
  [("ms", u16); ("lbads", u8); ("rp", u8)].
Definition IdentifyController_fields : fields :=
  [("vid", u16); ("ssvid", u16); ("sn", Array 20 u8); ("mn", Array 40 u8); ("fr", Array 8 u8);
   ("rab", u8); ("ieee", Array 3 u8); ("cmic", u8); ("mdts", u8); ("cntlid", u16); ("ver", u32);
   ("rtd3r", u32); ("rtd3e", u32); ("oaes", u32); ("ctratt", u32); ("rrls", u16);
   ("_reserved1", Array 9 u8); ("cntrltype", u8); ("fguid", Array 16 u8); ("crdt1", u16);
   ("crdt2", u16); ("crdt3", u16); ("_reserved2", Array 122 u8); ("oacs", u16); ("acl", u8);
   ("aerl", u8); ("frmw", u8); ("lpa", u8); ("elpe", u8); ("npss", u8); ("avscc", u8); ("apsta", u8);
   ("wctemp", u16); ("cctemp", u16); ("mtfa", u16); ("hmpre", u32); ("hmmin", u32);
   ("tnvmcap", Array 16 u8); ("unvmcap", Array 16 u8); ("rpmbs", u32); ("edstt", u16); ("dsto", u8);
   ("fwug", u8); ("kas", u16); ("hctma", u16); ("mntmt", u16); ("mxtmt", u16); ("sanicap", u32);
   ("hmminds", u32); ("hmmaxd", u16); ("nsetidmax", u16); ("endgidmax", u16); ("anatt", u8);
   ("anacap", u8); ("anagrpmax", u32); ("nanagrpid", u32); ("pels", u32); ("_reserved3", Array 156 u8);
   ("sqes", u8); ("cqes", u8); ("maxcmd", u16); ("nn", u32); ("oncs", u16); ("fuses", u16);
   ("fna", u8); ("vwc", u8); ("awun", u16); ("awupf", u16); ("nvscc", u8); ("nwpc", u8); ("acwu", u16);
   ("_reserved4", Array 2 u8); ("sgls", u32); ("mnan", u32); ("_reserved5", Array 224 u8);
   ("subnqn", Array 256 u8); ("_reserved6", Array 768 u8); ("ioccsz", u32); ("iorcsz", u32);
   ("icdoff", u16); ("fcatt", u8); ("msdbd", u8); ("ofcs", u16); ("_reserved7", Array 242 u8);
   ("psd", Array 768 u8); ("vs", Array 1024 u8)].
Definition IdentifyNamespace_fields : fields :=
  [("nsze", u64); ("ncap", u64); ("nuse", u64); ("nsfeat", u8); ("nlbaf", u8); ("flbas", u8);
   ("mc", u8); ("dpc", u8); ("dps", u8); ("nmic", u8); ("rescap", u8); ("fpi", u8); ("dlfeat", u8);
   ("nawun", u16); ("nawupf", u16); ("nacwu", u16); ("nabsn", u16); ("nabo", u16); ("nabspf", u16);
   ("noiob", u16); ("nvmcap", Array 16 u8); ("npwg", u16); ("npwa", u16); ("npdg", u16); ("npda", u16);
   ("nows", u16); ("_reserved1", Array 18 u8); ("anagrpid", u32); ("_reserved2", Array 3 u8);
   ("nsattr", u8); ("nvmsetid", u16); ("endgid", u16); ("nguid", Array 16 u8); ("eui64", Array 8 u8);
   ("lbaf", Array 16 (Struct LbaFormat_fields)); ("_reserved3", Array 192 u8); ("vs", Array 3712 u8)].
Definition NvmeRegisters_fields : fields :=
  [("cap", u64); ("vs", u32); ("intms", u32); ("intmc", u32); ("cc", u32); ("reserved1", u32);
   ("csts", u32); ("nssr", u32); ("aqa", u32); ("asq", u64); ("acq", u64); ("cmbloc", u32);
   ("cmbsz", u32); ("_reserved", Array (0x1000 - 0x40) u8); ("doorbells", Array 256 u32)].

(** ** Commands *)

Module opcodes.
Abbreviation ADMIN_CREATE_IO_SQ := (0x01) (only parsing).
Abbreviation ADMIN_CREATE_IO_CQ := (0x05) (only parsing).
Abbreviation ADMIN_IDENTIFY := (0x06) (only parsing).
Definition NVM_WRITE : Z := 0x01.
Definition NVM_READ : Z := 0x02.
End opcodes.

Record NvmeCommand := mkNvmeCommand {
  cdw0 : Z; nsid : Z; cdw2 : Z; cdw3 : Z; mptr : Z; prp1 : Z; prp2 : Z;
  cdw10 : Z; cdw11 : Z; cdw12 : Z; cdw13 : Z; cdw14 : Z; cdw15 : Z;
}.
Definition NvmeCommand_new : NvmeCommand := mkNvmeCommand 0 0 0 0 0 0 0 0 0 0 0 0 0.

(** Assignments to fields. *)
Definition set_cdw0 (v : Z) (c : NvmeCommand) : NvmeCommand :=
  mkNvmeCommand v c.(nsid) c.(cdw2) c.(cdw3) c.(mptr) c.(prp1) c.(prp2) c.(cdw10) c.(cdw11) c.(cdw12) c.(cdw13)
    c.(cdw14) c.(cdw15).
Definition set_prp2 (addr : Z) (c : NvmeCommand) : NvmeCommand :=
  mkNvmeCommand c.(cdw0) c.(nsid) c.(cdw2) c.(cdw3) c.(mptr) c.(prp1) addr c.(cdw10) c.(cdw11) c.(cdw12) c.(cdw13)
    c.(cdw14) c.(cdw15).
(** The fields that the constructors below assign: [nsid], [prp1], [cdw10],
    [cdw11] and [cdw12]. *)
Definition set_fields (ns prp dw10 dw11 dw12 : Z) (c : NvmeCommand) : NvmeCommand :=
  mkNvmeCommand c.(cdw0) ns c.(cdw2) c.(cdw3) c.(mptr) prp c.(prp2) dw10 dw11 dw12 c.(cdw13) c.(cdw14) c.(cdw15).

Definition opcode (c : NvmeCommand) : Z := cast 8 (Z.land c.(cdw0) 0xFF).
Definition set_opcode (op : Z) (c : NvmeCommand) : NvmeCommand :=
  set_cdw0 (Z.lor (Z.land c.(cdw0) (not_ 32 0xFF)) op) c.
Definition command_id (c : NvmeCommand) : Z := cast 16 (Z.land (Z.shiftr c.(cdw0) 16) 0xFFFF).
Definition set_command_id (cid : Z) (c : NvmeCommand) : NvmeCommand :=
  set_cdw0 (Z.lor (Z.land c.(cdw0) 0x0000FFFF) (Z.shiftl cid 16)) c.

Definition identify_controller_cmd (buffer_addr : Z) : NvmeCommand :=
  set_fields 0 buffer_addr 1 0 0 (set_opcode opcodes.ADMIN_IDENTIFY NvmeCommand_new).
Definition identify_namespace_cmd (ns buffer_addr : Z) : NvmeCommand :=
  set_fields ns buffer_addr 0 0 0 (set_opcode opcodes.ADMIN_IDENTIFY NvmeCommand_new).
Definition create_io_cq (queue_id queue_size buffer_addr : Z) : exec NvmeCommand :=
  size ← sub_chk queue_size 1;
  mret (set_fields 0 buffer_addr (Z.lor (Z.shiftl size 16) queue_id) 1 0
    (set_opcode opcodes.ADMIN_CREATE_IO_CQ NvmeCommand_new)).
Definition create_io_cq_with_interrupt (queue_id queue_size buffer_addr interrupt_vector : Z) : exec NvmeCommand :=
  size ← sub_chk queue_size 1;
  mret (set_fields 0 buffer_addr (Z.lor (Z.shiftl size 16) queue_id)
    (Z.lor (Z.lor (Z.shiftl interrupt_vector 16) (Z.shiftl 1 1)) 1) 0
    (set_opcode opcodes.ADMIN_CREATE_IO_CQ NvmeCommand_new)).
Definition create_io_sq (queue_id cq_id queue_size buffer_addr : Z) : exec NvmeCommand :=
  size ← sub_chk queue_size 1;
  mret (set_fields 0 buffer_addr (Z.lor (Z.shiftl size 16) queue_id) (Z.lor (Z.shiftl cq_id 16) 1) 0
    (set_opcode opcodes.ADMIN_CREATE_IO_SQ NvmeCommand_new)).
Definition nvme_read (ns lba blocks buffer_addr : Z) : exec NvmeCommand :=
  nlb ← sub_chk blocks 1;
  mret (set_fields ns buffer_addr (cast 32 lba) (cast 32 (Z.shiftr lba 32)) nlb
    (set_opcode opcodes.NVM_READ NvmeCommand_new)).
Definition nvme_write (ns lba blocks buffer_addr : Z) : exec NvmeCommand :=
  nlb ← sub_chk blocks 1;
  mret (set_fields ns buffer_addr (cast 32 lba) (cast 32 (Z.shiftr lba 32)) nlb
    (set_opcode opcodes.NVM_WRITE NvmeCommand_new)).

(** The image of a command in memory. *)
Definition command_bytes (c : NvmeCommand) : list Z :=
  le_bytes 4 c.(cdw0) ++ le_bytes 4 c.(nsid) ++ le_bytes 4 c.(cdw2) ++ le_bytes 4 c.(cdw3) ++
  le_bytes 8 c.(mptr) ++ le_bytes 8 c.(prp1) ++ le_bytes 8 c.(prp2) ++
  le_bytes 4 c.(cdw10) ++ le_bytes 4 c.(cdw11) ++ le_bytes 4 c.(cdw12) ++ le_bytes 4 c.(cdw13) ++
  le_bytes 4 c.(cdw14) ++ le_bytes 4 c.(cdw15).

(** ** Completions *)

Record NvmeCompletion := mkNvmeCompletion {
  dw0 : Z; dw1 : Z; sq_head_ptr : Z; sq_id : Z; cid : Z; status : Z;
}.
Definition read_completion (ram : Z → Z) (a : Z) : NvmeCompletion :=
  mkNvmeCompletion (read_le ram (a + offset_of "dw0" NvmeCompletion_fields) 4)
    (read_le ram (a + offset_of "dw1" NvmeCompletion_fields) 4)
    (read_le ram (a + offset_of "sq_head" NvmeCompletion_fields) 2)
    (read_le ram (a + offset_of "sq_id" NvmeCompletion_fields) 2)
    (read_le ram (a + offset_of "cid" NvmeCompletion_fields) 2)
    (read_le ram (a + offset_of "status" NvmeCompletion_fields) 2).

Definition status_code (c : NvmeCompletion) : Z := Z.land (Z.shiftr c.(status) 1) 0x7FFF.
Definition phase_bit (c : NvmeCompletion) : bool := negb (Z.land c.(status) 1 =? 0).
Definition is_success (c : NvmeCompletion) : bool := status_code c =? 0.
Definition is_valid (c : NvmeCompletion) (expected_phase : bool) : bool := Bool.eqb (phase_bit c) expected_phase.

(** ** The identify structure of a namespace *)

Definition nsze (ram : Z → Z) (a : Z) : Z := read_le ram (a + offset_of "nsze" IdentifyNamespace_fields) 8.
Definition ncap (ram : Z → Z) (a : Z) : Z := read_le ram (a + offset_of "ncap" IdentifyNamespace_fields) 8.
Definition flbas (ram : Z → Z) (a : Z) : Z := read_le ram (a + offset_of "flbas" IdentifyNamespace_fields) 1.
Definition lbads (ram : Z → Z) (a i : Z) : Z :=
  read_le ram (a + offset_of "lbaf" IdentifyNamespace_fields + i * size_of (Struct LbaFormat_fields) +
    offset_of "lbads" LbaFormat_fields) 1.

(** The index is below 16, so the default of the source is never taken; the
    shift panics when the device reports 32 or more. *)
Definition lba_size (ram : Z → Z) (a : Z) : exec Z :=
  let format_index := Z.land (flbas ram a) 0x0F in
  if format_index <? 16 then shl_chk 32 1 (lbads ram a format_index) else mret 512.
Definition size_bytes (ram : Z → Z) (a : Z) : exec Z :=
  lba ← lba_size ram a;
  mul_chk 64 (nsze ram a) lba.

(** ** Registers *)

Module cap_bits.
Abbreviation MQES_MASK := (0xFFFF) (only parsing).
Abbreviation DSTRD_SHIFT := (32) (only parsing).
Abbreviation MPSMIN_SHIFT := (48) (only parsing).
Abbreviation MPSMAX_SHIFT := (52) (only parsing).
End cap_bits.
Module cc_bits.
Abbreviation EN := (Z.shiftl 1 0) (only parsing).
Abbreviation CSS_SHIFT := (4) (only parsing).
Abbreviation MPS_SHIFT := (7) (only parsing).
Abbreviation AMS_SHIFT := (11) (only parsing).
Abbreviation IOSQES_SHIFT := (16) (only parsing).
Abbreviation IOCQES_SHIFT := (20) (only parsing).
End cc_bits.
Module csts_bits.
Abbreviation RDY := (Z.shiftl 1 0) (only parsing).
Abbreviation CFS := (Z.shiftl 1 1) (only parsing).
End csts_bits.

Section Registers.
Context {HW : Type} `{Mmio HW}.

Definition reg_read (name : string) (n base : Z) (hw : HW) : Z * HW :=
  mmio_read n (base + offset_of name NvmeRegisters_fields) hw.
Definition reg_write (name : string) (n base v : Z) (hw : HW) : HW :=
  mmio_write n (base + offset_of name NvmeRegisters_fields) v hw.

Definition max_queue_entries (base : Z) (hw : HW) : Z * HW :=
  let '(cap, hw) := reg_read "cap" 8 base hw in
  (cast 16 (Z.land cap cap_bits.MQES_MASK + 1), hw).
Definition doorbell_stride (base : Z) (hw : HW) : Z * HW :=
  let '(cap, hw) := reg_read "cap" 8 base hw in
  (cast 32 (Z.shiftl 4 (Z.land (Z.shiftr cap cap_bits.DSTRD_SHIFT) 0xF)), hw).
Definition min_page_size (base : Z) (hw : HW) : Z * HW :=
  let '(cap, hw) := reg_read "cap" 8 base hw in
  (cast 32 (Z.shiftl 4096 (Z.land (Z.shiftr cap cap_bits.MPSMIN_SHIFT) 0xF)), hw).
Definition max_page_size (base : Z) (hw : HW) : Z * HW :=
  let '(cap, hw) := reg_read "cap" 8 base hw in
  (cast 32 (Z.shiftl 4096 (Z.land (Z.shiftr cap cap_bits.MPSMAX_SHIFT) 0xF)), hw).
Definition is_ready (base : Z) (hw : HW) : bool * HW :=
  let '(csts, hw) := reg_read "csts" 4 base hw in
  (negb (Z.land csts csts_bits.RDY =? 0), hw).
Definition is_fatal (base : Z) (hw : HW) : bool * HW :=
  let '(csts, hw) := reg_read "csts" 4 base hw in
  (negb (Z.land csts csts_bits.CFS =? 0), hw).
Definition nvme_enable (base : Z) (hw : HW) : HW :=
  let '(cc, hw) := reg_read "cc" 4 base hw in
  reg_write "cc" 4 base (Z.lor cc cc_bits.EN) hw.
Definition nvme_disable (base : Z) (hw : HW) : HW :=
  let '(cc, hw) := reg_read "cc" 4 base hw in
  reg_write "cc" 4 base (Z.land cc (not_ 32 cc_bits.EN)) hw.
Definition set_admin_queue_attributes (base sq_size cq_size : Z) (hw : HW) : exec HW :=
  cq ← sub_chk cq_size 1;
  sq ← sub_chk sq_size 1;
  mret (reg_write "aqa" 4 base (Z.lor (Z.shiftl cq 16) sq) hw).
Definition set_admin_sq_base (base addr : Z) (hw : HW) : HW := reg_write "asq" 8 base addr hw.
Definition set_admin_cq_base (base addr : Z) (hw : HW) : HW := reg_write "acq" 8 base addr hw.
Definition configure (base : Z) (hw : HW) : HW :=
  let cc := 0 in
  let cc := Z.lor cc cc_bits.EN in
  let cc := Z.lor cc (Z.shiftl 0 cc_bits.CSS_SHIFT) in
  let cc := Z.lor cc (Z.shiftl 0 cc_bits.MPS_SHIFT) in
  let cc := Z.lor cc (Z.shiftl 0 cc_bits.AMS_SHIFT) in
  let cc := Z.lor cc (Z.shiftl 6 cc_bits.IOSQES_SHIFT) in
  let cc := Z.lor cc (Z.shiftl 4 cc_bits.IOCQES_SHIFT) in
  reg_write "cc" 4 base cc hw.

(** Doorbell [i] is word [i] of the array, whatever the stride. *)
Definition ring_doorbell (base queue_id : Z) (is_completion : bool) (value : Z) (hw : HW) : exec HW :=
  twice ← mul_chk 16 queue_id 2;
  doorbell_index ← add_chk 16 twice (if is_completion then 1 else 0);
  if doorbell_index <? 256 then
    mret (mmio_write 4 (base + offset_of "doorbells" NvmeRegisters_fields + 4 * doorbell_index) value hw)
  else mret hw.
End Registers.

(** ** Correctness *)

(** The integers of a command have their widths. *)
Definition command_wf (c : NvmeCommand) : Prop :=
  (0 ≤ c.(cdw0) < 2 ^ 32) ∧ (0 ≤ c.(nsid) < 2 ^ 32) ∧ (0 ≤ c.(cdw2) < 2 ^ 32) ∧ (0 ≤ c.(cdw3) < 2 ^ 32) ∧
  (0 ≤ c.(mptr) < 2 ^ 64) ∧ (0 ≤ c.(prp1) < 2 ^ 64) ∧ (0 ≤ c.(prp2) < 2 ^ 64) ∧ (0 ≤ c.(cdw10) < 2 ^ 32) ∧
  (0 ≤ c.(cdw11) < 2 ^ 32) ∧ (0 ≤ c.(cdw12) < 2 ^ 32) ∧ (0 ≤ c.(cdw13) < 2 ^ 32) ∧ (0 ≤ c.(cdw14) < 2 ^ 32) ∧
  (0 ≤ c.(cdw15) < 2 ^ 32).

(** The pieces of the image, each at its offset. *)
Lemma command_image_parts ram a c : in_memory ram a (command_bytes c) →
  Forall2 (λ '(name, n) v, in_memory ram (a + offset_of name NvmeCommand_fields) (le_bytes n v))
    [("cdw0", 4); ("nsid", 4); ("cdw2", 4); ("cdw3", 4); ("mptr", 8); ("prp1", 8); ("prp2", 8); ("cdw10", 4);
     ("cdw11", 4); ("cdw12", 4); ("cdw13", 4); ("cdw14", 4); ("cdw15", 4)]%nat
    [c.(cdw0); c.(nsid); c.(cdw2); c.(cdw3); c.(mptr); c.(prp1); c.(prp2); c.(cdw10); c.(cdw11); c.(cdw12); c.(cdw13);
     c.(cdw14); c.(cdw15)].
Proof.
  unfold command_bytes. intros Hm.
  repeat match type of Hm with
  | in_memory _ _ (_ ++ _) => let H1 := fresh "Hm" in apply in_memory_app in Hm as [H1 Hm]
  end.
  rewrite ?le_bytes_length, <- ?Z.add_assoc in *. rewrite <- (Z.add_0_r a) in Hm0 at 1.
  repeat (constructor; [assumption|]). constructor.
Qed.

(** The opcode and the command identifier in the first word. *)
Lemma set_opcode_new op : 0 ≤ op < 256 → (set_opcode op NvmeCommand_new).(cdw0) = op.
Proof. done. Qed.
Lemma set_command_id_word id c : 0 ≤ c.(cdw0) < 2 ^ 16 → (set_command_id id c).(cdw0) = c.(cdw0) + 2 ^ 16 * id.
Proof.
  intros Hc. unfold set_command_id, set_cdw0. cbn [cdw0]. change 0x0000FFFF with (Z.ones 16).
  rewrite Z.land_ones by lia. rewrite Z.mod_small by lia. rewrite Z.lor_comm, lor_shiftl_add by lia. lia.
Qed.

(** A controller reads a command of the NVM command set at the offsets of the
    NVMe specification: opcode in byte 0, command identifier in bytes 2 and 3,
    namespace in 4 to 7, data pointer in 24 to 31, starting block in 40 to 47
    and number of blocks less one in 48 and 49. *)
Definition decodes_io (ram : Z → Z) (a op id ns lba blocks addr : Z) : Prop :=
  ram a = op ∧ read_le ram (a + 2) 2 = id ∧ read_le ram (a + 4) 4 = ns ∧ read_le ram (a + 24) 8 = addr ∧
  read_le ram (a + 32) 8 = 0 ∧ read_le ram (a + 40) 8 = lba ∧ read_le ram (a + 48) 2 = blocks - 1.

Definition io_command (op ns lba blocks addr : Z) : NvmeCommand :=
  set_fields ns addr (cast 32 lba) (cast 32 (Z.shiftr lba 32)) (blocks - 1) (set_opcode op NvmeCommand_new).

Lemma nvme_read_ok ns lba blocks addr : 1 ≤ blocks →
  nvme_read ns lba blocks addr = Ret (io_command opcodes.NVM_READ ns lba blocks addr).
Proof. intros Hb. unfold nvme_read. by rewrite sub_chk_ok by lia. Qed.
Lemma nvme_write_ok ns lba blocks addr : 1 ≤ blocks →
  nvme_write ns lba blocks addr = Ret (io_command opcodes.NVM_WRITE ns lba blocks addr).
Proof. intros Hb. unfold nvme_write. by rewrite sub_chk_ok by lia. Qed.

Lemma io_command_decodes ram a op id ns lba blocks addr :
  0 ≤ op < 256 → 0 ≤ id < 2 ^ 16 → 0 ≤ ns < 2 ^ 32 → 0 ≤ lba < 2 ^ 64 → 1 ≤ blocks < 2 ^ 16 → 0 ≤ addr < 2 ^ 64 →
  in_memory ram a (command_bytes (set_command_id id (io_command op ns lba blocks addr))) →
  decodes_io ram a op id ns lba blocks addr.
Proof.
  intros Hop Hid Hns Hlba Hbl Hadr Hm. set (c := set_command_id id _) in *.
  assert (c.(cdw0) = op + 2 ^ 16 * id) as H0.
  { unfold c. rewrite set_command_id_word; [done|]. change (0 ≤ op < 2 ^ 16). lia. }
  assert (c.(nsid) = ns ∧ c.(prp1) = addr ∧ c.(prp2) = 0 ∧ c.(cdw10) = cast 32 lba ∧
    c.(cdw11) = cast 32 (Z.shiftr lba 32) ∧ c.(cdw12) = blocks - 1) as (H1 & H2 & H3 & H4 & H5 & H6) by done.
  clearbody c. apply command_image_parts in Hm.
  repeat match goal with
  | H : Forall2 _ (_ :: _) (_ :: _) |- _ => let Hp := fresh "Hp" in apply Forall2_cons in H as [Hp H]
  end.
  rewrite ?H0, ?H1, ?H2, ?H3, ?H4, ?H5, ?H6 in *. clear H0 H1 H2 H3 H4 H5 H6.
  destruct (read_le_parts ram (a + 0) 2 2 _ Hp) as [Hlo Hhi]. destruct (read_le_parts ram (a + 0) 1 3 _ Hp) as [Hb _].
  rewrite Z.add_0_r in *. change (Z.of_nat 2) with 2 in Hhi. change (Z.of_nat 1) with 1 in Hb.
  split_and!.
  - simpl in Hb. rewrite Z.mul_0_r, Z.add_0_r in Hb. rewrite Hb. change (2 ^ (8 * 1)) with 256.
    replace (2 ^ 16 * id) with (256 * id * 256) by lia. rewrite Z.mod_add by lia. by apply Z.mod_small.
  - rewrite Hhi. change (2 ^ (8 * 2)) with (2 ^ 16). rewrite Z.mul_comm, Z.div_add by lia. rewrite Z.div_small by lia.
    apply Z.mod_small. lia.
  - by apply (read_le_bytes _ _ 4).
  - by apply (read_le_bytes _ _ 8).
  - by apply (read_le_bytes _ _ 8).
  - change 8%nat with (4 + 4)%nat. rewrite (read_le_join ram (a + 40) 4 4). replace (a + 40 + Z.of_nat 4) with (a + 44) by lia.
    rewrite (read_le_bytes ram (a + 40) 4 (cast 32 lba)), (read_le_bytes ram (a + 44) 4 (cast 32 (Z.shiftr lba 32)));
      [|unfold cast; apply Z.mod_pos_bound; lia|done|unfold cast; apply Z.mod_pos_bound; lia|done].
    unfold cast. rewrite Z.shiftr_div_pow2 by lia. rewrite (Z.mod_small (lba / 2 ^ 32)).
    + change (2 ^ (8 * Z.of_nat 4)) with (2 ^ 32). pose proof (Z.div_mod lba (2 ^ 32)). lia.
    + split; [apply Z.div_pos; lia|]. apply Z.div_lt_upper_bound; lia.
  - destruct (read_le_parts ram (a + 48) 2 2 (blocks - 1)) as [Hl _]; [done|]. rewrite Hl. apply Z.mod_small. simpl. lia.
Qed.

(** What the controller finds in the submission queue.  For any 32-bit
    namespace, 64-bit block address, number of blocks and buffer, the bytes the
    driver writes for a read or write command decode, at the offsets of the NVMe
    specification, to that opcode, identifier, namespace, block address and
    count, with the buffer as first and nothing as second data pointer; a
    command for no blocks is never built (the subtraction panics). *)
Theorem io_command_decoded (ram : Z → Z) (a id ns lba blocks addr : Z)
    (Hid : 0 ≤ id < 2 ^ 16) (Hns : 0 ≤ ns < 2 ^ 32) (Hlba : 0 ≤ lba < 2 ^ 64) (Hbl : 0 ≤ blocks < 2 ^ 16)
    (Hadr : 0 ≤ addr < 2 ^ 64) :
  match nvme_read ns lba blocks addr, nvme_write ns lba blocks addr with
  | Ret r, Ret w => 1 ≤ blocks ∧
      decodes_io (copy_bytes ram a (command_bytes (set_command_id id r))) a 0x02 id ns lba blocks addr ∧
      decodes_io (copy_bytes ram a (command_bytes (set_command_id id w))) a 0x01 id ns lba blocks addr
  | Panic, Panic => blocks = 0
  | _, _ => False
  end.
Proof.
  unfold nvme_read, nvme_write, sub_chk. destruct (Z.leb_spec 1 blocks); cbn [mbind exec_bind mret exec_ret]; [|lia].
  split_and!; [done|..]; eapply io_command_decodes; try lia; apply in_memory_copy.
Qed.
Lemma io_command_decoded_witness :
  match nvme_read 1 0x123456789 8 0x5000, nvme_write 1 0x123456789 8 0x5000 with
  | Ret r, Ret w => 1 ≤ 8 ∧
      decodes_io (copy_bytes (λ _, 0) 0x1000 (command_bytes (set_command_id 7 r))) 0x1000 0x02 7 1 0x123456789 8 0x5000 ∧
      decodes_io (copy_bytes (λ _, 0) 0x1000 (command_bytes (set_command_id 7 w))) 0x1000 0x01 7 1 0x123456789 8 0x5000
  | Panic, Panic => 8 = 0
  | _, _ => False
  end.
Proof.
  exact (io_command_decoded (λ _, 0) 0x1000 7 1 0x123456789 8 0x5000 ltac:(lia) ltac:(lia) ltac:(lia) ltac:(lia)
    ltac:(lia)).
Defined.

(** Sizes and offsets of the structures shared with the controller that the NVMe
    specification gives: entries of 64 and 16 bytes, the registers at their
    addresses with the doorbells from 0x1000 on, the identify data of a namespace
    in 4096 bytes with the block formats from byte 128 on, and the fields of the
    identify data of a controller that come before its power state descriptors. *)
Lemma nvme_layouts :
  size_of (Struct NvmeCommand_fields) = 64 ∧ size_of (Struct NvmeCompletion_fields) = 16 ∧
  layout NvmeCompletion_fields = [("dw0", 0); ("dw1", 4); ("sq_head", 8); ("sq_id", 10); ("cid", 12); ("status", 14)] ∧
  layout NvmeRegisters_fields =
    [("cap", 0x00); ("vs", 0x08); ("intms", 0x0C); ("intmc", 0x10); ("cc", 0x14); ("reserved1", 0x18); ("csts", 0x1C);
     ("nssr", 0x20); ("aqa", 0x24); ("asq", 0x28); ("acq", 0x30); ("cmbloc", 0x38); ("cmbsz", 0x3C);
     ("_reserved", 0x40); ("doorbells", 0x1000)] ∧
  size_of (Struct IdentifyNamespace_fields) = 4096 ∧ offset_of "flbas" IdentifyNamespace_fields = 26 ∧
  offset_of "lbaf" IdentifyNamespace_fields = 128 ∧ size_of (Struct LbaFormat_fields) = 4 ∧
  offset_of "oacs" IdentifyController_fields = 256 ∧ offset_of "sqes" IdentifyController_fields = 512.
Proof. by vm_compute. Qed.

(** The identify structure of a controller has 3840 bytes, not the 4096 of its
    comment: the power state descriptors have 768 bytes instead of 1024. *)
Lemma identify_controller_size :
  size_of (Struct IdentifyController_fields) = 3840 ∧ offset_of "psd" IdentifyController_fields = 2048 ∧
  offset_of "vs" IdentifyController_fields = 2816.
Proof. by vm_compute. Qed.

(** A controller with the largest queues the specification allows (65536
    entries) is taken to have none. *)
Lemma max_queue_entries_wraps {HW : Type} `{Mmio HW} base hw hw' :
  reg_read "cap" 8 base hw = (0xFFFF, hw') → max_queue_entries base hw = (0, hw').
Proof. intros Hr. unfold max_queue_entries. by rewrite Hr. Qed.

(** The doorbells the driver rings are those of stride 0: a controller with a
    larger stride has its doorbells elsewhere. *)
Lemma doorbell_ignores_stride {HW : Type} `{Mmio HW} base q c v hw : 0 ≤ q < 128 →
  ring_doorbell base q c v hw = Ret (mmio_write 4 (base + 0x1000 + 4 * (2 * q + if c then 1 else 0)) v hw).
Proof.
  intros Hq. unfold ring_doorbell. assert ((if c then 1 else 0) ≤ 1) by (destruct c; lia).
  assert (0 ≤ (if c then 1 else 0)) by (destruct c; lia). run. run. rewrite (proj2 (Z.ltb_lt _ _)) by lia.
  do 3 f_equal. change (offset_of "doorbells" NvmeRegisters_fields) with 0x1000. lia.
Qed.
