(* ===== verification/Nvme.v ===== *)
(** * Nvme: the NVMe driver

    pci/nvme/controller.rs: queue pairs, the initialisation of a controller,
    and reading and writing of blocks.  The driver runs in a world of memory,
    page tables and allocators, and the device's registers.  Where it calls
    [kyield_task] other tasks and the controller run: [kyield] is what they do
    to that world (the scheduler's part is in Scheduler.v).  Values that are
    only logged are computed where the computation can panic, the log level
    being the one of kernel/Makefile. *)

From S2P Require Import Prelude X86 FrameSource FrameForest Repr PciBase PcieVmm Ecam PciDevice Msix Pci Dma Driver NvmeCommands.

Definition NVME_VECTOR_BASE : Z := 0x50.
Definition NVME_ADMIN_VECTOR : Z := NVME_VECTOR_BASE.
Definition NVME_IO_VECTOR : Z := NVME_VECTOR_BASE + 1.
Definition NVME_VECTOR_NUM : Z := 2.
Definition MASS_STORAGE : Z := 0x01.

Inductive NvmeError : Type :=
  | ControllerNotFound
  | ControllerResetTimeout
  | ControllerEnableTimeout
  | QueueFull
  | CommandTimeout
  | CommandNotCompleted
  | CommandFailed (status : Z)
  | NvmeAllocationFailed
  | InvalidNamespace
  | NvmePciError
  | NoIoQueue
  | BufferTooSmall.

Record NvmeQueue := mkNvmeQueue {
  sq_entries : Z; sq_phys : Z; cq_entries : Z; cq_phys : Z; q_size : Z;
  sq_head : Z; sq_tail : Z; cq_head : Z; cq_phase : bool; queue_id : Z; interrupt_vector : option Z;
}.
Record NvmeNamespace := mkNvmeNamespace {
  ns_nsid : Z; ns_size_blocks : Z; ns_block_size : Z; ns_capacity_blocks : Z;
}.

Record NvmeController := mkNvmeController {
  pci_device : PciDevice;
  registers : Z;
  admin_queue : NvmeQueue;
  io_queue : option NvmeQueue;
  next_command_id : Z;
  namespaces : list NvmeNamespace;
  nc_max_queue_entries : Z;
  nc_doorbell_stride : Z;
  msix_info : option MsiXInfo;
}.

(** Assignments to fields. *)
Definition set_sq_tail (tail : Z) (q : NvmeQueue) : NvmeQueue :=
  mkNvmeQueue q.(sq_entries) q.(sq_phys) q.(cq_entries) q.(cq_phys) q.(q_size) q.(sq_head) tail q.(cq_head)
    q.(cq_phase) q.(queue_id) q.(interrupt_vector).
Definition set_cq (head : Z) (phase : bool) (q : NvmeQueue) : NvmeQueue :=
  mkNvmeQueue q.(sq_entries) q.(sq_phys) q.(cq_entries) q.(cq_phys) q.(q_size) q.(sq_head) q.(sq_tail) head
    phase q.(queue_id) q.(interrupt_vector).
Definition set_interrupt_vector (v : option Z) (q : NvmeQueue) : NvmeQueue :=
  mkNvmeQueue q.(sq_entries) q.(sq_phys) q.(cq_entries) q.(cq_phys) q.(q_size) q.(sq_head) q.(sq_tail) q.(cq_head)
    q.(cq_phase) q.(queue_id) v.
Definition set_admin_queue (q : NvmeQueue) (c : NvmeController) : NvmeController :=
  mkNvmeController c.(pci_device) c.(registers) q c.(io_queue) c.(next_command_id) c.(namespaces)
    c.(nc_max_queue_entries) c.(nc_doorbell_stride) c.(msix_info).
Definition set_io_queue (q : option NvmeQueue) (c : NvmeController) : NvmeController :=
  mkNvmeController c.(pci_device) c.(registers) c.(admin_queue) q c.(next_command_id) c.(namespaces)
    c.(nc_max_queue_entries) c.(nc_doorbell_stride) c.(msix_info).
Definition set_namespaces (l : list NvmeNamespace) (c : NvmeController) : NvmeController :=
  mkNvmeController c.(pci_device) c.(registers) c.(admin_queue) c.(io_queue) c.(next_command_id) l
    c.(nc_max_queue_entries) c.(nc_doorbell_stride) c.(msix_info).
Definition set_msix_info (m : option MsiXInfo) (c : NvmeController) : NvmeController :=
  mkNvmeController c.(pci_device) c.(registers) c.(admin_queue) c.(io_queue) c.(next_command_id) c.(namespaces)
    c.(nc_max_queue_entries) c.(nc_doorbell_stride) m.

(** ** Queues *)

(** [a % b] panics when [b] is 0. *)
Definition rem_chk (a b : Z) : exec Z := if b =? 0 then Panic else Ret (a mod b).

Definition NvmeQueue_submit_command (cmd : NvmeCommand) (q : NvmeQueue) (ram : Z → Z)
    : exec (result Z NvmeError * NvmeQueue * (Z → Z)) :=
  next ← add_chk 16 q.(sq_tail) 1;
  next_tail ← rem_chk next q.(q_size);
  if next_tail =? q.(sq_head) then mret (Err QueueFull, q, ram)
  else
    let cid := q.(sq_tail) in
    let cmd := set_command_id cid cmd in
    let ram := copy_bytes ram (q.(sq_entries) + 64 * q.(sq_tail)) (command_bytes cmd) in
    mret (Ok cid, set_sq_tail next_tail q, ram).

Definition NvmeQueue_check_completion (q : NvmeQueue) (ram : Z → Z) : exec (option NvmeCompletion * NvmeQueue) :=
  let completion := read_completion ram (q.(cq_entries) + 16 * q.(cq_head)) in
  if is_valid completion q.(cq_phase) then
    next ← add_chk 16 q.(cq_head) 1;
    head ← rem_chk next q.(q_size);
    let phase := if head =? 0 then negb q.(cq_phase) else q.(cq_phase) in
    mret (Some completion, set_cq head phase q)
  else mret (None, q).

Section Driver.
Context `{Addresses} {PT FA HW : Type} `{Mapper PT, FrameSource FA, PageRuns FA, Mmio HW}.
Abbreviation world := (driver_world PT FA HW).

(** [NvmeQueue::new]: [buffer] is dropped when the function returns. *)
Definition NvmeQueue_new (queue_id size : Z) (w : world) : exec (result NvmeQueue NvmeError * world) :=
  let sq_size := size * 64 in
  let cq_size := size * 16 in
  let total_size := sq_size + cq_size in
  let pages_needed := div_ceil total_size 4096 in
  '(r, w) ← get_dma pages_needed w;
  match r with
  | Err _ => mret (Err NvmeAllocationFailed, w)
  | Ok buffer =>
      let sq_virt := buffer.(dyn_buffer).(virt_addr) in
      let sq_phys := buffer.(dyn_buffer).(phys_addr) in
      cq_virt ← add_chk 64 sq_virt sq_size;
      cq_virt ← VirtAddr_new cq_virt;
      cq_phys ← add_chk 64 sq_phys sq_size;
      cq_phys ← PhysAddr_new cq_phys;
      w ← drop_dma buffer w;
      mret (Ok (mkNvmeQueue sq_virt sq_phys cq_virt cq_phys size 0 0 0 true queue_id None), w)
  end.

(** ** Initialisation *)

Definition NvmeController_setup_msix (c : NvmeController) (w : world)
    : exec (result unit NvmeError * NvmeController * world) :=
  '(r, vmm, g, hw) ← setup_msix c.(pci_device) NVME_VECTOR_NUM NVME_VECTOR_BASE w.(nw_vmm) w.(nw_globals) w.(nw_hw);
  let w := with_hw hw (with_pci vmm g w) in
  match r with
  | Err _ => mret (Err NvmePciError, c, w)
  | Ok m =>
      '(r, m, hw) ← enable_vector 0 m w.(nw_hw);
      let w := with_hw hw w in
      match r with
      | Err _ => mret (Err NvmePciError, c, w)
      | Ok _ =>
          '(r, m, hw) ← enable_vector 1 m w.(nw_hw);
          let w := with_hw hw w in
          match r with
          | Err _ => mret (Err NvmePciError, c, w)
          | Ok _ => mret (Ok (), set_msix_info (Some m) c, w)
          end
      end
  end.

Definition POLL_LIMIT : nat := Z.to_nat 100000.

(** [for _ in 0..timeout { if !is_ready() { break } .. }]. *)
Fixpoint wait_not_ready (base : Z) (count : nat) (hw : HW) : HW :=
  match count with
  | O => hw
  | S count =>
      match is_ready base hw with
      | (true, hw) => wait_not_ready base count hw
      | (false, hw) => hw
      end
  end.
Definition reset_controller (c : NvmeController) (w : world) : result unit NvmeError * world :=
  let hw := nvme_disable c.(registers) w.(nw_hw) in
  let hw := wait_not_ready c.(registers) POLL_LIMIT hw in
  match is_ready c.(registers) hw with
  | (true, hw) => (Err ControllerResetTimeout, with_hw hw w)
  | (false, hw) => (Ok (), with_hw hw w)
  end.

Definition setup_admin_queues (c : NvmeController) (w : world) : exec (result unit NvmeError * world) :=
  fa ← unwrap w.(nw_globals).(FRAME_ALLOCATOR);
  sq ← sub_chk c.(admin_queue).(sq_entries) (pr_hddm_offset fa);
  sq ← PhysAddr_new sq;
  cq ← sub_chk c.(admin_queue).(cq_entries) (pr_hddm_offset fa);
  cq ← PhysAddr_new cq;
  hw ← set_admin_queue_attributes c.(registers) c.(admin_queue).(q_size) c.(admin_queue).(q_size) w.(nw_hw);
  let hw := set_admin_sq_base c.(registers) sq hw in
  let hw := set_admin_cq_base c.(registers) cq hw in
  mret (Ok (), with_hw hw w).

Fixpoint wait_ready (base : Z) (count : nat) (hw : HW) : bool * HW :=
  match count with
  | O => (false, hw)
  | S count =>
      match is_ready base hw with
      | (true, hw) => (true, hw)
      | (false, hw) => wait_ready base count hw
      end
  end.
Definition enable_controller (c : NvmeController) (w : world) : result unit NvmeError * world :=
  let hw := configure c.(registers) w.(nw_hw) in
  match wait_ready c.(registers) POLL_LIMIT hw with
  | (true, hw) => (Ok (), with_hw hw w)
  | (false, hw) => (Err ControllerEnableTimeout, with_hw hw w)
  end.

(** ** Commands *)

Context (kyield : Z → world → world).

(** Submit a command, ring the doorbell, let the rest of the system run, and
    look for the completion: the common part of [submit_admin_command] and
    [submit_io_command]. *)
Definition run_command (base doorbell vector : Z) (cmd : NvmeCommand) (q : NvmeQueue) (w : world)
    : exec (result NvmeCompletion NvmeError * NvmeQueue * world) :=
  '(r, q, ram) ← NvmeQueue_submit_command cmd q w.(nw_ram);
  let w := with_ram ram w in
  match r with
  | Err e => mret (Err e, q, w)
  | Ok _ =>
      hw ← ring_doorbell base doorbell false q.(sq_tail) w.(nw_hw);
      let w := kyield vector (with_hw hw w) in
      '(completion, q) ← NvmeQueue_check_completion q w.(nw_ram);
      match completion with
      | None => mret (Err CommandNotCompleted, q, w)
      | Some completion =>
          if negb (is_success completion) then mret (Err (CommandFailed (status_code completion)), q, w)
          else mret (Ok completion, q, w)
      end
  end.

Definition submit_admin_command (cmd : NvmeCommand) (c : NvmeController) (w : world)
    : exec (result NvmeCompletion NvmeError * NvmeController * world) :=
  '(r, q, w) ← run_command c.(registers) 0 NVME_ADMIN_VECTOR cmd c.(admin_queue) w;
  mret (r, set_admin_queue q c, w).

Definition submit_io_command (cmd : NvmeCommand) (c : NvmeController) (w : world)
    : exec (result NvmeCompletion NvmeError * NvmeController * world) :=
  match c.(io_queue) with
  | None => mret (Err NoIoQueue, c, w)
  | Some q =>
      '(r, q, w) ← run_command c.(registers) 1 NVME_IO_VECTOR cmd q w;
      mret (r, set_io_queue (Some q) c, w)
  end.
(** The identify data are only logged; the pool's buffer is not returned. *)
Definition identify_controller (c : NvmeController) (w : world)
    : exec (result unit NvmeError * NvmeController * world) :=
  '(b, w) ← get_pool w;
  match b with
  | None => mret (Err NvmeAllocationFailed, c, w)
  | Some buffer =>
      '(r, c, w) ← submit_admin_command (identify_controller_cmd buffer.(phys_addr)) c w;
      match r with
      | Err e => mret (Err e, c, w)
      | Ok _ => mret (Ok (), c, w)
      end
  end.

Definition identify_namespace (ns : Z) (c : NvmeController) (w : world)
    : exec (result NvmeNamespace NvmeError * NvmeController * world) :=
  '(r, w) ← get_dma 1 w;
  match r with
  | Err _ => mret (Err NvmeAllocationFailed, c, w)
  | Ok buffer =>
      '(r, c, w) ← submit_admin_command (identify_namespace_cmd ns buffer.(dyn_buffer).(phys_addr)) c w;
      match r with
      | Err e => w ← drop_dma buffer w; mret (Err e, c, w)
      | Ok _ =>
          let data := buffer.(dyn_buffer).(virt_addr) in
          if nsze w.(nw_ram) data =? 0 then w ← drop_dma buffer w; mret (Err InvalidNamespace, c, w)
          else
            block_size ← lba_size w.(nw_ram) data;
            let size_blocks := nsze w.(nw_ram) data in
            let capacity_blocks := ncap w.(nw_ram) data in
            _ ← mul_chk 64 size_blocks block_size;
            w ← drop_dma buffer w;
            mret (Ok (mkNvmeNamespace ns size_blocks block_size capacity_blocks), c, w)
      end
  end.

Definition discover_namespaces (c : NvmeController) (w : world)
    : exec (result unit NvmeError * NvmeController * world) :=
  '(r, c, w) ← identify_namespace 1 c w;
  match r with
  | Ok namespace => mret (Ok (), set_namespaces (c.(namespaces) ++ [namespace]) c, w)
  | Err _ => mret (Ok (), c, w)
  end.

Definition create_io_queues (c : NvmeController) (w : world)
    : exec (result unit NvmeError * NvmeController * world) :=
  let queue_size := Z.min c.(nc_max_queue_entries) 64 in
  '(r, w) ← NvmeQueue_new 1 queue_size w;
  match r with
  | Err e => mret (Err e, c, w)
  | Ok q =>
      match c.(msix_info) with
      | None => mret (Err NvmePciError, c, w)
      | Some m =>
          match m.(mi_vectors) !! 1%nat with
          | None => mret (Err NvmePciError, c, w)
          | Some io_vector =>
              let q := set_interrupt_vector (Some io_vector.(v_vector)) q in
              create_cq_cmd ← create_io_cq_with_interrupt 1 queue_size q.(cq_phys) io_vector.(v_index);
              '(r, c, w) ← submit_admin_command create_cq_cmd c w;
              match r with
              | Err e => mret (Err e, c, w)
              | Ok _ =>
                  create_sq_cmd ← create_io_sq 1 1 queue_size q.(sq_phys);
                  '(r, c, w) ← submit_admin_command create_sq_cmd c w;
                  match r with
                  | Err e => mret (Err e, c, w)
                  | Ok _ => mret (Ok (), set_io_queue (Some q) c, w)
                  end
              end
          end
      end
  end.

(** [?] on a step that may change the controller. *)
Definition and_then (r : exec (result unit NvmeError * NvmeController * world))
    (k : NvmeController → world → exec (result unit NvmeError * NvmeController * world))
    : exec (result unit NvmeError * NvmeController * world) :=
  '(r, c, w) ← r;
  match r with
  | Err e => mret (Err e, c, w)
  | Ok _ => k c w
  end.

Definition initialize (c : NvmeController) (w : world) : exec (result unit NvmeError * NvmeController * world) :=
  let '(ready, hw) := is_ready c.(registers) w.(nw_hw) in
  let w := with_hw hw w in
  let '(r, w) := if ready then reset_controller c w else (Ok (), w) in
  and_then (mret (r, c, w)) (λ c w,
  and_then (NvmeController_setup_msix c w) (λ c w,
  and_then ('(r, w) ← setup_admin_queues c w; mret (r, c, w)) (λ c w,
  let '(r, w) := enable_controller c w in
  and_then (mret (r, c, w)) (λ c w,
  and_then (identify_controller c w) (λ c w,
  and_then (discover_namespaces c w) (λ c w,
  match c.(namespaces) with
  | [] => mret (Ok (), c, w)
  | _ => create_io_queues c w
  end)))))).

Definition NvmeController_new (dev : PciDevice) (w : world) : exec (result NvmeController NvmeError * world) :=
  match first_memory_bar dev.(dev_bars) with
  | None => mret (Err NvmePciError, w)
  | Some memory_bar =>
      '(r, vmm, g) ← map_bar memory_bar w.(nw_vmm) w.(nw_globals);
      let w := with_pci vmm g w in
      match r with
      | Err _ => mret (Err NvmePciError, w)
      | Ok mapped_bar =>
          let base := mapped_bar.(virtual_address) in
          let '(entries, hw) := max_queue_entries base w.(nw_hw) in
          let '(stride, hw) := doorbell_stride base hw in
          let '(_, hw) := min_page_size base hw in
          let '(_, hw) := max_page_size base hw in
          '(r, w) ← NvmeQueue_new 0 (Z.min entries 64) (with_hw hw w);
          match r with
          | Err e => mret (Err e, w)
          | Ok q =>
              '(r, c, w) ← initialize (mkNvmeController dev base q None 1 [] entries stride None) w;
              match r with
              | Err e => mret (Err e, w)
              | Ok _ => mret (Ok c, w)
              end
          end
      end
  end.

(** ** Blocks *)

Definition has_namespace (ns : Z) (l : list NvmeNamespace) : bool := existsb (λ n, n.(ns_nsid) =? ns) l.
Definition find_namespace (ns : Z) (l : list NvmeNamespace) : option NvmeNamespace :=
  snd <$> list_find (λ n, n.(ns_nsid) = ns) l.

(** [n] bytes of memory. *)
Definition bytes_at (ram : Z → Z) (a n : Z) : list Z := (λ i, ram (a + i)) <$> seqZ 0 n.
(** [copy_nonoverlapping] into the first bytes of a buffer. *)
Definition overwrite (new buffer : list Z) : list Z := new ++ drop (length new) buffer.

(** The checks that reading and writing share: the namespace, the size of the
    buffer, and a DMA buffer for the data. *)
Definition prepare_io (ns blocks : Z) (buffer_len : Z) (c : NvmeController) (w : world)
    : exec (result (DynamicDmaBuffer * Z) NvmeError * world) :=
  if negb (has_namespace ns c.(namespaces)) then mret (Err InvalidNamespace, w)
  else
    namespace ← unwrap (find_namespace ns c.(namespaces));
    required_size ← mul_chk 64 blocks namespace.(ns_block_size);
    if buffer_len <? required_size then mret (Err BufferTooSmall, w)
    else
      rounded ← add_chk 64 required_size 4095;
      let pages_needed := rounded / 4096 in
      '(r, w) ← get_dma pages_needed w;
      match r with
      | Err _ => mret (Err NvmeAllocationFailed, w)
      | Ok dma_buffer => mret (Ok (dma_buffer, required_size), w)
      end.

Definition NvmeController_read_blocks (ns lba blocks : Z) (buffer : list Z) (c : NvmeController) (w : world)
    : exec (result unit NvmeError * list Z * NvmeController * world) :=
  '(r, w) ← prepare_io ns blocks (Z.of_nat (length buffer)) c w;
  match r with
  | Err e => mret (Err e, buffer, c, w)
  | Ok (dma_buffer, required_size) =>
      cmd ← nvme_read ns lba blocks dma_buffer.(dyn_buffer).(phys_addr);
      '(r, c, w) ← submit_io_command cmd c w;
      match r with
      | Err e => w ← drop_dma dma_buffer w; mret (Err e, buffer, c, w)
      | Ok _ =>
          let data := bytes_at w.(nw_ram) dma_buffer.(dyn_buffer).(virt_addr) required_size in
          w ← drop_dma dma_buffer w;
          mret (Ok (), overwrite data buffer, c, w)
      end
  end.

Definition NvmeController_write_blocks (ns lba blocks : Z) (buffer : list Z) (c : NvmeController) (w : world)
    : exec (result unit NvmeError * NvmeController * world) :=
  '(r, w) ← prepare_io ns blocks (Z.of_nat (length buffer)) c w;
  match r with
  | Err e => mret (Err e, c, w)
  | Ok (dma_buffer, required_size) =>
      let w := with_ram (copy_bytes w.(nw_ram) dma_buffer.(dyn_buffer).(virt_addr)
        (take (Z.to_nat required_size) buffer)) w in
      cmd ← nvme_write ns lba blocks dma_buffer.(dyn_buffer).(phys_addr);
      '(r, c, w) ← submit_io_command cmd c w;
      w ← drop_dma dma_buffer w;
      match r with
      | Err e => mret (Err e, c, w)
      | Ok _ => mret (Ok (), c, w)
      end
  end.

(** ** The interface for the rest of the kernel

    [nvme] is the global [NVME_CONTROLLER], [pci] the global [PCI_MANAGER]. *)

Definition find_nvme_controllers (pci : option PciManager) : exec (list PciDevice) :=
  manager ← unwrap pci;
  mret (filter (λ d, d.(dev_class_code) = MASS_STORAGE ∧ d.(dev_subclass) = 0x08 ∧ d.(dev_prog_if) = 0x02)
    manager.(pm_devices)).

Definition nvme_init (pci : option PciManager) (nvme : option NvmeController) (w : world)
    : exec (option NvmeController * world) :=
  controllers ← find_nvme_controllers pci;
  match controllers with
  | [] => mret (nvme, w)
  | dev :: _ =>
      '(r, w) ← NvmeController_new dev w;
      match r with
      | Ok controller => mret (Some controller, w)
      | Err _ => mret (nvme, w)
      end
  end.

Definition nvme_read_blocks (ns lba blocks : Z) (buffer : list Z) (nvme : option NvmeController) (w : world)
    : exec (result unit NvmeError * list Z * option NvmeController * world) :=
  match nvme with
  | None => mret (Err ControllerNotFound, buffer, None, w)
  | Some c =>
      '(r, buffer, c, w) ← NvmeController_read_blocks ns lba blocks buffer c w;
      mret (r, buffer, Some c, w)
  end.
Definition nvme_write_blocks (ns lba blocks : Z) (buffer : list Z) (nvme : option NvmeController) (w : world)
    : exec (result unit NvmeError * option NvmeController * world) :=
  match nvme with
  | None => mret (Err ControllerNotFound, None, w)
  | Some c =>
      '(r, c, w) ← NvmeController_write_blocks ns lba blocks buffer c w;
      mret (r, Some c, w)
  end.
Definition get_namespaces (nvme : option NvmeController) : list NvmeNamespace :=
  match nvme with Some c => c.(namespaces) | None => [] end.

(** The test reads block 0, writes a pattern to block 1 and compares what it
    reads back. *)
Definition test_nvme_io (nvme : option NvmeController) (w : world)
    : exec (result unit NvmeError * option NvmeController * world) :=
  match get_namespaces nvme with
  | [] => mret (Err InvalidNamespace, nvme, w)
  | ns :: _ =>
      let block_size := ns.(ns_block_size) in
      let blank := replicate (Z.to_nat block_size) 0 in
      '(r, _, nvme, w) ← nvme_read_blocks ns.(ns_nsid) 0 1 blank nvme w;
      match r with
      | Err e => mret (Err e, nvme, w)
      | Ok _ =>
          let write_buffer := (λ i, i mod 256) <$> seqZ 0 block_size in
          '(r, nvme, w) ← nvme_write_blocks ns.(ns_nsid) 1 1 write_buffer nvme w;
          match r with
          | Err e => mret (Err e, nvme, w)
          | Ok _ =>
              '(r, verify_buffer, nvme, w) ← nvme_read_blocks ns.(ns_nsid) 1 1 blank nvme w;
              match r with
              | Err e => mret (Err e, nvme, w)
              | Ok _ =>
                  if bool_decide (write_buffer = verify_buffer) then mret (Ok (), nvme, w)
                  else mret (Err (CommandFailed 0), nvme, w)
              end
          end
      end
  end.
End Driver.

(** ** The submission queue *)

Lemma rem_chk_ok a b : b ≠ 0 → rem_chk a b = Ret (a mod b).
Proof. intros Hb. unfold rem_chk. by rewrite (proj2 (Z.eqb_neq _ _) Hb). Qed.

(** Only [sq_head] tells a full queue from an empty one, and nothing moves it. *)
Lemma submit_command_ok cmd q ram : 2 ≤ q.(q_size) < 2 ^ 16 → q.(sq_head) = 0 → 0 ≤ q.(sq_tail) < q.(q_size) →
  NvmeQueue_submit_command cmd q ram =
  if q.(sq_tail) + 1 <? q.(q_size) then
    Ret (Ok q.(sq_tail), set_sq_tail (q.(sq_tail) + 1) q,
      copy_bytes ram (q.(sq_entries) + 64 * q.(sq_tail)) (command_bytes (set_command_id q.(sq_tail) cmd)))
  else Ret (Err QueueFull, q, ram).
Proof.
  intros Hn Hh Ht. unfold NvmeQueue_submit_command. run. rewrite rem_chk_ok by lia. cbn [mbind exec_bind]. rewrite Hh.
  destruct (Z.ltb_spec (q.(sq_tail) + 1) q.(q_size)).
  - rewrite Z.mod_small by lia. by rewrite (proj2 (Z.eqb_neq _ _)) by lia.
  - replace (q.(sq_tail) + 1) with q.(q_size) by lia. by rewrite Z.mod_same by lia.
Qed.
Lemma check_completion_keeps q ram r q' : NvmeQueue_check_completion q ram = Ret (r, q') →
  q'.(sq_head) = q.(sq_head) ∧ q'.(sq_tail) = q.(sq_tail) ∧ q'.(q_size) = q.(q_size).
Proof.
  unfold NvmeQueue_check_completion. destruct (is_valid _ _); intros Hrun; [|by exec_inv].
  apply bind_Ret_inv in Hrun as (x & _ & Hrun). apply bind_Ret_inv in Hrun as (y & _ & Hrun). by exec_inv.
Qed.

(** The uses of a queue, with whatever memory holds at each; the second
    component are the identifiers of the commands accepted. *)
Inductive queue_step : NvmeQueue * list Z → NvmeQueue * list Z → Prop :=
  | queue_submit q q' ids cmd ram ram' id :
      NvmeQueue_submit_command cmd q ram = Ret (Ok id, q', ram') → queue_step (q, ids) (q', ids ++ [id])
  | queue_refuse q q' ids cmd ram ram' e :
      NvmeQueue_submit_command cmd q ram = Ret (Err e, q', ram') → queue_step (q, ids) (q', ids)
  | queue_check q q' ids ram r :
      NvmeQueue_check_completion q ram = Ret (r, q') → queue_step (q, ids) (q', ids).

Definition queue_inv (n : Z) (c : NvmeQueue * list Z) : Prop :=
  c.1.(q_size) = n ∧ c.1.(sq_head) = 0 ∧ c.2 = seqZ 0 (Z.of_nat (length c.2)) ∧
  Z.of_nat (length c.2) ≤ n - 1 ∧ c.1.(sq_tail) = Z.of_nat (length c.2).

Lemma queue_inv_step n c c' : 2 ≤ n < 2 ^ 16 → queue_inv n c → queue_step c c' → queue_inv n c'.
Proof.
  intros Hn (Hs & Hh & Hids & Hle & Ht) Hstep.
  destruct Hstep as [q q' ids cmd ram ram' id Hsub|q q' ids cmd ram ram' e Hsub|q q' ids ram r Hchk]; cbn [fst snd] in *.
  - rewrite submit_command_ok in Hsub by lia. destruct (Z.ltb_spec (q.(sq_tail) + 1) q.(q_size)); [|done].
    injection Hsub as <- <- _. unfold queue_inv. cbn [fst snd]. rewrite length_app. simpl length.
    split_and!; try done; simpl; [|lia|lia].
    rewrite Nat2Z.inj_add, seqZ_app by lia. rewrite <- Hids. simpl. by rewrite Ht.
  - rewrite submit_command_ok in Hsub by lia. destruct (Z.ltb_spec (q.(sq_tail) + 1) q.(q_size)); [done|].
    by injection Hsub as _ <- _.
  - apply check_completion_keeps in Hchk as (H1 & H2 & H3). unfold queue_inv. cbn [fst snd]. by rewrite H1, H2, H3.
Qed.

(** C40: a queue pair of [n] entries accepts exactly [n - 1] commands in its life.
    The first [n - 1] submissions succeed, with identifiers 0, 1, ..., each in its
    own slot; from then on every submission is refused with [QueueFull], however
    many completions have been consumed, because the head of the submission
    queue is never advanced. *)
Theorem queue_accepts_once (q0 q : NvmeQueue) (ids : list Z) (n : Z)
    (Hn : 2 ≤ n < 2 ^ 16) (Hsize : q0.(q_size) = n) (Hhead : q0.(sq_head) = 0) (Htail : q0.(sq_tail) = 0)
    (Hsteps : rtc queue_step (q0, []) (q, ids)) :
  ids = seqZ 0 (Z.of_nat (length ids)) ∧ Z.of_nat (length ids) ≤ n - 1 ∧ q.(sq_tail) = Z.of_nat (length ids) ∧
  ∀ cmd ram, ∃ r q' ram', NvmeQueue_submit_command cmd q ram = Ret (r, q', ram') ∧
    (r = Err QueueFull ↔ Z.of_nat (length ids) = n - 1) ∧ (r = Ok (Z.of_nat (length ids)) ↔ Z.of_nat (length ids) < n - 1).
Proof.
  assert (∀ c c', rtc queue_step c c' → queue_inv n c → queue_inv n c') as Hall.
  { induction 1; eauto using queue_inv_step. }
  destruct (Hall _ _ Hsteps) as (Hs & Hh & Hids & Hle & Ht); [by split_and!; simpl; lia || done|]. cbn [fst snd] in *.
  split_and!; [done..|]. intros cmd ram. rewrite submit_command_ok by lia. rewrite Hs, Ht.
  destruct (Z.ltb_spec (Z.of_nat (length ids) + 1) n); do 3 eexists; (split; [done|]); split; split; intros Hx; done || lia.
Qed.

Definition fresh_queue (n sq cq : Z) : NvmeQueue := mkNvmeQueue (sq + HHDM) sq (cq + HHDM) cq n 0 0 0 true 1 None.
Lemma one_submitted n sq cq : 2 ≤ n < 2 ^ 16 →
  rtc queue_step (fresh_queue n sq cq, []) (set_sq_tail 1 (fresh_queue n sq cq), [0]).
Proof.
  intros Hn. apply rtc_once. eapply (queue_submit _ _ [] NvmeCommand_new (λ _, 0) _ 0).
  rewrite submit_command_ok by (simpl; lia). cbn [fresh_queue sq_tail q_size sq_entries].
  by rewrite (proj2 (Z.ltb_lt (0 + 1) n)) by lia.
Qed.
Lemma queue_accepts_once_witness :
  let q := set_sq_tail 1 (fresh_queue 2 0x1000 0x1080) in
  ∃ r q' ram', NvmeQueue_submit_command NvmeCommand_new q (λ _, 0) = Ret (r, q', ram') ∧ r = Err QueueFull.
Proof.
  intros q.
  destruct (queue_accepts_once (fresh_queue 2 0x1000 0x1080) q [0] 2 ltac:(lia) eq_refl eq_refl eq_refl
    (one_submitted 2 0x1000 0x1080 ltac:(lia))) as (_ & _ & _ & Hsub).
  destruct (Hsub NvmeCommand_new (λ _, 0)) as (r & q' & ram' & Hrun & Hr & _).
  exists r, q', ram'. split; [exact Hrun|]. by apply Hr.
Defined.

(** ** The completion queue *)

Section Completions.
Context (n base : Z) (Hn : 1 ≤ n < 2 ^ 16).

(** The phase bit of the [j]-th completion a controller posts. *)
Definition phase_of (j : Z) : bool := Z.even (j / n).
Definition slot_of (ram : Z → Z) (j : Z) : NvmeCompletion := read_completion ram (base + 16 * (j mod n)).

(** A controller posts the [k]-th completion to slot [k mod n] with the phase of
    its round, when the slot has been consumed; the driver checks.  [ps] are the
    completions posted, [out] those the driver got. *)
Inductive cq_step : NvmeQueue * (Z → Z) * list NvmeCompletion * list NvmeCompletion →
    NvmeQueue * (Z → Z) * list NvmeCompletion * list NvmeCompletion → Prop :=
  | cq_post q ram ram' ps out c :
      Z.of_nat (length ps) - Z.of_nat (length out) < n →
      slot_of ram' (Z.of_nat (length ps)) = c → phase_bit c = phase_of (Z.of_nat (length ps)) →
      (∀ j, j mod n ≠ Z.of_nat (length ps) mod n → slot_of ram' j = slot_of ram j) →
      cq_step (q, ram, ps, out) (q, ram', ps ++ [c], out)
  | cq_got q q' ram ps out c :
      NvmeQueue_check_completion q ram = Ret (Some c, q') → cq_step (q, ram, ps, out) (q', ram, ps, out ++ [c])
  | cq_none q q' ram ps out :
      NvmeQueue_check_completion q ram = Ret (None, q') → cq_step (q, ram, ps, out) (q', ram, ps, out).

(** With [m] completions consumed: those posted are in their slots, and the
    other slots have the phase of the round before. *)
Definition cq_image (ram : Z → Z) (ps : list NvmeCompletion) (m : Z) : Prop :=
  ∀ j, m ≤ j < m + n →
    match ps !! Z.to_nat j with
    | Some c => slot_of ram j = c ∧ phase_bit c = phase_of j
    | None => phase_bit (slot_of ram j) = negb (phase_of j)
    end.
Definition cq_inv (s : NvmeQueue * (Z → Z) * list NvmeCompletion * list NvmeCompletion) : Prop :=
  let '(q, ram, ps, out) := s in
  let m := Z.of_nat (length out) in
  q.(cq_entries) = base ∧ q.(q_size) = n ∧ q.(cq_head) = m mod n ∧ q.(cq_phase) = phase_of m ∧
  out `prefix_of` ps ∧ m ≤ Z.of_nat (length ps) ≤ m + n ∧ cq_image ram ps m.

Lemma phase_next j : 0 ≤ j → phase_of (j + n) = negb (phase_of j).
Proof using Hn.
  intros Hj. unfold phase_of. replace (j + n) with (j + 1 * n) by lia. rewrite Z.div_add by lia.
  by rewrite Z.add_1_r, Z.even_succ, <- Z.negb_even.
Qed.
Lemma next_index m : 0 ≤ m → (m mod n + 1) mod n = (m + 1) mod n.
Proof using Hn. intros Hm. by rewrite Zplus_mod_idemp_l. Qed.
Lemma phase_step m : 0 ≤ m →
  phase_of (m + 1) = if (m + 1) mod n =? 0 then negb (phase_of m) else phase_of m.
Proof using Hn.
  intros Hm. unfold phase_of. pose proof (Z.div_mod m n ltac:(lia)) as Hdm. pose proof (Z.mod_pos_bound m n ltac:(lia)) as Hr.
  destruct (decide (m mod n + 1 = n)) as [He|He].
  - assert ((m + 1) / n = m / n + 1) as Hd.
    { symmetry. apply (Z.div_unique _ _ _ 0); lia. }
    assert ((m + 1) mod n = 0) as -> by (symmetry; apply (Z.mod_unique _ _ (m / n + 1)); lia).
    rewrite Z.eqb_refl, Hd. by rewrite Z.add_1_r, Z.even_succ, <- Z.negb_even.
  - assert ((m + 1) / n = m / n) as -> by (symmetry; apply (Z.div_unique _ _ _ (m mod n + 1)); lia).
    assert ((m + 1) mod n = m mod n + 1) as -> by (symmetry; apply (Z.mod_unique _ _ (m / n)); lia).
    by rewrite (proj2 (Z.eqb_neq _ 0)) by lia.
Qed.

(** A check finds the next completion, if it has been posted. *)
Lemma check_completion_ok q ram ps out : cq_inv (q, ram, ps, out) →
  NvmeQueue_check_completion q ram =
  let m := Z.of_nat (length out) in
  match ps !! length out with
  | Some c => Ret (Some c, set_cq ((m + 1) mod n) (phase_of (m + 1)) q)
  | None => Ret (None, q)
  end.
Proof using Hn.
  intros (Hb & Hs & Hh & Hp & _ & Hle & Him). specialize (Him (Z.of_nat (length out)) ltac:(lia)). rewrite Nat2Z.id in Him.
  unfold NvmeQueue_check_completion. rewrite Hb, Hh, Hp. fold (slot_of ram (Z.of_nat (length out))). cbn zeta.
  destruct (ps !! length out) as [c|].
  - destruct Him as [-> Hph]. unfold is_valid. rewrite Hph, eqb_reflx.
    pose proof (Z.mod_pos_bound (Z.of_nat (length out)) n ltac:(lia)). run. rewrite rem_chk_ok by lia. cbn [mbind exec_bind].
    by rewrite Hs, next_index, phase_step by lia.
  - unfold is_valid. rewrite Him. by destruct (phase_of _).
Qed.

Lemma cq_inv_step s s' : cq_inv s → cq_step s s' → cq_inv s'.
Proof using Hn.
  intros Hinv Hstep. destruct Hstep as [q ram ram' ps out c Hroom Hc Hph Hoth|q q' ram ps out c Hrun|q q' ram ps out Hrun].
  - destruct Hinv as (Hb & Hs & Hh & Hp & Hpre & Hle & Him). unfold cq_inv. split_and!; try done.
    + by apply prefix_app_r.
    + rewrite length_app. simpl. lia.
    + rewrite length_app. simpl. lia.
    + intros j Hj. destruct (decide (j = Z.of_nat (length ps))) as [->|Hne].
      * rewrite Nat2Z.id, lookup_app_r, Nat.sub_diag by done. done.
      * assert ((ps ++ [c]) !! Z.to_nat j = ps !! Z.to_nat j) as ->.
        { destruct (decide (j < Z.of_nat (length ps))); [by rewrite lookup_app_l by lia|].
          rewrite (lookup_ge_None_2 ps) by lia. apply lookup_ge_None_2. rewrite length_app. simpl. lia. }
        assert (slot_of ram' j = slot_of ram j) as ->; [|by apply Him]. apply Hoth. intros Hmod.
        assert (n * ((j - Z.of_nat (length ps)) / n) = j - Z.of_nat (length ps)) as Hdiv.
        { symmetry. apply Z.div_exact; [lia|]. rewrite Zminus_mod, Hmod, Z.sub_diag. apply Z.mod_0_l. lia. }
        generalize dependent ((j - Z.of_nat (length ps)) / n). intros x Hdiv.
        assert (x = 0 ∨ 1 ≤ x ∨ x ≤ -1) as [->|[Hx|Hx]] by lia; nia.
  - pose proof (check_completion_ok q ram ps out Hinv) as Hok. rewrite Hrun in Hok. cbn zeta in Hok.
    destruct (ps !! length out) as [c'|] eqn:Hlook; [|done]. injection Hok as <- ->.
    destruct Hinv as (Hb & Hs & Hh & Hp & Hpre & Hle & Him). pose proof (lookup_lt_Some _ _ _ Hlook) as Hlt.
    unfold cq_inv. rewrite length_app. simpl length. rewrite Nat2Z.inj_add. simpl (Z.of_nat 1).
    split_and!; try done; simpl; [|lia|lia|].
    + destruct Hpre as [rest ->]. rewrite lookup_app_r, Nat.sub_diag in Hlook by done.
      destruct rest as [|c0 rest]; [done|]. simpl in Hlook. simplify_eq. exists rest. by rewrite <- (assoc_L (++)).
    + intros j Hj. destruct (decide (j = Z.of_nat (length out) + n)) as [->|Hne]; [|by apply Him; lia].
      rewrite lookup_ge_None_2 by lia. rewrite phase_next by lia. rewrite negb_involutive.
      specialize (Him (Z.of_nat (length out)) ltac:(lia)). rewrite Nat2Z.id, Hlook in Him. destruct Him as [Hsl Hph].
      unfold slot_of in *. replace (Z.of_nat (length out) + n) with (Z.of_nat (length out) + 1 * n) by lia.
      by rewrite Z.mod_add, Hsl by lia.
  - pose proof (check_completion_ok q ram ps out Hinv) as Hok. rewrite Hrun in Hok. cbn zeta in Hok.
    destruct (ps !! length out); [done|]. by injection Hok as ->.
Qed.
End Completions.

(** C11: the completion queue is a first-in first-out channel, once its memory has
    been cleared.  Let the driver start at entry 0 with phase 1 on entries whose
    phase bits are all clear (the code does not clear the memory of the queue
    itself), and let the controller post its completions in order, each with the
    phase of its round, and none into an entry that has not been consumed.  Then
    the driver gets exactly the completions the controller posts, in order and
    each once, through any number of rounds of the ring, and a check finds nothing
    exactly when all have been consumed. *)
Theorem completion_queue_fifo (n base : Z) (q0 : NvmeQueue) (ram0 : Z → Z) (q : NvmeQueue) (ram : Z → Z)
    (ps out : list NvmeCompletion) (Hn : 1 ≤ n < 2 ^ 16) (Hsize : q0.(q_size) = n) (Hbase : q0.(cq_entries) = base)
    (Hhead : q0.(cq_head) = 0) (Hphase : q0.(cq_phase) = true)
    (Hclear : ∀ i, 0 ≤ i < n → phase_bit (read_completion ram0 (base + 16 * i)) = false)
    (Hsteps : rtc (cq_step n base) (q0, ram0, [], []) (q, ram, ps, out)) :
  out `prefix_of` ps ∧
  ∃ q', NvmeQueue_check_completion q ram = Ret (ps !! length out, q') ∧
    (ps !! length out = None ↔ out = ps).
Proof.
  assert (∀ s s', rtc (cq_step n base) s s' → cq_inv n base s → cq_inv n base s') as Hall.
  { induction 1; eauto using cq_inv_step. }
  assert (cq_inv n base (q, ram, ps, out)) as Hinv.
  { apply (Hall _ _ Hsteps). unfold cq_inv. simpl length. change (Z.of_nat 0) with 0.
    unfold phase_of. rewrite Z.mod_0_l, Z.div_0_l by lia. split_and!; try done; [lia|].
    intros j Hj. rewrite lookup_nil. unfold slot_of, phase_of. rewrite Z.mod_small, Z.div_small by lia. apply Hclear. lia. }
  rewrite (check_completion_ok n base Hn q ram ps out Hinv). destruct Hinv as (_ & _ & _ & _ & Hpre & _). split; [done|].
  cbn zeta. destruct (ps !! length out) as [c|] eqn:Hl; eexists; (split; [done|]).
  - split; [done|]. intros ->. rewrite lookup_ge_None_2 in Hl; done.
  - split; [|done]. intros _. destruct Hpre as [rest ->]. apply lookup_ge_None in Hl. rewrite length_app in Hl.
    destruct rest; [by rewrite app_nil_r|simpl in Hl; lia].
Qed.

(** A successful completion with phase bit 1 in the first slot. *)
Definition posted_ram : Z → Z := λ a, if a =? 14 then 1 else 0.
Lemma posted_step : cq_step 2 0 (mkNvmeQueue 0x100 0x100 0 0 2 0 0 0 true 1 None, λ _, 0, [], [])
  (mkNvmeQueue 0x100 0x100 0 0 2 0 0 0 true 1 None, posted_ram, [mkNvmeCompletion 0 0 0 0 0 1], []).
Proof.
  apply (cq_post 2 0 _ (λ _, 0) posted_ram [] [] (mkNvmeCompletion 0 0 0 0 0 1)); [done..|].
  intros j Hj. assert (j mod 2 ≠ 0) as Hj' by exact Hj. unfold slot_of. pose proof (Z.mod_pos_bound j 2 ltac:(lia)).
  assert (j mod 2 = 1) as -> by lia. done.
Qed.
Lemma completion_queue_fifo_witness :
  ∃ q', NvmeQueue_check_completion (mkNvmeQueue 0x100 0x100 0 0 2 0 0 0 true 1 None) posted_ram =
    Ret (Some (mkNvmeCompletion 0 0 0 0 0 1), q').
Proof.
  destruct (completion_queue_fifo 2 0 (mkNvmeQueue 0x100 0x100 0 0 2 0 0 0 true 1 None) (λ _, 0) _ _ _ _ ltac:(lia)
    eq_refl eq_refl eq_refl eq_refl ltac:(done) (rtc_once _ _ posted_step)) as (_ & q' & Hrun & _).
  exists q'. exact Hrun.
Defined.
