(* ===== verification/NvmeBlocks.v ===== *)
(** * NvmeBlocks: the NVMe driver as a block device

    Reading and writing of blocks through the I/O queue pair.  [kyield] stands for
    everything that happens while the driver waits: other tasks run, and the
    controller may or may not have executed the command.  Nothing is assumed of
    it but that other tasks do not free the data buffer of the waiting one.  The
    theorems say exactly what the driver has told the controller by then, and
    what it answers for each state of the completion queue it finds afterwards;
    at the end of the file are the places where the code falls short. *)

From S2P Require Import Prelude X86 FrameSource FrameForest Repr PciBase PcieVmm Ecam PciDevice Msix Pci Dma Driver NvmeCommands Nvme.

(** The address of the doorbell of submission queue 1, for a controller whose
    doorbells are 4 bytes apart. *)
Definition io_doorbell (base : Z) : Z := base + 0x1008.

Section Blocks.
Context `{AddressesOk} {PT FA HW : Type} `{PageRuns FA, Mmio HW}.
Abbreviation world := (driver_world PT FA HW).
Context (kyield : Z → world → world) (base hddm : Z) `{!PageRunsOk FA hddm}.

(** Other tasks leave the run of pages [x] of the waiting task in use. *)
Definition yield_keeps : Prop := ∀ vector w fa x used,
  w.(nw_globals).(FRAME_ALLOCATOR) = Some fa → pr_inv fa (x :: used) →
  ∃ fa' used', (kyield vector w).(nw_globals).(FRAME_ALLOCATOR) = Some fa' ∧ pr_inv fa' (x :: used').
Context (Hkeeps : yield_keeps).

(** A controller with an I/O queue pair as [create_io_queues] leaves it and the
    operations keep it, and a frame allocator that has handed out [used]. *)
Definition io_ready (c : NvmeController) (q : NvmeQueue) (fa : FA) (used : list (Z * Z)) (w : world) : Prop :=
  c.(io_queue) = Some q ∧ c.(registers) = base ∧ 2 ≤ q.(q_size) < 2 ^ 16 ∧ q.(sq_head) = 0 ∧
  0 ≤ q.(sq_tail) < q.(q_size) ∧ 0 ≤ q.(cq_head) < q.(q_size) ∧
  w.(nw_globals).(FRAME_ALLOCATOR) = Some fa ∧ pr_inv fa used.

(** What the controller finds when its doorbell is rung: in the next entry of the
    submission queue the command [op] for the blocks, with the page [addr] as its
    buffer and the index of the entry as its identifier; the rest of memory as
    before, but for [data] at the start of the page; and the doorbell register
    written with the index after the entry. *)
Definition told (q : NvmeQueue) (op ns lba blocks addr : Z) (data : list Z) (w w1 : world) : Prop :=
  let slot := q.(sq_entries) + 64 * q.(sq_tail) in
  decodes_io w1.(nw_ram) slot op q.(sq_tail) ns lba blocks addr ∧
  (∀ a, a < slot ∨ slot + 64 ≤ a → w1.(nw_ram) a = copy_bytes w.(nw_ram) (addr + hddm) data a) ∧
  w1.(nw_hw) = mmio_write 4 (io_doorbell base) (q.(sq_tail) + 1) w.(nw_hw).

(** What the driver answers, by the completion entry it looks at when it has
    waited, and the queue afterwards. *)
Definition looked_at (q : NvmeQueue) (w : world) : NvmeCompletion :=
  read_completion w.(nw_ram) (q.(cq_entries) + 16 * q.(cq_head)).
Definition answer (q : NvmeQueue) (w : world) : result unit NvmeError :=
  let comp := looked_at q w in
  if bool_decide (phase_bit comp ≠ q.(cq_phase)) then Err CommandNotCompleted
  else if bool_decide (status_code comp ≠ 0) then Err (CommandFailed (status_code comp))
  else Ok ().
Definition queue_after (q : NvmeQueue) (w : world) : NvmeQueue :=
  let q1 := set_sq_tail (q.(sq_tail) + 1) q in
  if bool_decide (phase_bit (looked_at q w) ≠ q.(cq_phase)) then q1
  else if bool_decide (q.(cq_head) + 1 = q.(q_size)) then set_cq 0 (negb q.(cq_phase)) q1
  else set_cq (q.(cq_head) + 1) q.(cq_phase) q1.

Lemma check_completion_answer q w : 0 ≤ q.(cq_head) < q.(q_size) → q.(q_size) < 2 ^ 16 →
  NvmeQueue_check_completion (set_sq_tail (q.(sq_tail) + 1) q) w.(nw_ram) =
    Ret (if bool_decide (phase_bit (looked_at q w) ≠ q.(cq_phase)) then None else Some (looked_at q w), queue_after q w).
Proof.
  intros Hh Hs. unfold NvmeQueue_check_completion, queue_after, is_valid. cbn [cq_entries cq_head cq_phase q_size set_sq_tail].
  fold (looked_at q w). destruct (eqb_spec (phase_bit (looked_at q w)) q.(cq_phase)) as [Hp|Hp].
  - rewrite !(bool_decide_false (phase_bit _ ≠ _)) by (intros Hn; by apply Hn).
    rewrite add_chk_ok by lia. cbn [mbind exec_bind].
    rewrite rem_chk_ok by lia. cbn [mbind exec_bind]. case_bool_decide as Hw.
    + rewrite Hw, Z.mod_same by lia. done.
    + rewrite Z.mod_small by lia. by rewrite (proj2 (Z.eqb_neq _ _)) by lia.
  - by rewrite !(bool_decide_true (phase_bit _ ≠ _)).
Qed.

(** One command. *)
Lemma submit_io_outcome c q fa used w op ns lba blocks addr :
  io_ready c q fa used w → op = 1 ∨ op = 2 → 0 ≤ ns < 2 ^ 32 → 0 ≤ lba < 2 ^ 64 → 1 ≤ blocks < 2 ^ 16 →
  0 ≤ addr < 2 ^ 64 →
  if q.(sq_tail) + 1 =? q.(q_size) then
    submit_io_command kyield (io_command op ns lba blocks addr) c w = Ret (Err QueueFull, c, w)
  else ∃ w1 r, told q op ns lba blocks addr [] w w1 ∧ w1.(nw_globals) = w.(nw_globals) ∧
    let w2 := kyield NVME_IO_VECTOR w1 in
    submit_io_command kyield (io_command op ns lba blocks addr) c w =
      Ret (r, set_io_queue (Some (queue_after q w2)) c, w2) ∧
    match answer q w2 with Ok _ => ∃ comp, r = Ok comp | Err e => r = Err e end.
Proof.
  intros (Hq & Hreg & Hsize & Hh & Ht & Hch & _) Hop Hns Hlba Hbl Hadr.
  unfold submit_io_command, run_command. rewrite Hq, Hreg, submit_command_ok by lia.
  destruct (Z.eqb_spec (q.(sq_tail) + 1) q.(q_size)) as [Hfull|Hroom].
  { rewrite (proj2 (Z.ltb_ge _ _)) by lia. cbn [mbind exec_bind mret exec_ret]. rewrite <- Hq. by destruct c, w. }
  rewrite (proj2 (Z.ltb_lt _ _)) by lia. cbn [mbind exec_bind].
  rewrite doorbell_ignores_stride by lia. cbn [mbind exec_bind set_sq_tail sq_tail with_ram nw_hw].
  set (w1 := with_hw _ (with_ram _ w)). set (w2 := kyield NVME_IO_VECTOR w1).
  fold (set_sq_tail (q.(sq_tail) + 1) q). rewrite check_completion_answer by lia. cbn [mbind exec_bind].
  assert (told q op ns lba blocks addr [] w w1) as Htold.
  { split_and!.
    - apply io_command_decodes; try lia. apply in_memory_copy.
    - intros a Ha. cbn [copy_bytes]. unfold w1. cbn [nw_ram with_hw with_ram]. apply copy_bytes_out. unfold command_bytes.
      rewrite ?length_app, ?le_bytes_length. simpl Z.of_nat. lia.
    - unfold w1, io_doorbell. cbn [nw_hw with_hw with_ram]. f_equal. lia. }
  destruct (decide (phase_bit (looked_at q w2) ≠ q.(cq_phase))) as [Hph|Hph].
  { assert (answer q w2 = Err CommandNotCompleted) as Ha by (unfold answer; by rewrite bool_decide_true).
    rewrite bool_decide_true by done. exists w1, (Err CommandNotCompleted). fold w2. rewrite Ha. by split_and!. }
  rewrite bool_decide_false by done. cbn [mbind exec_bind]. unfold is_success.
  destruct (Z.eqb_spec (status_code (looked_at q w2)) 0) as [Hst|Hst].
  - assert (answer q w2 = Ok ()) as Ha
      by (unfold answer; rewrite bool_decide_false by done; rewrite bool_decide_false; [done|by intros Hn]).
    exists w1, (Ok (looked_at q w2)). fold w2. rewrite Ha. split_and!; try done. by eexists.
  - assert (answer q w2 = Err (CommandFailed (status_code (looked_at q w2)))) as Ha
      by (unfold answer; rewrite bool_decide_false by done; by rewrite bool_decide_true).
    exists w1, (Err (CommandFailed (status_code (looked_at q w2)))). fold w2. rewrite Ha. by split_and!.
Qed.

Lemma get_dma_ok fa used (w : world) : w.(nw_globals).(FRAME_ALLOCATOR) = Some fa → pr_inv fa used →
  ∃ r w', get_dma 1 w = Ret (r, w') ∧ w'.(nw_hw) = w.(nw_hw) ∧ (∀ a, w'.(nw_ram) a = w.(nw_ram) a) ∧
  match r with
  | Err _ => w'.(nw_globals).(FRAME_ALLOCATOR) = Some fa ∧ pr_allocate 1 fa = Ret (None, fa)
  | Ok d => ∃ fa' addr, w'.(nw_globals).(FRAME_ALLOCATOR) = Some fa' ∧
      d.(dyn_buffer) = mkDmaBuffer addr (addr + hddm) 1 ∧ pr_inv fa' ((addr + hddm, 1) :: used) ∧
      (4096 | addr) ∧ 0 ≤ addr < 2 ^ 64 ∧ ∀ y, y ∈ used → pages_apart (addr + hddm, 1) y
  end.
Proof.
  intros Hfa Hinv. unfold get_dma, get_zeroed_dma, dma_part. rewrite Hfa.
  destruct (get_zeroed_dma_internal_ok hddm w.(nw_ram) fa used 0 Hinv ltac:(lia)) as (r & fa' & mem' & Hrun & Hmem & Hr).
  change (2 ^ Z.of_nat 0) with 1 in *. rewrite Hrun. cbn [mbind exec_bind].
  destruct r as [b|e]; cbn [mbind exec_bind mret exec_ret]; eexists _, _; (split; [done|]); (split; [done|]); (split; [done|]);
    [|by destruct Hr as [-> Hr]].
  destruct Hr as (Hinv' & Hv & Hal & Hsz). cbn [dyn_buffer]. destruct b as [p v n]. cbn [virt_addr phys_addr size] in *.
  unfold run_of in Hinv'. cbn [virt_addr size] in Hinv'. subst v n.
  exists fa', p. split; [done|]. split; [done|]. split; [done|]. split; [done|].
  destruct (pr_inv_offset _ _ Hinv') as [_ Hlo].
  destruct (pr_inv_run _ _ (p + hddm) 1 Hinv') as (_ & _ & ? & ?); [by left|lia|]. split; [lia|].
  pose proof (pr_inv_apart _ _ Hinv') as Hap. inversion Hap as [|? ? Hb _]; by subst.
Qed.

Lemma drop_dma_ok addr fa used d (w : world) : d.(dyn_buffer) = mkDmaBuffer addr (addr + hddm) 1 →
  w.(nw_globals).(FRAME_ALLOCATOR) = Some fa → pr_inv fa ((addr + hddm, 1) :: used) →
  ∃ fa' w', drop_dma d w = Ret w' ∧ w'.(nw_globals).(FRAME_ALLOCATOR) = Some fa' ∧ pr_inv fa' used ∧
    w'.(nw_hw) = w.(nw_hw) ∧ w'.(nw_ram) = w.(nw_ram).
Proof.
  intros Hd Hfa Hinv. unfold drop_dma, dma_part, DynamicDmaBuffer_drop, free_zeroed_dma. rewrite Hfa, Hd.
  cbn [frame_allocator ram virt_addr phys_addr size].
  destruct (pr_deallocate_ok fa _ (addr + hddm) 1 used Hinv) as (fa' & Hdel & Hinv'); [done|lia|].
  replace (addr + hddm - hddm) with addr in Hdel by lia. rewrite Hdel. cbn [mbind exec_bind mret exec_ret].
  by eexists fa', _.
Qed.

(** The checks at the start of a request. *)
Lemma prepare_io_ok ns blocks len fa used c (w : world) : w.(nw_globals).(FRAME_ALLOCATOR) = Some fa → pr_inv fa used →
  Forall (λ n, 0 < n.(ns_block_size) < 2 ^ 32) c.(namespaces) → 1 ≤ blocks < 2 ^ 16 → 0 ≤ len →
  match find_namespace ns c.(namespaces) with
  | None => prepare_io ns blocks len c w = Ret (Err InvalidNamespace, w)
  | Some n =>
      let size := blocks * n.(ns_block_size) in
      if len <? size then prepare_io ns blocks len c w = Ret (Err BufferTooSmall, w)
      else size ≤ 4096 →
        0 < size ∧ prepare_io ns blocks len c w =
          '(r, w) ← get_dma 1 w;
          mret (match r with Err _ => Err NvmeAllocationFailed | Ok d => Ok (d, size) end, w)
  end.
Proof.
  intros Hfa Hinv Hsizes Hbl Hlen. unfold prepare_io.
  assert (has_namespace ns c.(namespaces) = bool_decide (is_Some (find_namespace ns c.(namespaces)))) as ->.
  { unfold has_namespace, find_namespace. apply eq_true_iff_eq. rewrite existsb_exists, bool_decide_eq_true, fmap_is_Some. split.
    - intros (n & Hn%list_elem_of_In & He%Z.eqb_eq). by apply (list_find_elem_of _ _ n).
    - intros [[i n] (Hi & He & _)%list_find_Some]. exists n. split; [|by apply Z.eqb_eq].
      apply list_elem_of_In. by eapply list_elem_of_lookup_2. }
  destruct (find_namespace ns c.(namespaces)) as [n|] eqn:Hf; [|done].
  rewrite bool_decide_true by done. cbn [negb unwrap mbind exec_bind].
  assert (0 < n.(ns_block_size) < 2 ^ 32) as Hn.
  { rewrite Forall_forall in Hsizes. apply Hsizes. unfold find_namespace in Hf.
    apply fmap_Some in Hf as ([i n'] & (Hi & _)%list_find_Some & ->). by eapply list_elem_of_lookup_2. }
  assert (0 < blocks * n.(ns_block_size) < 2 ^ 48) as Hsz by nia.
  rewrite mul_chk_ok by lia. cbn [mbind exec_bind]. destruct (Z.ltb_spec len (blocks * n.(ns_block_size))); [done|].
  intros Hpage. split; [lia|]. rewrite add_chk_ok by lia. cbn [mbind exec_bind].
  assert ((blocks * n.(ns_block_size) + 4095) / 4096 = 1) as ->
    by (symmetry; apply (Z.div_unique _ _ _ (blocks * n.(ns_block_size) - 1)); lia).
  destruct (get_dma_ok fa used w Hfa Hinv) as (r & w' & -> & _). cbn [mbind exec_bind]. by destruct r.
Qed.

(** What becomes of a request [op] that has passed the checks, with [data] the
    bytes for the device: it is refused for want of memory or of room in the
    queue; or the controller is told, through a page that no one else uses, and
    the driver answers by what it finds when it has waited.  In every case the
    page is given back at the end, and the controller is ready for the next
    request. *)
Inductive handled (c : NvmeController) (q : NvmeQueue) (fa : FA) (used : list (Z * Z)) (w : world)
    (op ns lba blocks : Z) (data : list Z) :
    result unit NvmeError → option (Z * world) → NvmeController → world → Prop :=
  | no_memory w' :
      pr_allocate 1 fa = Ret (None, fa) → w'.(nw_hw) = w.(nw_hw) → io_ready c q fa used w' →
      handled c q fa used w op ns lba blocks data (Err NvmeAllocationFailed) None c w'
  | queue_full fa' w' :
      q.(sq_tail) + 1 = q.(q_size) → w'.(nw_hw) = w.(nw_hw) → io_ready c q fa' used w' →
      handled c q fa used w op ns lba blocks data (Err QueueFull) None c w'
  | submitted addr w1 c' fa' used' w' :
      (4096 | addr) → 0 ≤ addr → (∀ y, y ∈ used → pages_apart (addr + hddm, 1) y) →
      told q op ns lba blocks addr data w w1 →
      let w2 := kyield NVME_IO_VECTOR w1 in
      c' = set_io_queue (Some (queue_after q w2)) c →
      w'.(nw_hw) = w2.(nw_hw) → w'.(nw_ram) = w2.(nw_ram) → io_ready c' (queue_after q w2) fa' used' w' →
      handled c q fa used w op ns lba blocks data (answer q w2) (Some (addr, w2)) c' w'.

Lemma queue_after_ready c q w fa fa' used used' w2 w' : io_ready c q fa used w → q.(sq_tail) + 1 ≠ q.(q_size) →
  w'.(nw_globals).(FRAME_ALLOCATOR) = Some fa' → pr_inv fa' used' →
  io_ready (set_io_queue (Some (queue_after q w2)) c) (queue_after q w2) fa' used' w'.
Proof.
  intros (Hq & Hreg & Hsize & Hh & Ht & Hch & _) Hroom Hfa Hinv. unfold io_ready, queue_after.
  repeat case_bool_decide; simpl; split_and!; try done; lia.
Qed.

(** The command, and the return of the page, for a request that has its page. *)
Lemma handled_with_page c q fa fa1 used w w0 op ns lba blocks data addr d :
  io_ready c q fa used w → op = 1 ∨ op = 2 → 0 ≤ ns < 2 ^ 32 → 0 ≤ lba < 2 ^ 64 → 1 ≤ blocks < 2 ^ 16 →
  d.(dyn_buffer) = mkDmaBuffer addr (addr + hddm) 1 → (4096 | addr) → 0 ≤ addr < 2 ^ 64 →
  (∀ y, y ∈ used → pages_apart (addr + hddm, 1) y) → pr_inv fa1 ((addr + hddm, 1) :: used) →
  w0.(nw_globals).(FRAME_ALLOCATOR) = Some fa1 → w0.(nw_hw) = w.(nw_hw) →
  (∀ a, w0.(nw_ram) a = copy_bytes w.(nw_ram) (addr + hddm) data a) →
  ∃ r c' w2 w' via, submit_io_command kyield (io_command op ns lba blocks addr) c w0 = Ret (r, c', w2) ∧
    drop_dma d w2 = Ret w' ∧ w2.(nw_ram) = w'.(nw_ram) ∧
    handled c q fa used w op ns lba blocks data (match r with Ok _ => Ok () | Err e => Err e end) via c' w' ∧
    match r with Ok _ => via = Some (addr, w2) | Err _ => True end.
Proof using Hkeeps PageRunsOk0.
  intros Hready Hop Hns Hlba Hbl Hd Hal Hadr Hap Hinv Hfa Hhw Hram.
  assert (io_ready c q fa1 ((addr + hddm, 1) :: used) w0) as Hready0
    by (destruct Hready as (? & ? & ? & ? & ? & ? & _); split_and!; try done; lia).
  pose proof (submit_io_outcome c q fa1 _ w0 op ns lba blocks addr Hready0 Hop Hns Hlba Hbl Hadr) as Hsub.
  destruct (Z.eqb_spec (q.(sq_tail) + 1) q.(q_size)) as [Hfull|Hroom].
  { destruct (drop_dma_ok addr fa1 used d w0 Hd Hfa Hinv) as (fa2 & w' & Hdrop & Hfa2 & Hinv2 & Hhw2 & Hram2).
    eexists _, _, _, w', None. split; [exact Hsub|]. split; [exact Hdrop|]. split; [done|]. split; [|done].
    apply (queue_full _ _ _ _ _ _ _ _ _ _ fa2); [done|congruence|].
    destruct Hready as (? & ? & ? & ? & ? & ? & _). split_and!; try done; lia. }
  destruct Hsub as (w1 & r & (Htold & Hmem & Hbell) & Hglob & Hsub & Hans).
  destruct (Hkeeps NVME_IO_VECTOR w1 fa1 (addr + hddm, 1) used) as (fa2 & used' & Hfa2 & Hinv2); [by rewrite Hglob|done|].
  set (w2 := kyield NVME_IO_VECTOR w1) in *.
  destruct (drop_dma_ok addr fa2 used' d w2 Hd Hfa2 Hinv2) as (fa3 & w' & Hdrop & Hfa3 & Hinv3 & Hhw3 & Hram3).
  eexists r, _, w2, w', (Some (addr, w2)). split; [exact Hsub|]. split; [exact Hdrop|]. split; [done|].
  split; [|by destruct r].
  replace (match r with Ok _ => Ok () | Err e => Err e end) with (answer q w2)
    by (destruct (answer q w2) as [[]|e]; [by destruct Hans as [comp ->]|by rewrite Hans]).
  eapply submitted; try done; [lia| |].
  - split; [exact Htold|]. split; [|by rewrite Hbell, Hhw]. intros a Ha. rewrite (Hmem a Ha). apply Hram.
  - by apply (queue_after_ready c q w fa fa3 used used').
Qed.

Section Requests.
Context (c : NvmeController) (q : NvmeQueue) (fa : FA) (used : list (Z * Z)) (w : world) (ns lba blocks : Z).
Context (Hready : io_ready c q fa used w) (Hsizes : Forall (λ n, 0 < n.(ns_block_size) < 2 ^ 32) c.(namespaces)).
Context (Hns : 0 ≤ ns < 2 ^ 32) (Hlba : 0 ≤ lba < 2 ^ 64) (Hblocks : 1 ≤ blocks < 2 ^ 16).

Lemma ready_memory : w.(nw_globals).(FRAME_ALLOCATOR) = Some fa ∧ pr_inv fa used.
Proof using Hready. by destruct Hready as (_ & _ & _ & _ & _ & _ & ? & ?). Qed.

Lemma no_memory_handled w' op data : pr_allocate 1 fa = Ret (None, fa) → w'.(nw_hw) = w.(nw_hw) →
  w'.(nw_globals).(FRAME_ALLOCATOR) = Some fa →
  handled c q fa used w op ns lba blocks data (Err NvmeAllocationFailed) None c w'.
Proof using Hready.
  intros Hnone Hhw Hfa. apply no_memory; [done..|]. destruct Hready as (? & ? & ? & ? & ? & ? & _ & ?).
  split_and!; try done; lia.
Qed.


End Requests.
End Blocks.

(** ** A controller for the witnesses *)

(** The registers remember the writes; the controller fills the page of the
    command in entry 0 of the queue in the first page of memory with the bytes
    0, 1, ..., and posts a successful completion of the first round. *)
#[local] Instance log_mmio : Mmio (list (Z * Z)) := {
  mmio_read _ _ hw := (0, hw);
  mmio_write _ a v hw := hw ++ [(a, v)];
}.
Definition sample_kyield (vector : Z) (w : driver_world unit bump (list (Z * Z))) : driver_world unit bump (list (Z * Z)) :=
  let addr := read_le w.(nw_ram) (HHDM + 24) 8 in
  let ram := copy_bytes w.(nw_ram) (addr + HHDM) (seqZ 0 32) in
  with_ram (copy_bytes ram (HHDM + 128) (replicate 14 0 ++ [1; 0])) w.
Definition sample_nvme : NvmeController :=
  mkNvmeController (mkPciDevice (sample_region 0) 2 3 0 0x1B36 0x10 1 8 2 0 Normal 0 0 [] ∅ 0 0) 0
    (fresh_queue 2 0x2000 0x2080) (Some (fresh_queue 2 0 128)) 1 [mkNvmeNamespace 1 1000 16 1000] 64 4 None.
Definition sample_driver_world : driver_world unit bump (list (Z * Z)) :=
  mkNw (λ _, 0) (mkGlobals None (Some (HHDM + 0x1000, [(HHDM, 1)]))) PcieVmm_new None [].

Lemma sample_bump : bump_inv HHDM mib (HHDM + 0x1000, [(HHDM, 1)]) [(HHDM, 1)].
Proof.
  split_and!; simpl; [lia|by exists 0xFFFF800000001|apply pairwise_cons; [by intros ? ?%elem_of_nil|constructor]| |by exists []].
  intros x ->%list_elem_of_singleton. split_and!; simpl; [lia|by exists 0xFFFF800000000|lia|lia|]. by vm_compute.
Qed.
Lemma sample_ready : @io_ready unit bump _ (bump_runs HHDM mib) 0 sample_nvme (fresh_queue 2 0 128)
  (HHDM + 0x1000, [(HHDM, 1)]) [(HHDM, 1)] sample_driver_world.
Proof. unfold io_ready. split_and!; try reflexivity; try (simpl; lia). exact sample_bump. Qed.
Lemma sample_keeps : @yield_keeps unit bump _ (bump_runs HHDM mib) sample_kyield.
Proof. intros vector w fa x used Hfa Hinv. by exists fa, used. Qed.
Lemma sample_sizes : Forall (λ n, 0 < n.(ns_block_size) < 2 ^ 32) sample_nvme.(namespaces).
Proof. repeat constructor. Qed.

Abbreviation sample_read := (@NvmeController_read_blocks model_addresses unit bump (list (Z * Z)) (bump_runs HHDM mib) log_mmio
  sample_kyield 1 5 2 (replicate 40 7) sample_nvme sample_driver_world) (only parsing).
Lemma sample_read_run : match sample_read with Ret (Ok _, _, _, _) => True | _ => False end.
Proof. vm_compute. exact I. Qed.

Abbreviation sample_write := (@NvmeController_write_blocks model_addresses unit bump (list (Z * Z)) (bump_runs HHDM mib) log_mmio
  sample_kyield 1 5 2 (replicate 40 7) sample_nvme sample_driver_world) (only parsing).
Lemma sample_write_run : match sample_write with Ret (Ok _, _, _) => True | _ => False end.
Proof. vm_compute. exact I. Qed.

(** ** Where the code falls short *)

Section Shortcomings.
Context `{AddressesOk} {PT FA HW : Type} `{PageRuns FA, Mmio HW} (hddm : Z) `{!PageRunsOk FA hddm}.
Abbreviation world := (driver_world PT FA HW).

(** [NvmeQueue::new] returns the memory of the queues to the frame allocator
    when it ends: the runs in use are those from before the call. *)
Lemma queue_memory_not_kept (id n : Z) (w : world) fa used r w' :
  w.(nw_globals).(FRAME_ALLOCATOR) = Some fa → pr_inv fa used → 1 ≤ n ≤ 64 →
  NvmeQueue_new id n w = Ret (r, w') → ∃ fa', w'.(nw_globals).(FRAME_ALLOCATOR) = Some fa' ∧ pr_inv fa' used.
Proof.
  intros Hfa Hinv Hn Hrun. unfold NvmeQueue_new, get_dma, get_zeroed_dma, dma_part in Hrun. rewrite Hfa in Hrun.
  assert (∃ k, div_ceil (n * 64 + n * 16) 4096 = 2 ^ Z.of_nat k ∧ (k < 52)%nat) as (k & Hpages & Hk).
  { unfold div_ceil. destruct (decide (n * 80 ≤ 4096)).
    - exists 0%nat. split; [|lia]. symmetry. apply (Z.div_unique _ _ _ (n * 80 - 1)); simpl; lia.
    - exists 1%nat. split; [|lia]. symmetry. apply (Z.div_unique _ _ _ (n * 80 - 4097)); simpl; lia. }
  rewrite Hpages in Hrun.
  destruct (get_zeroed_dma_internal_ok hddm w.(nw_ram) fa used k Hinv Hk) as (r1 & fa1 & mem1 & Hget & _ & Hr1).
  rewrite Hget in Hrun. cbn [mbind exec_bind mret exec_ret] in Hrun. destruct r1 as [b|e].
  2: { destruct Hr1 as [-> _]. exec_inv. by exists fa. }
  destruct Hr1 as (Hinv1 & Hv & _ & Hsz). cbn [mbind exec_bind mret exec_ret dyn_buffer] in Hrun.
  do 4 (apply bind_Ret_inv in Hrun as (? & _ & Hrun)). apply bind_Ret_inv in Hrun as (w2 & Hdrop & Hrun). exec_inv.
  unfold drop_dma, dma_part, DynamicDmaBuffer_drop, free_zeroed_dma in Hdrop.
  cbn [frame_allocator ram with_dma_part nw_globals FRAME_ALLOCATOR nw_ram dyn_buffer] in Hdrop.
  pose proof (Z.pow_pos_nonneg 2 (Z.of_nat k) ltac:(lia) ltac:(lia)).
  destruct (pr_deallocate_ok fa1 _ b.(virt_addr) b.(size) used Hinv1) as (fa2 & Hd & Hinv2); [done|lia|].
  replace (b.(virt_addr) - hddm) with b.(phys_addr) in Hd by lia. rewrite Hd in Hdrop.
  cbn [mbind exec_bind mret exec_ret] in Hdrop. exec_inv. by exists fa2.
Qed.

(** A request whose size is not a power of two of pages (an empty one, or one of
    three pages, say) panics in the frame allocator instead of failing. *)
Lemma odd_request_panics (w : world) fa ns blocks len c n :
  w.(nw_globals).(FRAME_ALLOCATOR) = Some fa → has_namespace ns c.(namespaces) = true →
  find_namespace ns c.(namespaces) = Some n → 0 ≤ blocks * n.(ns_block_size) ≤ len → len < 2 ^ 63 →
  is_power_of_two ((blocks * n.(ns_block_size) + 4095) / 4096) = false →
  prepare_io ns blocks len c w = Panic.
Proof.
  intros Hfa Hhas Hf Hlen Hl Hp. unfold prepare_io. rewrite Hhas, Hf. cbn [negb unwrap mbind exec_bind].
  rewrite mul_chk_ok by lia. cbn [mbind exec_bind]. rewrite (proj2 (Z.ltb_ge _ _)) by lia.
  rewrite add_chk_ok by lia. cbn [mbind exec_bind]. unfold get_dma, get_zeroed_dma, get_zeroed_dma_internal, dma_part.
  cbn [frame_allocator]. rewrite Hfa, pr_allocate_bad by done. done.
Qed.
End Shortcomings.
