(* ===== verification/XhciRegisters.v ===== *)
(** * XhciRegisters: the registers of an xHCI USB host controller

    pci/usb/xhci_registers.rs.  The source has a getter, and for many parts a
    setter, per flag of a register; here the flags of a register with the same
    kinds of methods are a type, named like the methods, and the getters, the
    [set_] methods and the [clear_] methods are one function each, with the
    literals of each method.  The main results are that every method works on
    the bit, or the field, that the xHCI standard gives the flag, and that the
    registers of the ports are at their addresses.  Registers of the device are
    reached through [Mmio]. *)

From S2P Require Import Prelude X86 Repr BitFields PciBase.
Open Scope string_scope.
Open Scope list_scope.
Open Scope Z_scope.

(** ** Capability registers *)

Definition CapabilityRegisters_fields : fields :=
  [("cap_length", u8); ("_reserved1", u8); ("hci_version", u16); ("hcs_params1", u32); ("hcs_params2", u32);
   ("hcs_params3", u32); ("hcc_params1", u32); ("doorbell_offset", u32); ("runtime_offset", u32); ("hcc_params2", u32)].

Definition max_device_slots (r : Z) : Z := Z.land r 0xFF.
Definition max_interrupters (r : Z) : Z := Z.land (Z.shiftr r 8) 0x7FF.
Definition max_ports (r : Z) : Z := Z.land (Z.shiftr r 24) 0xFF.

Inductive HcsParams2_field : Type := ist | erst_max | max_scratchpad_buffers.
Definition HcsParams2_get (f : HcsParams2_field) (r : Z) : Z :=
  match f with
  | ist => Z.land r 0xF
  | erst_max => Z.land (Z.shiftr r 4) 0xF
  | max_scratchpad_buffers =>
      let hi := Z.land (Z.shiftr r 21) 0x1F in
      let lo := Z.land (Z.shiftr r 27) 0x1F in
      Z.lor (Z.shiftl hi 5) lo
  end.

Inductive HcsParams3_field : Type := u1_device_exit_latency | u2_device_exit_latency.
Definition HcsParams3_get (f : HcsParams3_field) (r : Z) : Z :=
  match f with
  | u1_device_exit_latency => Z.land r 0xFF
  | u2_device_exit_latency => Z.land (Z.shiftr r 16) 0xFFFF
  end.

Inductive HccParams1_flag : Type := ac64 | bnc | csz | ppc | pind | lhrc | ltc | nss | pae | spc | sec | cfc.
Definition HccParams1_mask (f : HccParams1_flag) : Z :=
  match f with
  | ac64 => 0x1 | bnc => 0x2 | csz => 0x4 | ppc => 0x8 | pind => 0x10 | lhrc => 0x20 | ltc => 0x40 | nss => 0x80
  | pae => 0x100 | spc => 0x200 | sec => 0x400 | cfc => 0x800
  end.
Definition max_psasize (r : Z) : Z := Z.land (Z.shiftr r 12) 0xF.
Definition xecp (r : Z) : Z := Z.land (Z.shiftr r 16) 0xFFFF.

Inductive HccParams2_flag : Type := u3c | cmc | fsc | ctc | lec | cic | etc | etc_tsc | gsc | vtc.
Definition HccParams2_mask (f : HccParams2_flag) : Z :=
  match f with
  | u3c => 0x1 | cmc => 0x2 | fsc => 0x4 | ctc => 0x8 | lec => 0x10 | cic => 0x20 | etc => 0x40 | etc_tsc => 0x80
  | gsc => 0x100 | vtc => 0x200
  end.

(** ** Operational registers *)

Definition OperationalRegisters_fields : fields :=
  [("usb_cmd", u32); ("usb_sts", u32); ("page_size", u32); ("_reserved1", Array 2 u32);
   ("device_notification_ctrl", u32); ("command_ring_ctrl", u64); ("_reserved2", Array 4 u32);
   ("device_context_base_addr", u64); ("config", u32)].

(** Every flag of [UsbCmd] has a setter. *)
Inductive UsbCmd_flag : Type :=
  | run_stop | hc_reset | interrupter_enable | host_system_error_enable | light_hc_reset | controller_save_state |
  controller_restore_state | enable_wrap_event | enable_u3_mfindex_stop.
Definition UsbCmd_get (f : UsbCmd_flag) (r : Z) : bool :=
  match f with
  | run_stop => negb (Z.land r 0x1 =? 0)
  | hc_reset => negb (Z.land r 0x2 =? 0)
  | interrupter_enable => negb (Z.land r 0x4 =? 0)
  | host_system_error_enable => negb (Z.land r 0x8 =? 0)
  | light_hc_reset => negb (Z.land r 0x80 =? 0)
  | controller_save_state => negb (Z.land r 0x100 =? 0)
  | controller_restore_state => negb (Z.land r 0x200 =? 0)
  | enable_wrap_event => negb (Z.land r 0x400 =? 0)
  | enable_u3_mfindex_stop => negb (Z.land r 0x800 =? 0)
  end.
Definition UsbCmd_set (f : UsbCmd_flag) (value : bool) (r : Z) : Z :=
  match f with
  | run_stop => if value then Z.lor r 0x1 else Z.land r (not_ 32 0x1)
  | hc_reset => if value then Z.lor r 0x2 else Z.land r (not_ 32 0x2)
  | interrupter_enable => if value then Z.lor r 0x4 else Z.land r (not_ 32 0x4)
  | host_system_error_enable => if value then Z.lor r 0x8 else Z.land r (not_ 32 0x8)
  | light_hc_reset => if value then Z.lor r 0x80 else Z.land r (not_ 32 0x80)
  | controller_save_state => if value then Z.lor r 0x100 else Z.land r (not_ 32 0x100)
  | controller_restore_state => if value then Z.lor r 0x200 else Z.land r (not_ 32 0x200)
  | enable_wrap_event => if value then Z.lor r 0x400 else Z.land r (not_ 32 0x400)
  | enable_u3_mfindex_stop => if value then Z.lor r 0x800 else Z.land r (not_ 32 0x800)
  end.

(** The flags of [UsbSts] are read-only, but for the two that have a [clear_]
    method. *)
Inductive UsbSts_flag : Type :=
  | hc_halted | host_system_error | event_interrupt | port_change_detect | save_state_status | restore_state_status
  | save_restore_error | controller_not_ready | hc_error.
Definition UsbSts_get (f : UsbSts_flag) (r : Z) : bool :=
  match f with
  | hc_halted => negb (Z.land r 0x1 =? 0)
  | host_system_error => negb (Z.land r 0x4 =? 0)
  | event_interrupt => negb (Z.land r 0x8 =? 0)
  | port_change_detect => negb (Z.land r 0x10 =? 0)
  | save_state_status => negb (Z.land r 0x100 =? 0)
  | restore_state_status => negb (Z.land r 0x200 =? 0)
  | save_restore_error => negb (Z.land r 0x400 =? 0)
  | controller_not_ready => negb (Z.land r 0x800 =? 0)
  | hc_error => negb (Z.land r 0x1000 =? 0)
  end.
Definition clear_event_interrupt (r : Z) : Z := Z.lor r 0x8.
Definition clear_port_change_detect (r : Z) : Z := Z.lor r 0x10.

(** The flags of [CommandRingControl] that have a setter; [command_ring_running]
    has none. *)
Inductive CommandRingControl_flag : Type :=
  | ring_cycle_state | command_stop | command_abort.
Definition CommandRingControl_get (f : CommandRingControl_flag) (r : Z) : bool :=
  match f with
  | ring_cycle_state => negb (Z.land r 0x1 =? 0)
  | command_stop => negb (Z.land r 0x2 =? 0)
  | command_abort => negb (Z.land r 0x4 =? 0)
  end.
Definition CommandRingControl_set (f : CommandRingControl_flag) (value : bool) (r : Z) : Z :=
  match f with
  | ring_cycle_state => if value then Z.lor r 0x1 else Z.land r (not_ 64 0x1)
  | command_stop => if value then Z.lor r 0x2 else Z.land r (not_ 64 0x2)
  | command_abort => if value then Z.lor r 0x4 else Z.land r (not_ 64 0x4)
  end.
Definition command_ring_running (r : Z) : bool := negb (Z.land r 0x8 =? 0).
Definition command_ring_pointer (r : Z) : Z := Z.land r (not_ 64 0x3F).
Definition set_command_ring_pointer (addr r : Z) : exec Z :=
  rassert (Z.land addr 0x3F =? 0);;
  mret (Z.lor (Z.land r 0x3F) (Z.land addr (not_ 64 0x3F))).
Definition CommandRingControl_new (ring_pointer : Z) (cycle_state : bool) : exec Z :=
  rassert (Z.land ring_pointer 0x3F =? 0);;
  mret (CommandRingControl_set ring_cycle_state cycle_state ring_pointer).

Inductive Config_flag : Type :=
  | u3_entry_enable | config_info_enable.
Definition Config_get (f : Config_flag) (r : Z) : bool :=
  match f with
  | u3_entry_enable => negb (Z.land r 0x100 =? 0)
  | config_info_enable => negb (Z.land r 0x200 =? 0)
  end.
Definition Config_set (f : Config_flag) (value : bool) (r : Z) : Z :=
  match f with
  | u3_entry_enable => if value then Z.lor r 0x100 else Z.land r (not_ 32 0x100)
  | config_info_enable => if value then Z.lor r 0x200 else Z.land r (not_ 32 0x200)
  end.
Definition max_device_slots_enabled (r : Z) : Z := Z.land r 0xFF.
Definition set_max_device_slots_enabled (value r : Z) : Z := Z.lor (Z.land r (not_ 32 0xFF)) value.

(** The flags of [PortSc]: those with a [set_] method, the read-only ones, and
    the change flags, which have a [clear_] method. *)
Inductive PortSc_flag : Type :=
  | port_enabled | port_reset | port_power | port_link_state_write_strobe | wake_on_connect_enable |
  wake_on_disconnect_enable | wake_on_over_current_enable | warm_port_reset.
Definition PortSc_get (f : PortSc_flag) (r : Z) : bool :=
  match f with
  | port_enabled => negb (Z.land r 0x2 =? 0)
  | port_reset => negb (Z.land r 0x10 =? 0)
  | port_power => negb (Z.land r 0x200 =? 0)
  | port_link_state_write_strobe => negb (Z.land r 0x10000 =? 0)
  | wake_on_connect_enable => negb (Z.land r 0x2000000 =? 0)
  | wake_on_disconnect_enable => negb (Z.land r 0x4000000 =? 0)
  | wake_on_over_current_enable => negb (Z.land r 0x8000000 =? 0)
  | warm_port_reset => negb (Z.land r 0x80000000 =? 0)
  end.
Definition PortSc_set (f : PortSc_flag) (value : bool) (r : Z) : Z :=
  match f with
  | port_enabled => if value then Z.lor r 0x2 else Z.land r (not_ 32 0x2)
  | port_reset => if value then Z.lor r 0x10 else Z.land r (not_ 32 0x10)
  | port_power => if value then Z.lor r 0x200 else Z.land r (not_ 32 0x200)
  | port_link_state_write_strobe => if value then Z.lor r 0x10000 else Z.land r (not_ 32 0x10000)
  | wake_on_connect_enable => if value then Z.lor r 0x2000000 else Z.land r (not_ 32 0x2000000)
  | wake_on_disconnect_enable => if value then Z.lor r 0x4000000 else Z.land r (not_ 32 0x4000000)
  | wake_on_over_current_enable => if value then Z.lor r 0x8000000 else Z.land r (not_ 32 0x8000000)
  | warm_port_reset => if value then Z.lor r 0x80000000 else Z.land r (not_ 32 0x80000000)
  end.
Inductive PortSc_status : Type :=
  | current_connect_status | over_current_active | cold_attach_status | device_removable.
Definition PortSc_get_status (f : PortSc_status) (r : Z) : bool :=
  match f with
  | current_connect_status => negb (Z.land r 0x1 =? 0)
  | over_current_active => negb (Z.land r 0x8 =? 0)
  | cold_attach_status => negb (Z.land r 0x1000000 =? 0)
  | device_removable => negb (Z.land r 0x40000000 =? 0)
  end.
Inductive PortSc_change : Type :=
  | connect_status_change | port_enabled_change | warm_port_reset_change | over_current_change | port_reset_change |
  port_link_state_change | port_config_error_change.
Definition PortSc_get_change (f : PortSc_change) (r : Z) : bool :=
  match f with
  | connect_status_change => negb (Z.land r 0x20000 =? 0)
  | port_enabled_change => negb (Z.land r 0x40000 =? 0)
  | warm_port_reset_change => negb (Z.land r 0x80000 =? 0)
  | over_current_change => negb (Z.land r 0x100000 =? 0)
  | port_reset_change => negb (Z.land r 0x200000 =? 0)
  | port_link_state_change => negb (Z.land r 0x400000 =? 0)
  | port_config_error_change => negb (Z.land r 0x800000 =? 0)
  end.
Definition PortSc_clear (f : PortSc_change) (r : Z) : Z :=
  match f with
  | connect_status_change => Z.lor r 0x20000
  | port_enabled_change => Z.lor r 0x40000
  | warm_port_reset_change => Z.lor r 0x80000
  | over_current_change => Z.lor r 0x100000
  | port_reset_change => Z.lor r 0x200000
  | port_link_state_change => Z.lor r 0x400000
  | port_config_error_change => Z.lor r 0x800000
  end.
Definition port_link_state (r : Z) : Z := Z.land (Z.shiftr r 5) 0xF.
Definition set_port_link_state (value r : Z) : Z :=
  Z.lor (Z.land r (not_ 32 (Z.shiftl 0xF 5))) (Z.shiftl (Z.land value 0xF) 5).
Definition port_speed (r : Z) : Z := Z.land (Z.shiftr r 10) 0xF.
Definition port_indicator (r : Z) : Z := Z.land (Z.shiftr r 14) 0x3.
Definition set_port_indicator (value r : Z) : Z :=
  Z.lor (Z.land r (not_ 32 (Z.shiftl 0x3 14))) (Z.shiftl (Z.land value 0x3) 14).

(** ** Runtime registers *)

Definition InterrupterRegisterSet_fields : fields :=
  [("iman", u32); ("imod", u32); ("erstsz", u32); ("_reserved", u32); ("erstba", u64); ("erdp", u64)].
Definition RuntimeRegisters_fields : fields :=
  [("mfindex", u32); ("_reserved", Array 7 u32); ("interrupters", Array 1 (Struct InterrupterRegisterSet_fields))].

Definition interrupt_pending (r : Z) : bool := negb (Z.land r 0x1 =? 0).
Definition clear_interrupt_pending (r : Z) : Z := Z.lor r 0x1.
Definition interrupt_enable (r : Z) : bool := negb (Z.land r 0x2 =? 0).
Definition set_interrupt_enable (value : bool) (r : Z) : Z :=
  if value then Z.lor r 0x2 else Z.land r (not_ 32 0x2).

Definition interrupt_moderation_interval (r : Z) : Z := Z.land r 0xFFFF.
Definition set_interrupt_moderation_interval (value r : Z) : Z := Z.lor (Z.land r (not_ 32 0xFFFF)) value.
Definition interrupt_moderation_counter (r : Z) : Z := Z.land (Z.shiftr r 16) 0xFFFF.
Definition set_interrupt_moderation_counter (value r : Z) : Z :=
  Z.lor (Z.land r (not_ 32 0xFFFF0000)) (Z.shiftl value 16).

(** ** Register access *)

Record XhciRegisters := mkXhciRegisters {
  base_addr : Z; capability_regs : Z; operational_regs : Z; runtime_regs : Z; doorbell_base : Z;
}.

(** The accessors of the operational registers are a volatile access of one
    field each; [page_size] has no setter. *)
Inductive op_reg : Type :=
  | usb_cmd | usb_sts | page_size | device_notification_ctrl | command_ring_ctrl | device_context_base_addr | config.
Definition op_field (r : op_reg) : string * Z :=
  match r with
  | usb_cmd => ("usb_cmd", 4)
  | usb_sts => ("usb_sts", 4)
  | page_size => ("page_size", 4)
  | device_notification_ctrl => ("device_notification_ctrl", 4)
  | command_ring_ctrl => ("command_ring_ctrl", 8)
  | device_context_base_addr => ("device_context_base_addr", 8)
  | config => ("config", 4)
  end.

Definition PORTSC_BASE : Z := 0x400.
Definition PORT_REGISTER_SIZE : Z := 0x10.

Section Access.
Context `{Addresses} {HW : Type} `{Mmio HW}.

(** A field of [capability_regs], a reference to the device's registers. *)
Definition capability (n : Z) (name : string) (regs : XhciRegisters) (hw : HW) : Z * HW :=
  mmio_read n (regs.(capability_regs) + offset_of name CapabilityRegisters_fields) hw.

Definition XhciRegisters_new (base : Z) (hw : HW) : exec (XhciRegisters * HW) :=
  let (cap_length, hw) := mmio_read 1 (base + offset_of "cap_length" CapabilityRegisters_fields) hw in
  operational_base ← add_chk 64 base cap_length;
  operational_base ← VirtAddr_new operational_base;
  let (runtime_offset, hw) := mmio_read 4 (base + offset_of "runtime_offset" CapabilityRegisters_fields) hw in
  runtime_base ← add_chk 64 base runtime_offset;
  runtime_base ← VirtAddr_new runtime_base;
  let (doorbell_offset, hw) := mmio_read 4 (base + offset_of "doorbell_offset" CapabilityRegisters_fields) hw in
  doorbell ← add_chk 64 base doorbell_offset;
  doorbell ← VirtAddr_new doorbell;
  mret (mkXhciRegisters base base operational_base runtime_base doorbell, hw).

Definition op_get (r : op_reg) (regs : XhciRegisters) (hw : HW) : Z * HW :=
  let (name, n) := op_field r in
  mmio_read n (regs.(operational_regs) + offset_of name OperationalRegisters_fields) hw.
Definition op_set (r : op_reg) (value : Z) (regs : XhciRegisters) (hw : HW) : HW :=
  let (name, n) := op_field r in
  mmio_write n (regs.(operational_regs) + offset_of name OperationalRegisters_fields) value hw.

(** The address of a port's register; the assertion of [port_sc] and
    [set_port_sc] is its guard. *)
Definition port_address (port : Z) (regs : XhciRegisters) (hw : HW) : exec (Z * HW) :=
  let (params1, hw) := capability 4 "hcs_params1" regs hw in
  rassert ((0 <? port) && (port <=? max_ports params1));;
  let (cap_length, hw) := capability 1 "cap_length" regs hw in
  operational_base ← add_chk 64 regs.(base_addr) cap_length;
  operational_base ← VirtAddr_new operational_base;
  index ← sub_chk port 1;
  index ← mul_chk 16 index 0x10;
  offset ← add_chk 16 0x400 index;
  addr ← add_chk 64 operational_base offset;
  mret (addr, hw).
Definition port_sc (port : Z) (regs : XhciRegisters) (hw : HW) : exec (Z * HW) :=
  '(addr, hw) ← port_address port regs hw;
  mret (mmio_read 4 addr hw).
Definition set_port_sc (port portsc : Z) (regs : XhciRegisters) (hw : HW) : exec HW :=
  '(addr, hw) ← port_address port regs hw;
  mret (mmio_write 4 addr portsc hw).

Definition mfindex (regs : XhciRegisters) (hw : HW) : Z * HW :=
  mmio_read 4 (regs.(runtime_regs) + offset_of "mfindex" RuntimeRegisters_fields) hw.

Definition iman_address (regs : XhciRegisters) : Z :=
  regs.(runtime_regs) + offset_of "interrupters" RuntimeRegisters_fields +
  offset_of "iman" InterrupterRegisterSet_fields.
Definition interrupter_management (interrupter : Z) (regs : XhciRegisters) (hw : HW) : exec (Z * HW) :=
  let (params1, hw) := capability 4 "hcs_params1" regs hw in
  rassert (interrupter <? max_interrupters params1);;
  rassert (interrupter =? 0);;
  mret (mmio_read 4 (iman_address regs) hw).
Definition set_interrupter_management (interrupter iman : Z) (regs : XhciRegisters) (hw : HW) : exec HW :=
  let (params1, hw) := capability 4 "hcs_params1" regs hw in
  rassert (interrupter <? max_interrupters params1);;
  rassert (interrupter =? 0);;
  mret (mmio_write 4 (iman_address regs) iman hw).

Definition xhci_ring_doorbell (slot_id endpoint stream_id : Z) (regs : XhciRegisters) (hw : HW) : exec HW :=
  let doorbell_offset := slot_id * 4 in
  let doorbell_value := Z.lor (Z.shiftl stream_id 16) endpoint in
  addr ← add_chk 64 regs.(doorbell_base) doorbell_offset;
  mret (mmio_write 4 addr doorbell_value hw).
Definition ring_hc_doorbell (command : Z) (regs : XhciRegisters) (hw : HW) : exec HW :=
  xhci_ring_doorbell 0 command 0 regs hw.
End Access.

(** ** Flags and fields *)

(** The bit of each flag in the xHCI standard. *)
Definition UsbCmd_bit (f : UsbCmd_flag) : Z :=
  match f with
  | run_stop => 0 | hc_reset => 1 | interrupter_enable => 2 | host_system_error_enable => 3
   | light_hc_reset => 7 | controller_save_state => 8 | controller_restore_state => 9 | enable_wrap_event => 10
   | enable_u3_mfindex_stop => 11
  end.
Definition UsbSts_bit (f : UsbSts_flag) : Z :=
  match f with
  | hc_halted => 0 | host_system_error => 2 | event_interrupt => 3 | port_change_detect => 4
   | save_state_status => 8 | restore_state_status => 9 | save_restore_error => 10 | controller_not_ready => 11
   | hc_error => 12
  end.
Definition CommandRingControl_bit (f : CommandRingControl_flag) : Z :=
  match f with
  | ring_cycle_state => 0 | command_stop => 1 | command_abort => 2
  end.
Definition Config_bit (f : Config_flag) : Z :=
  match f with
  | u3_entry_enable => 8 | config_info_enable => 9
  end.
Definition PortSc_bit (f : PortSc_flag) : Z :=
  match f with
  | port_enabled => 1 | port_reset => 4 | port_power => 9 | port_link_state_write_strobe => 16
   | wake_on_connect_enable => 25 | wake_on_disconnect_enable => 26 | wake_on_over_current_enable => 27 | warm_port_reset => 31
  end.
Definition PortSc_status_bit (f : PortSc_status) : Z :=
  match f with
  | current_connect_status => 0 | over_current_active => 3 | cold_attach_status => 24 | device_removable => 30
  end.
Definition PortSc_change_bit (f : PortSc_change) : Z :=
  match f with
  | connect_status_change => 17 | port_enabled_change => 18 | warm_port_reset_change => 19 | over_current_change => 20
   | port_reset_change => 21 | port_link_state_change => 22 | port_config_error_change => 23
  end.

(** A getter that reads bit [n] of a register; an update of a register of [w] bits
    that stores [v] in bit [n] and keeps every other bit; and the same for a field
    of [len] bits from bit [n] on, whose setter takes any value of [vw] bits and
    stores the low [len] bits of it. *)
Definition reads_bit (n : Z) (get : Z → bool) : Prop := ∀ r, 0 ≤ r → get r = Z.testbit r n.
Definition writes_bit (w n : Z) (v : bool) (upd : Z → Z) : Prop := ∀ r, 0 ≤ r < 2 ^ w →
  0 ≤ upd r < 2 ^ w ∧ ∀ i, 0 ≤ i → Z.testbit (upd r) i = if i =? n then v else Z.testbit r i.
Definition reads_field (n len : Z) (get : Z → Z) : Prop := ∀ r, 0 ≤ r → get r = r / 2 ^ n mod 2 ^ len.
Definition writes_field (w n len vw : Z) (set : Z → Z → Z) : Prop := ∀ v r, 0 ≤ v < 2 ^ vw → 0 ≤ r < 2 ^ w →
  0 ≤ set v r < 2 ^ w ∧
  ∀ i, 0 ≤ i → Z.testbit (set v r) i = if (n <=? i) && (i <? n + len) then Z.testbit v (i - n) else Z.testbit r i.

Lemma reads_bit_mask n mask : 0 ≤ n → mask = 2 ^ n → reads_bit n (λ r, negb (Z.land r mask =? 0)).
Proof.
  intros Hn -> r Hr. destruct (Z.testbit r n) eqn:Hb.
  - apply negb_true_iff, Z.eqb_neq. intros H0. apply (f_equal (λ x, Z.testbit x n)) in H0.
    by rewrite Z.land_spec, Hb, Z.pow2_bits_true, Z.bits_0 in H0 by done.
  - apply negb_false_iff, Z.eqb_eq, Z.bits_inj'. intros i Hi. rewrite Z.land_spec, Z.bits_0, Z.pow2_bits_eqb by done.
    destruct (Z.eqb_spec n i) as [<-|]; by rewrite ?Hb, ?andb_false_r.
Qed.

Lemma writes_bit_masks w n on off : 0 ≤ n < w → on = 2 ^ n → off = 2 ^ n → ∀ v,
  writes_bit w n v (λ r, if v then Z.lor r on else Z.land r (not_ w off)).
Proof.
  intros Hn -> -> v r Hr.
  assert (0 ≤ 2 ^ n < 2 ^ w) as Hm by (split; [lia|by apply Z.pow_lt_mono_r; lia]).
  assert (∀ i, 0 ≤ i → Z.testbit (if v then Z.lor r (2 ^ n) else Z.land r (not_ w (2 ^ n))) i =
    if i =? n then v else Z.testbit r i) as Hbits.
  { intros i Hi. destruct v; rewrite ?Z.lor_spec, ?Z.land_spec, ?not_spec, Z.pow2_bits_eqb by lia;
      rewrite (Z.eqb_sym n i); (destruct (Z.eqb_spec i n) as [->|]; cbn [negb]);
      rewrite ?orb_true_r, ?orb_false_r, ?andb_false_r, ?andb_true_r; try done.
    destruct (Z.ltb_spec i w); [by rewrite andb_true_r|]. by rewrite (testbit_high w r i). }
  split; [|done]. apply bits_range; [lia| |].
  - destruct v; [apply Z.lor_nonneg; lia|apply Z.land_nonneg; lia].
  - intros i Hi. rewrite Hbits by lia. destruct (Z.eqb_spec i n); [lia|]. by apply (testbit_high w).
Qed.

Lemma writes_bit_on w n on : 0 ≤ n < w → on = 2 ^ n → writes_bit w n true (λ r, Z.lor r on).
Proof. intros Hn Hon. by apply (writes_bit_masks w n on on Hn Hon Hon true). Qed.

Lemma reads_field_mask n len mask : 0 ≤ n → 0 ≤ len → mask = Z.ones len →
  reads_field n len (λ r, Z.land (Z.shiftr r n) mask).
Proof. intros Hn Hl -> r Hr. by rewrite Z.land_ones, Z.shiftr_div_pow2. Qed.

(** [(r & !mask) | (value << n)], where the value has at most the bits of the field. *)
Lemma writes_field_masks w n len vw mask put : 0 ≤ n → 0 ≤ len → n + len ≤ w → mask = Z.shiftl (Z.ones len) n →
  (∀ v, 0 ≤ v < 2 ^ vw → put v = Z.shiftl (v mod 2 ^ len) n) →
  writes_field w n len vw (λ v r, Z.lor (Z.land r (not_ w mask)) (put v)).
Proof.
  intros Hn Hl Hw -> Hput v r Hv Hr. rewrite Hput by done.
  assert (∀ i, 0 ≤ i → Z.testbit (Z.shiftl (Z.ones len) n) i = (n <=? i) && (i <? n + len)) as Hmask.
  { intros i Hi. rewrite Z.shiftl_spec by done. destruct (Z.leb_spec n i); [|by rewrite Z.testbit_neg_r by lia].
    cbn [andb]. destruct (Z.ltb_spec i (n + len)); [by rewrite Z.ones_spec_low by lia|by rewrite Z.ones_spec_high by lia]. }
  assert (0 ≤ Z.shiftl (Z.ones len) n < 2 ^ w) as Hm.
  { apply bits_range; [lia|apply Z.shiftl_nonneg; rewrite Z.ones_equiv; lia|]. intros i Hi. rewrite Hmask by lia.
    by rewrite (proj2 (Z.ltb_ge i (n + len))), andb_false_r by lia. }
  assert (∀ i, 0 ≤ i → Z.testbit (Z.lor (Z.land r (not_ w (Z.shiftl (Z.ones len) n))) (Z.shiftl (v mod 2 ^ len) n)) i =
    if (n <=? i) && (i <? n + len) then Z.testbit v (i - n) else Z.testbit r i) as Hbits.
  { intros i Hi. rewrite Z.lor_spec, Z.land_spec, not_spec, Hmask, Z.shiftl_spec by lia.
    destruct (Z.leb_spec n i), (Z.ltb_spec i (n + len)); cbn [andb negb].
    - by rewrite andb_false_r, andb_false_r, Z.mod_pow2_bits_low by lia.
    - rewrite Z.mod_pow2_bits_high, orb_false_r, andb_true_r by lia.
      destruct (Z.ltb_spec i w); [by rewrite andb_true_r|]. by rewrite (testbit_high w r i).
    - rewrite (Z.testbit_neg_r _ (i - n)), orb_false_r, andb_true_r by lia.
      by rewrite (proj2 (Z.ltb_lt i w)), andb_true_r by lia.
    - rewrite (Z.testbit_neg_r _ (i - n)), orb_false_r, andb_true_r by lia. lia. }
  split; [|done]. apply bits_range; [lia| |].
  - apply Z.lor_nonneg. split; [apply Z.land_nonneg; lia|]. apply Z.shiftl_nonneg, Z.mod_pos_bound. lia.
  - intros i Hi. rewrite Hbits by lia. destruct (Z.ltb_spec i (n + len)); [lia|]. rewrite andb_false_r.
    by apply (testbit_high w).
Qed.
(** [command_ring_pointer] and its setter. *)
Lemma command_ring_pointer_updates addr r : 0 ≤ addr < 2 ^ 64 → 0 ≤ r < 2 ^ 64 → Z.land addr 0x3F = 0 →
  ∃ r', set_command_ring_pointer addr r = Ret r' ∧ command_ring_pointer r' = addr ∧
    0 ≤ r' < 2 ^ 64 ∧ Z.land r' 0x3F = Z.land r 0x3F.
Proof.
  intros Ha Hr H0. unfold set_command_ring_pointer, command_ring_pointer. rewrite H0. eexists. split; [done|].
  assert (Z.land addr (not_ 64 0x3F) = addr) as -> by (rewrite land_not by lia; by apply ldiff_zero).
  assert (Z.land (Z.lor (Z.land r 0x3F) addr) 0x3F = Z.land r 0x3F) as Hlow
    by (by rewrite Z.land_lor_distr_l, H0, Z.lor_0_r, <- Z.land_assoc).
  rewrite Hlow. revert Hlow. change (Z.land r 0x3F) with (Z.land r (not_ 64 (not_ 64 0x3F))). intros _.
  destruct (replace_bits_spec 64 (not_ 64 0x3F) ltac:(lia) (not_range 64 0x3F ltac:(lia) ltac:(lia)) addr r Hr) as (Hg & _ & Hx);
    [lia|by rewrite ldiff_not by lia|]. split; [exact Hg|]. split; [exact Hx|done].
Qed.


(** A status register is acknowledged by writing back the value read with one
    [clear_] method applied; clearing one change bit of a port writes 1 to every
    other pending change bit, and to [port_enabled], which xHCI also clears when
    1 is written. *)
Lemma clearing_one_change_acknowledges_all r : 0 ≤ r < 2 ^ 32 →
  PortSc_get port_enabled r = true → PortSc_get_change port_reset_change r = true →
  PortSc_get port_enabled (PortSc_clear connect_status_change r) = true ∧
  PortSc_get_change port_reset_change (PortSc_clear connect_status_change r) = true.
Proof.
  intros Hr H1 H2. cbn [PortSc_get PortSc_get_change PortSc_clear] in *.
  split; rewrite Z.land_lor_distr_l; [change (Z.land 0x20000 0x2) with 0|change (Z.land 0x20000 0x200000) with 0]; by rewrite Z.lor_0_r.
Qed.

(** ** Addresses *)

(** The capability registers are read-only: reading one changes nothing and
    always gives the same value. *)
Class XhciCaps {HW : Type} `{Mmio HW} (base : Z) (caps : Z → Z → Z) := {
  caps_read n off hw : 0 < n → 0 ≤ off → off + n ≤ 0x20 → mmio_read n (base + off) hw = (caps n off, hw);
}.

Lemma xhci_offsets :
  layout CapabilityRegisters_fields = [("cap_length", 0x00); ("_reserved1", 0x01); ("hci_version", 0x02);
    ("hcs_params1", 0x04); ("hcs_params2", 0x08); ("hcs_params3", 0x0C); ("hcc_params1", 0x10);
    ("doorbell_offset", 0x14); ("runtime_offset", 0x18); ("hcc_params2", 0x1C)] ∧
  layout OperationalRegisters_fields = [("usb_cmd", 0x00); ("usb_sts", 0x04); ("page_size", 0x08); ("_reserved1", 0x0C);
    ("device_notification_ctrl", 0x14); ("command_ring_ctrl", 0x18); ("_reserved2", 0x20);
    ("device_context_base_addr", 0x30); ("config", 0x38)] ∧
  layout RuntimeRegisters_fields = [("mfindex", 0x00); ("_reserved", 0x04); ("interrupters", 0x20)] ∧
  layout InterrupterRegisterSet_fields = [("iman", 0x00); ("imod", 0x04); ("erstsz", 0x08); ("_reserved", 0x0C);
    ("erstba", 0x10); ("erdp", 0x18)] ∧
  size_of (Struct CapabilityRegisters_fields) = 0x20 ∧ size_of (Struct OperationalRegisters_fields) = 0x40 ∧
  size_of (Struct InterrupterRegisterSet_fields) = 0x20.
Proof. by vm_compute. Qed.

Section Addresses.
Context `{AddressesOk} {HW : Type} `{Mmio HW} (base : Z) (caps : Z → Z → Z) `{!XhciCaps base caps}.

Definition cap_length : Z := caps 1 0x00.
Definition hcs_params1 : Z := caps 4 0x04.

(** The registers of a controller whose memory is in the upper half. *)
Definition in_bar : Prop :=
  2 ^ 64 - 2 ^ 47 ≤ base ∧ base + 2 ^ 33 ≤ 2 ^ 64 ∧
  0 ≤ cap_length < 2 ^ 8 ∧ 0 ≤ caps 4 0x14 < 2 ^ 32 ∧ 0 ≤ caps 4 0x18 < 2 ^ 32 ∧ 0 ≤ hcs_params1 < 2 ^ 32.
Definition xhci_regs : XhciRegisters :=
  mkXhciRegisters base base (base + cap_length) (base + caps 4 0x18) (base + caps 4 0x14).

Lemma XhciRegisters_new_ok hw : in_bar → XhciRegisters_new base hw = Ret (xhci_regs, hw).
Proof using Type*.
  intros (Hb & Ht & Hc & Hd & Hr & _). unfold XhciRegisters_new, cap_length in *.
  rewrite (caps_read 1 0x00) by (by vm_compute). run. rewrite VirtAddr_new_ok by (right; lia). cbn [mbind exec_bind].
  rewrite (caps_read 4 0x18) by (by vm_compute). run. rewrite VirtAddr_new_ok by (right; lia). cbn [mbind exec_bind].
  rewrite (caps_read 4 0x14) by (by vm_compute). run. by rewrite VirtAddr_new_ok by (right; lia).
Qed.

Lemma max_ports_range r : 0 ≤ max_ports r < 2 ^ 8.
Proof. unfold max_ports. change 0xFF with (Z.ones 8). rewrite Z.land_ones by lia. apply Z.mod_pos_bound. lia. Qed.

Definition port_register (port : Z) : Z := base + cap_length + PORTSC_BASE + (port - 1) * PORT_REGISTER_SIZE.

Lemma port_address_ok port hw : in_bar → 0 < port ≤ max_ports hcs_params1 →
  port_address port xhci_regs hw = Ret (port_register port, hw).
Proof using Type*.
  intros (Hb & Ht & Hc & _) Hp. pose proof (max_ports_range hcs_params1). unfold port_address, capability.
  change (capability_regs xhci_regs) with base. change (base_addr xhci_regs) with base.
  rewrite (caps_read 4 0x04) by (by vm_compute). fold hcs_params1.
  rewrite rassert_ok by (apply andb_true_intro; lia). cbn [mbind exec_bind].
  rewrite (caps_read 1 0x00) by (by vm_compute). fold cap_length. run. rewrite VirtAddr_new_ok by (right; lia).
  cbn [mbind exec_bind]. run. run. run. run. unfold port_register, PORTSC_BASE, PORT_REGISTER_SIZE. f_equal. f_equal. lia.
Qed.

(** C38: Access to the registers of the USB ports.  [port_sc] and [set_port_sc]
    access exactly the four bytes of the port's register for the ports the
    controller has and panic for every other number; the registers of different
    ports do not overlap each other or the operational registers. *)
Theorem xhci_port_registers (hw : HW) (value : Z) (Hbar : in_bar) :
  (∀ port, 0 < port ≤ max_ports hcs_params1 →
    port_sc port xhci_regs hw = Ret (mmio_read 4 (port_register port) hw) ∧
    set_port_sc port value xhci_regs hw = Ret (mmio_write 4 (port_register port) value hw) ∧
    operational_regs xhci_regs + size_of (Struct OperationalRegisters_fields) ≤ port_register port) ∧
  (∀ port, port ≤ 0 ∨ max_ports hcs_params1 < port →
    port_sc port xhci_regs hw = Panic ∧ set_port_sc port value xhci_regs hw = Panic) ∧
  (∀ p q, p < q → port_register p + 4 ≤ port_register q).
Proof using Type*.
  split_and!.
  - intros port Hp. unfold port_sc, set_port_sc. rewrite port_address_ok by done. split; [done|]. split; [done|].
    change (size_of _) with 0x40. unfold port_register, PORTSC_BASE, PORT_REGISTER_SIZE. simpl. lia.
  - intros port Hp. unfold port_sc, set_port_sc, port_address, capability.
    change (capability_regs xhci_regs) with base. rewrite (caps_read 4 0x04) by (by vm_compute). fold hcs_params1.
    destruct ((0 <? port) && (port <=? max_ports hcs_params1)) eqn:Hin; [|done]. apply andb_true_iff in Hin. lia.
  - intros p q Hpq. unfold port_register, PORT_REGISTER_SIZE. lia.
Qed.
End Addresses.

(** ** A controller for the witness: four ports, registers that keep what is
    written *)
Module Model.
Definition base : Z := 0xFFFFFA0000000000.
Definition caps (n off : Z) : Z :=
  if off =? 0x00 then 0x40
  else if off =? 0x04 then 0x04000120
  else if off =? 0x14 then 0x2000
  else if off =? 0x18 then 0x1000
  else 0.
#[local] Instance cells : Mmio (gmap Z Z) := {
  mmio_read n a hw := (if (base <=? a) && (a <? base + 0x20) then caps n (a - base) else default 0 (hw !! a), hw);
  mmio_write n a v hw := <[a := v]> hw;
}.
#[local] Instance cells_caps : XhciCaps base caps.
Proof.
  constructor. intros n off hw Hn H0 H1. cbn. rewrite (proj2 (Z.leb_le _ _)), (proj2 (Z.ltb_lt _ _)) by lia. cbn.
  by replace (base + off - base) with off by lia.
Qed.

Lemma xhci_port_registers_witness :
  @port_sc model_addresses _ cells 2 (xhci_regs base caps) {[base + 0x450 := 0x203]} = Ret (0x203, {[base + 0x450 := 0x203]}) ∧
  @port_sc model_addresses _ cells 5 (xhci_regs base caps) ∅ = Panic.
Proof.
  assert (in_bar base caps) as Hbar by (vm_compute; repeat split; congruence).
  split.
  - destruct (@xhci_port_registers _ model_addresses_ok _ cells base caps cells_caps {[base + 0x450 := 0x203]} 0 Hbar)
      as (Hin & _). destruct (Hin 2) as [-> _]; [by vm_compute|]. by vm_compute.
  - destruct (@xhci_port_registers _ model_addresses_ok _ cells base caps cells_caps ∅ 0 Hbar) as (_ & Hout & _).
    destruct (Hout 5) as [-> _]; [right; by vm_compute|done].
Defined.
End Model.
