(* ===== verification/Trb.v ===== *)
(** * Trb: transfer request blocks of xHCI rings

    pci/usb/init_helpers.rs, the [Trb] structure: its types and completion
    codes, the accessors of its parts, the blocks a driver puts on a ring and
    the tests of the events a controller puts on one.  A block is 16 bytes:
    [data], [status] and [control]. *)

From S2P Require Import Prelude Repr BitFields.
Open Scope string_scope.
Open Scope list_scope.
Open Scope Z_scope.

Definition Trb_fields : fields := [("data", u64); ("status", u32); ("control", u32)].
Record Trb := mkTrb { trb_data : Z; trb_status : Z; trb_control : Z }.

Inductive TrbType : Type :=
  | Normal | SetupStage | DataStage | StatusStage | Isoch | Link | EventData
  | EnableSlot | DisableSlot | AddressDevice | ConfigureEndpoint | EvaluateContext | ResetEndpoint | StopEndpoint
  | SetTrDequeuePointer | ResetDevice | ForceEvent | NegotiateBandwidth | SetLatencyToleranceValue
  | GetPortBandwidth | ForceHeader | NoOpCommand
  | TransferEvent | CommandCompletionEvent | PortStatusChangeEvent | BandwidthRequestEvent | DoorbellEvent
  | HostControllerEvent | DeviceNotificationEvent | MfindexWrapEvent.
(** [trb_type as u8]. *)
Definition TrbType_code (t : TrbType) : Z :=
  match t with
  | Normal => 1 | SetupStage => 2 | DataStage => 3 | StatusStage => 4 | Isoch => 5 | Link => 6 | EventData => 7
  | EnableSlot => 9 | DisableSlot => 10 | AddressDevice => 11 | ConfigureEndpoint => 12 | EvaluateContext => 13
  | ResetEndpoint => 14 | StopEndpoint => 15 | SetTrDequeuePointer => 16 | ResetDevice => 17 | ForceEvent => 18
  | NegotiateBandwidth => 19 | SetLatencyToleranceValue => 20 | GetPortBandwidth => 21 | ForceHeader => 22
  | NoOpCommand => 23
  | TransferEvent => 32 | CommandCompletionEvent => 33 | PortStatusChangeEvent => 34 | BandwidthRequestEvent => 35
  | DoorbellEvent => 36 | HostControllerEvent => 37 | DeviceNotificationEvent => 38 | MfindexWrapEvent => 39
  end.

Inductive CompletionCode : Type :=
  | Invalid | Success | DataBufferError | BabbleDetectedError | UsbTransactionError | TrbError | StallError
  | ResourceError | BandwidthError | NoSlotsAvailableError | InvalidStreamTypeError | SlotNotEnabledError
  | EndpointNotEnabledError | ShortPacket | RingUnderrun | RingOverrun | VfEventRingFullError | ParameterError
  | BandwidthOverrunError | ContextStateError | NoPingResponseError | EventRingFullError | IncompatibleDeviceError
  | MissedServiceError | CommandRingStopped | CommandAborted | Stopped | StoppedLengthInvalid | StoppedShortPacket
  | MaxExitLatencyTooLargeError | IsochBufferOverrun | EventLostError | UndefinedError | InvalidStreamIdError
  | SecondaryBandwidthError | SplitTransactionError.
Definition CompletionCode_code (c : CompletionCode) : Z :=
  match c with
  | Invalid => 0 | Success => 1 | DataBufferError => 2 | BabbleDetectedError => 3 | UsbTransactionError => 4
  | TrbError => 5 | StallError => 6 | ResourceError => 7 | BandwidthError => 8 | NoSlotsAvailableError => 9
  | InvalidStreamTypeError => 10 | SlotNotEnabledError => 11 | EndpointNotEnabledError => 12 | ShortPacket => 13
  | RingUnderrun => 14 | RingOverrun => 15 | VfEventRingFullError => 16 | ParameterError => 17
  | BandwidthOverrunError => 18 | ContextStateError => 19 | NoPingResponseError => 20 | EventRingFullError => 21
  | IncompatibleDeviceError => 22 | MissedServiceError => 23 | CommandRingStopped => 24 | CommandAborted => 25
  | Stopped => 26 | StoppedLengthInvalid => 27 | StoppedShortPacket => 28 | MaxExitLatencyTooLargeError => 29
  | IsochBufferOverrun => 31 | EventLostError => 32 | UndefinedError => 33 | InvalidStreamIdError => 34
  | SecondaryBandwidthError => 35 | SplitTransactionError => 36
  end.

(** ** Accessors *)

(** Assignments to the fields. *)
Definition with_status (s : Z) (t : Trb) : Trb := mkTrb t.(trb_data) s t.(trb_control).
Definition with_control (c : Z) (t : Trb) : Trb := mkTrb t.(trb_data) t.(trb_status) c.

Definition Trb_new : Trb := mkTrb 0 0 0.
Definition with_values (data status control : Z) : Trb := mkTrb data status control.

Definition trb_type (t : Trb) : Z := get_field 10 0x3F t.(trb_control).
Definition set_trb_type (ty : TrbType) (t : Trb) : Trb :=
  with_control (replace_bits 32 0xFC00 (Z.shiftl (TrbType_code ty) 10) t.(trb_control)) t.

(** The flags of [control], each with a getter and a setter. *)
Inductive Trb_flag : Type := cycle_bit | interrupt_on_completion | immediate_data | chain_bit.
Definition Trb_get (f : Trb_flag) (t : Trb) : bool :=
  match f with
  | cycle_bit => get_flag 0x1 t.(trb_control)
  | interrupt_on_completion => get_flag 0x20 t.(trb_control)
  | immediate_data => get_flag 0x40 t.(trb_control)
  | chain_bit => get_flag 0x10 t.(trb_control)
  end.
Definition Trb_set (f : Trb_flag) (v : bool) (t : Trb) : Trb :=
  match f with
  | cycle_bit => with_control (set_flag 32 0x1 v t.(trb_control)) t
  | interrupt_on_completion => with_control (set_flag 32 0x20 v t.(trb_control)) t
  | immediate_data => with_control (set_flag 32 0x40 v t.(trb_control)) t
  | chain_bit => with_control (set_flag 32 0x10 v t.(trb_control)) t
  end.

Definition completion_code (t : Trb) : Z := get_field 24 0xFF t.(trb_status).
Definition set_completion_code (c : CompletionCode) (t : Trb) : Trb :=
  with_status (replace_bits 32 0xFF000000 (Z.shiftl (CompletionCode_code c) 24) t.(trb_status)) t.
Definition transfer_length (t : Trb) : Z := Z.land t.(trb_status) 0x1FFFF.
Definition set_transfer_length (length : Z) (t : Trb) : Trb :=
  with_status (replace_bits 32 0x1FFFF (Z.land length 0x1FFFF) t.(trb_status)) t.
Definition slot_id (t : Trb) : Z := get_field 24 0xFF t.(trb_control).
Definition set_slot_id (slot : Z) (t : Trb) : Trb :=
  with_control (replace_bits 32 0xFF000000 (Z.shiftl slot 24) t.(trb_control)) t.
Definition endpoint_id (t : Trb) : Z := get_field 16 0x1F t.(trb_control).
Definition set_endpoint_id (endpoint : Z) (t : Trb) : Trb :=
  with_control (replace_bits 32 0x1F0000 (Z.shiftl endpoint 16) t.(trb_control)) t.

(** ** Blocks of a driver *)

(** [trb.control |= bits], [trb.status |= bits] and [trb.data = value]. *)
Definition or_control (bits : Z) (t : Trb) : Trb := with_control (Z.lor t.(trb_control) bits) t.
Definition or_status (bits : Z) (t : Trb) : Trb := with_status (Z.lor t.(trb_status) bits) t.
Definition with_data (d : Z) (t : Trb) : Trb := mkTrb d t.(trb_status) t.(trb_control).

Definition no_op_command (cycle : bool) : Trb :=
  let trb := Trb_new in
  let trb := set_trb_type NoOpCommand trb in
  Trb_set cycle_bit cycle trb.
Definition enable_slot_command (slot_type : Z) (cycle : bool) : Trb :=
  let trb := Trb_new in
  let trb := set_trb_type EnableSlot trb in
  let trb := or_control (Z.shiftl slot_type 16) trb in
  Trb_set cycle_bit cycle trb.
Definition disable_slot_command (slot : Z) (cycle : bool) : Trb :=
  let trb := Trb_new in
  let trb := set_trb_type DisableSlot trb in
  let trb := set_slot_id slot trb in
  Trb_set cycle_bit cycle trb.
Definition address_device_command (input_context_ptr slot : Z) (block_set_address cycle : bool) : Trb :=
  let trb := Trb_new in
  let trb := with_data (Z.land input_context_ptr (not_ 64 0x3F)) trb in
  let trb := set_trb_type AddressDevice trb in
  let trb := set_slot_id slot trb in
  let trb := if block_set_address then or_control 0x200 trb else trb in
  Trb_set cycle_bit cycle trb.
Definition configure_endpoint_command (input_context_ptr slot : Z) (deconfigure cycle : bool) : Trb :=
  let trb := Trb_new in
  let trb := with_data (Z.land input_context_ptr (not_ 64 0x3F)) trb in
  let trb := set_trb_type ConfigureEndpoint trb in
  let trb := set_slot_id slot trb in
  let trb := if deconfigure then or_control 0x200 trb else trb in
  Trb_set cycle_bit cycle trb.
Definition reset_device_command (slot : Z) (cycle : bool) : Trb :=
  let trb := Trb_new in
  let trb := set_trb_type ResetDevice trb in
  let trb := set_slot_id slot trb in
  Trb_set cycle_bit cycle trb.
Definition stop_endpoint_command (slot endpoint : Z) (suspend cycle : bool) : Trb :=
  let trb := Trb_new in
  let trb := set_trb_type StopEndpoint trb in
  let trb := set_slot_id slot trb in
  let trb := set_endpoint_id endpoint trb in
  let trb := if suspend then or_control 0x800000 trb else trb in
  Trb_set cycle_bit cycle trb.
Definition reset_endpoint_command (slot endpoint : Z) (cycle : bool) : Trb :=
  let trb := Trb_new in
  let trb := set_trb_type ResetEndpoint trb in
  let trb := set_slot_id slot trb in
  let trb := set_endpoint_id endpoint trb in
  Trb_set cycle_bit cycle trb.

Definition normal_transfer (buffer_ptr length td_size : Z) (ioc cycle : bool) : Trb :=
  let trb := Trb_new in
  let trb := with_data buffer_ptr trb in
  let trb := set_transfer_length length trb in
  let trb := or_status (Z.shiftl td_size 17) trb in
  let trb := set_trb_type Normal trb in
  let trb := Trb_set interrupt_on_completion ioc trb in
  Trb_set cycle_bit cycle trb.
Definition setup_stage (setup_data length : Z) (immediate cycle : bool) : Trb :=
  let trb := Trb_new in
  let trb := with_data setup_data trb in
  let trb := set_transfer_length length trb in
  let trb := set_trb_type SetupStage trb in
  let trb := Trb_set immediate_data immediate trb in
  let trb := or_control 0x80 trb in
  Trb_set cycle_bit cycle trb.
Definition data_stage (buffer_ptr length : Z) (direction_in cycle : bool) : Trb :=
  let trb := Trb_new in
  let trb := with_data buffer_ptr trb in
  let trb := set_transfer_length length trb in
  let trb := set_trb_type DataStage trb in
  let trb := if direction_in then or_control 0x10000 trb else trb in
  Trb_set cycle_bit cycle trb.
Definition status_stage (direction_in ioc cycle : bool) : Trb :=
  let trb := Trb_new in
  let trb := set_trb_type StatusStage trb in
  let trb := if direction_in then or_control 0x10000 trb else trb in
  let trb := Trb_set interrupt_on_completion ioc trb in
  Trb_set cycle_bit cycle trb.
Definition link (ring_segment_ptr : Z) (toggle_cycle cycle : bool) : Trb :=
  let trb := Trb_new in
  let trb := with_data (Z.land ring_segment_ptr (not_ 64 0x3F)) trb in
  let trb := set_trb_type Link trb in
  let trb := if toggle_cycle then or_control 0x2 trb else trb in
  Trb_set cycle_bit cycle trb.

(** ** Events *)

(** [is_command_completion_event], [is_transfer_event] and
    [is_port_status_change_event] compare with these types. *)
Definition is_event_of (ty : TrbType) (t : Trb) : bool := trb_type t =? TrbType_code ty.
Abbreviation is_command_completion_event := (is_event_of CommandCompletionEvent).
Abbreviation is_transfer_event := (is_event_of TransferEvent).
Abbreviation is_port_status_change_event := (is_event_of PortStatusChangeEvent).
(** [command_trb_pointer] and [trb_pointer] are the whole of [data]. *)
Abbreviation command_trb_pointer := trb_data.
Definition port_id (t : Trb) : Z := Z.land (Z.shiftr t.(trb_data) 24) 0xFF.
Definition Trb_is_success (t : Trb) : bool := completion_code t =? CompletionCode_code Success.
Definition Trb_is_error (t : Trb) : bool :=
  negb (completion_code t =? CompletionCode_code Success) && negb (completion_code t =? CompletionCode_code ShortPacket).
Definition completion_code_description (t : Trb) : string :=
  match completion_code t with
  | 1 => "Success"
  | 2 => "Data Buffer Error"
  | 3 => "Babble Detected Error"
  | 4 => "USB Transaction Error"
  | 5 => "TRB Error"
  | 6 => "Stall Error"
  | 7 => "Resource Error"
  | 8 => "Bandwidth Error"
  | 9 => "No Slots Available Error"
  | 10 => "Invalid Stream Type Error"
  | 11 => "Slot Not Enabled Error"
  | 12 => "Endpoint Not Enabled Error"
  | 13 => "Short Packet"
  | 14 => "Ring Underrun"
  | 15 => "Ring Overrun"
  | 17 => "Parameter Error"
  | 19 => "Context State Error"
  | 24 => "Command Ring Stopped"
  | 25 => "Command Aborted"
  | 26 => "Stopped"
  | _ => "Unknown Error"
  end.
Definition Trb_is_valid (t : Trb) : bool :=
  let ty := trb_type t in
  if (ty =? 0) || (ty =? 8) || ((23 <? ty) && (ty <? 32)) || (39 <? ty) then false
  else if (ty =? 6) || (ty =? 11) || (ty =? 12) then Z.land t.(trb_data) 0x3F =? 0
  else true.

Definition TRB_SIZE : Z := 16.
Definition MAX_TRBS_PER_SEGMENT : Z := 4096 / TRB_SIZE.
Definition RING_SEGMENT_SIZE : Z := 4096.

(** The names of [Display]. *)
Definition TrbType_name (t : TrbType) : string :=
  match t with
  | Normal => "Normal"
  | SetupStage => "Setup Stage"
  | DataStage => "Data Stage"
  | StatusStage => "Status Stage"
  | Isoch => "Isochronous"
  | Link => "Link"
  | EventData => "Event Data"
  | EnableSlot => "Enable Slot"
  | DisableSlot => "Disable Slot"
  | AddressDevice => "Address Device"
  | ConfigureEndpoint => "Configure Endpoint"
  | EvaluateContext => "Evaluate Context"
  | ResetEndpoint => "Reset Endpoint"
  | StopEndpoint => "Stop Endpoint"
  | SetTrDequeuePointer => "Set TR Dequeue Pointer"
  | ResetDevice => "Reset Device"
  | ForceEvent => "Force Event"
  | NegotiateBandwidth => "Negotiate Bandwidth"
  | SetLatencyToleranceValue => "Set Latency Tolerance Value"
  | GetPortBandwidth => "Get Port Bandwidth"
  | ForceHeader => "Force Header"
  | NoOpCommand => "No-Op Command"
  | TransferEvent => "Transfer Event"
  | CommandCompletionEvent => "Command Completion Event"
  | PortStatusChangeEvent => "Port Status Change Event"
  | BandwidthRequestEvent => "Bandwidth Request Event"
  | DoorbellEvent => "Doorbell Event"
  | HostControllerEvent => "Host Controller Event"
  | DeviceNotificationEvent => "Device Notification Event"
  | MfindexWrapEvent => "Mfindex Wrap Event"
  end.
Definition CompletionCode_name (c : CompletionCode) : string :=
  match c with
  | Invalid => "Invalid"
  | Success => "Success"
  | DataBufferError => "Data Buffer Error"
  | BabbleDetectedError => "Babble Detected Error"
  | UsbTransactionError => "USB Transaction Error"
  | TrbError => "TRB Error"
  | StallError => "Stall Error"
  | ResourceError => "Resource Error"
  | BandwidthError => "Bandwidth Error"
  | NoSlotsAvailableError => "No Slots Available Error"
  | InvalidStreamTypeError => "Invalid Stream Type Error"
  | SlotNotEnabledError => "Slot Not Enabled Error"
  | EndpointNotEnabledError => "Endpoint Not Enabled Error"
  | ShortPacket => "Short Packet"
  | RingUnderrun => "Ring Underrun"
  | RingOverrun => "Ring Overrun"
  | VfEventRingFullError => "VF Event Ring Full Error"
  | ParameterError => "Parameter Error"
  | BandwidthOverrunError => "Bandwidth Overrun Error"
  | ContextStateError => "Context State Error"
  | NoPingResponseError => "No Ping Response Error"
  | EventRingFullError => "Event Ring Full Error"
  | IncompatibleDeviceError => "Incompatible Device Error"
  | MissedServiceError => "Missed Service Error"
  | CommandRingStopped => "Command Ring Stopped"
  | CommandAborted => "Command Aborted"
  | Stopped => "Stopped"
  | StoppedLengthInvalid => "Stopped Length Invalid"
  | StoppedShortPacket => "Stopped Short Packet"
  | MaxExitLatencyTooLargeError => "Max Exit Latency Too Large Error"
  | IsochBufferOverrun => "Isochronous Buffer Overrun"
  | EventLostError => "Event Lost Error"
  | UndefinedError => "Undefined Error"
  | InvalidStreamIdError => "Invalid Stream ID Error"
  | SecondaryBandwidthError => "Secondary Bandwidth Error"
  | SplitTransactionError => "Split Transaction Error"
  end.

(** [matches!(code, a..=b)]. *)
Definition code_in (a b : Z) (t : TrbType) : bool := (a <=? TrbType_code t) && (TrbType_code t <=? b).
Definition TrbType_is_command (t : TrbType) : bool := code_in 9 23 t.
Definition TrbType_is_event (t : TrbType) : bool := code_in 32 39 t.
Definition TrbType_is_transfer (t : TrbType) : bool := code_in 1 7 t.
Definition CompletionCode_is_success (c : CompletionCode) : bool :=
  match c with Success | ShortPacket => true | _ => false end.
Definition CompletionCode_is_error (c : CompletionCode) : bool :=
  negb (CompletionCode_is_success c) && match c with Invalid => false | _ => true end.

(** ** Reading a block back *)

(** [inside] proves that stored bits are in the mask of their part, [read_bits]
    evaluates the masked parts of a register that setters built. *)
Ltac inside :=
  lazymatch goal with
  | |- Z.ldiff (Z.shiftl (TrbType_code _) _) _ = 0 => by vm_compute
  | |- Z.ldiff (Z.shiftl _ 24) _ = 0 => apply (shiftl_inside _ 8 24); lia
  | |- Z.ldiff (Z.shiftl _ 16) _ = 0 => apply (shiftl_inside _ 5 16); lia
  | |- Z.ldiff (Z.shiftl _ 17) _ = 0 => apply (shiftl_inside _ 5 17); lia
  | |- Z.ldiff _ _ = 0 => apply (ldiff_ones _ 17); lia
  end.
Ltac closed_side := lazymatch goal with |- Z.ldiff _ _ = 0 => inside | |- _ => by vm_compute end.
Ltac read_bit :=
  first
    [ rewrite land_set_flag_same by closed_side
    | rewrite land_set_flag_other by closed_side
    | rewrite land_replace_same by closed_side
    | rewrite land_replace_other by closed_side
    | rewrite Z.land_lor_distr_l
    | rewrite (land_inside (Z.shiftl _ _)) by inside
    | rewrite (land_outside (Z.shiftl _ 16) 0x1F0000) by closed_side
    | rewrite (land_outside (Z.shiftl _ 17) 0x3E0000) by closed_side ].

(** The parts every kind of block has. *)
Definition decodes (t : Trb) (ty : TrbType) (cycle : bool) (slot endpoint : Z) : Prop :=
  trb_type t = TrbType_code ty ∧ Trb_get cycle_bit t = cycle ∧ slot_id t = slot ∧ endpoint_id t = endpoint ∧
  Trb_is_valid t = true.

Lemma aligned_pointer p : 0 ≤ p < 2 ^ 64 → Z.land p 0x3F = 0 → Z.land p (not_ 64 0x3F) = p.
Proof. intros Hp H0. rewrite land_not by lia. by apply ldiff_zero. Qed.

(** The types whose [data] is an aligned pointer. *)
Definition has_pointer (ty : TrbType) : bool :=
  match ty with Link | AddressDevice | ConfigureEndpoint => true | _ => false end.
Lemma decodes_intro t ty cycle slot endpoint : trb_type t = TrbType_code ty → Trb_get cycle_bit t = cycle →
  slot_id t = slot → endpoint_id t = endpoint → Z.land t.(trb_data) 0x3F = 0 ∨ has_pointer ty = false →
  decodes t ty cycle slot endpoint.
Proof.
  intros Ht Hc Hs He Hp. split_and!; try done. unfold Trb_is_valid. rewrite Ht.
  destruct Hp as [->|Hp]; by destruct ty.
Qed.

(** Unfold a block and read one of its parts. *)
Ltac read_part :=
  unfold trb_type, slot_id, endpoint_id, completion_code, transfer_length, Trb_get, get_flag;
  unfold set_slot_id, set_endpoint_id, set_trb_type, set_transfer_length, Trb_set, or_control, or_status, with_control,
    with_status, with_data;
  cbn [trb_control trb_data trb_status Trb_new]; rewrite ?get_field_land by lia;
  repeat match goal with b : bool |- _ => destruct b end; cbn [trb_control trb_data trb_status];
  repeat read_bit; rewrite ?Z.lor_0_l, ?Z.lor_0_r, ?shiftr_shiftl by lia; first [done | by vm_compute].
Ltac decode := lazymatch goal with |- decodes _ _ _ _ _ => apply decodes_intro end; [read_part..|right; reflexivity].

(** Blocks with a pointer keep it when it is 64-byte aligned. *)
Ltac decode_pointer Hp := apply decodes_intro; [read_part..|left; repeat match goal with b : bool |- _ => destruct b end; exact Hp].

(** The command blocks of [Trb].  Each constructor gives a block a controller
    reads as that command: the type, the cycle bit, the slot and the endpoint
    (or slot type) are the ones asked for, pointers and options are in place,
    and the block passes [is_valid]. *)
Theorem trb_commands_decoded (slot endpoint ptr : Z) (option_ cycle : bool)
    (Hslot : 0 ≤ slot < 2 ^ 8) (Hep : 0 ≤ endpoint < 2 ^ 5) (Hptr : 0 ≤ ptr < 2 ^ 64) (Halign : Z.land ptr 0x3F = 0) :
  decodes (no_op_command cycle) NoOpCommand cycle 0 0 ∧
  decodes (enable_slot_command endpoint cycle) EnableSlot cycle 0 endpoint ∧
  decodes (disable_slot_command slot cycle) DisableSlot cycle slot 0 ∧
  decodes (reset_device_command slot cycle) ResetDevice cycle slot 0 ∧
  decodes (reset_endpoint_command slot endpoint cycle) ResetEndpoint cycle slot endpoint ∧
  (let t := stop_endpoint_command slot endpoint option_ cycle in
    decodes t StopEndpoint cycle slot endpoint ∧ get_flag 0x800000 t.(trb_control) = option_) ∧
  (let t := address_device_command ptr slot option_ cycle in
    decodes t AddressDevice cycle slot 0 ∧ t.(trb_data) = ptr ∧ get_flag 0x200 t.(trb_control) = option_) ∧
  (let t := configure_endpoint_command ptr slot option_ cycle in
    decodes t ConfigureEndpoint cycle slot 0 ∧ t.(trb_data) = ptr ∧ get_flag 0x200 t.(trb_control) = option_) ∧
  (let t := link ptr option_ cycle in
    decodes t Link cycle 0 0 ∧ t.(trb_data) = ptr ∧ get_flag 0x2 t.(trb_control) = option_).
Proof.
  cbv zeta. unfold no_op_command, enable_slot_command, disable_slot_command, reset_device_command, reset_endpoint_command,
    stop_endpoint_command, address_device_command, configure_endpoint_command, link.
  rewrite (aligned_pointer ptr) by done.
  split_and!.
  1-6: decode.
  all: lazymatch goal with |- decodes _ _ _ _ _ => decode_pointer Halign | |- _ => read_part end.
Qed.

Lemma trb_commands_decoded_witness :
  decodes (stop_endpoint_command 3 5 true true) StopEndpoint true 3 5 ∧
  (link 0x7F000 true false).(trb_data) = 0x7F000.
Proof.
  destruct (trb_commands_decoded 3 5 0x7F000 true true) as (_ & _ & _ & _ & _ & [Hstop _] & _);
    [by vm_compute..|]. split; [exact Hstop|].
  destruct (trb_commands_decoded 3 5 0x7F000 true false) as (_ & _ & _ & _ & _ & _ & _ & _ & _ & Hlink & _);
    [by vm_compute..|]. exact Hlink.
Defined.

(** The blocks of transfers: buffer, length, remaining packets, direction and
    flags are in place. *)
Lemma trb_transfers_decoded data len td_size dir ioc cycle : 0 ≤ len < 2 ^ 17 → 0 ≤ td_size < 2 ^ 5 →
  (let t := normal_transfer data len td_size ioc cycle in
    decodes t Normal cycle 0 0 ∧ t.(trb_data) = data ∧ transfer_length t = len ∧
    get_field 17 0x1F t.(trb_status) = td_size ∧ Trb_get interrupt_on_completion t = ioc) ∧
  (let t := setup_stage data len dir cycle in
    decodes t SetupStage cycle 0 0 ∧ t.(trb_data) = data ∧ transfer_length t = len ∧ Trb_get immediate_data t = dir) ∧
  (let t := data_stage data len dir cycle in
    trb_type t = TrbType_code DataStage ∧ Trb_get cycle_bit t = cycle ∧ t.(trb_data) = data ∧ transfer_length t = len ∧
    get_flag 0x10000 t.(trb_control) = dir) ∧
  (let t := status_stage dir ioc cycle in
    trb_type t = TrbType_code StatusStage ∧ Trb_get cycle_bit t = cycle ∧ get_flag 0x10000 t.(trb_control) = dir ∧
    Trb_get interrupt_on_completion t = ioc).
Proof.
  intros Hl Ht. cbv zeta. unfold normal_transfer, setup_stage, data_stage, status_stage.
  unfold set_transfer_length. assert (Z.land len 0x1FFFF = len) as Hlen
    by (change 0x1FFFF with (Z.ones 17); rewrite Z.land_ones, Z.mod_small; lia). rewrite Hlen.
  split_and!; first [decode | read_part].
Qed.

(** Only the low five bits of an endpoint have a place in a block: the setter
    does not mask, so a larger number sets the suspend bit of a stop command,
    and the packet count of a transfer runs into the bits above its field. *)
Lemma endpoint_id_spills : get_flag 0x800000 (stop_endpoint_command 1 0x80 false true).(trb_control) = true.
Proof. by vm_compute. Qed.
Lemma td_size_spills : get_field 22 0x3FF (normal_transfer 0 0 0x20 false true).(trb_status) = 1.
Proof. by vm_compute. Qed.
(** A setup block has bit 7 of [control] set whatever its arguments are, and
    its transfer type (bits 16 and 17) is always 0, "no data stage". *)
Lemma setup_stage_transfer_type data len imm cycle : get_flag 0x80 (setup_stage data len imm cycle).(trb_control) = true ∧
  get_field 16 0x3 (setup_stage data len imm cycle).(trb_control) = 0.
Proof. by destruct imm, cycle. Qed.

(** ** Completion codes *)

Lemma completion_code_set c t : completion_code (set_completion_code c t) = CompletionCode_code c.
Proof.
  unfold completion_code, set_completion_code, with_status. cbn [trb_status]. rewrite get_field_land by lia.
  change (Z.shiftl 0xFF 24) with 0xFF000000. rewrite land_replace_same, shiftr_shiftl; [done|lia|lia|by vm_compute|].
  apply (shiftl_inside _ 8 24); [lia..|]. by destruct c.
Qed.

(** The block's tests and the code's tests agree on every code but two: a short
    packet is a success of the code and not of the block, and code 0 is an
    error of the block and not of the code. *)
Lemma completion_tests c t :
  (Trb_is_success (set_completion_code c t) = CompletionCode_is_success c ↔ c ≠ ShortPacket) ∧
  (Trb_is_error (set_completion_code c t) = CompletionCode_is_error c ↔ c ≠ Invalid).
Proof.
  unfold Trb_is_success, Trb_is_error. rewrite !completion_code_set. by destruct c.
Qed.
Lemma completion_descriptions c t :
  completion_code_description (set_completion_code c t) = CompletionCode_name c ∨
  completion_code_description (set_completion_code c t) = "Unknown Error".
Proof. unfold completion_code_description. rewrite completion_code_set. destruct c; first [by left | by right]. Qed.
(** Every type is of exactly one of the three kinds. *)
Lemma trb_kinds t : (Z.b2z (TrbType_is_command t) + Z.b2z (TrbType_is_event t) + Z.b2z (TrbType_is_transfer t) = 1).
Proof. by destruct t. Qed.
