(* ===== verification/Xhci.v ===== *)
(** * Xhci: bringing up an xHCI USB host controller

    pci/usb/xhci.rs and the initialisation of pci/usb/init_helpers.rs: finding
    the controller, halting and resetting it, and giving it a device context
    array and a command ring.  The polling loops of the source have no bound;
    [fuel] bounds them here, and the theorem shows that a controller that
    answers within a bound of its own ends them. *)

From S2P Require Import Prelude X86 FrameSource Repr BitFields PciBase PcieVmm Ecam PciDevice Msix Pci Dma Driver XhciRegisters Trb.
Open Scope string_scope.
Open Scope list_scope.
Open Scope Z_scope.

Definition COMMAND_RING_SIZE : Z := 256.

(** A block as it is in memory. *)
Definition trb_bytes (t : Trb) : list Z := le_bytes 8 t.(trb_data) ++ le_bytes 4 t.(trb_status) ++ le_bytes 4 t.(trb_control).

Section Driver.
Context `{Addresses} {PT FA HW : Type} `{Mapper PT, FrameSource FA, PageRuns FA, Mmio HW}.
Abbreviation world := (driver_world PT FA HW).

(** [needed_entries] is a [u8]. *)
Definition init_dcbaa (regs : XhciRegisters) (w : world) : exec world :=
  let (params1, hw) := capability 4 "hcs_params1" regs w.(nw_hw) in
  needed_entries ← add_chk 8 (max_device_slots params1) 1;
  '(buffer, w) ← get_pool (with_hw hw w);
  buffer ← unwrap buffer;
  mret (with_hw (op_set device_context_base_addr buffer.(phys_addr) regs w.(nw_hw)) w).

Definition init_command_ring (regs : XhciRegisters) (w : world) : exec world :=
  '(buffer, w) ← get_pool w;
  buffer ← unwrap buffer;
  let first_link_trb := buffer.(virt_addr) + size_of (Struct Trb_fields) * (COMMAND_RING_SIZE - 1) in
  let ram := copy_bytes w.(nw_ram) first_link_trb (trb_bytes (link buffer.(phys_addr) true false)) in
  crcr ← CommandRingControl_new buffer.(phys_addr) true;
  mret (with_hw (op_set command_ring_ctrl crcr regs w.(nw_hw)) (with_ram ram w)).

Definition find_xhci_devices (pci : option PciManager) : exec (list PciDevice) :=
  manager ← unwrap pci;
  mret (filter (λ d, d.(dev_class_code) = 0x0C ∧ d.(dev_subclass) = 0x03 ∧ d.(dev_prog_if) = 0x30) manager.(pm_devices)).

(** [loop { if done(read()) { break } }]. *)
Fixpoint poll (r : op_reg) (done_ : Z → bool) (fuel : nat) (regs : XhciRegisters) (hw : HW) : exec HW :=
  match fuel with
  | O => NoFuel
  | S fuel =>
      let (v, hw) := op_get r regs hw in
      if done_ v then mret hw else poll r done_ fuel regs hw
  end.

Definition halt_controller (fuel : nat) (regs : XhciRegisters) (hw : HW) : exec HW :=
  let (sts, hw) := op_get usb_sts regs hw in
  if negb (UsbSts_get hc_halted sts) then
    let (cmd, hw) := op_get usb_cmd regs hw in
    let hw := op_set usb_cmd (UsbCmd_set run_stop false cmd) regs hw in
    poll usb_sts (UsbSts_get hc_halted) fuel regs hw
  else mret hw.

Definition reset_xhci (fuel : nat) (regs : XhciRegisters) (hw : HW) : exec HW :=
  let (cmd, hw) := op_get usb_cmd regs hw in
  let hw := op_set usb_cmd (UsbCmd_set hc_reset true cmd) regs hw in
  hw ← poll usb_cmd (λ cmd, negb (UsbCmd_get hc_reset cmd)) fuel regs hw;
  poll usb_sts (λ sts, negb (UsbSts_get controller_not_ready sts)) fuel regs hw.

Definition configure_slots (regs : XhciRegisters) (hw : HW) : HW :=
  let (params1, hw) := capability 4 "hcs_params1" regs hw in
  let max_slots := max_device_slots params1 in
  let (cfg, hw) := op_get config regs hw in
  op_set config (set_max_device_slots_enabled max_slots cfg) regs hw.

(** The ports are read for the log. *)
Definition scan_ports (regs : XhciRegisters) (hw : HW) : exec HW :=
  let (params1, hw) := capability 4 "hcs_params1" regs hw in
  range_fold (λ port hw, '(_, hw) ← port_sc port regs hw; mret hw) 1 (max_ports params1 + 1) hw.

(** The part of [xhci_init] that works on the controller. *)
Definition start_controller (fuel : nat) (regs : XhciRegisters) (w : world) : exec world :=
  hw ← halt_controller fuel regs w.(nw_hw);
  hw ← reset_xhci fuel regs hw;
  let hw := configure_slots regs hw in
  w ← init_dcbaa regs (with_hw hw w);
  w ← init_command_ring regs w;
  hw ← scan_ports regs w.(nw_hw);
  mret (with_hw hw w).

(** [xhci_regs] is the global [XHCI_REGS]. *)
Definition xhci_init (fuel : nat) (pci : option PciManager) (xhci_regs : option XhciRegisters) (w : world)
    : exec (option XhciRegisters * world) :=
  devices ← find_xhci_devices pci;
  match devices with
  | [] => mret (xhci_regs, w)
  | primary_device :: _ =>
      rassert (supports_msix primary_device);;
      memory_bar ← unwrap (first_memory_bar primary_device.(dev_bars));
      '(r, vmm, g) ← map_bar memory_bar w.(nw_vmm) w.(nw_globals);
      match r with
      | Err _ => Panic
      | Ok mapped_bar =>
          '(regs, hw) ← XhciRegisters_new mapped_bar.(virtual_address) w.(nw_hw);
          w ← start_controller fuel regs (with_hw hw (with_pci vmm g w));
          mret (Some regs, w)
      end
  end.
End Driver.

(** ** A controller *)

(** What software sees of a controller: the run/stop, reset, halted and
    not-ready bits, and the registers the driver sets up. *)
Record xhci_view := mkView {
  v_run : bool; v_reset : bool; v_halted : bool; v_not_ready : bool; v_config : Z; v_dcbaap : Z; v_crcr : Z;
}.
Definition with_config (c : Z) (v : xhci_view) : xhci_view :=
  mkView v.(v_run) v.(v_reset) v.(v_halted) v.(v_not_ready) c v.(v_dcbaap) v.(v_crcr).
Definition with_dcbaap (d : Z) (v : xhci_view) : xhci_view :=
  mkView v.(v_run) v.(v_reset) v.(v_halted) v.(v_not_ready) v.(v_config) d v.(v_crcr).
Definition with_crcr (c : Z) (v : xhci_view) : xhci_view :=
  mkView v.(v_run) v.(v_reset) v.(v_halted) v.(v_not_ready) v.(v_config) v.(v_dcbaap) c.

(** Not resetting and ready; nothing is left to happen when a stopped
    controller has halted too. *)
Definition ready (v : xhci_view) : Prop := v.(v_reset) = false ∧ v.(v_not_ready) = false.
Definition settled (v : xhci_view) : Prop := ready v ∧ (v.(v_run) = false → v.(v_halted) = true).

(** What the time between two accesses may change: only what is pending
    completes. *)
Definition tick (v v' : xhci_view) : Prop :=
  (settled v → v' = v) ∧ v'.(v_run) = v.(v_run) ∧ (ready v → v' = mkView v.(v_run) false v'.(v_halted) false v.(v_config) v.(v_dcbaap) v.(v_crcr)) ∧
  (v.(v_reset) = false → v'.(v_reset) = false) ∧
  (v.(v_run) = false → v.(v_halted) = true → v'.(v_halted) = true).

(** The documented behaviour of the registers (xHCI 5.4), of a controller that
    completes a halt or a reset within [D] accesses: reads show the state,
    [run_stop] of a ready controller starts a halt, [hc_reset] of a halted one a
    reset, after which it is still halted, and the set-up registers of a ready
    and halted controller keep what is written. *)
Class XhciDevice {HW : Type} `{Mmio HW} (base : Z) (caps : Z → Z → Z) (D : nat) := {
  xd_caps :: XhciCaps base caps;
  xd_view : HW → xhci_view;
  xd_left : HW → nat;
  xd_bound (hw : HW) : (xd_left hw ≤ D)%nat;
  xd_settles (hw : HW) : xd_left hw = O → settled (xd_view hw);
  xd_read_cmd (hw : HW) v hw' : mmio_read 4 (base + caps 1 0 + 0x00) hw = (v, hw') →
    0 ≤ v < 2 ^ 32 ∧ UsbCmd_get run_stop v = (xd_view hw).(v_run) ∧ UsbCmd_get hc_reset v = (xd_view hw).(v_reset) ∧
    tick (xd_view hw) (xd_view hw') ∧ (xd_left hw' ≤ pred (xd_left hw))%nat;
  xd_read_sts (hw : HW) v hw' : mmio_read 4 (base + caps 1 0 + 0x04) hw = (v, hw') →
    UsbSts_get hc_halted v = (xd_view hw).(v_halted) ∧ UsbSts_get controller_not_ready v = (xd_view hw).(v_not_ready) ∧
    tick (xd_view hw) (xd_view hw') ∧ (xd_left hw' ≤ pred (xd_left hw))%nat;
  xd_read_config (hw : HW) v hw' : ready (xd_view hw) → mmio_read 4 (base + caps 1 0 + 0x38) hw = (v, hw') →
    0 ≤ v < 2 ^ 32 ∧ v = (xd_view hw).(v_config) ∧ tick (xd_view hw) (xd_view hw');
  xd_read_port (hw : HW) port v hw' : 0 < port ≤ max_ports (caps 4 4) → mmio_read 4 (port_register base caps port) hw = (v, hw') →
    tick (xd_view hw) (xd_view hw');
  xd_write_cmd (hw : HW) v : ready (xd_view hw) → 0 ≤ v < 2 ^ 32 → UsbCmd_get hc_reset v = false →
    let v' := xd_view (mmio_write 4 (base + caps 1 0 + 0x00) v hw) in ready v' ∧ v'.(v_run) = UsbCmd_get run_stop v;
  xd_write_reset (hw : HW) v : ready (xd_view hw) → (xd_view hw).(v_halted) = true → 0 ≤ v < 2 ^ 32 → UsbCmd_get hc_reset v = true →
    let v' := xd_view (mmio_write 4 (base + caps 1 0 + 0x00) v hw) in v'.(v_run) = false ∧ v'.(v_halted) = true;
  xd_write_config (hw : HW) v : ready (xd_view hw) → 0 ≤ v < 2 ^ 32 →
    xd_view (mmio_write 4 (base + caps 1 0 + 0x38) v hw) = with_config v (xd_view hw);
  xd_write_dcbaap (hw : HW) v : ready (xd_view hw) → (xd_view hw).(v_halted) = true → 0 ≤ v < 2 ^ 64 →
    xd_view (mmio_write 8 (base + caps 1 0 + 0x30) v hw) = with_dcbaap v (xd_view hw);
  xd_write_crcr (hw : HW) v : ready (xd_view hw) → (xd_view hw).(v_halted) = true → 0 ≤ v < 2 ^ 64 →
    xd_view (mmio_write 8 (base + caps 1 0 + 0x18) v hw) = with_crcr v (xd_view hw);
}.

Section Controller.
Context {HW : Type} `{Mmio HW} (base : Z) (caps : Z → Z → Z) (D : nat) `{!XhciDevice base caps D}.
Abbreviation regs := (xhci_regs base caps).

Definition stopped (hw : HW) : Prop :=
  ready (xd_view hw) ∧ (xd_view hw).(v_run) = false ∧ (xd_view hw).(v_halted) = true.

Lemma poll_ends r (done_ : Z → bool) (I P : HW → Prop) fuel hw : I hw → (xd_left hw < fuel)%nat →
  (∀ hw v hw', I hw → op_get r regs hw = (v, hw') →
    if done_ v then P hw' else I hw' ∧ (xd_left hw' < xd_left hw)%nat) →
  ∃ hw', poll r done_ fuel regs hw = Ret hw' ∧ P hw'.
Proof.
  intros HI Hf Hstep. revert hw HI Hf. induction fuel as [|fuel IH]; intros hw HI Hf; [lia|]. simpl.
  destruct (op_get r regs hw) as [v hw'] eqn:Hr. specialize (Hstep hw v hw' HI Hr) as Hs.
  destruct (done_ v); [by exists hw'|]. destruct Hs as [HI' Hl]. apply IH; [done|lia].
Qed.

Lemma tick_stopped hw hw' : stopped hw → tick (xd_view hw) (xd_view hw') → xd_view hw' = xd_view hw.
Proof. intros (Hr & Hrun & Hh) (Hs & _). by apply Hs. Qed.

Lemma halt_controller_ok fuel hw : ready (xd_view hw) → (D < fuel)%nat →
  ∃ hw', halt_controller fuel regs hw = Ret hw' ∧ ready (xd_view hw') ∧ (xd_view hw').(v_halted) = true.
Proof.
  intros Hr Hf. unfold halt_controller. destruct (op_get usb_sts regs hw) as [sts hw1] eqn:Hsts.
  apply xd_read_sts in Hsts as (Hh & _ & (Hset & Hrun1 & Hr1 & _) & _). rewrite Hh.
  assert (ready (xd_view hw1)) as Hready by (rewrite (Hr1 Hr); done).
  destruct (xd_view hw).(v_halted) eqn:Hhalt; cbn [negb].
  - exists hw1. split; [done|]. rewrite Hset by done. done.
  - destruct (op_get usb_cmd regs hw1) as [cmd hw2] eqn:Hcmd.
    apply xd_read_cmd in Hcmd as (Hc & _ & Hcr & (_ & Hrun2 & Hr2 & _) & _).
    assert (ready (xd_view hw2)) as Hready2 by (rewrite (Hr2 Hready); done).
    destruct (set_flag_updates 32 0x1 ltac:(lia) ltac:(by vm_compute) false cmd ltac:(by vm_compute) Hc) as (Hget & Hother & Hrange).
    destruct (xd_write_cmd hw2 (UsbCmd_set run_stop false cmd) Hready2 Hrange) as [Hr3 Hrun3].
    { change (get_flag 0x2 (set_flag 32 0x1 false cmd) = false). unfold get_flag.
      rewrite land_set_flag_other by (by vm_compute). destruct Hready as [Hx _]. rewrite Hx in Hcr. exact Hcr. }
    set (hw3 := mmio_write _ _ _ hw2) in *. change (UsbCmd_get run_stop _) with (get_flag 0x1 (set_flag 32 0x1 false cmd)) in Hrun3.
    rewrite Hget in Hrun3.
    eapply (poll_ends usb_sts _ (λ hw, ready (xd_view hw) ∧ (xd_view hw).(v_run) = false)); [done| |].
    + eapply Nat.le_lt_trans; [apply xd_bound|done].
    + intros h v h' [Hrh Hrunh] Hget'. apply xd_read_sts in Hget' as (Hh' & _ & (Hs' & Hrun' & Hr' & _) & Hl). rewrite Hh'.
      destruct (xd_view h).(v_halted) eqn:Hhh; [by rewrite Hs' by done|].
      split; [split; [rewrite (Hr' Hrh); done|congruence]|].
      destruct (xd_left h) eqn:Hleft; [|lia]. destruct (xd_settles h Hleft) as [_ Hx]. specialize (Hx Hrunh). congruence.
Qed.

Lemma reset_xhci_ok fuel hw : ready (xd_view hw) → (xd_view hw).(v_halted) = true → (D < fuel)%nat →
  ∃ hw', reset_xhci fuel regs hw = Ret hw' ∧ stopped hw'.
Proof.
  intros Hr Hh Hf. unfold reset_xhci. destruct (op_get usb_cmd regs hw) as [cmd hw1] eqn:Hcmd.
  apply xd_read_cmd in Hcmd as (Hc & _ & _ & (Hs1 & _) & _).
  assert (xd_view hw1 = xd_view hw) as Hv1 by (by apply Hs1).
  destruct (set_flag_updates 32 0x2 ltac:(lia) ltac:(by vm_compute) true cmd ltac:(by vm_compute) Hc)
    as (Hget & _ & Hrange).
  destruct (xd_write_reset hw1 (UsbCmd_set hc_reset true cmd)) as [Hrun2 Hh2]; [by rewrite Hv1|by rewrite Hv1|done..|].
  destruct (poll_ends usb_cmd (λ cmd, negb (UsbCmd_get hc_reset cmd))
    (λ h, (xd_view h).(v_run) = false ∧ (xd_view h).(v_halted) = true)
    (λ h, (xd_view h).(v_run) = false ∧ (xd_view h).(v_halted) = true ∧ (xd_view h).(v_reset) = false) fuel
    (op_set usb_cmd (UsbCmd_set hc_reset true cmd) regs hw1)) as (hw3 & -> & Hrun3 & Hh3 & Hr3); [done|..].
  { eapply Nat.le_lt_trans; [apply xd_bound|done]. }
  { intros h v h' [Hrunh Hhh] Hg. apply xd_read_cmd in Hg as (_ & _ & Hrst & (_ & Hrun' & _ & Hres & Hhalt) & Hl). rewrite Hrst.
    specialize (Hhalt Hrunh Hhh). destruct (xd_view h).(v_reset) eqn:Hres'; simpl; [|split_and!; [congruence|done|by apply Hres]].
    split; [split; [congruence|done]|]. destruct (xd_left h) eqn:Hleft; [|lia].
    destruct (xd_settles h Hleft) as [[Hx _] _]. congruence. }
  cbn [mbind exec_bind].
  apply (poll_ends usb_sts _ (λ h, (xd_view h).(v_run) = false ∧ (xd_view h).(v_halted) = true ∧ (xd_view h).(v_reset) = false));
    [done|eapply Nat.le_lt_trans; [apply xd_bound|done]|].
  intros h v h' (Hrunh & Hhh & Hrh) Hg. apply xd_read_sts in Hg as (_ & Hnr & (Hset & Hrun' & _ & Hres & Hhalt) & Hl). rewrite Hnr.
  destruct (xd_view h).(v_not_ready) eqn:Hnr'; simpl.
  - split; [split_and!; [congruence|by apply Hhalt|by apply Hres]|]. destruct (xd_left h) eqn:Hleft; [|lia].
    destruct (xd_settles h Hleft) as [[_ Hx] _]. congruence.
  - assert (xd_view h' = xd_view h) as Heq by (by apply Hset). unfold stopped, ready. by rewrite Heq.
Qed.

Lemma read_params1 hw : capability 4 "hcs_params1" regs hw = (caps 4 4, hw).
Proof. unfold capability. by apply (caps_read 4 4). Qed.

Lemma max_device_slots_range r : 0 ≤ max_device_slots r < 2 ^ 8.
Proof. unfold max_device_slots. change 0xFF with (Z.ones 8). rewrite Z.land_ones by lia. apply Z.mod_pos_bound. lia. Qed.

Lemma configure_slots_ok hw : stopped hw →
  ∃ c, max_device_slots_enabled c = max_device_slots (caps 4 4) ∧
    xd_view (configure_slots regs hw) = with_config c (xd_view hw).
Proof.
  intros Hst. unfold configure_slots. rewrite read_params1. destruct (op_get config regs hw) as [cfg hw1] eqn:Hg.
  apply xd_read_config in Hg as (Hc & Hv & Ht); [|apply Hst]. apply tick_stopped in Ht as Heq; [|done].
  destruct (field_updates 32 0xFF 8 0 (max_device_slots (caps 4 4)) cfg) as (Hget & _ & Hrange); try done.
  { apply max_device_slots_range. }
  exists (set_max_device_slots_enabled (max_device_slots (caps 4 4)) cfg). split; [exact Hget|].
  rewrite <- Heq. apply xd_write_config; [rewrite Heq; apply Hst|exact Hrange].
Qed.
End Controller.

Section Start.
Context `{AddressesOk} {PT FA HW : Type} `{Mapper PT, FrameSource FA, PageRuns FA, Mmio HW}.
Context (base : Z) (caps : Z → Z → Z) (D : nat) `{!XhciDevice base caps D} (Hbar : in_bar base caps).
Abbreviation world := (driver_world PT FA HW).
Abbreviation regs := (xhci_regs base caps).
(** The buffers of the DMA pool are pages, physically aligned. *)
Context (bs : list DmaBuffer) (Hbs : Forall (λ b, 0 ≤ b.(phys_addr) < 2 ^ 52 ∧ (4096 | b.(phys_addr))) bs).

(** The DMA manager exists, [held] of its buffers are in use. *)
Definition pool_ready (held : list DmaBuffer) (w : world) : Prop :=
  ∃ m, w.(nw_dma) = Some m ∧ pool_inv bs (m.(pools_4kb), held).

Lemma pool_inv_elem p held b : pool_inv bs (p, b :: held) → b ∈ bs.
Proof.
  intros (_ & _ & idx & Hidx & _). inversion Hidx as [|? i ? idx' Hi]; subst. by eapply list_elem_of_lookup_2.
Qed.

Lemma get_pool_ok held w : pool_ready held w → (length held < length bs)%nat →
  ∃ b w', get_pool w = Ret (Some b, w') ∧ pool_ready (b :: held) w' ∧ b ∉ held ∧ b ∈ bs ∧
    w'.(nw_ram) = w.(nw_ram) ∧ w'.(nw_hw) = w.(nw_hw).
Proof.
  intros (m & Hm & Hpool) Hlen. unfold get_pool. rewrite Hm. cbn [mbind exec_bind mret exec_ret]. unfold get_pool_4kb.
  destruct (pool_allocate_ok bs _ held Hpool) as (r & p' & -> & Hr). cbn [mbind exec_bind mret exec_ret].
  destruct r as [b|]; [|destruct Hr; lia]. destruct Hr as (Hp & Hb & _).
  eexists b, _. split; [reflexivity|]. split; [by exists (mkDmaManager p')|]. split; [done|].
  split; [by eapply pool_inv_elem|done].
Qed.

Lemma low_bits_clear p : (4096 | p) → Z.land p 0x3F = 0.
Proof.
  intros [k ->]. change 0x3F with (Z.ones 6). rewrite Z.land_ones by lia. apply Z.mod_divide; [lia|].
  exists (k * 64). change (2 ^ 6) with 64. lia.
Qed.

Lemma init_dcbaa_ok held w : stopped base caps D w.(nw_hw) → pool_ready held w → (length held < length bs)%nat →
  max_device_slots (caps 4 4) < 255 →
  ∃ b w', init_dcbaa regs w = Ret w' ∧ pool_ready (b :: held) w' ∧ b ∉ held ∧ b ∈ bs ∧ w'.(nw_ram) = w.(nw_ram) ∧
    xd_view w'.(nw_hw) = with_dcbaap b.(phys_addr) (xd_view w.(nw_hw)).
Proof.
  intros Hst Hp Hlen Hslots. unfold init_dcbaa. rewrite (read_params1 base caps D).
  rewrite add_chk_ok by lia. cbn [mbind exec_bind].
  destruct (get_pool_ok held (with_hw w.(nw_hw) w)) as (b & w' & -> & Hp' & Hb & Hin & Hram & Hhw); [done..|].
  cbn [mbind exec_bind unwrap]. exists b. eexists. split; [reflexivity|]. split; [exact Hp'|]. split; [done|]. split; [done|].
  split; [exact Hram|]. cbn [nw_hw with_hw] in *. rewrite Hhw. rewrite Forall_forall in Hbs. destruct (Hbs b Hin) as [Hphys _].
  apply xd_write_dcbaap; [apply Hst|apply Hst|lia].
Qed.

Lemma CommandRingControl_new_ok p : 0 ≤ p < 2 ^ 52 → (4096 | p) →
  ∃ c, CommandRingControl_new p true = Ret c ∧ 0 ≤ c < 2 ^ 64 ∧ command_ring_pointer c = p ∧
    CommandRingControl_get ring_cycle_state c = true.
Proof.
  intros Hp Hal. unfold CommandRingControl_new. rewrite low_bits_clear by done. eexists. split; [reflexivity|].
  destruct (set_flag_updates 64 0x1 ltac:(lia) ltac:(by vm_compute) true p ltac:(by vm_compute))
    as (Hg & Ho & Hr); [lia|]. split; [done|]. split; [|done].
  change (Z.land (set_flag 64 0x1 true p) (not_ 64 0x3F) = p). rewrite land_set_flag_other by (by vm_compute).
  apply aligned_pointer; [lia|by apply low_bits_clear].
Qed.

Definition ring_end (b : DmaBuffer) : Z := b.(virt_addr) + 16 * 255.

Lemma init_command_ring_ok held w : stopped base caps D w.(nw_hw) → pool_ready held w → (length held < length bs)%nat →
  ∃ b w' crcr, init_command_ring regs w = Ret w' ∧ pool_ready (b :: held) w' ∧ b ∉ held ∧ b ∈ bs ∧
    w'.(nw_ram) = copy_bytes w.(nw_ram) (ring_end b) (trb_bytes (link b.(phys_addr) true false)) ∧
    command_ring_pointer crcr = b.(phys_addr) ∧ CommandRingControl_get ring_cycle_state crcr = true ∧
    xd_view w'.(nw_hw) = with_crcr crcr (xd_view w.(nw_hw)).
Proof.
  intros Hst Hp Hlen. unfold init_command_ring.
  destruct (get_pool_ok held w) as (b & w' & -> & Hp' & Hb & Hin & Hram & Hhw); [done..|]. cbn [mbind exec_bind unwrap].
  rewrite Forall_forall in Hbs. destruct (Hbs b Hin) as [Hphys Hal].
  destruct (CommandRingControl_new_ok _ Hphys Hal) as (c & -> & Hc & Hptr & Hcyc). cbn [mbind exec_bind].
  exists b. eexists. exists c. split; [reflexivity|]. split; [exact Hp'|]. split; [done|]. split; [done|].
  cbn [nw_ram nw_hw with_hw with_ram]. rewrite Hram, Hhw. split; [done|]. split; [done|]. split; [done|].
  apply xd_write_crcr; [apply Hst|apply Hst|done].
Qed.

Lemma scan_ports_ok hw : stopped base caps D hw →
  ∃ hw', scan_ports regs hw = Ret hw' ∧ xd_view hw' = xd_view hw.
Proof.
  intros Hst. unfold scan_ports. rewrite (read_params1 base caps D). pose proof (max_ports_range (caps 4 4)) as Hmax.
  destruct (range_fold_ok (λ port hw, '(_, hw) ← port_sc port regs hw; mret hw) (λ _ h, xd_view h = xd_view hw) 1
    (max_ports (caps 4 4) + 1) hw) as (hw' & -> & Hv); [lia|done| |by exists hw'].
  intros port h Hport Hh. unfold port_sc. rewrite (port_address_ok base caps) by (done || (unfold hcs_params1; lia)).
  cbn [mbind exec_bind mret exec_ret]. destruct (mmio_read 4 (port_register base caps port) h) as [v h'] eqn:Hr.
  apply xd_read_port in Hr; [|lia]. exists h'. split; [done|]. rewrite <- Hh. apply (tick_stopped base caps D); [|done].
  unfold stopped. by rewrite Hh.
Qed.

(** Halting, resetting and setting up. *)
Lemma start_controller_ok fuel held w : ready (xd_view w.(nw_hw)) → (D < fuel)%nat → max_device_slots (caps 4 4) < 255 →
  pool_ready held w → (length held + 2 ≤ length bs)%nat →
  ∃ w' b1 b2 c crcr, start_controller fuel regs w = Ret w' ∧
    pool_ready (b2 :: b1 :: held) w' ∧ b1 ∉ held ∧ b2 ∉ b1 :: held ∧ b1 ∈ bs ∧ b2 ∈ bs ∧
    xd_view w'.(nw_hw) = mkView false false true false c b1.(phys_addr) crcr ∧
    max_device_slots_enabled c = max_device_slots (caps 4 4) ∧ command_ring_pointer crcr = b2.(phys_addr) ∧
    CommandRingControl_get ring_cycle_state crcr = true ∧
    w'.(nw_ram) = copy_bytes w.(nw_ram) (ring_end b2) (trb_bytes (link b2.(phys_addr) true false)).
Proof.
  intros Hr Hf Hslots Hp Hlen. unfold start_controller.
  destruct (halt_controller_ok base caps D fuel w.(nw_hw)) as (hw1 & -> & Hr1 & Hh1); [done..|]. cbn [mbind exec_bind].
  destruct (reset_xhci_ok base caps D fuel hw1) as (hw2 & -> & Hst2); [done..|]. cbn [mbind exec_bind].
  destruct (configure_slots_ok base caps D hw2 Hst2) as (c & Hc & Hv3).
  assert (stopped base caps D (configure_slots regs hw2)) as Hst3 by (unfold stopped; rewrite Hv3; exact Hst2).
  destruct (init_dcbaa_ok held (with_hw (configure_slots regs hw2) w)) as (b1 & w4 & -> & Hp4 & Hb1 & Hin1 & Hram4 & Hv4);
    [done|done|lia|done|]. cbn [mbind exec_bind nw_hw with_hw nw_ram] in *.
  assert (stopped base caps D w4.(nw_hw)) as Hst4 by (unfold stopped; rewrite Hv4, Hv3; exact Hst2).
  destruct (init_command_ring_ok (b1 :: held) w4) as (b2 & w5 & crcr & -> & Hp5 & Hb2 & Hin2 & Hram5 & Hptr & Hcyc & Hv5);
    [done|done|simpl; lia|]. cbn [mbind exec_bind].
  destruct (scan_ports_ok w5.(nw_hw)) as (hw6 & -> & Hv6); [unfold stopped; rewrite Hv5, Hv4, Hv3; exact Hst2|].
  cbn [mbind exec_bind]. eexists _, b1, b2, c, crcr. split; [reflexivity|]. cbn [nw_hw with_hw nw_ram].
  rewrite Hv6, Hv5, Hv4, Hv3, Hram5, Hram4. destruct Hst2 as ([Hx1 Hx2] & Hx3 & Hx4).
  destruct (xd_view hw2); cbn in *; subst. by split_and!.
Qed.

(** C23: Bringing up the USB host controller.  Let the first xHCI controller on the
    bus support MSI-X and have its registers mapped at [base]; let it be ready and
    not resetting at the start, complete a halt or a reset within [D] accesses,
    fewer than the loops are given, and follow the xHCI standard when it is reset
    only while halted and set up only while ready and halted ([XhciDevice] says
    nothing of other accesses); let it have fewer than 255 device slots; and let
    the DMA pool have two free buffers.  Then [xhci_init] returns with the
    registers of that controller; afterwards the controller is halted and ready,
    all its device slots are enabled, its context array and its command ring are
    two different buffers of the pool that were free, the ring's cycle bit is set,
    and the last block of the ring links back to its start.  Nothing else in
    memory changes. *)
Theorem xhci_init_correct (fuel : nat) (pci : option PciManager) (old : option XhciRegisters) (w : world)
    (dev : PciDevice) (others : list PciDevice) (bar : MemoryBar) (mapped : MappedBar) (vmm : PcieVmm)
    (g : globals PT FA) (held : list DmaBuffer)
    (Hfind : find_xhci_devices pci = Ret (dev :: others)) (Hmsix : supports_msix dev = true)
    (Hmem : first_memory_bar dev.(dev_bars) = Some bar)
    (Hmap : map_bar bar w.(nw_vmm) w.(nw_globals) = Ret (Ok mapped, vmm, g)) (Hva : mapped.(virtual_address) = base)
    (Hready : ready (xd_view w.(nw_hw))) (Hfuel : (D < fuel)%nat) (Hslots : max_device_slots (caps 4 4) < 255)
    (Hpool : pool_ready held w) (Hlen : (length held + 2 ≤ length bs)%nat) :
  ∃ w' b1 b2 c crcr, xhci_init fuel pci old w = Ret (Some regs, w') ∧
    pool_ready (b2 :: b1 :: held) w' ∧ b1 ∉ held ∧ b2 ∉ b1 :: held ∧ b1 ∈ bs ∧ b2 ∈ bs ∧
    xd_view w'.(nw_hw) = mkView false false true false c b1.(phys_addr) crcr ∧
    max_device_slots_enabled c = max_device_slots (caps 4 4) ∧ command_ring_pointer crcr = b2.(phys_addr) ∧
    CommandRingControl_get ring_cycle_state crcr = true ∧
    in_memory w'.(nw_ram) (ring_end b2) (trb_bytes (link b2.(phys_addr) true false)) ∧
    (∀ a, a < ring_end b2 ∨ ring_end b2 + 16 ≤ a → w'.(nw_ram) a = w.(nw_ram) a).
Proof.
  unfold xhci_init. rewrite Hfind. cbn [mbind exec_bind]. rewrite Hmsix. cbn [rassert mbind exec_bind]. rewrite Hmem.
  cbn [unwrap mbind exec_bind]. rewrite Hmap. cbn [mbind exec_bind].
  rewrite Hva, (XhciRegisters_new_ok base caps) by done. cbn [mbind exec_bind].
  destruct (start_controller_ok fuel held (with_hw w.(nw_hw) (with_pci vmm g w)))
    as (w' & b1 & b2 & c & crcr & -> & Hp & Hn1 & Hn2 & Hi1 & Hi2 & Hv & Hc & Hptr & Hcyc & Hram); [done..|].
  cbn [mbind exec_bind]. exists w', b1, b2, c, crcr. rewrite Hram. cbn [nw_ram with_hw with_pci].
  split_and!; try done; [apply in_memory_copy|]. intros a Ha. apply copy_bytes_out.
  change (length (trb_bytes _)) with 16%nat. lia.
Qed.
End Start.

(** The driver computes the number of entries of the context array in 8 bits:
    a controller with 255 slots, the largest number there is, stops the kernel. *)
Lemma init_dcbaa_overflows `{Addresses} {PT FA HW : Type} `{PageRuns FA, Mmio HW} base caps `{!XhciCaps base caps}
    (w : driver_world PT FA HW) :
  max_device_slots (caps 4 4) = 255 → init_dcbaa (xhci_regs base caps) w = Panic.
Proof.
  intros Hslots. unfold init_dcbaa, capability.
  change (capability_regs (xhci_regs base caps)) with base. rewrite (caps_read 4 4) by (by vm_compute). by rewrite Hslots.
Qed.

(** ** A controller for the witness

    It completes a halt or a reset at the next access. *)
Module Model.
Import XhciRegisters.Model.

Record chip := mkChip {
  c_run : bool; c_reset : bool; c_halted : bool; c_config : Z; c_dcbaap : Z; c_crcr : Z; c_pending : bool;
}.
Definition chip_view (c : chip) : xhci_view :=
  mkView c.(c_run) (c.(c_pending) && c.(c_reset)) (c.(c_halted) || (negb c.(c_pending) && negb c.(c_run)))
    (c.(c_pending) && c.(c_reset)) (c.(c_config) mod 2 ^ 32) c.(c_dcbaap) c.(c_crcr).
(** Time passes: what is pending completes. *)
Definition chip_tick (c : chip) : chip :=
  mkChip c.(c_run) false (c.(c_halted) || negb c.(c_run)) c.(c_config) c.(c_dcbaap) c.(c_crcr) false.
Definition op : Z := base + 0x40.

Definition chip_read (n a : Z) (c : chip) : Z * chip :=
  if (base <=? a) && (a <? base + 0x20) then (caps n (a - base), c)
  else if a =? op + 0x00 then
    (Z.b2z c.(c_run) + 2 * Z.b2z (chip_view c).(v_reset), chip_tick c)
  else if a =? op + 0x04 then
    (Z.b2z (chip_view c).(v_halted) + 2048 * Z.b2z (chip_view c).(v_not_ready), chip_tick c)
  else if a =? op + 0x38 then (c.(c_config) mod 2 ^ 32, chip_tick c)
  else (0, chip_tick c).
Definition chip_write (n a v : Z) (c : chip) : chip :=
  let halted := (chip_view c).(v_halted) in
  if a =? op + 0x00 then
    if UsbCmd_get hc_reset v then mkChip false true halted c.(c_config) c.(c_dcbaap) c.(c_crcr) true
    else
      let run := UsbCmd_get run_stop v in
      mkChip run false (halted && negb run) c.(c_config) c.(c_dcbaap) c.(c_crcr) true
  else if a =? op + 0x18 then mkChip c.(c_run) c.(c_reset) c.(c_halted) c.(c_config) c.(c_dcbaap) v c.(c_pending)
  else if a =? op + 0x30 then mkChip c.(c_run) c.(c_reset) c.(c_halted) c.(c_config) v c.(c_crcr) c.(c_pending)
  else if a =? op + 0x38 then mkChip c.(c_run) c.(c_reset) c.(c_halted) v c.(c_dcbaap) c.(c_crcr) c.(c_pending)
  else c.
#[local] Instance chip_mmio : Mmio chip := { mmio_read := chip_read; mmio_write := chip_write }.

Lemma chip_tick_ok c : tick (chip_view c) (chip_view (chip_tick c)).
Proof.
  unfold tick, settled, ready. destruct c as [run reset halted cfg d r pending]. cbn.
  split_and!; destruct run, reset, halted, pending; naive_solver.
Qed.
Lemma chip_caps : XhciCaps base caps.
Proof.
  constructor. intros n off hw Hn H0 H1. cbn. unfold chip_read.
  rewrite (proj2 (Z.leb_le _ _)), (proj2 (Z.ltb_lt _ _)) by lia. cbn. by replace (base + off - base) with off by lia.
Qed.
Lemma port_register_read c port : 0 < port → chip_read 4 (port_register base caps port) c = (0, chip_tick c).
Proof.
  intros Hp. unfold chip_read, port_register, cap_length, PORTSC_BASE, PORT_REGISTER_SIZE, op.
  change (caps 1 0) with 0x40.
  rewrite (proj2 (Z.ltb_ge _ (base + 0x20))), andb_false_r by lia.
  by rewrite !(proj2 (Z.eqb_neq _ _)) by lia.
Qed.

#[local] Instance chip_device : XhciDevice base caps 1.
Proof.
  refine {| xd_caps := chip_caps; xd_view := chip_view; xd_left c := Nat.b2n c.(c_pending) |}.
  - intros [? ? ? ? ? ? []]; simpl; lia.
  - intros [[] [] [] ? ? ? []] Hl; by try discriminate Hl.
  - intros c v hw' [= <- <-]. split_and!; first [apply chip_tick_ok | apply Nat.le_0_l | by destruct c as [[] [] [] ? ? ? []]].
  - intros c v hw' [= <- <-]. split_and!; first [apply chip_tick_ok | apply Nat.le_0_l | by destruct c as [[] [] [] ? ? ? []]].
  - intros c v hw' _ [= <- <-]. split_and!; first [apply chip_tick_ok | by apply Z.mod_pos_bound | done].
  - intros c port v hw' Hp. cbn [mmio_read chip_mmio]. rewrite port_register_read by lia. intros [= <- <-]. apply chip_tick_ok.
  - intros c v [Hr Hn] Hv Hrst. cbn [mmio_write chip_mmio]. change (chip_write 4 _ v c) with (chip_write 4 (op + 0) v c).
    unfold chip_write. rewrite Z.eqb_refl, Hrst. done.
  - intros c v _ Hh Hv Hrst. cbn [mmio_write chip_mmio]. change (chip_write 4 _ v c) with (chip_write 4 (op + 0) v c).
    unfold chip_write. rewrite Z.eqb_refl, Hrst. cbn. split; [done|]. cbn in Hh. by rewrite Hh.
  - intros c v _ Hv. unfold chip_view, with_config. cbn. by rewrite Z.mod_small.
  - intros c v _ _ Hv. done.
  - intros c v _ _ Hv. done.
Defined.

(** A bus with one controller, and a pool of two pages. *)
Definition usb_bar : MemoryBar := mkMemoryBar 0xFEB00000 0x4000 false true.
Definition usb_device : PciDevice :=
  mkPciDevice (mkEcamRegion 0 0 0 0 0) 0 4 0 0x1B36 0x000D 0x0C 0x03 0x30 1 PciDevice.Normal 0 0 [Memory usb_bar] {[0x11 := 0x90]} 0 0.
Definition usb_pool : list DmaBuffer := [mkDmaBuffer 0x100000 0xFFFF800000100000 1; mkDmaBuffer 0x101000 0xFFFF800000101000 1].
(** The pool is filled before, so no pages are asked of the frame allocator. *)
#[local] Instance no_runs : PageRuns (list Z * list Z) := {
  pr_allocate _ fa := Ret (None, fa); pr_deallocate_frames _ _ fa := Ret fa; pr_hddm_offset _ := 0; pr_inv _ _ := True;
}.
#[local] Existing Instances model_addresses model_addresses_ok model_mapper model_source.
Definition usb_world : driver_world (gmap Z (Z * PageTableFlags)) (list Z * list Z) chip :=
  mkNw (λ _, 0) (mkGlobals (Some ∅) (Some (free_frames 8))) PcieVmm_new
    (Some (mkDmaManager (mkDmaPool usb_pool [0; 1]%nat 1))) (mkChip true false false 0 0 0 false).

Lemma usb_map : match map_bar usb_bar PcieVmm_new usb_world.(nw_globals) with
  | Ret (Ok m, _, _) => m.(virtual_address) = base | _ => False end.
Proof. by vm_compute. Qed.

Lemma usb_pool_ok : Forall (λ b, 0 ≤ b.(phys_addr) < 2 ^ 52 ∧ (4096 | b.(phys_addr))) usb_pool.
Proof. apply Forall_cons. split; [split; [done|by exists 0x100]|]. apply Forall_cons. split; [split; [done|by exists 0x101]|done]. Qed.

Lemma xhci_init_correct_witness : ∃ w' b, xhci_init 2 (Some (mkPciManager [usb_device] [] [])) None usb_world =
    Ret (Some (xhci_regs base caps), w') ∧ b ∈ usb_pool ∧ (chip_view w'.(nw_hw)).(v_dcbaap) = b.(phys_addr).
Proof.
  pose proof usb_map as Hmap. destruct (map_bar usb_bar PcieVmm_new usb_world.(nw_globals)) as [[[[m|] vmm] g]| |] eqn:Hrun;
    [|destruct Hmap..].
  destruct (xhci_init_correct base caps 1 ltac:(vm_compute; repeat split; congruence) usb_pool
    usb_pool_ok 2 (Some (mkPciManager [usb_device] [] [])) None
    usb_world usb_device [] usb_bar m vmm g []) as (w' & b1 & b2 & c & crcr & Hinit & _ & _ & _ & Hb & _ & Hv & _);
    [done|done|done|done|done|done|lia|by vm_compute|..|done|].
  - eexists. split; [reflexivity|]. split; [done|]. split; [by repeat constructor; set_solver|]. exists []. done.
  - exists w', b1. split; [done|]. split; [done|]. exact (f_equal v_dcbaap Hv).
Defined.
End Model.
