(* ===== verification/Interrupts.v ===== *)
(** * Interrupts: vectors, handlers and interrupt controllers

    interrupts/idt.rs, interrupts/apic.rs and interrupts/pic.rs.  The table of
    handlers is a finite map from vectors to the functions installed; a handler
    runs on the state of the kernel it touches and the log of writes to
    model-specific registers, the last of which ends the interrupt.  The local
    APIC, the I/O APICs and the ACPI tables are reached through the crates
    x2apic and acpi: [LocalApic], [IoApics] and [AcpiInfo] are what the code uses
    of them. *)

From S2P Require Import Prelude X86 FrameSource PciBase KernelSlab Scheduler Keyboard Ps2 NvmeCommands Nvme.
Open Scope Z_scope.

Definition X2APIC_EOI_MSR : Z := 0x80B.
Definition IOAPICS_VIRTUAL_START : Z := 0xFFFFF00000000000.
Abbreviation XAPIC_VIRTUAL_START := (0xFFFFF10000000000) (only parsing).
Definition ACPI_MAPPINGS_START : Z := 0xFFFFF20000000000.
Abbreviation LAPIC_TIMER_VECTOR := (0x30) (only parsing).
Abbreviation LAPIC_ERROR_VECTOR := (0x31) (only parsing).
Abbreviation LAPIC_SPURIOUS_VECTOR := (0xFF) (only parsing).
Definition IOAPIC_TIMER_VECTOR : Z := 0x20.
Abbreviation IOAPIC_TIMER_INPUT := (0) (only parsing).
Definition KEYBOARD_VECTOR : Z := 0x21.
Abbreviation KEYBOARD_IRQ := (1) (only parsing).
Definition TIMER_RELOAD : Z := 1193182 / 20.

(** ** Handlers *)

Inductive handler : Type :=
  | breakpoint_handler | page_fault_handler | general_protection_fault_handler | double_fault_handler
  | schedule_handler | lapic_error_handler | spurious_handler | keyboard_handler | nvme_admin_handler
  | nvme_io_handler | ioapic_timer_handler.
#[export] Instance handler_eq_dec : EqDecision handler.
Proof. solve_decision. Defined.

Abbreviation idt := (gmap Z handler).
(** [IDT[vector].set_handler_fn(..)]. *)
Definition set_handler (vector : Z) (h : handler) (t : idt) : idt := <[vector := h]> t.

(** The initial table; breakpoint, double fault, general protection fault and
    page fault are the processor's vectors 3, 8, 13 and 14.  The double fault
    handler runs on the stack of [DOUBLE_FAULT_IST_INDEX]. *)
Definition IDT : idt :=
  set_handler 8 double_fault_handler
    (set_handler 13 general_protection_fault_handler (set_handler 14 page_fault_handler (set_handler 3 breakpoint_handler ∅))).

(** What the handlers work on: the scheduler's state, the keyboard driver, the
    I/O ports, and the writes to model-specific registers. *)
Record irq_state (PM FA HW : Type) := mkIrq {
  i_kernel : system PM FA;
  i_keyboard : option KeyboardDriver;
  i_hw : HW;
  i_msr : list (Z * Z);
}.
Arguments mkIrq {PM FA HW} _ _ _ _.
Arguments i_kernel {PM FA HW} _.
Arguments i_keyboard {PM FA HW} _.
Arguments i_hw {PM FA HW} _.
Arguments i_msr {PM FA HW} _.

(** [PageFaultErrorCode::USER_MODE]. *)
Definition USER_MODE : Z := 0x4.

Section Handlers.
Context `{Addresses} {PM FA HW : Type} `{PageTables PM, Mapper (PM * Z), FrameSource FA, Ports HW}.
Context (hddm : Z).
Abbreviation state := (irq_state PM FA HW).

(** [Msr::new(X2APIC_EOI_MSR).write(0)]. *)
Definition end_of_interrupt (s : state) : state :=
  mkIrq s.(i_kernel) s.(i_keyboard) s.(i_hw) (s.(i_msr) ++ [(X2APIC_EOI_MSR, 0)]).
Definition with_kernel (k : system PM FA) (s : state) : state := mkIrq k s.(i_keyboard) s.(i_hw) s.(i_msr).

(** [Cr2::read()] fails when the register has no canonical address. *)
Definition handle_page_fault (cr2 : option Z) (error_code : Z) (s : state) : exec state :=
  fault_addr ← unwrap cr2;
  if negb (Z.land error_code USER_MODE =? 0) then
    '(r, k) ← try_grow_user_stack hddm fault_addr s.(i_kernel);
    match r with
    | Ok _ => mret (with_kernel k s)
    | Err _ => Panic
    end
  else Panic.

(** The functions installed.  [schedule] is the naked function of that name: what
    it does to the kernel is in Scheduler.v. *)
Context (schedule : state → exec state).
Definition run_handler (fuel : nat) (h : handler) (cr2 : option Z) (error_code : Z) (s : state) : exec state :=
  match h with
  | breakpoint_handler => mret s
  | page_fault_handler => handle_page_fault cr2 error_code s
  | general_protection_fault_handler | double_fault_handler => Panic
  | schedule_handler => schedule s
  | ioapic_timer_handler | spurious_handler | lapic_error_handler => mret (end_of_interrupt s)
  | keyboard_handler =>
      '(kb, hw) ← handle_interrupt fuel s.(i_keyboard) s.(i_hw);
      mret (end_of_interrupt (mkIrq s.(i_kernel) kb hw s.(i_msr)))
  | nvme_admin_handler => mret (end_of_interrupt (with_kernel (wake_tasks NVME_ADMIN_VECTOR s.(i_kernel)) s))
  | nvme_io_handler => mret (end_of_interrupt (with_kernel (wake_tasks NVME_IO_VECTOR s.(i_kernel)) s))
  end.
End Handlers.

(** ** Legacy interrupt controllers and the timer *)

Abbreviation PIC1_COMMAND := (0x20) (only parsing).
Abbreviation PIC1_DATA := (0x21) (only parsing).
Abbreviation PIC2_COMMAND := (0xA0) (only parsing).
Abbreviation PIC2_DATA := (0xA1) (only parsing).
Abbreviation PIC1_OFFSET := (0x20) (only parsing).
Abbreviation PIC2_OFFSET := (0x28) (only parsing).
Abbreviation ALL_INTERRUPTS_MASK := (0xFF) (only parsing).

Section Legacy.
Context {HW : Type} `{Ports HW}.

Definition init_and_remap_pics (hw : HW) : HW :=
  let hw := outb PIC1_COMMAND 0x11 hw in
  let hw := outb PIC1_DATA PIC1_OFFSET hw in
  let hw := outb PIC1_DATA 0x04 hw in
  let hw := outb PIC1_DATA 0x01 hw in
  let hw := outb PIC2_COMMAND 0x11 hw in
  let hw := outb PIC2_DATA PIC2_OFFSET hw in
  let hw := outb PIC2_DATA 0x02 hw in
  outb PIC2_DATA 0x01 hw.
Definition mask_all_irqs (hw : HW) : HW :=
  let hw := outb PIC1_DATA ALL_INTERRUPTS_MASK hw in
  outb PIC2_DATA ALL_INTERRUPTS_MASK hw.
Definition disable_legacy_pics (hw : HW) : HW := mask_all_irqs (init_and_remap_pics hw).

Definition setup_pit_timer (reload : Z) (hw : HW) : HW :=
  let hw := outb 0x43 0x34 hw in
  let hw := outb 0x40 (Z.land reload 0xFF) hw in
  outb 0x40 (Z.shiftr reload 8) hw.
End Legacy.

(** ** Mapping of APIC registers and ACPI tables *)

Abbreviation device_flags := [PRESENT; WRITABLE; NO_CACHE; NO_EXECUTE].

Section Mapping.
Context `{Addresses} {PT FA : Type} `{Mapper PT, FrameSource FA}.

(** [map_ioapic] and [map_lapic_registers] have the same body. *)
Definition map_apic_page (mmio virtaddr : Z) (g : globals PT FA) : exec (globals PT FA) :=
  pt ← unwrap g.(PAGE_TABLE);
  fa ← unwrap g.(FRAME_ALLOCATOR);
  '(r, pt, fa) ← map_to fs_allocate_frame (containing_address virtaddr) (containing_address mmio) device_flags pt fa;
  match r with
  | Ok _ => mret (mkGlobals (Some pt) (Some fa))
  | Err _ => Panic
  end.
Definition map_ioapic (ioapic_mmio virtaddr : Z) (g : globals PT FA) : exec (globals PT FA) :=
  map_apic_page ioapic_mmio virtaddr g.
Definition map_lapic_registers (lapic_mmio virtaddr : Z) (g : globals PT FA) : exec (globals PT FA) :=
  map_apic_page lapic_mmio virtaddr g.

(** The result of [map_physical_region]. *)
Record PhysicalMapping := mkPhysicalMapping {
  pm_physical_start : Z; pm_virtual_start : Z; pm_region_length : Z; pm_mapped_length : Z;
}.

(** [next] is the static [NEXT_ACPI_VIRT]; the loop of the source is the one of
    the device memory allocator, an error of which is fatal here. *)
Definition map_physical_region (physical_address size next : Z) (g : globals PT FA)
    : exec (PhysicalMapping * Z * globals PT FA) :=
  let offset := Z.land physical_address (4096 - 1) in
  total_size ← add_chk 64 offset size;
  let num_pages := div_ceil total_size 4096 in
  bytes ← mul_chk 64 num_pages 4096;
  next' ← add_chk 64 next bytes;
  pt ← unwrap g.(PAGE_TABLE);
  fa ← unwrap g.(FRAME_ALLOCATOR);
  '(r, pt, fa) ← map_pages_loop next (Z.land physical_address (not_ 64 (4096 - 1))) device_flags 0
    (Z.to_nat num_pages) pt fa;
  match r with
  | Err _ => Panic
  | Ok _ =>
      virt_addr ← add_chk 64 next offset;
      virt_addr ← nonnull virt_addr;
      mret (mkPhysicalMapping physical_address virt_addr size bytes, next', mkGlobals (Some pt) (Some fa))
  end.

(** The regions the acpi crate asks for, one after the other. *)
Fixpoint map_regions (regions : list (Z * Z)) (next : Z) (g : globals PT FA)
    : exec (list PhysicalMapping * Z * globals PT FA) :=
  match regions with
  | [] => mret ([], next, g)
  | (phys, size) :: regions =>
      '(m, next, g) ← map_physical_region phys size next g;
      '(ms, next, g) ← map_regions regions next g;
      mret (m :: ms, next, g)
  end.
End Mapping.

(** ** I/O APICs *)

Inductive IrqMode : Type := Fixed | OtherMode (bits : Z).
Record RedirectionTableEntry := mkEntry { e_vector : Z; e_dest : Z; e_mode : IrqMode; e_masked : bool }.

(** An I/O APIC of the crate x2apic is the address of its registers. *)
Class IoApics (HW : Type) := {
  max_table_entry : Z → HW → Z * HW;
  set_table_entry : Z → Z → RedirectionTableEntry → HW → HW;
  enable_irq : Z → Z → HW → HW;
}.

(** The local APIC: [cpuid] leaf 1 as (ecx, edx), [xapic_base], the builder, and
    the operations of the crate. *)
Class LocalApic (HW : Type) := {
  cpuid1 : HW → Z * Z;
  xapic_base : HW → Z;
  lapic_build : Z → Z → Z → option Z → HW → option HW;
  lapic_enable : HW → HW;
  lapic_id : HW → Z;
}.

Inductive ApicSupport : Type := X2Apic | XApic | NoApic.
Definition detect_lapic_support {HW} `{LocalApic HW} (hw : HW) : ApicSupport :=
  let (ecx, edx) := cpuid1 hw in
  if negb (Z.land ecx (Z.shiftl 1 21) =? 0) then X2Apic
  else if negb (Z.land edx (Z.shiftl 1 9) =? 0) then XApic
  else NoApic.

Section IoApic.
Context {HW : Type} `{IoApics HW}.

(** The test of the source whether an interrupt is in the range of an I/O APIC,
    and the input it is of. *)
Definition ioapic_input (gsi : Z) (ioapic : Z * Z) (hw : HW) : exec (option Z * HW) :=
  let (max, hw) := max_table_entry ioapic.1 hw in
  top ← add_chk 32 ioapic.2 max;
  top ← add_chk 32 top 1;
  mret (if (ioapic.2 <=? gsi) && (gsi <? top) then Some (cast 8 (gsi - ioapic.2)) else None, hw).

(** [for (ioapic, gsi_base) in ioapics { if !contains { continue; } f(..) }]. *)
Fixpoint for_gsi (f : Z → Z → HW → HW) (gsi : Z) (ioapics : list (Z * Z)) (hw : HW) : exec HW :=
  match ioapics with
  | [] => mret hw
  | ioapic :: ioapics =>
      '(input, hw) ← ioapic_input gsi ioapic hw;
      for_gsi f gsi ioapics (match input with Some i => f ioapic.1 i hw | None => hw end)
  end.

Definition masked_entry (vector lapic_id : Z) : RedirectionTableEntry := mkEntry vector lapic_id Fixed true.

Definition setup_ioapic_timer (ioapics : list (Z * Z)) (timer_gsi lapic_id : Z) (t : idt) (hw : HW) : exec (idt * HW) :=
  hw ← for_gsi (λ io i, set_table_entry io i (masked_entry IOAPIC_TIMER_VECTOR lapic_id)) timer_gsi ioapics hw;
  let t := set_handler IOAPIC_TIMER_VECTOR ioapic_timer_handler t in
  hw ← for_gsi enable_irq timer_gsi ioapics hw;
  mret (t, hw).
Definition setup_ioapic_keyboard (ioapics : list (Z * Z)) (keyboard_gsi lapic_id : Z) (hw : HW) : exec HW :=
  hw ← for_gsi (λ io i, set_table_entry io i (masked_entry KEYBOARD_VECTOR lapic_id)) keyboard_gsi ioapics hw;
  for_gsi enable_irq keyboard_gsi ioapics hw.
End IoApic.

(** ** The initialisation *)

(** What the acpi crate finds: the regions it maps for each call, the I/O APICs
    as pairs of an address and the first interrupt ([None] when the interrupt
    model is another), and the interrupt source overrides as pairs of a line
    and an interrupt. *)
Record AcpiInfo := mkAcpiInfo {
  ai_table_regions : list (Z * Z);
  ai_platform_regions : list (Z * Z);
  ai_io_apics : option (list (Z * Z));
  ai_madt_regions : list (Z * Z);
  ai_overrides : list (Z * Z);
}.
Definition get_ioapic_info (info : AcpiInfo) : list (Z * Z) := default [] info.(ai_io_apics).
(** The interrupt of a legacy line: its override, or the line itself. *)
Definition gsi_of (irq : Z) (info : AcpiInfo) : Z := default irq (snd <$> find (λ x, x.1 =? irq) info.(ai_overrides)).

Record apic_world (PT FA HW : Type) := mkApic { a_globals : globals PT FA; a_next_acpi : Z; a_idt : idt; a_hw : HW }.
Arguments mkApic {PT FA HW} _ _ _ _.
Arguments a_globals {PT FA HW} _.
Arguments a_next_acpi {PT FA HW} _.
Arguments a_idt {PT FA HW} _.
Arguments a_hw {PT FA HW} _.

Section Setup.
Context `{Addresses} {PT FA HW : Type} `{Mapper PT, FrameSource FA, Ports HW, IoApics HW, LocalApic HW}.
(** The acpi crate, from the address of the root pointer; [None] when the tables
    cannot be read. *)
Context (acpi : Z → option AcpiInfo).

Fixpoint map_ioapics (virtaddr : Z) (ioapics : list (Z * Z)) (g : globals PT FA) : exec (globals PT FA) :=
  match ioapics with
  | [] => mret g
  | (mmio, _) :: ioapics =>
      v ← VirtAddr_new virtaddr;
      p ← PhysAddr_new mmio;
      g ← map_ioapic p v g;
      map_ioapics (virtaddr + 4096) ioapics g
  end.

Definition install_handlers (t : idt) : idt :=
  let t := set_handler LAPIC_TIMER_VECTOR schedule_handler t in
  let t := set_handler LAPIC_ERROR_VECTOR lapic_error_handler t in
  let t := set_handler LAPIC_SPURIOUS_VECTOR spurious_handler t in
  let t := set_handler KEYBOARD_VECTOR keyboard_handler t in
  let t := set_handler NVME_ADMIN_VECTOR nvme_admin_handler t in
  set_handler NVME_IO_VECTOR nvme_io_handler t.

Definition setup_lapic (g : globals PT FA) (hw : HW) : exec (globals PT FA * HW) :=
  '(base, g) ←
    match detect_lapic_support hw with
    | X2Apic => mret (None, g)
    | NoApic => Panic
    | XApic =>
        p ← PhysAddr_new (xapic_base hw);
        v ← VirtAddr_new XAPIC_VIRTUAL_START;
        g ← map_lapic_registers p v g;
        mret (Some XAPIC_VIRTUAL_START, g)
    end;
  hw ← unwrap (lapic_build LAPIC_TIMER_VECTOR LAPIC_ERROR_VECTOR LAPIC_SPURIOUS_VECTOR base hw);
  mret (g, hw).

Definition setup_apic (rsdp_addr : Z) (w : apic_world PT FA HW) : exec (apic_world PT FA HW) :=
  let hw := disable_legacy_pics w.(a_hw) in
  '(g, hw) ← setup_lapic w.(a_globals) hw;
  let t := install_handlers w.(a_idt) in
  let hw := lapic_enable hw in
  info ← unwrap (acpi rsdp_addr);
  '(_, next, g) ← map_regions (info.(ai_table_regions) ++ info.(ai_platform_regions)) w.(a_next_acpi) g;
  let ioapic_addrs := get_ioapic_info info in
  match ioapic_addrs with
  | [] => Panic
  | _ =>
      g ← map_ioapics IOAPICS_VIRTUAL_START ioapic_addrs g;
      let ioapics := imap (λ i x, (IOAPICS_VIRTUAL_START + 4096 * Z.of_nat i, x.2)) ioapic_addrs in
      '(_, next, g) ← map_regions info.(ai_madt_regions) next g;
      let hw := setup_pit_timer TIMER_RELOAD hw in
      '(t, hw) ← setup_ioapic_timer ioapics (gsi_of IOAPIC_TIMER_INPUT info) (cast 8 (lapic_id hw)) t hw;
      hw ← setup_ioapic_keyboard ioapics (gsi_of KEYBOARD_IRQ info) (cast 8 (lapic_id hw)) hw;
      mret (mkApic g next t hw)
  end.
End Setup.

(** ** Routing of interrupts *)

Definition unmasked_entry (e : RedirectionTableEntry) : RedirectionTableEntry := mkEntry e.(e_vector) e.(e_dest) e.(e_mode) false.

(** The documented behaviour of the crate: [io_table] is the redirection table
    of the I/O APIC at an address, whose entries are [0 ... io_max]. *)
Class IoApicsOk (HW : Type) `{IoApics HW} := {
  io_table : Z → HW → Z → RedirectionTableEntry;
  io_max : Z → Z;
  io_max_range b : 0 ≤ io_max b < 256;
  max_table_entry_ok b hw : (max_table_entry b hw).1 = io_max b ∧
    ∀ b' j, io_table b' (max_table_entry b hw).2 j = io_table b' hw j;
  set_table_entry_ok b i e hw b' j : 0 ≤ i ≤ io_max b →
    io_table b' (set_table_entry b i e hw) j = if decide (b' = b ∧ j = i) then e else io_table b' hw j;
  enable_irq_ok b i hw b' j : 0 ≤ i ≤ io_max b →
    io_table b' (enable_irq b i hw) j = if decide (b' = b ∧ j = i) then unmasked_entry (io_table b hw i) else io_table b' hw j;
}.

Section Routing.
Context {HW : Type} `{IoApicsOk HW}.

(** Entry [j] of the I/O APIC at [b] is the one of interrupt [gsi]. *)
Definition entry_of (gsi b j : Z) (ioapic : Z * Z) : bool :=
  (ioapic.1 =? b) && (ioapic.2 + j =? gsi) && (0 <=? j) && (j <=? io_max b).

Lemma ioapic_input_ok gsi ioapic hw : 0 ≤ ioapic.2 → ioapic.2 + 256 ≤ 2 ^ 32 - 1 → 0 ≤ gsi →
  ∃ r hw', ioapic_input gsi ioapic hw = Ret (r, hw') ∧ (∀ b j, io_table b hw' j = io_table b hw j) ∧
    match r with
    | Some i => 0 ≤ i ≤ io_max ioapic.1 ∧ ∀ b j, entry_of gsi b j ioapic = true ↔ b = ioapic.1 ∧ j = i
    | None => ∀ b j, entry_of gsi b j ioapic = false
    end.
Proof.
  intros Hb Ht Hg. unfold ioapic_input. destruct (max_table_entry_ok ioapic.1 hw) as [Hmax Htab].
  destruct (max_table_entry ioapic.1 hw) as [max hw'] eqn:Hm. cbn [fst snd] in *. subst max.
  pose proof (io_max_range ioapic.1) as Hr. run. run. eexists _, hw'. split; [reflexivity|]. split; [done|].
  unfold entry_of, cast.
  destruct (Z.leb_spec ioapic.2 gsi), (Z.ltb_spec gsi (ioapic.2 + io_max ioapic.1 + 1)); cbn [andb].
  1: rewrite Z.mod_small by lia; split; [lia|]; intros b j;
     rewrite !andb_true_iff, !Z.eqb_eq, !Z.leb_le; split; [intros [[[<- ?] ?] ?]; split; [done|lia]|intros [-> ->]; lia].
  all: intros b j; destruct (Z.eqb_spec ioapic.1 b) as [<-|]; [|done]; cbn [andb];
    destruct (Z.eqb_spec (ioapic.2 + j) gsi); [|done]; cbn [andb];
    destruct (Z.leb_spec 0 j); [|done]; cbn [andb]; apply Z.leb_gt; lia.
Qed.

(** One loop over the I/O APICs applies [g] to the entries of the interrupt. *)
Lemma for_gsi_ok (f : Z → Z → HW → HW) (g : RedirectionTableEntry → RedirectionTableEntry) gsi l hw :
  (∀ b i h b' j, 0 ≤ i ≤ io_max b →
    io_table b' (f b i h) j = if decide (b' = b ∧ j = i) then g (io_table b h i) else io_table b' h j) →
  NoDup l.*1 → Forall (λ x, 0 ≤ x.2 ∧ x.2 + 256 ≤ 2 ^ 32 - 1) l → 0 ≤ gsi →
  ∃ hw', for_gsi f gsi l hw = Ret hw' ∧
    ∀ b j, io_table b hw' j = if existsb (entry_of gsi b j) l then g (io_table b hw j) else io_table b hw j.
Proof.
  intros Hf Hnd Hl Hg. revert hw. induction l as [|x l IH]; intros hw; [by exists hw|].
  rewrite fmap_cons in Hnd. apply NoDup_cons in Hnd as [Hx Hnd]. apply Forall_cons in Hl as [[Hx1 Hx2] Hl].
  cbn [for_gsi]. destruct (ioapic_input_ok gsi x hw Hx1 Hx2 Hg) as (r & hw1 & -> & Htab & Hr). cbn [mbind exec_bind].
  destruct (IH Hnd Hl (match r with Some i => f x.1 i hw1 | None => hw1 end)) as (hw' & -> & Hrest).
  exists hw'. split; [done|]. intros b j. rewrite Hrest. cbn [existsb].
  assert (∀ b j, b = x.1 → existsb (entry_of gsi b j) l = false) as Hout.
  { intros b' j' ->. apply not_true_is_false. intros (y & Hy & He)%existsb_exists. apply Hx.
    unfold entry_of in He. rewrite !andb_true_iff, Z.eqb_eq in He. destruct He as [[[<- _] _] _].
    apply list_elem_of_fmap. exists y. split; [done|]. by apply list_elem_of_In. }
  destruct r as [i|].
  - destruct Hr as [Hi Hr]. rewrite Hf by done. destruct (decide (b = x.1 ∧ j = i)) as [[-> ->]|Hne].
    + rewrite Hout by done. rewrite (proj2 (Hr _ _)) by done. by rewrite Htab.
    + replace (entry_of gsi b j x) with false; [by rewrite Htab|]. symmetry. apply not_true_is_false. by rewrite Hr.
  - by rewrite Hr, Htab.
Qed.

(** [setup_ioapic_timer] changes one entry of the interrupt descriptor table: the
    handler of [IOAPIC_TIMER_VECTOR]. *)
Lemma timer_setup_idt (ioapics : list (Z * Z)) (gsi lapic : Z) (t t' : idt) (hw hw' : HW) :
  setup_ioapic_timer ioapics gsi lapic t hw = Ret (t', hw') → t' = <[IOAPIC_TIMER_VECTOR := ioapic_timer_handler]> t.
Proof.
  unfold setup_ioapic_timer. intros (hw1 & _ & Hrun)%bind_Ret_inv. apply bind_Ret_inv in Hrun as (hw2 & _ & Hrun).
  by injection Hrun as <- _.
Qed.

(** C27: Routing of a legacy interrupt.  Let the I/O APICs be at distinct addresses
    and serve interrupt numbers that fit into 32 bits.  Then
    [setup_ioapic_keyboard] returns, and afterwards the entry of the keyboard's
    interrupt, in whichever I/O APIC serves it, sends [KEYBOARD_VECTOR] to the
    given processor and is unmasked, while every other entry of every I/O APIC is
    as it was; [setup_ioapic_timer] does the same with [IOAPIC_TIMER_VECTOR]. *)
Theorem legacy_interrupts_routed (ioapics : list (Z * Z)) (gsi lapic : Z) (t : idt) (hw : HW)
    (Hnd : NoDup ioapics.*1) (Hrange : Forall (λ x, 0 ≤ x.2 ∧ x.2 + 256 ≤ 2 ^ 32 - 1) ioapics) (Hgsi : 0 ≤ gsi) :
  (∃ hw', setup_ioapic_keyboard ioapics gsi lapic hw = Ret hw' ∧ ∀ b j, io_table b hw' j =
    if existsb (entry_of gsi b j) ioapics then mkEntry KEYBOARD_VECTOR lapic Fixed false else io_table b hw j) ∧
  (∃ t' hw', setup_ioapic_timer ioapics gsi lapic t hw = Ret (t', hw') ∧
    ∀ b j, io_table b hw' j =
    if existsb (entry_of gsi b j) ioapics then mkEntry IOAPIC_TIMER_VECTOR lapic Fixed false else io_table b hw j).
Proof.
  assert (∀ vector, ∃ hw1 hw2,
    for_gsi (λ io i, set_table_entry io i (masked_entry vector lapic)) gsi ioapics hw = Ret hw1 ∧
    for_gsi enable_irq gsi ioapics hw1 = Ret hw2 ∧ ∀ b j, io_table b hw2 j =
      if existsb (entry_of gsi b j) ioapics then mkEntry vector lapic Fixed false else io_table b hw j) as Hroute.
  { intros vector. destruct (for_gsi_ok (λ io i, set_table_entry io i (masked_entry vector lapic))
      (λ _, masked_entry vector lapic) gsi ioapics hw) as (hw1 & -> & Htab1); [intros; by apply set_table_entry_ok|done..|].
    destruct (for_gsi_ok enable_irq unmasked_entry gsi ioapics hw1) as (hw2 & Hrun2 & Htab2); [intros; by apply enable_irq_ok|done..|].
    exists hw1, hw2. split; [done|]. split; [done|]. intros b j. rewrite Htab2, Htab1. by destruct (existsb _ _). }
  split; [unfold setup_ioapic_keyboard|unfold setup_ioapic_timer].
  - destruct (Hroute KEYBOARD_VECTOR) as (hw1 & hw2 & -> & Hrun & Htab). by exists hw2.
  - destruct (Hroute IOAPIC_TIMER_VECTOR) as (hw1 & hw2 & -> & Hrun & Htab). cbn [mbind exec_bind]. rewrite Hrun. by eexists _, hw2.
Qed.
End Routing.

(** ** Vectors *)

(** The table after the initialisation. *)
Definition final_idt : idt := set_handler IOAPIC_TIMER_VECTOR ioapic_timer_handler (install_handlers IDT).
Lemma vectors_installed :
  final_idt !! 3 = Some breakpoint_handler ∧ final_idt !! 8 = Some double_fault_handler ∧
  final_idt !! 13 = Some general_protection_fault_handler ∧ final_idt !! 14 = Some page_fault_handler ∧
  final_idt !! LAPIC_TIMER_VECTOR = Some schedule_handler ∧ final_idt !! LAPIC_ERROR_VECTOR = Some lapic_error_handler ∧
  final_idt !! LAPIC_SPURIOUS_VECTOR = Some spurious_handler ∧ final_idt !! KEYBOARD_VECTOR = Some keyboard_handler ∧
  final_idt !! IOAPIC_TIMER_VECTOR = Some ioapic_timer_handler ∧ final_idt !! NVME_ADMIN_VECTOR = Some nvme_admin_handler ∧
  final_idt !! NVME_IO_VECTOR = Some nvme_io_handler ∧ size final_idt = 11%nat.
Proof. by vm_compute. Qed.

Section Vectors.
Context `{Addresses} {PM FA HW : Type} `{PageTables PM, Mapper (PM * Z), FrameSource FA, Ports HW}.
Context (hddm : Z) (schedule : irq_state PM FA HW → exec (irq_state PM FA HW)).

(** The handler of every device interrupt signals its end exactly once, and
    exceptions of the processor do not. *)
Lemma interrupts_ended fuel vector h cr2 error s s' : final_idt !! vector = Some h → h ≠ schedule_handler →
  run_handler hddm schedule fuel h cr2 error s = Ret s' →
  s'.(i_msr) = s.(i_msr) ++ (if vector <? 32 then [] else [(X2APIC_EOI_MSR, 0)]).
Proof.
  intros Hh Hne Hrun. assert ((vector <? 32) = bool_decide (h ∈ [breakpoint_handler; page_fault_handler;
    general_protection_fault_handler; double_fault_handler])) as ->.
  { unfold final_idt, install_handlers, IDT, set_handler in Hh.
    repeat (apply lookup_insert_Some in Hh as [[<- <-]|[_ Hh]]; [done|]). done. }
  destruct h; try done; cbn in *.
  - exec_inv. by rewrite app_nil_r.
  - unfold handle_page_fault in Hrun. apply bind_Ret_inv in Hrun as (a & _ & Hrun). destruct (negb _); [|done].
    apply bind_Ret_inv in Hrun as ([[[]|] k] & _ & Hrun); [|done]. injection Hrun as <-. by rewrite app_nil_r.
  - by exec_inv.
  - by exec_inv.
  - apply bind_Ret_inv in Hrun as ([kb hw] & _ & Hrun). by injection Hrun as <-.
  - by injection Hrun as <-.
  - by injection Hrun as <-.
  - by exec_inv.
Qed.

(** A completion interrupt of the NVMe controller makes the tasks that wait for
    its vector ready, and changes no other task. *)
Lemma nvme_interrupt_wakes fuel cr2 error s s' t i :
  run_handler hddm schedule fuel nvme_io_handler cr2 error s = Ret s' → s.(i_kernel).(k_tasks) !! i = Some t →
  ∃ t', s'.(i_kernel).(k_tasks) !! i = Some t' ∧
    (t.(pcb_state) = Waiting (Interrupt NVME_IO_VECTOR) → t' = set_state Ready t) ∧
    (t.(pcb_state) ≠ Waiting (Interrupt NVME_IO_VECTOR) → t' = t).
Proof.
  intros Hrun Hi. cbn in Hrun. injection Hrun as <-. cbn. rewrite list_lookup_fmap, Hi. cbn. eexists. split; [reflexivity|].
  destruct t as [ty regs [| | |[v]] cr3]; cbn; try (split; [discriminate|done]).
  destruct (Z.eqb_spec v NVME_IO_VECTOR) as [->|]; split; congruence.
Qed.
End Vectors.

(** ** The legacy controllers *)

(** An 8259 controller: the step of its initialisation it expects (4 when it is
    done), the first vector, and the mask. *)
Record pic := mkPic { pic_step : nat; pic_offset : Z; pic_mask : Z }.
Definition pic_command (v : Z) (p : pic) : pic :=
  if Z.testbit v 4 then mkPic 1 p.(pic_offset) 0 else p.
Definition pic_data (v : Z) (p : pic) : pic :=
  match p.(pic_step) with
  | 1%nat => mkPic 2 (Z.land v 0xF8) p.(pic_mask)
  | 2%nat => mkPic 3 p.(pic_offset) p.(pic_mask)
  | 3%nat => mkPic 4 p.(pic_offset) p.(pic_mask)
  | _ => mkPic p.(pic_step) p.(pic_offset) v
  end.
Definition pics_write (port v : Z) (p : pic * pic) : pic * pic :=
  if port =? 0x20 then (pic_command v p.1, p.2)
  else if port =? 0x21 then (pic_data v p.1, p.2)
  else if port =? 0xA0 then (p.1, pic_command v p.2)
  else if port =? 0xA1 then (p.1, pic_data v p.2)
  else p.
Class Pics {HW : Type} `{Ports HW} := {
  pics : HW → pic * pic;
  pics_out port v hw : pics (outb port v hw) = pics_write port v (pics hw);
}.

(** Whatever state the firmware left them in, both controllers end up
    initialised, away from the vectors of exceptions, with every line masked. *)
Lemma legacy_pics_disabled `{Pics HW} (hw : HW) :
  pics (disable_legacy_pics hw) = (mkPic 4 0x20 0xFF, mkPic 4 0x28 0xFF).
Proof. unfold disable_legacy_pics, mask_all_irqs, init_and_remap_pics. rewrite !pics_out. by destruct (pics hw). Qed.

(** The reload value fits the 16 bits of the timer, whose rate is 20 Hz. *)
Lemma timer_reload_fits : 0 ≤ TIMER_RELOAD < 2 ^ 16 ∧
  Z.land TIMER_RELOAD 0xFF + 256 * Z.shiftr TIMER_RELOAD 8 = TIMER_RELOAD ∧ 1193182 / TIMER_RELOAD = 20.
Proof. by vm_compute. Qed.

(** ** ACPI tables *)

Section Acpi.
Context `{AddressesOk} {PT FA : Type} `{Mapper PT, FrameSource FA} `{!MapperOk PT, !FrameSourceOk FA}.

(** Byte [o] of a mapped region is the physical byte [o] of the table. *)
Definition region_mapped (pt : PT) (m : PhysicalMapping) : Prop :=
  ∀ o, 0 ≤ o < m.(pm_region_length) →
    translate pt (containing_address (m.(pm_virtual_start) + o)) =
      Some (containing_address (m.(pm_physical_start) + o), device_flags) ∧
    (m.(pm_virtual_start) + o) mod 4096 = (m.(pm_physical_start) + o) mod 4096.

Lemma split_page a : 0 ≤ a < 2 ^ 64 → Z.land a (4096 - 1) = a mod 4096 ∧ Z.land a (not_ 64 (4096 - 1)) = 4096 * (a / 4096).
Proof.
  intros Ha. split; [change (4096 - 1) with (Z.ones 12); by rewrite Z.land_ones by lia|].
  change (4096 - 1) with (2 ^ 12 - 1). by rewrite (land_not_ones 64 12) by lia.
Qed.

Lemma map_physical_region_ok phys size next pt fa used : fs_inv fa used → 0 ≤ phys → 0 < size → phys + size ≤ 2 ^ 52 →
  (4096 | next) → 2 ^ 64 - 2 ^ 47 ≤ next → next + size + 8192 < 2 ^ 64 →
  let run := map_physical_region phys size next (mkGlobals (Some pt) (Some fa)) in
  run = Panic ∨ ∃ m next' pt' fa' more, run = Ret (m, next', mkGlobals (Some pt') (Some fa')) ∧ fs_inv fa' (more ++ used) ∧
    m.(pm_physical_start) = phys ∧ m.(pm_region_length) = size ∧ region_mapped pt' m ∧
    next ≤ m.(pm_virtual_start) ∧ m.(pm_virtual_start) + size ≤ next' ∧ (4096 | next') ∧ next' ≤ next + size + 8191 ∧
    (∀ q, translate pt q ≠ None → translate pt' q = translate pt q).
Proof.
  intros Hfs Hp Hs Hend [x Hx] Hlo Hhi. cbv zeta. unfold map_physical_region. destruct (split_page phys) as [-> ->]; [lia|].
  pose proof (Z.mod_pos_bound phys 4096 ltac:(lia)) as Hoff. pose proof (Z.div_mod phys 4096 ltac:(lia)) as Hphys.
  set (off := phys mod 4096) in *. set (base := phys / 4096) in *. run. unfold div_ceil. set (n := (off + size + 4096 - 1) / 4096).
  assert (4096 * n ≤ off + size + 4095 < 4096 * n + 4096) as Hn.
  { pose proof (Z.div_mod (off + size + 4096 - 1) 4096 ltac:(lia)) as Hd.
    pose proof (Z.mod_pos_bound (off + size + 4096 - 1) 4096 ltac:(lia)). fold n in Hd. lia. }
  run. run. cbn [unwrap mbind exec_bind PAGE_TABLE FRAME_ALLOCATOR].
  destruct (map_pages_loop_ok next (4096 * base) device_flags (Z.to_nat n) 0 pt fa used Hfs) as (r & pt' & fa' & more & -> & Hfs' & Hkeep & _ & Hr).
  { split_and!; try lia; [by exists x|]. intros j Hj. split; [right|]; lia. }
  cbn [mbind exec_bind]. destruct r as [u|e]; [|by left]. right. run. rewrite nonnull_ok by lia. cbn [mbind exec_bind].
  eexists _, _, pt', fa', more. split; [reflexivity|]. cbn [pm_physical_start pm_region_length pm_virtual_start].
  split_and!; try done; try lia.
  - intros o Ho. cbn [pm_physical_start pm_region_length pm_virtual_start] in *.
    pose proof (Z.div_mod (off + o) 4096 ltac:(lia)) as Hq. pose proof (Z.mod_pos_bound (off + o) 4096 ltac:(lia)) as Hm.
    set (q := (off + o) / 4096) in *. specialize (Hr q ltac:(lia)).
    rewrite !containing_address_ok by lia.
    replace ((next + off + o) / 4096) with (x + q) by (apply (Z.div_unique _ _ _ ((off + o) mod 4096)); lia).
    replace ((phys + o) / 4096) with (base + q) by (apply (Z.div_unique _ _ _ ((off + o) mod 4096)); lia).
    replace (4096 * (x + q)) with (next + 4096 * q) by lia. rewrite Hr, containing_address_ok by lia. split.
    + replace (4096 * base + 4096 * q) with ((base + q) * 4096) by lia. by rewrite Z.div_mul by lia.
    + replace (next + off + o) with (off + o + x * 4096) by lia. replace (phys + o) with (off + o + base * 4096) by lia.
      by rewrite !Z.mod_add by lia.
  - exists (x + n). lia.
Qed.

Lemma region_mapped_keep pt pt' m : (∀ q, translate pt q ≠ None → translate pt' q = translate pt q) →
  region_mapped pt m → region_mapped pt' m.
Proof. intros Hk Hm o Ho. destruct (Hm o Ho) as [Ht Hmod]. split; [|done]. rewrite Hk; [done|]. by rewrite Ht. Qed.

Definition region_end (m : PhysicalMapping) : Z := m.(pm_virtual_start) + m.(pm_region_length).
Definition regions_size (regions : list (Z * Z)) : Z := foldr (λ r n, r.2 + 8192 + n) 0 regions.

(** The tables of the firmware, as the handler given to the acpi crate maps
    them.  A sequence of requests either ends in a panic, when a page cannot be
    mapped, or gives each region its own range of addresses, one after the
    other, where every byte of the region shows the physical byte asked for;
    pages that were mapped before stay as they were. *)
Theorem acpi_regions_mapped (regions : list (Z * Z)) (next : Z) (pt : PT) (fa : FA) (used : list Z)
    (Hfs : fs_inv fa used) (Hregions : Forall (λ r, 0 ≤ r.1 ∧ 0 < r.2 ∧ r.1 + r.2 ≤ 2 ^ 52) regions)
    (Halign : (4096 | next)) (Hlo : 2 ^ 64 - 2 ^ 47 ≤ next) (Hhi : next + regions_size regions < 2 ^ 64) :
  let run := map_regions regions next (mkGlobals (Some pt) (Some fa)) in
  run = Panic ∨ ∃ ms next' pt' fa', run = Ret (ms, next', mkGlobals (Some pt') (Some fa')) ∧ next ≤ next' ∧
    Forall2 (λ r m, m.(pm_physical_start) = r.1 ∧ m.(pm_region_length) = r.2) regions ms ∧
    Forall (region_mapped pt') ms ∧ Forall (λ m, next ≤ m.(pm_virtual_start) ∧ region_end m ≤ next') ms ∧
    pairwise (λ m m', region_end m ≤ m'.(pm_virtual_start)) ms ∧
    (∀ q, translate pt q ≠ None → translate pt' q = translate pt q).
Proof.
  cbv zeta. revert next pt fa used Hfs Halign Hlo Hhi. induction Hregions as [|[phys size] regions (Hp & Hs & He) Hrs IH];
    intros next pt fa used Hfs Hal Hlo Hhi.
  { right. exists [], next, pt, fa. split_and!; [done|lia|constructor..|done]. }
  cbn [map_regions fst snd] in *. change (regions_size _) with (size + 8192 + regions_size regions) in Hhi.
  assert (0 ≤ regions_size regions) as Hpos.
  { clear -Hrs. induction Hrs as [|[p z] l (_ & Hz & _) _ IH]; cbn; [done|]. unfold regions_size in IH. cbn in Hz. lia. }
  destruct (map_physical_region_ok phys size next pt fa used) as [->|(m & n1 & pt1 & fa1 & more & -> & Hfs1 & Hph & Hsz & Hm & Hv1 & Hv2 & Hal1 & Hn1 & Hk)];
    try done; try lia; [by left|]. cbn [mbind exec_bind].
  destruct (IH n1 pt1 fa1 (more ++ used)) as [->|(ms & n2 & pt2 & fa2 & -> & Hn & Hf2 & Hms & Hin & Hpw & Hk2)]; try done; try lia; [by left|].
  cbn [mbind exec_bind]. right. exists (m :: ms), n2, pt2, fa2.
  split_and!; [done|lia|by constructor| | | |].
  - constructor; [by apply (region_mapped_keep pt1)|done].
  - constructor; [unfold region_end; lia|]. eapply Forall_impl; [exact Hin|]. cbn. lia.
  - constructor; [|done]. rewrite Forall_forall in Hin. intros m' Hm'. destruct (Hin m' Hm'). unfold region_end. lia.
  - intros q Hq. rewrite Hk2; [by apply Hk|]. rewrite Hk; done.
Qed.
End Acpi.

(** ** Examples *)

Module Model.
(** I/O APICs of 24 inputs; the state is their redirection tables. *)
Definition tables : Type := Z → Z → RedirectionTableEntry.
Definition write_entry (b i : Z) (e : RedirectionTableEntry) (hw : tables) : tables := λ b' j,
  if decide (b' = b ∧ j = i) then e else hw b' j.
#[local] Instance model_ioapics : IoApics tables := {
  max_table_entry _ hw := (23, hw);
  set_table_entry := write_entry;
  enable_irq b i hw := write_entry b i (unmasked_entry (hw b i)) hw;
}.
#[local] Instance model_ioapics_ok : IoApicsOk tables.
Proof. refine {| io_table b hw j := hw b j; io_max _ := 23 |}; done. Defined.
Definition blank : tables := λ _ _, mkEntry 0 0 Fixed true.

(** Two I/O APICs, the second for interrupts from 24 on. *)
Definition two_ioapics : list (Z * Z) := [(IOAPICS_VIRTUAL_START, 0); (IOAPICS_VIRTUAL_START + 4096, 24)].
Lemma legacy_interrupts_routed_witness : ∃ hw', setup_ioapic_keyboard two_ioapics 1 0 blank = Ret hw' ∧
  hw' IOAPICS_VIRTUAL_START 1 = mkEntry KEYBOARD_VECTOR 0 Fixed false ∧ hw' IOAPICS_VIRTUAL_START 2 = mkEntry 0 0 Fixed true.
Proof.
  destruct (legacy_interrupts_routed two_ioapics 1 0 ∅ blank) as [(hw' & Hrun & Htab) _].
  - apply NoDup_cons. split; [set_solver|]. apply NoDup_singleton.
  - repeat constructor; done.
  - done.
  - exists hw'. split; [exact Hrun|]. split; [exact (Htab IOAPICS_VIRTUAL_START 1)|exact (Htab IOAPICS_VIRTUAL_START 2)].
Defined.

#[local] Existing Instances model_addresses model_addresses_ok model_mapper model_mapper_ok model_source model_source_ok.
Abbreviation mpt := (gmap Z (Z * PageTableFlags)).
Lemma regions_run : match map_regions [(0xBFF77014, 0x24); (0xBFF78FF0, 0x78)] ACPI_MAPPINGS_START
    (mkGlobals (Some (∅ : mpt)) (Some (free_frames 16))) with Ret _ => True | _ => False end.
Proof. by vm_compute. Qed.

(** Two tables, the second of which crosses a page. *)
Lemma acpi_regions_mapped_witness : ∃ m m' (pt : mpt), region_mapped pt m ∧ region_mapped pt m' ∧
  m'.(pm_physical_start) = 0xBFF78FF0 ∧ region_end m ≤ m'.(pm_virtual_start).
Proof.
  pose proof regions_run as Hrun.
  destruct (acpi_regions_mapped [(0xBFF77014, 0x24); (0xBFF78FF0, 0x78)] ACPI_MAPPINGS_START (∅ : mpt) (free_frames 16) [])
    as [Hp|(ms & n' & pt' & fa' & _ & _ & Hf & Hms & _ & Hpw & _)].
  - by apply free_frames_inv.
  - repeat constructor; done.
  - by exists 0xFFFFF20000000.
  - done.
  - done.
  - rewrite Hp in Hrun. destruct Hrun.
  - destruct ms as [|m [|m' ms]]; inversion Hf as [|? ? ? ? _ Hf2]; subst; [inversion Hf2|].
    inversion Hf2 as [|? ? ? ? [Hph _] _]; subst. apply Forall_cons in Hms as [Hm Hms]. apply Forall_cons in Hms as [Hm' _].
    exists m, m', pt'. split; [done|]. split; [done|]. split; [done|].
    inversion Hpw as [|? ? Hlt _]; subst. apply Hlt. by left.
Defined.
End Model.
