(* ===== verification/Shell.v ===== *)
(** * Shell: the echo of the keyboard

    shell/task.rs.  One iteration of the loop of [locos_shell] takes a key event
    and prints what the key stands for; a terminal line as the console shows it
    (printing writes at the cursor, a backspace moves the cursor left) says what
    that looks like. *)

From Stdlib Require Import Ascii.
From S2P Require Import Prelude Keyboard.

Abbreviation backspace := ("008"%char) (only parsing).
Abbreviation blank := (" "%char) (only parsing).

(** What is printed for an event, given the modifiers; nothing for [spin_loop]. *)
Definition shell_output (event : option KeyEvent) (state : KeyboardState) : list ascii :=
  match event with
  | Some (KeyDown scancode) =>
      match ScanCode_to_char scancode (KeyboardState_shift_pressed state) state.(caps_lock) with
      | Some character => if (character =? backspace)%char then [backspace; blank; backspace] else [character]
      | None => []
      end
  | _ => []
  end.
(** One iteration, on the global [KEYBOARD]. *)
Definition shell_step (keyboard : option KeyboardDriver) : list ascii * option KeyboardDriver :=
  match keyboard with
  | Some k =>
      let (event, k) := KeyboardDriver_read_key k in
      (shell_output event (KeyboardDriver_get_state k), Some k)
  | None => (shell_output None KeyboardState_default, None)
  end.
Fixpoint run_shell (n : nat) (keyboard : option KeyboardDriver) : list ascii * option KeyboardDriver :=
  match n with
  | O => ([], keyboard)
  | S n =>
      let (out, keyboard) := shell_step keyboard in
      let (rest, keyboard) := run_shell n keyboard in
      (out ++ rest, keyboard)
  end.

(** ** A terminal line *)

Record line := mkLine { cells : nat → ascii; column : nat }.
Definition put (ch : ascii) (t : line) : line :=
  if (ch =? backspace)%char then mkLine t.(cells) (pred t.(column))
  else mkLine (λ i, if decide (i = t.(column)) then ch else t.(cells) i) (S t.(column)).
Definition put_all (out : list ascii) (t : line) : line := foldl (flip put) t out.

(** The line shows a text, the cursor behind it. *)
Definition shows (text : list ascii) (t : line) : Prop :=
  t.(column) = length text ∧ ∀ i, t.(cells) i = default blank (text !! i).

(** Editing: a character is appended, a backspace takes the last one away. *)
Definition edit (text : list ascii) (ch : ascii) : list ascii :=
  if (ch =? backspace)%char then take (pred (length text)) text else text ++ [ch].

Lemma put_char ch text t : (ch =? backspace)%char = false → shows text t → shows (text ++ [ch]) (put ch t).
Proof.
  intros Hch [Hc Ht]. unfold put. rewrite Hch. split; cbn.
  - rewrite length_app, Hc. simpl. lia.
  - intros i. case_decide as Hi.
    + subst i. rewrite Hc, lookup_app_r, Nat.sub_diag by lia. done.
    + rewrite Ht. destruct (decide (i < length text)%nat); [by rewrite lookup_app_l by lia|].
      rewrite (lookup_ge_None_2 text i), (lookup_ge_None_2 (text ++ [ch]) i); [done| |lia].
      rewrite length_app. simpl. lia.
Qed.

Lemma put_erase text t : shows text t →
  shows (take (pred (length text)) text) (put_all [backspace; blank; backspace] t).
Proof.
  intros [Hc Ht]. unfold put_all. cbn. split; cbn; [rewrite length_take; lia|]. intros i. case_decide as Hi.
  - subst i. rewrite lookup_take_ge by lia. done.
  - rewrite Ht. destruct (decide (i < pred (length text))%nat); [by rewrite lookup_take_lt by lia|].
    rewrite lookup_take_ge, (lookup_ge_None_2 text i) by lia. done.
Qed.

(** The characters (backspace included) of the keys pressed. *)
Definition chars_of (state : KeyboardState) (es : list KeyEvent) : list ascii :=
  omap (λ e, match e with
             | KeyDown c => ScanCode_to_char c (KeyboardState_shift_pressed state) state.(caps_lock)
             | _ => None
             end) es.

Lemma put_all_app out rest t : put_all (out ++ rest) t = put_all rest (put_all out t).
Proof. apply foldl_app. Qed.

Lemma output_edits e state text t : shows text t →
  shows (foldl edit text (chars_of state [e])) (put_all (shell_output (Some e) state) t).
Proof.
  intros Ht. unfold chars_of, shell_output. destruct e as [c|c|b]; cbn [omap list_omap]; [|done..].
  destruct (ScanCode_to_char c _ _) as [ch|]; [|done]. unfold edit. cbn [foldl].
  destruct (ch =? backspace)%char eqn:Hch; [by apply put_erase|by apply put_char].
Qed.

(** The line the shell echoes.  With any key events in the keyboard's buffer,
    as many iterations of the shell take them all, in order, and what they
    print turns a line that shows a text into one that shows the text edited by
    the keys: each character is appended, each backspace removes the last one,
    and releases and other keys change nothing. *)
Theorem shell_line_edited (es : list KeyEvent) (k : KeyboardDriver) (text : list ascii) (t : line)
    (Hbuf : k.(input_buffer) = es) (Hshow : shows text t) (Hline : "010"%char ∉ chars_of k.(state) es) :
  let '(out, keyboard) := run_shell (length es) (Some k) in
  keyboard = Some (mkKeyboardDriver [] k.(state) k.(extended_scancode)) ∧
  shows (foldl edit text (chars_of k.(state) es)) (put_all out t).
Proof.
  revert k text t Hbuf Hshow Hline. induction es as [|e es IH]; intros [buf st ext] text t Hbuf Hshow Hline; cbn in Hbuf; subst buf;
    [done|]. cbn [length run_shell shell_step KeyboardDriver_read_key input_buffer].
  cbn [KeyboardDriver_get_state Keyboard.state extended_scancode].
  specialize (IH (mkKeyboardDriver es st ext) (foldl edit text (chars_of st [e])) (put_all (shell_output (Some e) st) t)).
  cbn [input_buffer Keyboard.state extended_scancode] in *.
  assert (chars_of st (e :: es) = chars_of st [e] ++ chars_of st es) as Hch
    by (unfold chars_of; rewrite <- omap_app; done).
  destruct (run_shell (length es) _) as [rest kb]. rewrite Hch in *. rewrite foldl_app, put_all_app.
  apply IH; [done|by apply output_edits|set_solver].
Qed.

(** "hi", one backspace, "o" on an empty line shows "ho". *)
Definition blank_line : line := mkLine (λ _, blank) 0.
Lemma shell_line_edited_witness :
  let es := [KeyDown ScanCode.H; KeyUp ScanCode.H; KeyDown ScanCode.I; KeyDown ScanCode.Backspace; KeyDown ScanCode.O] in
  shows ["h"; "o"]%char (put_all (run_shell 5 (Some (mkKeyboardDriver es KeyboardState_default false))).1 blank_line).
Proof.
  pose proof (shell_line_edited
    [KeyDown ScanCode.H; KeyUp ScanCode.H; KeyDown ScanCode.I; KeyDown ScanCode.Backspace; KeyDown ScanCode.O]
    (mkKeyboardDriver [KeyDown ScanCode.H; KeyUp ScanCode.H; KeyDown ScanCode.I; KeyDown ScanCode.Backspace;
      KeyDown ScanCode.O] KeyboardState_default false) [] blank_line) as Hw.
  destruct Hw as [_ Hw]; [done|by split|vm_compute; set_solver|]. exact Hw.
Defined.

(** The shell does not know where its line began: backspaces go on erasing what
    was on the line before. *)
Lemma shell_erases_prompt text ch : foldl edit (text ++ [ch]) [backspace; backspace] = take (pred (length text)) text.
Proof.
  cbn. replace (pred (length (text ++ [ch]))) with (length text) by (rewrite length_app; simpl; lia).
  by rewrite take_app_length.
Qed.
