(* ===== verification/Boot.v ===== *)
(** * Boot: the memory initialisation of kernel_main (main.rs)

    [kernel_main] clears the page lists, builds the frame allocator, takes over
    the page table of the boot loader, backs the heap with frames and sizes the
    page allocator for the memory of the machine.  [boot_memory] composes the
    operations of FrameForest.v and PageAlloc.v in this order, and [memory_booted]
    shows that the state it leaves is the one their theorems start from.  The
    loading of the page table's root and [OffsetPageTable::new] are parameters. *)

From S2P Require Import Prelude X86 FrameSource Blocks FreeLists FrameAlloc FrameForest PageAlloc.

(** The arguments of the log of the memory regions are evaluated. *)
Fixpoint log_regions (memory_regions : list Entry) (physical_memory_offset : Z) : exec unit :=
  match memory_regions with
  | [] => mret ()
  | entry :: memory_regions =>
      _ ← add_chk 64 entry.(en_base) physical_memory_offset;
      base ← add_chk 64 entry.(en_base) physical_memory_offset;
      _ ← add_chk 64 base entry.(en_length);
      log_regions memory_regions physical_memory_offset
  end.

(** [filter], [map] and [sum::<u64>], which panics when the sum overflows. *)
Fixpoint usable_regions_sum (sum : Z) (memory_regions : list Entry) : exec Z :=
  match memory_regions with
  | [] => mret sum
  | entry :: memory_regions =>
      if entry.(en_usable) then
        sum ← add_chk 64 sum entry.(en_length);
        usable_regions_sum sum memory_regions
      else usable_regions_sum sum memory_regions
  end.

Section Boot.
Context `{HA : Addresses} {PT : Type} `{HM : Mapper PT}.

(** [OffsetPageTable::new], on the address of the table's root and the offset,
    and the root the boot loader left in [CR3]. *)
Context (OffsetPageTable_new : Z → Z → PT) (cr3 : Z).

Definition get_level_4_table (memory_offset : Z) : exec Z := add_chk 64 cr3 memory_offset.

(** [paging::init], on the content of [PAGE_TABLE]. *)
Definition paging_init (memory_offset : Z) (PAGE_TABLE : option PT) : exec (option PT) :=
  level_4_table ← get_level_4_table memory_offset;
  match PAGE_TABLE with
  | Some _ => Panic
  | None => mret (Some (OffsetPageTable_new level_4_table memory_offset))
  end.

(** The frame allocator as the heap and the page allocator see it. *)
Abbreviation kernel_frames hddm entries := (forest_source 26 hddm (carved hddm entries)).

Definition boot_memory (sort : list allocator_config → list allocator_config)
    (memory_regions : list Entry) (physical_memory_offset : Z) (m : dnode_mem)
    : exec (forest * PT * PageAllocator) :=
  _ ← log_regions memory_regions physical_memory_offset;
  m ← fill_page_list memory_regions physical_memory_offset m;
  '(m, FRAME_ALLOCATOR) ← init_frame_allocator sort memory_regions physical_memory_offset m None;
  frame_allocator ← unwrap FRAME_ALLOCATOR;
  memory_offset ← VirtAddr_new physical_memory_offset;
  PAGE_TABLE ← paging_init memory_offset None;
  page_table ← unwrap PAGE_TABLE;
  '(r, page_table, frames) ←
    @init_heap _ PT forest _ (kernel_frames physical_memory_offset memory_regions) page_table (m, frame_allocator);
  match r with
  | Err _ => Panic
  | Ok _ =>
      sum ← usable_regions_sum 0 memory_regions;
      PAGE_ALLOCATOR ← init_page_allocator sum None;
      page_allocator ← unwrap PAGE_ALLOCATOR;
      mret (frames, page_table, page_allocator)
  end.

(** ** What boot leaves behind *)

Definition usable_bytes (entries : list Entry) : Z :=
  foldr (λ e sum, if e.(en_usable) then e.(en_length) + sum else sum) 0 entries.

Definition entry_fits (hddm : Z) (e : Entry) : Prop :=
  0 ≤ e.(en_base) ∧ 0 ≤ e.(en_length) ∧ hddm + e.(en_base) + e.(en_length) < 2 ^ 64.

Lemma log_regions_ok hddm entries : 0 ≤ hddm → Forall (entry_fits hddm) entries →
  log_regions entries hddm = Ret ().
Proof.
  intros Hh. induction 1 as [|e entries (? & ? & ?) _ IH]; [done|]. cbn [log_regions].
  by do 2 run.
Qed.

Lemma usable_bytes_pos hddm entries : Forall (entry_fits hddm) entries → 0 ≤ usable_bytes entries.
Proof.
  unfold usable_bytes. induction 1 as [|e entries (? & ? & ?) _ IH]; [done|]. simpl.
  destruct (en_usable e); lia.
Qed.

Lemma usable_regions_sum_ok hddm entries sum : Forall (entry_fits hddm) entries →
  0 ≤ sum → sum + usable_bytes entries < 2 ^ 64 →
  usable_regions_sum sum entries = Ret (sum + usable_bytes entries).
Proof.
  intros Hall. revert sum. induction Hall as [|e entries (? & ? & ?) Hall IH]; intros sum Hsum Hlt.
  { unfold usable_bytes. simpl. by rewrite Z.add_0_r. }
  unfold usable_bytes in *. cbn [usable_regions_sum foldr] in *.
  destruct (en_usable e); [|by rewrite IH by lia].
  pose proof (usable_bytes_pos hddm entries Hall). unfold usable_bytes in *.
  run. rewrite IH by lia. f_equal. lia.
Qed.

(** A frame of a usable region, past the region's page list. *)
Definition usable_frame (entries : list Entry) (p : Z) : Prop :=
  (4096 | p) ∧ ∃ e, e ∈ entries ∧ e.(en_usable) = true ∧
    e.(en_base) + 32 * region_frames e ≤ p ∧ p + 4096 ≤ e.(en_base) + e.(en_length).

Lemma frames_usable hddm entries f used : hddm_ok hddm →
  @fs_inv forest (kernel_frames hddm entries) f used → Forall (usable_frame entries) used.
Proof.
  intros Hh [others Hinv]. apply Forall_forall. intros p Hp.
  assert ((p + hddm, 1) ∈ ((λ q, (q + hddm, 1)) <$> used) ++ others) as Hin.
  { apply elem_of_app. left. apply list_elem_of_fmap. by exists p. }
  destruct (forest_inv_where 26 hddm _ f _ _ Hinv Hin) as (sl & _ & (e & He & Hu & Hlo & Hhi) & H1 & H2 & H3 & _).
  cbn [fst snd] in *. destruct Hh as [_ Hal]. split.
  - replace p with (p + hddm - hddm) by lia. by apply Z.divide_sub_r.
  - exists e. split_and!; [done..|lia|lia].
Qed.

Context `{!AddressesOk, !MapperOk PT}.

Lemma kernel_frames_ok hddm entries : @FrameSourceOk forest (kernel_frames hddm entries).
Proof. apply forest_source_ok, carved_used. Qed.

(** C4: the memory initialisation of [kernel_main], from the memory map to the three
    allocators.  The conditions are those of [forest_setup] (at most 100 entries;
    usable regions that are disjoint, page aligned, shorter than 2^38 bytes, in
    reach of the direct map and cut into at most one allocator each; an untagged
    node after each page list), that all entries are in reach of the direct map,
    that there are at most 2^46 bytes of usable memory, and that the root page
    table is in reach of the direct map.  Under them the initialisation panics
    exactly when the heap cannot be mapped.  Otherwise every page of the heap is
    mapped writable to a frame of its own, which lies in a usable region and not
    on its page list; no other mapping changes; and frame and page allocator are
    in the state that the theorems on page ranges start from, with a region as
    large as the usable memory. *)
Theorem memory_booted sort hddm entries m :
  forest_setup sort hddm entries m → Forall (entry_fits hddm) entries →
  usable_bytes entries ≤ 2 ^ 46 → 0 ≤ cr3 < 2 ^ 64 - hddm →
  ∃ f0 r pt f, booted sort entries hddm m = Ret (f0, []) ∧
    @init_heap _ PT forest _ (kernel_frames hddm entries) (OffsetPageTable_new (cr3 + hddm) hddm) f0
      = Ret (r, pt, f) ∧
    match r with
    | Err _ => boot_memory sort entries hddm m = Panic
    | Ok _ => ∃ pa frames, boot_memory sort entries hddm m = Ret (f, pt, pa) ∧
        backed pt [PRESENT; WRITABLE] heap_pages frames ∧ NoDup frames ∧ Forall (usable_frame entries) frames ∧
        (∀ q, q ∉ heap_pages → translate pt q = translate (OffsetPageTable_new (cr3 + hddm) hddm) q) ∧
        PAGEALLOC_START + usable_bytes entries ≤ pa.(pa_heap_end) ∧
        @pages_reachable _ PT forest _ (kernel_frames hddm entries) (usable_bytes entries) (pa, pt, f, [])
    end.
Proof.
  intros Hs Hall Hbytes Hcr3. pose proof Hs as (Hmap & Hg & Hsort). pose proof Hmap as (Hh & _).
  assert (2 ^ 64 - 2 ^ 47 ≤ hddm < 2 ^ 64) as Hlo by (destruct Hh; lia).
  destruct (forest_boot_ok sort hddm entries m Hmap Hg Hsort) as (m1 & m2 & self & Hfill & Hinit & Hinv).
  pose proof (kernel_frames_ok hddm entries) as Hsrc.
  destruct (@init_heap_ok _ _ PT forest _ _ (kernel_frames hddm entries) Hsrc (OffsetPageTable_new (cr3 + hddm) hddm) (m2, self) [])
    as (r & pt & f & Hheap & Hok); [by exists []|].
  exists (m2, self), r, pt, f. split; [by unfold booted; rewrite Hfill; cbn [mbind exec_bind]; rewrite Hinit|]. split; [done|].
  pose proof (usable_bytes_pos hddm entries Hall) as Hpos.
  assert (boot_memory sort entries hddm m =
    match r with
    | Err _ => Panic
    | Ok _ => PAGE_ALLOCATOR ← init_page_allocator (usable_bytes entries) None;
        page_allocator ← unwrap PAGE_ALLOCATOR; mret (f, pt, page_allocator)
    end) as Hrun.
  { unfold boot_memory. rewrite (log_regions_ok hddm), Hfill by (done || lia). cbn [mbind exec_bind].
    rewrite Hinit. cbn [mbind exec_bind unwrap]. rewrite VirtAddr_new_ok by (right; lia). cbn [mbind exec_bind].
    unfold paging_init, get_level_4_table. run. unfold mret, exec_ret. cbn [unwrap mbind exec_bind]. rewrite Hheap.
    cbn [mbind exec_bind]. destruct r; [|done]. by rewrite (usable_regions_sum_ok hddm) by (done || lia). }
  destruct r as [[]|e]; [|done].
  destruct (Hok eq_refl) as (frames & more & Hfs & Hb & Hother).
  destruct (init_page_allocator_ok (usable_bytes entries)) as (n & Hn & Hle & _ & Hpa); [lia|].
  exists (page_region n), frames. rewrite Hpa in Hrun.
  pose proof (frames_usable _ _ _ _ Hh Hfs) as Hu. rewrite app_nil_r in Hfs, Hu.
  split_and!; [done|done| | |done| |].
  - apply (@fs_inv_NoDup _ _ Hsrc) in Hfs. by apply NoDup_app in Hfs as (_ & _ & ?).
  - by apply Forall_app in Hu as [_ ?].
  - simpl. lia.
  - by exists (page_region n), pt, f, (more ++ frames).
Qed.

End Boot.

(** ** A machine with memory for the heap and no more

    A region of 4129 frames: 33 of page list and one allocator of 4096, as many
    as the heap has pages. *)

Section Runs.
#[local] Existing Instances model_addresses model_addresses_ok model_mapper model_mapper_ok.
Abbreviation mpt := (gmap Z (Z * PageTableFlags)).

(** With as many frames left as pages to map, the loop succeeds. *)
Lemma map_each_succeeds hddm Q (HQ : ∀ sl u, Q sl → Q (with_used sl u)) flags pages (pt : mpt) f used :
  forest_inv 26 hddm Q (f, used) → NoDup pages → (∀ q, q ∈ pages → pt !! q = None) →
  block_sum used + Z.of_nat (length pages) ≤ pages_total f.2 →
  ∃ pt' f', @map_each mpt forest _ (forest_source 26 hddm Q) _ mret FrameAllocationFailed (λ e, e) flags pages pt f
    = Ret (Ok (), pt', f').
Proof.
  revert pt f used. induction pages as [|page pages IH]; intros pt f used Hinv Hnd Hnone Hroom; [by exists pt, f|].
  apply NoDup_cons in Hnd as [Hpage Hnd]. cbn [map_each length] in *.
  destruct (allocate_frame_ok 26 hddm Q HQ f used Hinv) as (r & f1 & Ha & Htotal & Hr).
  change (@fs_allocate_frame forest (forest_source 26 hddm Q)) with (@allocate_frame model_addresses).
  rewrite Ha. cbn [mbind exec_bind]. destruct r as [p|]; [|destruct Hr; lia]. destruct Hr as [Hinv1 _].
  unfold mret, exec_ret. cbn [mbind exec_bind map_to model_mapper]. rewrite Hnone by left.
  cbn [mbind exec_bind]. eapply IH; [exact Hinv1|done| |].
  - intros q Hq. rewrite lookup_insert_ne by (by intros ->). apply Hnone. by right.
  - rewrite Htotal. cbn [block_sum foldr snd]. fold (block_sum used). lia.
Qed.

Definition boot_map : list Entry := one_region (4129 * 4096).

Lemma boot_map_setup : forest_setup (λ l, l) HHDM boot_map blank.
Proof. apply one_region_setup; [lia|]. intros _. by vm_compute. Qed.

Lemma boot_map_pages :
  match booted (λ l, l) boot_map HHDM blank with Ret (f, _) => pages_total f.2 | _ => 0 end = 4096.
Proof. vm_compute. reflexivity. Qed.

Lemma boot_map_heap f : booted (λ l, l) boot_map HHDM blank = Ret (f, []) →
  ∃ pt' f', @init_heap _ mpt forest _ (forest_source 26 HHDM (carved HHDM boot_map)) ∅ f = Ret (Ok (), pt', f').
Proof.
  intros Hb. pose proof boot_map_pages as Hpages. rewrite Hb in Hpages. cbn [fst snd] in Hpages.
  assert (forest_inv 26 HHDM (carved HHDM boot_map) (f, [])) as Hinv.
  { apply (forest_reachable_inv (λ l, l) HHDM boot_map blank); [apply boot_map_setup|].
    apply (booted_replay _ _ _ _ []). by rewrite Hb. }
  rewrite init_heap_pages. apply (map_each_succeeds _ _ (carved_used HHDM boot_map) _ _ _ _ [] Hinv).
  - apply NoDup_fmap_2; [intros i j; lia|apply NoDup_seqZ].
  - done.
  - rewrite Hpages. unfold heap_pages. rewrite length_fmap, length_seqZ. simpl. lia.
Qed.

Lemma memory_booted_witness :
  let new := (λ _ _, ∅) : Z → Z → mpt in
  ∃ f pt pa frames, boot_memory new 0x1000 (λ l, l) boot_map HHDM blank = Ret (f, pt, pa) ∧
    backed pt [PRESENT; WRITABLE] heap_pages frames ∧ NoDup frames ∧ Forall (usable_frame boot_map) frames ∧
    PAGEALLOC_START + usable_bytes boot_map ≤ pa.(pa_heap_end).
Proof.
  intros new. destruct (memory_booted new 0x1000 (λ l, l) HHDM boot_map blank)
    as (f0 & r & pt & f & Hb & Hheap & Hr).
  - apply boot_map_setup.
  - repeat constructor; simpl; unfold HHDM; lia.
  - by vm_compute.
  - unfold HHDM. lia.
  - destruct (boot_map_heap f0 Hb) as (pt' & f' & Hheap').
    assert (r = Ok ()) as -> by (unfold new in Hheap; congruence).
    destruct Hr as (pa & frames & Hrun & Hb' & Hnd & Hu & _ & Hend & _). exists f, pt, pa, frames.
    exact (conj Hrun (conj Hb' (conj Hnd (conj Hu Hend)))).
Defined.

End Runs.
